(* ===== verification/_CoqProject ===== *)
-Q . S2P
Prelude.v
RStr.v
Net.v
Rule.v
Config.v
AppConfig.v
GeoIp.v
Context.v
Engine.v
DomainCache.v
Route.v
Codec.v
Server.v
Conn.v
Client.v
Link.v
Tunnel.v
ClientTasks.v
ServerTasks.v
Endpoint.v
Run.v
Proxy.v
Icmp.v
Session.v
ProxyTool.v
Build.v
UnitTests.v
