(* ===== verification/Prelude.v ===== *)
(** * easynet: a verification development

    easynet is a VPN written in Rust.  A client opens a TUN interface, reads IP
    packets from it, decides by a rule list whether a packet goes through the
    tunnel, directly to the network through a user-space transparent proxy, or
    nowhere, and exchanges packets with a server over TCP, UDP or WebSocket.  The
    server gives each client a session with a virtual address and routes the
    packets of its own TUN interface to the clients by that address.

    This library translates the program's own logic into Rocq definitions, one
    file per component, and proves what makes the components correct.  Source
    paths below are relative to [src/src].

    ** Files, in dependency order

    - [Prelude]: this file; the [result] type with its monad, integer casts, the
      arithmetic tactic [div_lia], the hint database [wf], lemmas on results,
      lists and transition systems ([rtc_invariant]).
    - [RStr]: Rust strings as lists of code points, with the operations of [str]
      the program uses; [Net]: IP and socket addresses, their text forms.
    - [Rule] ([rules/action.rs], [rules/rule.rs]): rules and their compact text.
    - [Config] ([config.rs], rules part): validation, port ranges, lists.
    - [AppConfig] ([config.rs]): the configuration records, files.
    - [GeoIp] ([rules/geoip.rs]), [Context] ([rules/context.rs]), [Engine]
      ([rules/matcher.rs], [rules/engine.rs]): matching packets against rules.
    - [DomainCache] ([rules/domain_cache.rs]): names learnt from DNS answers.
    - [Route] ([common.rs]): the TUN loop that ties the previous parts together.
    - [Codec] ([codec/codec.rs], [proto/message.proto]): messages and framing.
    - [Server] ([server.rs]): the session table and the message handlers.
    - [Conn] ([transport/tcp.rs], [ws.rs], [udp.rs]): the server's connection
      loops and the system of all connections.
    - [Client] ([client.rs], [transport/mod.rs], [main.rs]): the client, and the
      client and server handshake together.
    - [Link] ([transport/transport.rs]), [Tunnel]: what a transport promises, and
      the path of a packet from one device to the other.
    - [ClientTasks] ([transport/mod.rs], [common.rs], [transparent_proxy/mod.rs]):
      the client's two tasks, the direct proxy's threads and the four bounded
      channels between them.
    - [ServerTasks] ([server.rs], [transport/tcp.rs], [ws.rs]): the dispatcher, the
      connection tasks and the session lock.
    - [Endpoint] ([transport/tcp.rs], [udp.rs], [ws.rs]): opening transports, TLS.
    - [Run] (the [run_*] functions, [main.rs]): starting and supervising tasks.
    - [Proxy] ([transparent_proxy/filter.rs], [mod.rs], [udp_proxy.rs],
      [tcp_proxy.rs]), [Icmp] ([transparent_proxy/icmp_proxy.rs]): the direct path,
      its session tables and the translation of packets.
    - [Session] (the same files): one proxy session from its start to its end.
    - [ProxyTool] ([transparent_proxy/mod.rs], [bin/transparent-proxy.rs]): the
      interface of the stack, supervision, and the stand-alone tool.
    - [Build] ([build.rs], beside [src/src]): the build script.
    - [UnitTests]: the unit tests of the rules library, run on the model.

    ** How the code is modelled

    A Rust struct is a [Record], an enum an [Inductive], a function a
    [Definition] or [Fixpoint] of the same name (a method is prefixed with its
    type where the name alone is not unique, as in [RulesEngine_from_config]).
    Machine integers are [Z] with their wrap-around written out; [HashMap] is
    [gmap]; [Result] is [result], with the error texts of the source.  Code that
    mutates shared state takes and returns it.  An [async] loop around [select!]
    is a function on the list of events it receives; an event carries what the
    environment answered (the clock, the outcome of a send or write).  Where a
    lock is released in the middle of a handler ([handle_handshake], the proxies'
    inbound loops), the two halves are separate steps of a transition system, and
    the theorems hold for every interleaving: [wstep] in [Server], [sstep] in
    [Conn], [pstep] in [Proxy].  In [pstep] a failed send and the removal that
    follows it, and the removal of a key and the end of its task, are separate
    steps too.  The connection loop of [Conn] is proved to be a run of [sstep]
    ([connection_refines_system]).  Where a task waits for room in a channel or for a
    lock, the wait is a state of its own: [istep], [estep] and [xstep] in
    [ClientTasks], [tstep] in [ServerTasks], with the capacity 4096 of the source.  A function
    that waits for the first of several tasks takes which one ended and how.

    Code outside the repository is a type class whose laws state the documented
    behaviour that is relied on: [UnicodeLower] (non-ASCII case mapping),
    [CidrLib] (ipnetwork), [Yaml] (serde_yaml), [GeoDb] (maxminddb),
    [PacketSlicer] (etherparse), [DnsLib] (hickory-proto), [Prost] (the generated
    protobuf code), [HashOrder] (the unspecified order of [HashMap] iteration),
    [IcmpWire] and [CidrNet] (smoltcp), [TlsLib] (native-tls), [UrlLib] (url).  The
    promise of one component to another is a class too: [MessageLink], discharged
    by the TCP and the WebSocket transport and used by [Tunnel].  Each class has a concrete
    instance in the file that declares or first uses it, and the witnesses of the
    properties evaluate the definitions with these instances.

    ** What is proved

    - Tunnel: for any number of clients and any transport that keeps its promise,
      what the server's device is written is an interleaving of prefixes of what
      the clients' rules sent to the tunnel, and what a client's device is written
      are, in order and once each, packets whose destination field is the virtual
      address of its session, without gaps while no two sessions share an address
      ([tunnel_up], [tunnel_down]).
    - Tasks: the client's tasks and the proxy's threads deliver everything in
      finitely many steps unless the tasks wait for each other; neither task can
      move exactly when the transport task waits for the TUN task and that one for
      the transport task or the proxy, and only the first is for good
      ([client_drains], [client_deadlock]); the server can lose its session lock
      for good ([server_lock_deadlock]).
    - Rules: [parse_compact] accepts exactly a declarative grammar, printing and
      parsing are inverse, validation accepts exactly the valid lists and reports
      the first invalid rule, and an engine built from a configuration returns
      the action of the first rule whose declared meaning covers the packet.
    - Names: the domain cache refines a store that never forgets; observed names
      are found until their TTL elapses, and reach the domain rules.
    - TUN loop: routing follows the rules at every point of a run; packets are
      relayed unmodified, in order and at most once.
    - Codec: any sequence of messages survives encoding, arbitrary division into
      reads and decoding; the decoder's invariant; calling [decode] until it asks
      for more ends after a number of calls bounded by the bytes it was given
      ([decode_terminates]).  [drain] is that loop, as tokio-util runs it, with fuel
      [length buf + 2], shown sufficient by its recursive equation.
    - Server: uniqueness of virtual addresses (up to the 256 the code can tell
      apart) and delivery to the owning session under every interleaving; the
      effect of handshakes, disconnects and clean-up; every session belongs to a
      live connection when clients complete one handshake at a time; a server
      of type ws or wss serves plain WebSocket or TLS exactly as configured, up to
      the spelling of the type ([ws_server_start]).
    - Client: the handshake succeeds iff the tokens agree and leaves client and
      server with the same session; the interface parameters; the exact outcome of
      opening a WebSocket; when the retry loop stops.
    - Proxy: one running session per flow, order within a flow, transparency of a
      UDP session, exactness of the three active-session counters under any
      interleaving, ICMP identifier translation and its exact inverse, the start of
      the tool.
    - Build: the lock-file scanner finds the version Cargo wrote.  As a check of the
      model, [UnitTests] runs the repository's unit tests on it.
    - Some theorems record what the code does where that is not what its
      documentation or purpose suggests: handshakes without a token
      ([missing_token_accepted]), address reuse ([virtual_ip_collision]), the loss
      of the address on disconnection ([reconnect_after_disconnect]), deadlocks
      ([client_deadlock], [server_lock_deadlock]), TLS that verifies nothing
      ([ws_connect_outcome]), success reported after failure
      ([server_end_is_success], [client_runs_until_proxy_ends]), expiry of
      active sessions ([active_session_expires]), sessions left behind
      ([repeated_handshake_leaks]), TLS switched off by the spelling of a
      configuration value ([ws_server_start]).

    ** What is not modelled

    The inside of the operating system's sockets and devices, of TLS and of the
    user-space TCP/IP stack (smoltcp): their answers are arguments.  The bytes that
    [copy_bidirectional] relays for a TCP session; how [UdpFramed] keeps the codec's
    state across datagrams; the scheduler of [tokio] (every interleaving is
    allowed); logging, the five-second timer of the statistics, argument parsing
    (clap), the serde glue of records.  [rules/lib.rs] has only re-exports. *)

From stdpp Require Export prelude gmap strings list list_numbers.
From Stdlib Require Export ZArith.

#[global] Open Scope Z_scope.

Declare Scope rust_scope.
Delimit Scope rust_scope with rust.
#[global] Open Scope rust_scope.

(** Integer casts: [as u8] and so on keep the low bits. *)
Notation "x 'as_u8'" := (x mod 256) (at level 1, left associativity, only parsing) : rust_scope.
Notation "x 'as_u16'" := (x mod 2 ^ 16) (at level 1, left associativity, only parsing) : rust_scope.
Notation "x 'as_u32'" := (x mod 2 ^ 32) (at level 1, left associativity, only parsing) : rust_scope.
Notation "x 'as_u64'" := (x mod 2 ^ 64) (at level 1, left associativity, only parsing) : rust_scope.

(** The automation of the components' well-formedness invariants. *)
Create HintDb wf.

(** Buffers of [u8]. *)
Abbreviation bytes := (list Z).

(** ** [Result] *)

Inductive result (E A : Type) : Type :=
| Ok (a : A)
| Err (e : E).
Arguments Ok {E A} a.
Arguments Err {E A} e.

#[global] Instance result_ret {E} : MRet (result E) := fun A a => Ok a.
#[global] Instance result_bind {E} : MBind (result E) :=
  fun A B k r => match r with Ok a => k a | Err e => Err e end.
#[global] Instance result_fmap {E} : FMap (result E) :=
  fun A B f r => match r with Ok a => Ok (f a) | Err e => Err e end.

(** [Result::map_err], [Result::ok], [Option::ok_or]. *)
Definition map_err {E F A} (f : E -> F) (r : result E A) : result F A :=
  match r with Ok a => Ok a | Err e => Err (f e) end.
Definition result_ok {E A} (r : result E A) : option A :=
  match r with Ok a => Some a | Err _ => None end.
Definition ok_or {E A} (o : option A) (e : E) : result E A :=
  match o with Some a => Ok a | None => Err e end.
Definition is_ok {E A} (r : result E A) : bool :=
  match r with Ok _ => true | Err _ => false end.
Definition is_some {A} (o : option A) : bool :=
  match o with Some _ => true | None => false end.

(** Linear arithmetic with [/] and [mod] by constants. *)
Ltac div_lia :=
  repeat match goal with
    | |- context [2 ^ ?k] => let v := eval vm_compute in (2 ^ k) in
        lazymatch v with Zpos _ => change (2 ^ k) with v end
    | H : context [2 ^ ?k] |- _ => let v := eval vm_compute in (2 ^ k) in
        lazymatch v with Zpos _ => change (2 ^ k) with v in H end
    end;
  Z.to_euclidean_division_equations; lia.

(** ** Lemmas on results *)

Lemma result_bind_ok {E A B} (r : result E A) (k : A -> result E B) b :
  r ≫= k = Ok b ↔ ∃ a, r = Ok a ∧ k a = Ok b.
Proof. destruct r; simpl; naive_solver. Qed.

Lemma ok_or_ok {E A} (o : option A) (e : E) a : ok_or o e = Ok a ↔ o = Some a.
Proof. destruct o; simpl; naive_solver. Qed.

Lemma unit_ok_bind {E B} (r : result E unit) (k : unit -> result E B) b :
  r ≫= k = Ok b ↔ r = Ok tt ∧ k tt = Ok b.
Proof.
  rewrite result_bind_ok. split; [by intros ([] & ? & ?)|]. intros [? ?]. by exists tt.
Qed.

(** ** Lemmas on lists *)

Lemma omap_cons_list {A B} (f : A -> option B) x l :
  omap f (x :: l) = option_list (f x) ++ omap f l.
Proof. simpl. by destruct (f x). Qed.

Lemma Forall_sublist {A} (P : A -> Prop) (l1 l2 : list A) :
  l1 `sublist_of` l2 → Forall P l2 → Forall P l1.
Proof. rewrite !Forall_forall. eauto using elem_of_sublist. Qed.

Lemma prefix_sublist {A} (l1 l2 : list A) : l1 `prefix_of` l2 → l1 `sublist_of` l2.
Proof. intros [k ->]. by apply sublist_inserts_r. Qed.

Lemma omap_prefix {A B} (f : A -> option B) (l1 l2 : list A) :
  l1 `prefix_of` l2 → omap f l1 `prefix_of` omap f l2.
Proof. intros [k ->]. rewrite omap_app. by exists (omap f k). Qed.

Lemma omap_omap {A B C} (f : A -> option B) (g : B -> option C) (l : list A) :
  omap g (omap f l) = omap (λ x, f x ≫= g) l.
Proof.
  induction l as [|x l IH]; [done|]. rewrite !omap_cons_list, omap_app, IH.
  destruct (f x) as [y|]; simpl; [|done]. by destruct (g y).
Qed.

(** ** Invariants of transition systems *)

Lemma rtc_invariant {A} (R : A -> A -> Prop) (P : A -> Prop) x y :
  (∀ a b, R a b → P a → P b) → rtc R x y → P x → P y.
Proof. intros Hstep Hr. induction Hr; eauto. Qed.
