(* ===== verification/RStr.v ===== *)
(** * RStr: the parts of Rust's [str] and [char] the sources use

    A Rust string is modelled as the list of its Unicode scalar values, so
    the operations that work on characters ([trim], [chars().any], [split],
    [to_ascii_lowercase], ...) are exact.  The only piece left open is the
    Unicode case table behind [str::to_lowercase] (it changes with the Unicode
    version of the toolchain): it is the class [UnicodeLower]. *)

From S2P Require Import Prelude.

Abbreviation rchar := Z (only parsing).
Abbreviation rstr := (list Z).

(** ** Literals *)

Fixpoint lit (s : string) : rstr :=
  match s with
  | EmptyString => []
  | String c t => Z.of_N (Ascii.N_of_ascii c) :: lit t
  end.

(** [str::len()] in bytes is never used by the modelled code; [is_empty] is. *)
Definition is_empty (s : rstr) : bool :=
  match s with [] => true | _ => false end.

(** ** ASCII case *)

Definition ascii_lower (c : rchar) : rchar :=
  if (65 <=? c) && (c <=? 90) then c + 32 else c.
Definition ascii_upper (c : rchar) : rchar :=
  if (97 <=? c) && (c <=? 122) then c - 32 else c.
Definition to_ascii_lowercase (s : rstr) : rstr := map ascii_lower s.
Definition to_ascii_uppercase (s : rstr) : rstr := map ascii_upper s.
Definition eq_ignore_ascii_case (s t : rstr) : bool :=
  bool_decide (to_ascii_lowercase s = to_ascii_lowercase t).

(** ** Unicode [to_lowercase]

    [str::to_lowercase] maps ASCII through [to_ascii_lowercase], the capital
    sigma by its context, and every other character through the Unicode table
    [lower_table].  What the sources rely on is that only the Kelvin sign
    (U+212A) leaves the non-ASCII range completely. *)
Class UnicodeLower := {
  lower_table : rchar -> list rchar;
  is_final_sigma : rstr -> rstr -> bool;
  lower_table_kelvin : lower_table 0x212A = [107];
  lower_table_nonascii c :
    128 ≤ c → c ≠ 0x212A → ∃ d, d ∈ lower_table c ∧ 128 ≤ d
}.

Definition lower_at `{UnicodeLower} (pre : rstr) (c : rchar) (post : rstr) : rstr :=
  if c <? 128 then [ascii_lower c]
  else if c =? 0x3A3 then [if is_final_sigma pre post then 0x3C2 else 0x3C3]
  else lower_table c.

Fixpoint lower_from `{UnicodeLower} (pre s : rstr) : rstr :=
  match s with
  | [] => []
  | c :: t => lower_at pre c t ++ lower_from (c :: pre) t
  end.

Definition to_lowercase `{UnicodeLower} (s : rstr) : rstr := lower_from [] s.

(** ** White space and trimming *)

(** [char::is_whitespace]: the Unicode [White_Space] property. *)
Definition is_whitespace (c : rchar) : bool :=
  ((9 <=? c) && (c <=? 13)) || (c =? 32) || (c =? 0x85) || (c =? 0xA0)
  || (c =? 0x1680) || ((0x2000 <=? c) && (c <=? 0x200A)) || (c =? 0x2028)
  || (c =? 0x2029) || (c =? 0x202F) || (c =? 0x205F) || (c =? 0x3000).

Fixpoint drop_while (p : rchar -> bool) (s : rstr) : rstr :=
  match s with
  | [] => []
  | c :: t => if p c then drop_while p t else s
  end.

Definition drop_while_end (p : rchar -> bool) (s : rstr) : rstr :=
  rev (drop_while p (rev s)).

Definition trim (s : rstr) : rstr :=
  drop_while_end is_whitespace (drop_while is_whitespace s).
Definition trim_end_matches (c : rchar) (s : rstr) : rstr :=
  drop_while_end (Z.eqb c) s.

(** ** Splitting and searching *)

(** [str::split(char)]: always at least one piece. *)
Fixpoint str_split (sep : rchar) (s : rstr) : list rstr :=
  match s with
  | [] => [[]]
  | c :: t =>
      if c =? sep then [] :: str_split sep t
      else match str_split sep t with
           | [] => [[c]]
           | p :: ps => (c :: p) :: ps
           end
  end.

Definition contains_char (c : rchar) (s : rstr) : bool := existsb (Z.eqb c) s.

Fixpoint starts_with (p s : rstr) : bool :=
  match p, s with
  | [], _ => true
  | x :: p', y :: s' => (x =? y) && starts_with p' s'
  | _ :: _, [] => false
  end.

Fixpoint contains (p s : rstr) : bool :=
  starts_with p s || match s with [] => false | _ :: t => contains p t end.

Definition ends_with (p s : rstr) : bool := starts_with (rev p) (rev s).

(** ** Decimal numbers *)

Definition digit_val (c : rchar) : option Z :=
  if (48 <=? c) && (c <=? 57) then Some (c - 48) else None.

Fixpoint parse_digits (max acc : Z) (s : rstr) : option Z :=
  match s with
  | [] => Some acc
  | c :: t =>
      match digit_val c with
      | Some d => if acc * 10 + d <=? max then parse_digits max (acc * 10 + d) t else None
      | None => None
      end
  end.

(** [<unsigned>::from_str]: an optional [+], then one or more digits, with the
    overflow checks of [from_str_radix]. *)
Definition parse_uint (max : Z) (s : rstr) : option Z :=
  match s with
  | [] => None
  | c :: t =>
      if c =? 43 then (if is_empty t then None else parse_digits max 0 t)
      else parse_digits max 0 s
  end.

Definition u8_max : Z := 255.
Definition u16_max : Z := 65535.
Definition parse_u16 : rstr -> option Z := parse_uint u16_max.

(** [Display] of an unsigned integer. *)
Fixpoint show_fuel (fuel : nat) (n : Z) (acc : rstr) : rstr :=
  match fuel with
  | O => acc
  | S f =>
      let acc' := (48 + n mod 10) :: acc in
      if n <? 10 then acc' else show_fuel f (n / 10) acc'
  end.
Definition show_uint (n : Z) : rstr := show_fuel (S (Z.to_nat (Z.log2 n))) n [].

(** * Lemmas *)


(** ** Membership is preserved by the trimming operations *)

Lemma elem_of_rev (s : rstr) c : c ∈ rev s ↔ c ∈ s.
Proof. rewrite !list_elem_of_In. symmetry. apply in_rev. Qed.

Lemma drop_while_suffix p s : drop_while p s `suffix_of` s.
Proof.
  induction s as [|c t IH]; simpl; [done|].
  destruct (p c); [|done]. by apply suffix_cons_r.
Qed.

Lemma drop_while_elem p s c : c ∈ drop_while p s → c ∈ s.
Proof. destruct (drop_while_suffix p s) as [k Hk]. rewrite Hk at 2. set_solver. Qed.

Lemma drop_while_end_elem p s c : c ∈ drop_while_end p s → c ∈ s.
Proof.
  unfold drop_while_end. rewrite elem_of_rev.
  intros H%drop_while_elem. by apply elem_of_rev.
Qed.

Lemma trim_elem s c : c ∈ trim s → c ∈ s.
Proof. intros H%drop_while_end_elem. by apply drop_while_elem in H. Qed.

Lemma trim_end_matches_elem d s c : c ∈ trim_end_matches d s → c ∈ s.
Proof. apply drop_while_end_elem. Qed.

(** ** Trimming is idempotent *)

Lemma drop_while_head p s c t : drop_while p s = c :: t → p c = false.
Proof.
  induction s as [|d s IH]; simpl; [done|].
  destruct (p d) eqn:E; [done|]. by intros [= <- <-].
Qed.

Lemma drop_while_id p s : (∀ c t, s = c :: t → p c = false) → drop_while p s = s.
Proof. destruct s as [|c t]; simpl; [done|]. intros H. by rewrite (H c t). Qed.

Lemma drop_while_idemp p s : drop_while p (drop_while p s) = drop_while p s.
Proof. apply drop_while_id. intros c t. apply drop_while_head. Qed.

Lemma drop_while_end_idemp p s :
  drop_while_end p (drop_while_end p s) = drop_while_end p s.
Proof. unfold drop_while_end. by rewrite rev_involutive, drop_while_idemp. Qed.

Lemma drop_while_end_id p s :
  (∀ c t, s = t ++ [c] → p c = false) → drop_while_end p s = s.
Proof.
  intros H. unfold drop_while_end.
  rewrite drop_while_id; [apply rev_involutive|].
  intros c t E. apply (H c (rev t)).
  by rewrite <- (rev_involutive s), E.
Qed.

Lemma drop_while_end_last p s c t : drop_while_end p s = t ++ [c] → p c = false.
Proof.
  unfold drop_while_end. intros E.
  apply (drop_while_head p (rev s) c (rev t)).
  rewrite <- (rev_involutive (drop_while p (rev s))), E. by rewrite rev_app_distr.
Qed.

Lemma drop_while_end_prefix p s : drop_while_end p s `prefix_of` s.
Proof.
  unfold drop_while_end. destruct (drop_while_suffix p (rev s)) as [k Hk].
  exists (rev k). rewrite <- rev_app_distr, <- Hk. by rewrite rev_involutive.
Qed.

Lemma trim_idemp s : trim (trim s) = trim s.
Proof.
  unfold trim at 1. rewrite (drop_while_id _ (trim s)).
  - apply drop_while_end_idemp.
  - intros c t E. destruct (drop_while_end_prefix is_whitespace (drop_while is_whitespace s)) as [k Hk].
    unfold trim in E. rewrite E in Hk. simpl in Hk. by eapply drop_while_head.
Qed.

Lemma trim_no_ws s : (∀ c, c ∈ s → is_whitespace c = false) → trim s = s.
Proof.
  intros H. unfold trim. rewrite drop_while_id.
  - apply drop_while_end_id. intros c t ->. apply H. set_solver.
  - intros c t ->. apply H. set_solver.
Qed.

Lemma existsb_false_elem (p : rchar -> bool) (s : rstr) :
  existsb p s = false ↔ ∀ c, c ∈ s → p c = false.
Proof.
  induction s as [|d s IH]; simpl.
  - split; [intros _ c Hc; set_solver|done].
  - rewrite orb_false_iff, IH. split.
    + intros [Hd Hs] c [->|Hc]%elem_of_cons; auto.
    + intros H. split; [apply H; set_solver|]. intros c Hc. apply H. set_solver.
Qed.

Lemma contains_char_true c s : contains_char c s = true ↔ c ∈ s.
Proof.
  unfold contains_char. rewrite existsb_exists. setoid_rewrite Z.eqb_eq.
  setoid_rewrite <- list_elem_of_In. naive_solver.
Qed.

Lemma contains_char_false c s : contains_char c s = false ↔ c ∉ s.
Proof. rewrite <- contains_char_true. by destruct (contains_char c s). Qed.

(** ** Splitting *)

Lemma str_split_cons sep s : ∃ p ps, str_split sep s = p :: ps.
Proof.
  destruct s as [|c t]; simpl; [eauto|].
  destruct (c =? sep); [eauto|]. destruct (str_split sep t); eauto.
Qed.

Lemma str_split_none sep s : sep ∉ s → str_split sep s = [s].
Proof.
  induction s as [|c t IH]; simpl; [done|].
  intros [Hc Ht]%not_elem_of_cons.
  destruct (c =? sep) eqn:E; [apply Z.eqb_eq in E; congruence|]. by rewrite IH.
Qed.

Lemma str_split_app sep a b :
  sep ∉ a → str_split sep (a ++ sep :: b) = a :: str_split sep b.
Proof.
  induction a as [|c t IH]; simpl; [by rewrite Z.eqb_refl|].
  intros [Hc Ht]%not_elem_of_cons.
  destruct (c =? sep) eqn:E; [apply Z.eqb_eq in E; congruence|]. by rewrite IH.
Qed.

Lemma str_split_elem sep s p : p ∈ str_split sep s → sep ∉ p.
Proof.
  revert p. induction s as [|c t IH]; simpl.
  - intros p ->%list_elem_of_singleton. set_solver.
  - destruct (c =? sep) eqn:E.
    + intros p [->|Hp]%elem_of_cons; [set_solver|auto].
    + apply Z.eqb_neq in E.
      destruct (str_split_cons sep t) as (q & qs & Hq). rewrite Hq in IH |- *.
      intros p [->|Hp]%elem_of_cons; [|apply IH; set_solver].
      apply not_elem_of_cons. split; [congruence|]. apply IH. set_solver.
Qed.

(** ** Searching *)

Lemma starts_with_true p s : starts_with p s = true ↔ p `prefix_of` s.
Proof.
  revert s. induction p as [|x p IH]; intros [|y s]; simpl.
  - split; [|done]. intros _. by exists [].
  - split; [|done]. intros _. by exists (y :: s).
  - split; [done|]. intros [k Hk]. done.
  - rewrite andb_true_iff, Z.eqb_eq, IH. split.
    + intros [-> H]. by apply prefix_cons.
    + intros H. split; [by eapply prefix_cons_inv_1|by eapply prefix_cons_inv_2].
Qed.

Lemma contains_true p s : contains p s = true ↔ ∃ a b, s = a ++ p ++ b.
Proof.
  induction s as [|c t IH]; simpl; rewrite orb_true_iff, starts_with_true.
  - split.
    + intros [[b Hb]|]; [|done]. by exists [], b.
    + intros (a & b & E). left. by destruct a, p; simplify_eq/=.
  - rewrite IH. split.
    + intros [[b Hb]|(a & b & ->)]; [by exists [], b|by exists (c :: a), b].
    + intros ([|d a] & b & E); simplify_eq/=; [left; by exists b|right; eauto].
Qed.

Lemma ends_with_true p s : ends_with p s = true ↔ ∃ a, s = a ++ p.
Proof.
  unfold ends_with. rewrite starts_with_true. split.
  - intros [k Hk]. exists (rev k).
    by rewrite <- (rev_involutive s), Hk, rev_app_distr, rev_involutive.
  - intros [a ->]. exists (rev a). by rewrite rev_app_distr.
Qed.

(** ** Case folding *)

Lemma ascii_lower_idemp c : ascii_lower (ascii_lower c) = ascii_lower c.
Proof. unfold ascii_lower. repeat case_match; lia. Qed.

Lemma ascii_upper_idemp c : ascii_upper (ascii_upper c) = ascii_upper c.
Proof. unfold ascii_upper. repeat case_match; lia. Qed.

Lemma to_ascii_lowercase_idemp s :
  to_ascii_lowercase (to_ascii_lowercase s) = to_ascii_lowercase s.
Proof.
  unfold to_ascii_lowercase. rewrite map_map. apply map_ext. apply ascii_lower_idemp.
Qed.

Lemma to_ascii_uppercase_idemp s :
  to_ascii_uppercase (to_ascii_uppercase s) = to_ascii_uppercase s.
Proof.
  unfold to_ascii_uppercase. rewrite map_map. apply map_ext. apply ascii_upper_idemp.
Qed.

(** A character outside the letters is in the folded string exactly when it
    is in the original one. *)
Lemma elem_of_lower s c :
  ascii_lower c = c → ascii_upper c = c →
  c ∈ to_ascii_lowercase s ↔ c ∈ s.
Proof.
  intros Hl Hu. unfold to_ascii_lowercase. rewrite list_elem_of_fmap. split.
  - intros (d & -> & Hd). replace (ascii_lower d) with d; [done|].
    unfold ascii_lower, ascii_upper in *. repeat case_match; lia.
  - intros Hc. by exists c.
Qed.

Lemma elem_of_upper s c :
  ascii_lower c = c → ascii_upper c = c →
  c ∈ to_ascii_uppercase s ↔ c ∈ s.
Proof.
  intros Hl Hu. unfold to_ascii_uppercase. rewrite list_elem_of_fmap. split.
  - intros (d & -> & Hd). replace (ascii_upper d) with d; [done|].
    unfold ascii_lower, ascii_upper in *. repeat case_match; lia.
  - intros Hc. by exists c.
Qed.

Lemma is_whitespace_lower c : is_whitespace (ascii_lower c) = is_whitespace c.
Proof. unfold is_whitespace, ascii_lower. case_match; lia. Qed.

Lemma is_whitespace_upper c : is_whitespace (ascii_upper c) = is_whitespace c.
Proof. unfold is_whitespace, ascii_upper. case_match; lia. Qed.

(** [to_lowercase] of a string compared with an ASCII word that has no [k]:
    the Unicode table cannot matter. *)
Section lowercase.
Context `{UnicodeLower}.

Lemma lower_from_ascii pre s :
  Forall (λ c, c < 128) s → lower_from pre s = to_ascii_lowercase s.
Proof.
  revert pre. induction s as [|c t IH]; intros pre; simpl; [done|].
  intros [Hc Ht]%Forall_cons. rewrite (IH _ Ht). unfold lower_at.
  by rewrite (proj2 (Z.ltb_lt c 128) Hc).
Qed.

Lemma lower_at_nonascii pre c post :
  128 ≤ c → c ≠ 0x212A → ∃ d, d ∈ lower_at pre c post ∧ 128 ≤ d.
Proof.
  intros Hc Hk. unfold lower_at. rewrite (proj2 (Z.ltb_ge c 128) Hc).
  destruct (c =? 0x3A3); [|by apply lower_table_nonascii].
  eexists. split; [by apply list_elem_of_singleton|]. case_match; lia.
Qed.

Lemma lower_from_inv pre s :
  Forall (λ c, c < 128 ∧ c ≠ 107) (lower_from pre s) → Forall (λ c, c < 128) s.
Proof.
  revert pre. induction s as [|c t IH]; intros pre; simpl; [done|].
  intros [Hc Ht]%Forall_app. constructor; [|by eapply IH].
  destruct (decide (c < 128)) as [|Hge]; [done|]. exfalso.
  rewrite Forall_forall in Hc. destruct (decide (c = 0x212A)) as [->|Hk].
  - unfold lower_at in Hc. simpl in Hc. rewrite lower_table_kelvin in Hc.
    destruct (Hc 107); [set_solver|done].
  - destruct (lower_at_nonascii pre c t) as (d & Hd & ?); [lia|done|].
    specialize (Hc d Hd). lia.
Qed.

Lemma ascii_lower_lt c : ascii_lower c < 128 → c < 128.
Proof. unfold ascii_lower. case_match; lia. Qed.

Lemma to_lowercase_ascii_iff s w :
  Forall (λ c, c < 128 ∧ c ≠ 107) w →
  to_lowercase s = w ↔ to_ascii_lowercase s = w.
Proof.
  intros Hw. unfold to_lowercase. split.
  - intros E. rewrite <- (lower_from_ascii []); [done|].
    apply (lower_from_inv []). by rewrite E.
  - intros E. rewrite lower_from_ascii; [done|].
    rewrite <- E in Hw. unfold to_ascii_lowercase in Hw. rewrite Forall_fmap in Hw.
    eapply Forall_impl; [exact Hw|]. simpl. intros c [Hc _]. by apply ascii_lower_lt.
Qed.
End lowercase.

(** An instance that knows the capital I with dot, the Kelvin and the sigma
    rules, for evaluating the model on concrete inputs. *)
#[global, program] Instance unicode_lower_small : UnicodeLower := {|
  lower_table c :=
    if c =? 0x212A then [107] else if c =? 0x130 then [105; 0x307] else [c];
  is_final_sigma _ post := is_empty post
|}.
Next Obligation. done. Qed.
Next Obligation.
  intros c Hc Hk. cbv beta. rewrite (proj2 (Z.eqb_neq _ _) Hk).
  destruct (c =? 0x130).
  - exists 0x307. split; [set_solver|lia].
  - exists c. split; [set_solver|lia].
Qed.

(** ** Decimal round trip *)

Lemma digit_val_digit d : 0 ≤ d < 10 → digit_val (48 + d) = Some d.
Proof.
  intros Hd. unfold digit_val.
  rewrite (proj2 (Z.leb_le 48 _)), (proj2 (Z.leb_le _ 57)) by lia. simpl. f_equal. lia.
Qed.

Lemma parse_show_fuel max fuel n acc :
  0 ≤ n ≤ max → n < 2 ^ Z.of_nat fuel →
  parse_digits max 0 (show_fuel fuel n acc) = parse_digits max n acc.
Proof.
  revert n acc. induction fuel as [|f IH]; intros n acc Hn Hf.
  - simpl in *. assert (n = 0) as -> by lia. done.
  - simpl. pose proof (Z.mod_pos_bound n 10 ltac:(lia)) as Hm.
    assert (n = 10 * (n / 10) + n mod 10) as Hdm by (apply Z.div_mod; lia).
    destruct (n <? 10) eqn:E.
    + simpl. rewrite digit_val_digit by lia.
      apply Z.ltb_lt in E. rewrite (Z.mod_small n 10) by lia.
      by rewrite (proj2 (Z.leb_le _ _)) by lia.
    + apply Z.ltb_ge in E. rewrite IH.
      * simpl. rewrite digit_val_digit by lia.
        rewrite (proj2 (Z.leb_le _ _)) by lia. f_equal. lia.
      * split; [apply Z.div_pos; lia|]. apply Z.div_le_upper_bound; lia.
      * apply Z.div_lt_upper_bound; [lia|].
        rewrite Nat2Z.inj_succ, Z.pow_succ_r in Hf by lia. lia.
Qed.

Lemma parse_digits_show max n :
  0 ≤ n ≤ max → parse_digits max 0 (show_uint n) = Some n.
Proof.
  intros Hn. unfold show_uint. rewrite parse_show_fuel; [done|done|].
  destruct (decide (n = 0)) as [->|]; [done|].
  rewrite Nat2Z.inj_succ, Z2Nat.id by apply Z.log2_nonneg.
  apply Z.log2_spec. lia.
Qed.

Lemma show_fuel_digits fuel n acc :
  0 ≤ n → Forall (λ c, 48 ≤ c ≤ 57) acc → Forall (λ c, 48 ≤ c ≤ 57) (show_fuel fuel n acc).
Proof.
  revert n acc. induction fuel as [|f IH]; intros n acc Hn Hacc; simpl; [done|].
  pose proof (Z.mod_pos_bound n 10 ltac:(lia)).
  destruct (n <? 10); [constructor; [lia|done]|].
  apply IH; [apply Z.div_pos; lia|constructor; [lia|done]].
Qed.

Lemma show_uint_digits n : 0 ≤ n → Forall (λ c, 48 ≤ c ≤ 57) (show_uint n).
Proof. intros Hn. apply show_fuel_digits; [done|constructor]. Qed.

Lemma parse_digits_range max acc s n :
  0 ≤ acc ≤ max → parse_digits max acc s = Some n → acc ≤ n ≤ max.
Proof.
  revert acc. induction s as [|c t IH]; intros acc Hacc; simpl; [naive_solver|].
  unfold digit_val. destruct ((48 <=? c) && (c <=? 57)) eqn:E; [|done].
  destruct (acc * 10 + (c - 48) <=? max) eqn:Em; [|done].
  intros Hp. apply IH in Hp; lia.
Qed.

Lemma parse_uint_range max s n : 0 ≤ max → parse_uint max s = Some n → 0 ≤ n ≤ max.
Proof.
  intros Hm. unfold parse_uint. destruct s as [|c t]; [done|].
  destruct (c =? 43); [destruct (is_empty t); [done|]|];
    intros H; apply parse_digits_range in H; lia.
Qed.

Lemma parse_uint_show max n :
  0 ≤ n ≤ max → parse_uint max (show_uint n) = Some n.
Proof.
  intros Hn. unfold parse_uint.
  pose proof (show_uint_digits n ltac:(lia)) as Hd.
  pose proof (parse_digits_show max n Hn) as Hp.
  destruct (show_uint n) as [|c t] eqn:E.
  - exfalso. unfold show_uint in E. simpl in E.
    assert (∀ f m acc, acc ≠ [] → show_fuel f m acc ≠ []) as Hne.
    { induction f as [|f IH]; intros m acc Hacc; simpl; [done|].
      destruct (m <? 10); [done|]. by apply IH. }
    destruct (n <? 10); [done|]. by eapply Hne in E.
  - apply Forall_cons in Hd as [Hc _].
    by rewrite (proj2 (Z.eqb_neq c 43)) by lia.
Qed.
