(* ===== verification/Net.v ===== *)
(** * Net: the [std::net] types and text formats the sources use

    [Ipv4Addr] is its four octets, [Ipv6Addr] its 128-bit value, [IpAddr] and
    [SocketAddr] are built from them.  The parsers are written after
    [core::net::parser] (a parser takes the rest of the input and returns a
    value with what is left), the printers after the [Display] instances. *)

From S2P Require Import Prelude RStr.

(** ** Addresses *)

Record Ipv4Addr := Ipv4Addr_new { oct0 : Z; oct1 : Z; oct2 : Z; oct3 : Z }.

Inductive IpAddr :=
| V4 (a : Ipv4Addr)
| V6 (a : Z).

Record SocketAddr := SocketAddr_new { sa_ip : IpAddr; sa_port : Z }.

#[global] Instance Ipv4Addr_eq_dec : EqDecision Ipv4Addr.
Proof. solve_decision. Defined.
#[global] Instance IpAddr_eq_dec : EqDecision IpAddr.
Proof. solve_decision. Defined.
#[global] Instance SocketAddr_eq_dec : EqDecision SocketAddr.
Proof. solve_decision. Defined.

#[global, program] Instance Ipv4Addr_countable : Countable Ipv4Addr :=
  inj_countable (λ a, (oct0 a, oct1 a, oct2 a, oct3 a))
                (λ '(a, b, c, d), Some (Ipv4Addr_new a b c d)) _.
Next Obligation. by intros []. Qed.
#[global, program] Instance IpAddr_countable : Countable IpAddr :=
  inj_countable (λ a, match a with V4 x => inl x | V6 z => inr z end)
                (λ s, Some match s with inl x => V4 x | inr z => V6 z end) _.
Next Obligation. by intros []. Qed.
#[global, program] Instance SocketAddr_countable : Countable SocketAddr :=
  inj_countable (λ a, (sa_ip a, sa_port a)) (λ '(i, p), Some (SocketAddr_new i p)) _.
Next Obligation. by intros []. Qed.

Definition octet (z : Z) : Prop := 0 ≤ z < 256.
Definition ipv4_wf (a : Ipv4Addr) : Prop :=
  octet (oct0 a) ∧ octet (oct1 a) ∧ octet (oct2 a) ∧ octet (oct3 a).

(** [u32::from(Ipv4Addr)] and [Ipv4Addr::from(u32)]. *)
Definition ipv4_to_u32 (a : Ipv4Addr) : Z :=
  oct0 a * 2 ^ 24 + oct1 a * 2 ^ 16 + oct2 a * 2 ^ 8 + oct3 a.
Definition ipv4_from_u32 (n : Z) : Ipv4Addr :=
  Ipv4Addr_new (n / 2 ^ 24 mod 256) (n / 2 ^ 16 mod 256) (n / 2 ^ 8 mod 256) (n mod 256).

(** The classification predicates of [Ipv4Addr] and [Ipv6Addr]. *)
Definition v4_is_private (a : Ipv4Addr) : bool :=
  (oct0 a =? 10)
  || ((oct0 a =? 172) && ((16 <=? oct1 a) && (oct1 a <=? 31)))
  || ((oct0 a =? 192) && (oct1 a =? 168)).
Definition v4_is_loopback (a : Ipv4Addr) : bool := oct0 a =? 127.
Definition v4_is_link_local (a : Ipv4Addr) : bool := (oct0 a =? 169) && (oct1 a =? 254).
Definition v4_is_unspecified (a : Ipv4Addr) : bool :=
  bool_decide (a = Ipv4Addr_new 0 0 0 0).
Definition v4_is_broadcast (a : Ipv4Addr) : bool :=
  bool_decide (a = Ipv4Addr_new 255 255 255 255).
Definition v4_is_multicast (a : Ipv4Addr) : bool := (224 <=? oct0 a) && (oct0 a <=? 239).

Definition v6_segment (a : Z) (i : Z) : Z := Z.land (Z.shiftr a (16 * (7 - i))) 0xFFFF.
Definition v6_segments (a : Z) : list Z := map (v6_segment a) [0; 1; 2; 3; 4; 5; 6; 7].
Definition v6_from_segments (l : list Z) : Z := foldl (λ acc s, acc * 2 ^ 16 + s) 0 l.
Definition v6_is_multicast (a : Z) : bool := Z.land (v6_segment a 0) 0xFF00 =? 0xFF00.
Definition v6_is_unspecified (a : Z) : bool := a =? 0.
Definition v6_is_loopback (a : Z) : bool := a =? 1.

Definition ip_is_loopback (a : IpAddr) : bool :=
  match a with V4 a => v4_is_loopback a | V6 a => v6_is_loopback a end.

(** ** Printing *)

Definition ipv4_to_string (a : Ipv4Addr) : rstr :=
  show_uint (oct0 a) ++ lit "." ++ show_uint (oct1 a) ++ lit "." ++
  show_uint (oct2 a) ++ lit "." ++ show_uint (oct3 a).

Definition hex_digit (d : Z) : rchar := if d <? 10 then 48 + d else 87 + d.
Fixpoint show_hex_fuel (fuel : nat) (n : Z) (acc : rstr) : rstr :=
  match fuel with
  | O => acc
  | S f =>
      let acc' := hex_digit (n mod 16) :: acc in
      if n <? 16 then acc' else show_hex_fuel f (n / 16) acc'
  end.
Definition show_hex (n : Z) : rstr := show_hex_fuel 4 n [].

(** The longest run of zero segments: (start, length), the first one on ties. *)
Fixpoint zero_span (i : nat) (segs : list Z) (cur best : nat * nat) : nat * nat :=
  match segs with
  | [] => best
  | s :: segs' =>
      if s =? 0 then
        let cur' := (if (cur.2 =? 0)%nat then i else cur.1, S cur.2) in
        zero_span (S i) segs' cur' (if (best.2 <? cur'.2)%nat then cur' else best)
      else zero_span (S i) segs' (0%nat, 0%nat) best
  end.

Fixpoint fmt_subslice (segs : list Z) : rstr :=
  match segs with
  | [] => []
  | [s] => show_hex s
  | s :: segs' => show_hex s ++ lit ":" ++ fmt_subslice segs'
  end.

Definition ipv6_to_string (a : Z) : rstr :=
  if Z.shiftr a 32 =? 0xFFFF then
    lit "::ffff:" ++ ipv4_to_string (ipv4_from_u32 (Z.land a 0xFFFFFFFF))
  else
    let segs := v6_segments a in
    let '(start, len) := zero_span 0 segs (0%nat, 0%nat) (0%nat, 0%nat) in
    if (1 <? len)%nat
    then fmt_subslice (take start segs) ++ lit "::" ++ fmt_subslice (drop (start + len) segs)
    else fmt_subslice segs.

Definition ip_to_string (a : IpAddr) : rstr :=
  match a with V4 a => ipv4_to_string a | V6 a => ipv6_to_string a end.

Definition socket_to_string (a : SocketAddr) : rstr :=
  match sa_ip a with
  | V4 v => ipv4_to_string v ++ lit ":" ++ show_uint (sa_port a)
  | V6 v => lit "[" ++ ipv6_to_string v ++ lit "]:" ++ show_uint (sa_port a)
  end.

(** ** Parsing *)

Definition hex_val (c : rchar) : option Z :=
  if (48 <=? c) && (c <=? 57) then Some (c - 48)
  else if (97 <=? c) && (c <=? 102) then Some (c - 87)
  else if (65 <=? c) && (c <=? 70) then Some (c - 55)
  else None.

(** The maximal run of digits of the radix at the front of the input. *)
Fixpoint span_digits (val : rchar -> option Z) (s : rstr) : list Z * rstr :=
  match s with
  | [] => ([], [])
  | c :: t =>
      match val c with
      | Some d => let '(ds, r) := span_digits val t in (d :: ds, r)
      | None => ([], s)
      end
  end.

Definition digits_value (radix : Z) (ds : list Z) : Z := foldl (λ acc d, acc * radix + d) 0 ds.

(** [Parser::read_number] with [max_digits] given. *)
Definition read_number (radix : Z) (val : rchar -> option Z) (max_digits : nat)
    (max : Z) (allow_zero_prefix : bool) (s : rstr) : option (Z * rstr) :=
  let '(ds, r) := span_digits val s in
  let count := length ds in
  let has_leading_zero := match ds with 0 :: _ => true | _ => false end in
  if (max_digits <? count)%nat then None
  else if negb (digits_value radix ds <=? max) then None
  else if (count =? 0)%nat then None
  else if negb allow_zero_prefix && has_leading_zero && (1 <? count)%nat then None
  else Some (digits_value radix ds, r).

Definition read_given_char (c : rchar) (s : rstr) : option rstr :=
  match s with d :: t => if d =? c then Some t else None | [] => None end.

(** [Parser::read_separator]: the separator comes before every element but the first. *)
Definition read_separator {A} (sep : rchar) (i : nat) (p : rstr -> option (A * rstr))
    (s : rstr) : option (A * rstr) :=
  if (i =? 0)%nat then p s else read_given_char sep s ≫= p.

Definition read_octet : rstr -> option (Z * rstr) := read_number 10 digit_val 3 255 false.

Definition read_ipv4_addr (s : rstr) : option (Ipv4Addr * rstr) :=
  '(a, s) ← read_separator 46 0 read_octet s;
  '(b, s) ← read_separator 46 1 read_octet s;
  '(c, s) ← read_separator 46 2 read_octet s;
  '(d, s) ← read_separator 46 3 read_octet s;
  Some (Ipv4Addr_new a b c d, s).

Definition read_group : rstr -> option (Z * rstr) := read_number 16 hex_val 4 0xFFFF true.

(** [read_groups]: up to [limit] groups, the last two of which may be written
    as an IPv4 address; the flag says whether they were. *)
Fixpoint read_groups (fuel : nat) (limit i : nat) (acc : list Z) (s : rstr)
    : list Z * bool * rstr :=
  match fuel with
  | O => (acc, false, s)
  | S f =>
      match (if (i <? limit - 1)%nat then read_separator 58 i read_ipv4_addr s else None) with
      | Some (a, r) =>
          (acc ++ [oct0 a * 256 + oct1 a; oct2 a * 256 + oct3 a], true, r)
      | None =>
          match read_separator 58 i read_group s with
          | Some (g, r) => read_groups f limit (S i) (acc ++ [g]) r
          | None => (acc, false, s)
          end
      end
  end.

Definition read_ipv6_addr (s : rstr) : option (Z * rstr) :=
  let '(head, head_ipv4, s1) := read_groups 8 8 0 [] s in
  if (length head =? 8)%nat then Some (v6_from_segments head, s1)
  else if head_ipv4 then None
  else
    s2 ← read_given_char 58 s1;
    s3 ← read_given_char 58 s2;
    let limit := (8 - (length head + 1))%nat in
    let '(tail, _, s4) := read_groups limit limit 0 [] s3 in
    Some (v6_from_segments
            (head ++ replicate (8 - length head - length tail) 0 ++ tail), s4).

Definition parse_with {A} (p : rstr -> option (A * rstr)) (s : rstr) : option A :=
  match p s with Some (a, []) => Some a | _ => None end.

(** [Ipv4Addr::from_str] and [IpAddr::from_str]. *)
Definition parse_ipv4 : rstr -> option Ipv4Addr := parse_with read_ipv4_addr.
Definition read_ip_addr (s : rstr) : option (IpAddr * rstr) :=
  match read_ipv4_addr s with
  | Some (a, r) => Some (V4 a, r)
  | None => '(a, r) ← read_ipv6_addr s; Some (V6 a, r)
  end.
Definition parse_ip : rstr -> option IpAddr := parse_with read_ip_addr.

(** [SocketAddr::from_str]; the scope id of an IPv6 address is read, not kept. *)
Definition read_port (s : rstr) : option (Z * rstr) :=
  s ← read_given_char 58 s; read_number 10 digit_val (length s) u16_max true s.
Definition read_socket_addr_v4 (s : rstr) : option (SocketAddr * rstr) :=
  '(ip, s) ← read_ipv4_addr s; '(port, s) ← read_port s; Some (SocketAddr_new (V4 ip) port, s).
Definition read_scope_id (s : rstr) : option (Z * rstr) :=
  s ← read_given_char 37 s; read_number 10 digit_val (length s) (2 ^ 32 - 1) true s.
Definition read_socket_addr_v6 (s : rstr) : option (SocketAddr * rstr) :=
  s ← read_given_char 91 s; '(ip, s) ← read_ipv6_addr s;
  let s := match read_scope_id s with Some (_, s) => s | None => s end in
  s ← read_given_char 93 s; '(port, s) ← read_port s; Some (SocketAddr_new (V6 ip) port, s).
Definition parse_socket : rstr -> option SocketAddr :=
  parse_with (λ s, match read_socket_addr_v4 s with Some r => Some r | None => read_socket_addr_v6 s end).

(** * Lemmas *)

Example parse_ip_v6 :
  parse_ip (lit "2001:db8::8:800:200c:417a") =
  Some (V6 0x20010db80000000000080800200c417a).
Proof. vm_compute. reflexivity. Qed.
Example print_ip_v6 :
  ip_to_string (V6 0x20010db80000000000080800200c417a) = lit "2001:db8::8:800:200c:417a".
Proof. vm_compute. reflexivity. Qed.
Example parse_ip_v6_any : parse_ip (lit "::") = Some (V6 0).
Proof. vm_compute. reflexivity. Qed.
Example parse_ip_v6_mapped :
  parse_ip (lit "::ffff:1.2.3.4") = Some (V6 0xFFFF01020304)
  ∧ ip_to_string (V6 0xFFFF01020304) = lit "::ffff:1.2.3.4".
Proof. vm_compute. done. Qed.
Example parse_ipv4_rejects :
  parse_ipv4 (lit "1.2.3") = None ∧ parse_ipv4 (lit "01.2.3.4") = None
  ∧ parse_ipv4 (lit "1.2.3.256") = None ∧ parse_ipv4 (lit "1.2.3.4 ") = None.
Proof. vm_compute. done. Qed.

(** ** IPv4 as a 32-bit number *)

Lemma ipv4_to_u32_range a : ipv4_wf a → 0 ≤ ipv4_to_u32 a < 2 ^ 32.
Proof. unfold ipv4_wf, octet, ipv4_to_u32. lia. Qed.

Lemma ipv4_from_u32_wf n : ipv4_wf (ipv4_from_u32 n).
Proof. repeat split; simpl; apply Z.mod_pos_bound; lia. Qed.

Lemma ipv4_from_to_u32 a : ipv4_wf a → ipv4_from_u32 (ipv4_to_u32 a) = a.
Proof.
  destruct a as [a b c d]. unfold ipv4_wf, octet, ipv4_to_u32, ipv4_from_u32. simpl.
  intros (Ha & Hb & Hc & Hd). f_equal; div_lia.
Qed.

Lemma ipv4_to_from_u32 n : 0 ≤ n < 2 ^ 32 → ipv4_to_u32 (ipv4_from_u32 n) = n.
Proof. unfold ipv4_to_u32, ipv4_from_u32. simpl. intros Hn. div_lia. Qed.

Lemma ipv4_to_u32_inj a b :
  ipv4_wf a → ipv4_wf b → ipv4_to_u32 a = ipv4_to_u32 b → a = b.
Proof.
  intros Ha Hb E. by rewrite <- (ipv4_from_to_u32 a Ha), E, ipv4_from_to_u32.
Qed.

(** ** The text of an IPv4 address *)

Definition octet_text_ok (n : Z) : bool :=
  let s := show_uint n in
  (length s <=? 3)%nat && negb (length s =? 0)%nat
  && bool_decide (omap digit_val s = map (λ c, c - 48) s)
  && (digits_value 10 (map (λ c, c - 48) s) =? n)
  && match s with 48 :: _ :: _ => false | _ => true end.

Lemma octet_text n : octet n → octet_text_ok n = true.
Proof.
  assert (forallb octet_text_ok (seqZ 0 256) = true) as H by (vm_compute; reflexivity).
  rewrite forallb_forall in H. intros Hn. apply H.
  rewrite <- list_elem_of_In. apply elem_of_seqZ. unfold octet in Hn. lia.
Qed.

(** What may follow a number in the text: nothing, or a character that is no digit. *)
Definition no_digit (r : rstr) : Prop :=
  match r with [] => True | c :: _ => digit_val c = None end.

Lemma span_digits_app s r :
  Forall (λ c, 48 ≤ c ≤ 57) s → no_digit r →
  span_digits digit_val (s ++ r) = (map (λ c, c - 48) s, r).
Proof.
  intros Hs Hr. induction Hs as [|c t Hc Ht IH]; simpl.
  - destruct r as [|c r]; simpl in *; [done|]. by rewrite Hr.
  - rewrite IH. unfold digit_val.
    by rewrite (proj2 (Z.leb_le 48 _)), (proj2 (Z.leb_le _ 57)) by lia.
Qed.

Lemma read_octet_show n r :
  octet n → no_digit r → read_octet (show_uint n ++ r) = Some (n, r).
Proof.
  intros Hn Hr. pose proof (octet_text n Hn) as Ht. unfold octet_text_ok in Ht.
  unfold read_octet, read_number.
  rewrite span_digits_app; [|apply show_uint_digits; unfold octet in Hn; lia|done].
  apply andb_prop in Ht as [[[[Hl Hne]%andb_prop _]%andb_prop Hv%Z.eqb_eq]%andb_prop Hz].
  rewrite length_map, Hv.
  apply Nat.leb_le in Hl. rewrite (proj2 (Nat.ltb_ge _ _) Hl).
  rewrite (proj2 (Z.leb_le n 255)) by (unfold octet in Hn; lia).
  apply negb_true_iff in Hne. rewrite Hne.
  destruct (show_uint n) as [|c [|c' t]]; simpl in *;
    [done|by rewrite andb_false_r|].
  by destruct (decide (c - 48 = 0)) as [E|E];
      [assert (c = 48) as -> by lia|destruct (c - 48); try done].
Qed.

Lemma read_dot_octet_show n r :
  octet n → no_digit r →
  read_given_char 46 (lit "." ++ show_uint n ++ r) ≫= read_octet = Some (n, r).
Proof. intros. simpl. by apply read_octet_show. Qed.

Lemma read_ipv4_addr_show a r :
  ipv4_wf a → no_digit r → read_ipv4_addr (ipv4_to_string a ++ r) = Some (a, r).
Proof.
  intros (Ha & Hb & Hc & Hd) Hr. unfold read_ipv4_addr, ipv4_to_string. rewrite <- !app_assoc.
  unfold read_separator. simpl (_ =? _)%nat. cbn match. rewrite read_octet_show by done.
  cbn [mbind option_bind].
  do 3 (rewrite read_dot_octet_show by done; cbn [mbind option_bind]). by destruct a.
Qed.

Lemma parse_ipv4_to_string a : ipv4_wf a → parse_ipv4 (ipv4_to_string a) = Some a.
Proof.
  intros Ha. unfold parse_ipv4, parse_with. rewrite <- (app_nil_r (ipv4_to_string a)).
  by rewrite read_ipv4_addr_show.
Qed.

(** The digits of a number have its value. *)
Lemma parse_digits_value max acc s n :
  Forall (λ c, 48 ≤ c ≤ 57) s → parse_digits max acc s = Some n →
  foldl (λ acc d, acc * 10 + d) acc (map (λ c, c - 48) s) = n.
Proof.
  intros Hs. revert acc. induction Hs as [|c t Hc _ IH]; intros acc; simpl; [by intros [= <-]|].
  unfold digit_val. rewrite (proj2 (Z.leb_le 48 _)), (proj2 (Z.leb_le _ 57)) by lia. simpl.
  destruct (acc * 10 + (c - 48) <=? max); [apply IH|done].
Qed.

Lemma read_port_show n :
  0 ≤ n ≤ u16_max → read_port (lit ":" ++ show_uint n) = Some (n, []).
Proof.
  intros Hn. unfold read_port, read_number. simpl.
  pose proof (show_uint_digits n ltac:(lia)) as Hd.
  pose proof (span_digits_app (show_uint n) [] Hd I) as Hsp. rewrite app_nil_r in Hsp. rewrite Hsp.
  pose proof (parse_digits_value _ _ _ _ Hd (parse_digits_show u16_max n Hn)) as Hv.
  unfold digits_value. rewrite Hv, length_map, Nat.ltb_irrefl.
  rewrite (proj2 (Z.leb_le _ _)) by lia. simpl.
  destruct (show_uint n) as [|c t] eqn:E; [|done].
  pose proof (parse_uint_show u16_max n Hn) as Hp. by rewrite E in Hp.
Qed.

Lemma parse_socket_v4_to_string a port :
  ipv4_wf a → 0 ≤ port ≤ u16_max →
  parse_socket (socket_to_string (SocketAddr_new (V4 a) port)) = Some (SocketAddr_new (V4 a) port).
Proof.
  intros Ha Hp. unfold parse_socket, parse_with, socket_to_string, read_socket_addr_v4.
  cbn [sa_ip sa_port]. rewrite read_ipv4_addr_show by done. cbn [mbind option_bind].
  by rewrite read_port_show.
Qed.

Lemma parse_ip_ipv4_to_string a : ipv4_wf a → parse_ip (ipv4_to_string a) = Some (V4 a).
Proof.
  intros Ha. pose proof (parse_ipv4_to_string a Ha) as H.
  unfold parse_ipv4, parse_with in H. unfold parse_ip, parse_with, read_ip_addr.
  destruct (read_ipv4_addr (ipv4_to_string a)) as [[x [|c r]]|]; [by simplify_eq|done..].
Qed.

Lemma span_digits_val s ds r :
  span_digits digit_val s = (ds, r) → Forall (λ d, 0 ≤ d) ds.
Proof.
  revert ds r. induction s as [|c t IH]; intros ds r; simpl; [naive_solver|].
  unfold digit_val at 1. destruct ((48 <=? c) && (c <=? 57)) eqn:E; [|naive_solver].
  destruct (span_digits digit_val t) as [ds' r'] eqn:Es. intros [= <- <-].
  constructor; [lia|eauto].
Qed.

Lemma digits_value_nonneg acc ds :
  0 ≤ acc → Forall (λ d, 0 ≤ d) ds → 0 ≤ foldl (λ acc d, acc * 10 + d) acc ds.
Proof.
  intros Hacc Hds. revert acc Hacc. induction Hds as [|d ds Hd Hds IH]; intros acc Hacc; simpl;
    [done|]. apply IH. lia.
Qed.

Lemma read_octet_range s n r : read_octet s = Some (n, r) → octet n.
Proof.
  unfold read_octet, read_number.
  destruct (span_digits digit_val s) as [ds r'] eqn:Es.
  apply span_digits_val in Es.
  pose proof (digits_value_nonneg 0 ds ltac:(lia) Es) as Hnn.
  fold (digits_value 10 ds) in Hnn.
  destruct (digits_value 10 ds <=? 255) eqn:E;
    cbn [negb]; repeat case_match; try done; intros [= <- _]; unfold octet; lia.
Qed.

Lemma read_ipv4_addr_wf s a r : read_ipv4_addr s = Some (a, r) → ipv4_wf a.
Proof.
  unfold read_ipv4_addr. intros H.
  repeat match goal with
    | H : mbind _ _ = Some _ |- _ => apply bind_Some in H as ([? ?] & ? & H)
    end.
  simplify_eq. unfold read_separator in *. simpl in *.
  repeat match goal with
    | H : mbind read_octet _ = Some _ |- _ => apply bind_Some in H as (? & ? & H)
    end.
  repeat split; eapply read_octet_range; eassumption.
Qed.

Lemma parse_ipv4_wf s a : parse_ipv4 s = Some a → ipv4_wf a.
Proof.
  unfold parse_ipv4, parse_with.
  destruct (read_ipv4_addr s) as [[x [|c r]]|] eqn:E; [|done..].
  intros [= <-]. by eapply read_ipv4_addr_wf.
Qed.
