(* ===== verification/Rule.v ===== *)
(** * Rule: routing rules and their compact text ([rules/action.rs], [rules/rule.rs])

    The data types, the compact-syntax parser [parse_compact] with its error
    messages, the [Display] printer, and an abstract grammar [compact_spec]
    the parser is proved to implement. *)

From S2P Require Import Prelude RStr.

(** ** [rules/action.rs] *)

Inductive RuleAction := Direct | Proxy | Reject.

#[global] Instance RuleAction_eq_dec : EqDecision RuleAction.
Proof. solve_decision. Defined.

Definition RuleAction_default : RuleAction := Direct.

Definition RuleAction_to_string (a : RuleAction) : rstr :=
  match a with
  | Direct => lit "Direct"
  | Proxy => lit "Proxy"
  | Reject => lit "Reject"
  end.

(** ** [Protocol] *)

Inductive Protocol := Tcp | Udp | Icmp | Other (n : Z).

#[global] Instance Protocol_eq_dec : EqDecision Protocol.
Proof. solve_decision. Defined.

Definition Protocol_from_u8 (value : Z) : Protocol :=
  if value =? 6 then Tcp
  else if value =? 17 then Udp
  else if value =? 1 then Icmp
  else Other value.

Definition Protocol_from_str `{UnicodeLower} (s : rstr) : option Protocol :=
  let l := to_lowercase s in
  if bool_decide (l = lit "tcp") then Some Tcp
  else if bool_decide (l = lit "udp") then Some Udp
  else if bool_decide (l = lit "icmp") then Some Icmp
  else None.

Definition Protocol_default : Protocol := Other 0.

Definition Protocol_to_string (p : Protocol) : rstr :=
  match p with
  | Tcp => lit "tcp"
  | Udp => lit "udp"
  | Icmp => lit "icmp"
  | Other n => lit "other(" ++ show_uint n ++ lit ")"
  end.

(** ** [Rule] *)

Record Rule := mkRule {
  src_ip_cidr : option rstr;
  dst_ip_cidr : option rstr;
  src_port : option rstr;
  dst_port : option rstr;
  proto : option rstr;
  domain : option rstr;
  domain_suffix : option rstr;
  domain_keyword : option rstr;
  geoip : option rstr;
  match_all : bool;
  action : RuleAction
}.

#[global] Instance Rule_eq_dec : EqDecision Rule.
Proof. solve_decision. Defined.

Definition Rule_new (a : RuleAction) : Rule :=
  mkRule None None None None None None None None None false a.

(** The field assignments [rule.<field> = Some(v)] and [rule.match_all = true]. *)
Definition set_match_all (r : Rule) : Rule :=
  mkRule (src_ip_cidr r) (dst_ip_cidr r) (src_port r) (dst_port r) (proto r) (domain r)
    (domain_suffix r) (domain_keyword r) (geoip r) true (action r).
Definition set_src_ip_cidr (v : rstr) (r : Rule) : Rule :=
  mkRule (Some v) (dst_ip_cidr r) (src_port r) (dst_port r) (proto r) (domain r)
    (domain_suffix r) (domain_keyword r) (geoip r) (match_all r) (action r).
Definition set_dst_ip_cidr (v : rstr) (r : Rule) : Rule :=
  mkRule (src_ip_cidr r) (Some v) (src_port r) (dst_port r) (proto r) (domain r)
    (domain_suffix r) (domain_keyword r) (geoip r) (match_all r) (action r).
Definition set_src_port (v : rstr) (r : Rule) : Rule :=
  mkRule (src_ip_cidr r) (dst_ip_cidr r) (Some v) (dst_port r) (proto r) (domain r)
    (domain_suffix r) (domain_keyword r) (geoip r) (match_all r) (action r).
Definition set_dst_port (v : rstr) (r : Rule) : Rule :=
  mkRule (src_ip_cidr r) (dst_ip_cidr r) (src_port r) (Some v) (proto r) (domain r)
    (domain_suffix r) (domain_keyword r) (geoip r) (match_all r) (action r).
Definition set_proto (v : rstr) (r : Rule) : Rule :=
  mkRule (src_ip_cidr r) (dst_ip_cidr r) (src_port r) (dst_port r) (Some v) (domain r)
    (domain_suffix r) (domain_keyword r) (geoip r) (match_all r) (action r).
Definition set_domain (v : rstr) (r : Rule) : Rule :=
  mkRule (src_ip_cidr r) (dst_ip_cidr r) (src_port r) (dst_port r) (proto r) (Some v)
    (domain_suffix r) (domain_keyword r) (geoip r) (match_all r) (action r).
Definition set_domain_suffix (v : rstr) (r : Rule) : Rule :=
  mkRule (src_ip_cidr r) (dst_ip_cidr r) (src_port r) (dst_port r) (proto r) (domain r)
    (Some v) (domain_keyword r) (geoip r) (match_all r) (action r).
Definition set_domain_keyword (v : rstr) (r : Rule) : Rule :=
  mkRule (src_ip_cidr r) (dst_ip_cidr r) (src_port r) (dst_port r) (proto r) (domain r)
    (domain_suffix r) (Some v) (geoip r) (match_all r) (action r).
Definition set_geoip (v : rstr) (r : Rule) : Rule :=
  mkRule (src_ip_cidr r) (dst_ip_cidr r) (src_port r) (dst_port r) (proto r) (domain r)
    (domain_suffix r) (domain_keyword r) (Some v) (match_all r) (action r).

(** ** Parsing the compact syntax *)

Definition parse_action (value : rstr) : result rstr RuleAction :=
  let l := to_ascii_lowercase value in
  if bool_decide (l = lit "direct") then Ok Direct
  else if bool_decide (l = lit "proxy") then Ok Proxy
  else if bool_decide (l = lit "reject") || bool_decide (l = lit "drop") then Ok Reject
  else Err (lit "unknown rule action '" ++ value ++ lit "'").

(** [parts.len() != 3] is tested before [parts[1]] and [parts[2]] are read. *)
Definition parse_field_rule_parts (parts : list rstr) (field : rstr)
    : result rstr (rstr * RuleAction) :=
  match parts with
  | [_; value; act] =>
      if is_empty value then Err (field ++ lit " rule value cannot be empty")
      else a ← parse_action act; Ok (value, a)
  | _ => Err (field ++ lit " rule format must be " ++ field ++ lit ",value,action")
  end.

(** [ch.is_whitespace() || matches!(ch, '/' | ',')] *)
Definition bad_value_char (c : rchar) : bool :=
  is_whitespace c || ((c =? 47) || (c =? 44)).

Definition normalize_domain_rule_value (value : rstr) : result rstr rstr :=
  let value := to_ascii_lowercase (trim_end_matches 46 (trim value)) in
  if is_empty value then Err (lit "domain rule value cannot be empty")
  else if existsb bad_value_char value
  then Err (lit "invalid domain rule value '" ++ value ++ lit "'")
  else Ok value.

Definition parse_domain_rule_parts (parts : list rstr) (field : rstr)
    : result rstr (rstr * RuleAction) :=
  '(value, a) ← parse_field_rule_parts parts field;
  v ← normalize_domain_rule_value value;
  Ok (v, a).

Definition normalize_geoip_rule_value (value : rstr) : result rstr rstr :=
  let value := to_ascii_uppercase (trim value) in
  if is_empty value then Err (lit "GEOIP rule value cannot be empty")
  else if existsb bad_value_char value
  then Err (lit "invalid GEOIP rule value '" ++ value ++ lit "'")
  else Ok value.

Definition parse_geoip_rule_parts (parts : list rstr) (field : rstr)
    : result rstr (rstr * RuleAction) :=
  '(value, a) ← parse_field_rule_parts parts field;
  v ← normalize_geoip_rule_value value;
  Ok (v, a).

Definition parse_match_rule_parts (parts : list rstr) : result rstr Rule :=
  match parts with
  | [_; act] => a ← parse_action act; Ok (set_match_all (Rule_new a))
  | _ => Err (lit "MATCH rule format must be MATCH,action")
  end.

Definition parse_compact (value : rstr) : result rstr Rule :=
  let parts := map trim (str_split 44 value) in
  match parts with
  | [] => Err (lit "rule is empty")
  | part0 :: _ =>
      if is_empty part0 then Err (lit "rule is empty")
      else
        let field := to_ascii_uppercase part0 in
        if bool_decide (field = lit "MATCH") then parse_match_rule_parts parts
        else if bool_decide (field = lit "SRC-IP-CIDR") then
          '(v, a) ← parse_field_rule_parts parts field; Ok (set_src_ip_cidr v (Rule_new a))
        else if bool_decide (field = lit "DST-IP-CIDR") then
          '(v, a) ← parse_field_rule_parts parts field; Ok (set_dst_ip_cidr v (Rule_new a))
        else if bool_decide (field = lit "SRC-PORT") then
          '(v, a) ← parse_field_rule_parts parts field; Ok (set_src_port v (Rule_new a))
        else if bool_decide (field = lit "DST-PORT") then
          '(v, a) ← parse_field_rule_parts parts field; Ok (set_dst_port v (Rule_new a))
        else if bool_decide (field = lit "PROTO") then
          '(v, a) ← parse_field_rule_parts parts field; Ok (set_proto v (Rule_new a))
        else if bool_decide (field = lit "DOMAIN") then
          '(v, a) ← parse_domain_rule_parts parts field; Ok (set_domain v (Rule_new a))
        else if bool_decide (field = lit "DOMAIN-SUFFIX") then
          '(v, a) ← parse_domain_rule_parts parts field; Ok (set_domain_suffix v (Rule_new a))
        else if bool_decide (field = lit "DOMAIN-KEYWORD") then
          '(v, a) ← parse_domain_rule_parts parts field; Ok (set_domain_keyword v (Rule_new a))
        else if bool_decide (field = lit "GEOIP") then
          '(v, a) ← parse_geoip_rule_parts parts field; Ok (set_geoip v (Rule_new a))
        else Err (lit "unknown rule field '" ++ part0 ++ lit "'")
  end.

Definition has_conditions (r : Rule) : bool :=
  match_all r || is_some (src_ip_cidr r) || is_some (dst_ip_cidr r)
  || is_some (src_port r) || is_some (dst_port r) || is_some (proto r)
  || is_some (domain r) || is_some (domain_suffix r) || is_some (domain_keyword r)
  || is_some (geoip r).

(** ** Printing: [impl Display for Rule], used by [Serialize] *)

Definition show_field (name : string) (value : rstr) (a : RuleAction) : rstr :=
  lit name ++ lit "," ++ value ++ lit "," ++ RuleAction_to_string a.

Definition Rule_to_string (r : Rule) : rstr :=
  if match_all r then lit "MATCH," ++ RuleAction_to_string (action r) else
  match src_ip_cidr r with Some v => show_field "SRC-IP-CIDR" v (action r) | None =>
  match dst_ip_cidr r with Some v => show_field "DST-IP-CIDR" v (action r) | None =>
  match src_port r with Some v => show_field "SRC-PORT" v (action r) | None =>
  match dst_port r with Some v => show_field "DST-PORT" v (action r) | None =>
  match proto r with Some v => show_field "PROTO" v (action r) | None =>
  match domain r with Some v => show_field "DOMAIN" v (action r) | None =>
  match domain_suffix r with Some v => show_field "DOMAIN-SUFFIX" v (action r) | None =>
  match domain_keyword r with Some v => show_field "DOMAIN-KEYWORD" v (action r) | None =>
  match geoip r with Some v => show_field "GEOIP" v (action r) | None =>
  lit "MATCH," ++ RuleAction_to_string (action r)
  end end end end end end end end end.

Definition Rule_serialize : Rule -> rstr := Rule_to_string.

(** ** The grammar of compact rules *)

Inductive kind :=
| KSrcCidr | KDstCidr | KSrcPort | KDstPort | KProto
| KDomain | KDomainSuffix | KDomainKeyword | KGeoip.

Definition kind_name (k : kind) : string :=
  match k with
  | KSrcCidr => "SRC-IP-CIDR" | KDstCidr => "DST-IP-CIDR"
  | KSrcPort => "SRC-PORT" | KDstPort => "DST-PORT" | KProto => "PROTO"
  | KDomain => "DOMAIN" | KDomainSuffix => "DOMAIN-SUFFIX"
  | KDomainKeyword => "DOMAIN-KEYWORD" | KGeoip => "GEOIP"
  end.

Definition kind_set (k : kind) : rstr -> Rule -> Rule :=
  match k with
  | KSrcCidr => set_src_ip_cidr | KDstCidr => set_dst_ip_cidr
  | KSrcPort => set_src_port | KDstPort => set_dst_port | KProto => set_proto
  | KDomain => set_domain | KDomainSuffix => set_domain_suffix
  | KDomainKeyword => set_domain_keyword | KGeoip => set_geoip
  end.

(** The words an action may be written with, in any ASCII case. *)
Definition action_words (a : RuleAction) : list string :=
  match a with
  | Direct => ["direct"] | Proxy => ["proxy"] | Reject => ["reject"; "drop"]
  end%string.
Definition action_spec (act : rstr) (a : RuleAction) : Prop :=
  to_ascii_lowercase act ∈ lit <$> action_words a.

Definition clean (v : rstr) : Prop := v ≠ [] ∧ ∀ c, c ∈ v → bad_value_char c = false.

(** The value [v] of the text and the value [v'] the rule stores. *)
Definition value_spec (k : kind) (v v' : rstr) : Prop :=
  v ≠ [] ∧
  match k with
  | KDomain | KDomainSuffix | KDomainKeyword =>
      v' = to_ascii_lowercase (trim_end_matches 46 (trim v)) ∧ clean v'
  | KGeoip => v' = to_ascii_uppercase (trim v) ∧ clean v'
  | _ => v' = v
  end.

Inductive compact_spec : list rstr -> Rule -> Prop :=
| cs_match f act a :
    to_ascii_uppercase f = lit "MATCH" → action_spec act a →
    compact_spec [f; act] (set_match_all (Rule_new a))
| cs_field k f v v' act a :
    to_ascii_uppercase f = lit (kind_name k) → value_spec k v v' → action_spec act a →
    compact_spec [f; v; act] (kind_set k v' (Rule_new a)).

(** * Lemmas *)

(** Two different literals cannot both equal the same string. *)
Ltac lit_clash :=
  exfalso;
  match goal with
  | H1 : ?x = lit ?a, H2 : ?x = lit ?b |- _ =>
      rewrite H1 in H2; vm_compute in H2; discriminate H2
  end.

Lemma is_empty_true s : is_empty s = true ↔ s = [].
Proof. by destruct s. Qed.
Lemma is_empty_false s : is_empty s = false ↔ s ≠ [].
Proof. by destruct s. Qed.

Lemma parse_action_ok act a : parse_action act = Ok a ↔ action_spec act a.
Proof.
  unfold parse_action, action_spec. generalize (to_ascii_lowercase act). intros l. split.
  - repeat case_bool_decide; intros ?; simplify_eq/=; set_solver.
  - destruct a; simpl; intros H; repeat apply elem_of_cons in H as [H|H];
      try (by apply elem_of_nil in H); rewrite H; reflexivity.
Qed.

Lemma parse_field_ok parts field v a :
  parse_field_rule_parts parts field = Ok (v, a) ↔
  ∃ f act, parts = [f; v; act] ∧ v ≠ [] ∧ action_spec act a.
Proof.
  split.
  - destruct parts as [|f [|w [|act [|]]]]; simpl; try done.
    destruct (is_empty w) eqn:Hw; [done|]. intros Hp.
    destruct (parse_action act) as [b|] eqn:E; [|done].
    injection Hp as -> ->. apply parse_action_ok in E.
    exists f, act. split; [done|]. split; [by apply is_empty_false|done].
  - intros (f & act & -> & Hv & Ha). simpl.
    apply is_empty_false in Hv. rewrite Hv.
    apply parse_action_ok in Ha. by rewrite Ha.
Qed.

Lemma existsb_bad_clean v : v ≠ [] → existsb bad_value_char v = false ↔ clean v.
Proof. intros Hv. rewrite existsb_false_elem. unfold clean. naive_solver. Qed.

Lemma normalize_domain_ok v v' :
  normalize_domain_rule_value v = Ok v' ↔
  v' = to_ascii_lowercase (trim_end_matches 46 (trim v)) ∧ clean v'.
Proof.
  unfold normalize_domain_rule_value.
  set (w := to_ascii_lowercase (trim_end_matches 46 (trim v))).
  destruct (is_empty w) eqn:E.
  - split; [done|]. intros [-> [Hne _]]. by apply is_empty_true in E.
  - apply is_empty_false in E. destruct (existsb bad_value_char w) eqn:Eb.
    + split; [done|]. intros [-> Hc]. apply (existsb_bad_clean w E) in Hc. congruence.
    + apply (existsb_bad_clean w E) in Eb. naive_solver.
Qed.

Lemma normalize_geoip_ok v v' :
  normalize_geoip_rule_value v = Ok v' ↔
  v' = to_ascii_uppercase (trim v) ∧ clean v'.
Proof.
  unfold normalize_geoip_rule_value. set (w := to_ascii_uppercase (trim v)).
  destruct (is_empty w) eqn:E.
  - split; [done|]. intros [-> [Hne _]]. by apply is_empty_true in E.
  - apply is_empty_false in E. destruct (existsb bad_value_char w) eqn:Eb.
    + split; [done|]. intros [-> Hc]. apply (existsb_bad_clean w E) in Hc. congruence.
    + apply (existsb_bad_clean w E) in Eb. naive_solver.
Qed.

Definition parse_kind (k : kind) : list rstr -> rstr -> result rstr (rstr * RuleAction) :=
  match k with
  | KDomain | KDomainSuffix | KDomainKeyword => parse_domain_rule_parts
  | KGeoip => parse_geoip_rule_parts
  | _ => parse_field_rule_parts
  end.

Lemma parse_then_normalize_ok norm (P : rstr -> rstr -> Prop) parts field v' a :
  (∀ v w, norm v = Ok w ↔ P v w) →
  ('(value, b) ← parse_field_rule_parts parts field; w ← norm value; Ok (w, b)) = Ok (v', a) ↔
  ∃ f v act, parts = [f; v; act] ∧ (v ≠ [] ∧ P v v') ∧ action_spec act a.
Proof.
  intros HP. rewrite result_bind_ok. split.
  - intros ([v b] & Hp & Hn). apply parse_field_ok in Hp as (f & act & -> & Hv & Ha).
    apply result_bind_ok in Hn as (w & Hn%HP & [= -> ->]). naive_solver.
  - intros (f & v & act & -> & [Hv Hn] & Ha). exists (v, a).
    split; [apply parse_field_ok; eauto|]. apply HP in Hn. by rewrite Hn.
Qed.

Lemma parse_kind_ok k parts field v' a :
  parse_kind k parts field = Ok (v', a) ↔
  ∃ f v act, parts = [f; v; act] ∧ value_spec k v v' ∧ action_spec act a.
Proof.
  destruct k; cbn [parse_kind value_spec];
    first [ exact (parse_then_normalize_ok _ _ parts field v' a normalize_domain_ok)
          | exact (parse_then_normalize_ok _ _ parts field v' a normalize_geoip_ok)
          | rewrite parse_field_ok; split;
            [intros (f & act & -> & Hv & Ha); by exists f, v', act
            |intros (f & v & act & -> & [Hv ->] & Ha); by exists f, act] ].
Qed.

(** The dispatch of [parse_compact] on the field name. *)
Lemma parse_compact_kind k s p0 ps :
  map trim (str_split 44 s) = p0 :: ps →
  to_ascii_uppercase p0 = lit (kind_name k) →
  parse_compact s =
    '(v, a) ← parse_kind k (p0 :: ps) (lit (kind_name k)); Ok (kind_set k v (Rule_new a)).
Proof.
  intros Hs Hf. unfold parse_compact. rewrite Hs.
  destruct (is_empty p0) eqn:E.
  { apply is_empty_true in E as ->. by destruct k. }
  rewrite Hf. by destruct k.
Qed.

Lemma parse_compact_match s p0 ps :
  map trim (str_split 44 s) = p0 :: ps →
  to_ascii_uppercase p0 = lit "MATCH" →
  parse_compact s = parse_match_rule_parts (p0 :: ps).
Proof.
  intros Hs Hf. unfold parse_compact. rewrite Hs.
  destruct (is_empty p0) eqn:E.
  { by apply is_empty_true in E as ->. }
  by rewrite Hf.
Qed.

Lemma parse_match_ok parts r :
  parse_match_rule_parts parts = Ok r ↔
  ∃ f act a, parts = [f; act] ∧ action_spec act a ∧ r = set_match_all (Rule_new a).
Proof.
  split.
  - destruct parts as [|f [|act [|]]]; simpl; try done.
    intros (a & Ha%parse_action_ok & [= <-])%result_bind_ok. eauto 10.
  - intros (f & act & a & -> & Ha%parse_action_ok & ->). simpl. by rewrite Ha.
Qed.

(** Which field names the parser knows. *)
Definition kinds : list kind :=
  [KSrcCidr; KDstCidr; KSrcPort; KDstPort; KProto; KDomain; KDomainSuffix; KDomainKeyword; KGeoip].

Lemma parse_compact_unknown s p0 ps :
  map trim (str_split 44 s) = p0 :: ps →
  to_ascii_uppercase p0 ≠ lit "MATCH" →
  (∀ k, to_ascii_uppercase p0 ≠ lit (kind_name k)) →
  parse_compact s =
    Err (if is_empty p0 then lit "rule is empty"
         else lit "unknown rule field '" ++ p0 ++ lit "'").
Proof.
  intros Hs Hm Hk. unfold parse_compact. rewrite Hs.
  destruct (is_empty p0); [done|].
  rewrite bool_decide_eq_false_2 by done.
  rewrite (bool_decide_eq_false_2 _ (Hk KSrcCidr)), (bool_decide_eq_false_2 _ (Hk KDstCidr)),
    (bool_decide_eq_false_2 _ (Hk KSrcPort)), (bool_decide_eq_false_2 _ (Hk KDstPort)),
    (bool_decide_eq_false_2 _ (Hk KProto)), (bool_decide_eq_false_2 _ (Hk KDomain)),
    (bool_decide_eq_false_2 _ (Hk KDomainSuffix)),
    (bool_decide_eq_false_2 _ (Hk KDomainKeyword)), (bool_decide_eq_false_2 _ (Hk KGeoip)).
  done.
Qed.

Lemma field_name_cases (u : rstr) :
  u = lit "MATCH" ∨ (∃ k, u = lit (kind_name k)) ∨
  (u ≠ lit "MATCH" ∧ ∀ k, u ≠ lit (kind_name k)).
Proof.
  destruct (decide (u = lit "MATCH")) as [|Hm]; [by left|right].
  destruct (decide (u ∈ (λ k, lit (kind_name k)) <$> kinds)) as [Hin|Hin].
  - left. apply list_elem_of_fmap in Hin as (k & -> & _). eauto.
  - right. split; [done|]. intros k ->. apply Hin. destruct k; vm_compute; set_solver.
Qed.

Lemma parse_compact_correct s r :
  parse_compact s = Ok r ↔ compact_spec (map trim (str_split 44 s)) r.
Proof.
  destruct (str_split_cons 44 s) as (q & qs & Hq).
  assert (map trim (str_split 44 s) = trim q :: map trim qs) as Hs by (by rewrite Hq).
  rewrite Hs. split.
  - intros Hp. destruct (field_name_cases (to_ascii_uppercase (trim q)))
      as [Hf|[[k Hf]|[Hm Hk]]].
    + rewrite (parse_compact_match _ _ _ Hs Hf) in Hp.
      apply parse_match_ok in Hp as (f & act & a & E & Ha & ->).
      injection E as <- ->. by constructor.
    + rewrite (parse_compact_kind k _ _ _ Hs Hf) in Hp.
      apply result_bind_ok in Hp as ([v a] & (f & w & act & E & Hv & Ha)%parse_kind_ok & [= <-]).
      injection E as <- ->. by econstructor.
    + by rewrite (parse_compact_unknown _ _ _ Hs Hm Hk) in Hp.
  - intros Hc. remember (trim q :: map trim qs) as parts eqn:E.
    destruct Hc as [f act a Hf Ha|k f v v' act a Hf Hv Ha].
    + rewrite (parse_compact_match _ _ _ Hs Hf), parse_match_ok. eauto 10.
    + rewrite (parse_compact_kind k _ _ _ Hs Hf), result_bind_ok.
      exists (v', a). split; [|done]. apply parse_kind_ok. eauto 10.
Qed.

(** ** Printing and parsing again *)

(** What [parse_compact] sees of a part: it has no comma and is trimmed. *)
Definition part_ok (p : rstr) : Prop := (44 ∉ p) ∧ trim p = p.

Lemma parts_ok s : Forall part_ok (map trim (str_split 44 s)).
Proof.
  apply Forall_fmap, Forall_forall. intros p Hp. split; [|apply trim_idemp].
  intros Hc%trim_elem. by eapply str_split_elem.
Qed.

Lemma part_ok_action a : part_ok (RuleAction_to_string a).
Proof. destruct a; (split; [vm_compute; set_solver|reflexivity]). Qed.

Lemma part_ok_kind k : part_ok (lit (kind_name k)).
Proof. destruct k; (split; [vm_compute; set_solver|reflexivity]). Qed.

Lemma action_spec_to_string a : action_spec (RuleAction_to_string a) a.
Proof. destruct a; vm_compute; set_solver. Qed.

Lemma clean_part v : clean v → part_ok v.
Proof.
  intros [_ Hc]. unfold bad_value_char in Hc. split.
  - intros Hin. specialize (Hc 44 Hin). done.
  - apply trim_no_ws. intros c Hin. by apply Hc, orb_false_elim in Hin as [? _].
Qed.

Lemma ascii_lower_dot c : (46 =? ascii_lower c) = (46 =? c).
Proof. unfold ascii_lower. case_match; lia. Qed.

Lemma trim_end_dots_lower s :
  trim_end_matches 46 (to_ascii_lowercase (trim_end_matches 46 s)) =
  to_ascii_lowercase (trim_end_matches 46 s).
Proof.
  apply drop_while_end_id. intros c t E.
  unfold to_ascii_lowercase in E. apply fmap_app_inv in E as (t1 & t2 & -> & Hc & E).
  destruct t2 as [|d [|]]; try done. injection Hc as ->.
  rewrite ascii_lower_dot. by eapply drop_while_end_last.
Qed.

(** The stored value is its own normal form. *)
Lemma value_spec_stored k v v' :
  part_ok v → value_spec k v v' → part_ok v' ∧ value_spec k v' v'.
Proof.
  intros Hp [Hv Hs].
  assert (∀ w, clean w → w ≠ []) as Hne by (by intros w []).
  destruct k; try (by subst v'); destruct Hs as [-> Hc];
    (split; [by apply clean_part|]); (split; [by apply Hne|]);
    rewrite (proj2 (clean_part _ Hc)).
  all: rewrite ?trim_end_dots_lower, ?to_ascii_lowercase_idemp, ?to_ascii_uppercase_idemp.
  all: done.
Qed.

Lemma split_field_text name v a :
  part_ok (lit name) → part_ok v →
  map trim (str_split 44 (show_field name v a)) = [lit name; v; RuleAction_to_string a].
Proof.
  intros [Hn1 Hn2] [Hv1 Hv2]. destruct (part_ok_action a) as [Ha1 Ha2].
  unfold show_field. change (lit ",") with [44]. simpl ([44] ++ _).
  rewrite str_split_app, str_split_app, str_split_none by done. simpl.
  by rewrite Hn2, Hv2, Ha2.
Qed.

Lemma Rule_to_string_kind k v a :
  Rule_to_string (kind_set k v (Rule_new a)) = show_field (kind_name k) v a.
Proof. by destruct k. Qed.

Lemma kind_name_upper k : to_ascii_uppercase (lit (kind_name k)) = lit (kind_name k).
Proof. by destruct k. Qed.

Lemma compact_spec_print parts r :
  Forall part_ok parts → compact_spec parts r → parse_compact (Rule_to_string r) = Ok r.
Proof.
  intros Hp Hc. apply parse_compact_correct.
  destruct Hc as [f act a Hf Ha|k f v v' act a Hf Hv Ha].
  - destruct a; by constructor; [|vm_compute; set_solver].
  - apply Forall_cons in Hp as [_ [Hpv _]%Forall_cons].
    destruct (value_spec_stored k v v' Hpv Hv) as [Hp' Hs].
    rewrite Rule_to_string_kind, split_field_text by (done || apply part_ok_kind).
    econstructor; [apply kind_name_upper|exact Hs|apply action_spec_to_string].
Qed.

Lemma parse_print_parse s r :
  parse_compact s = Ok r → parse_compact (Rule_to_string r) = Ok r.
Proof.
  intros Hp%parse_compact_correct. eapply compact_spec_print; [apply parts_ok|done].
Qed.

(** ** The shape of a parsed rule *)

(** The number of conditions a rule carries. *)
Definition opt_count (o : option rstr) : nat :=
  match o with Some _ => 1 | None => 0 end%nat.
Definition condition_count (r : Rule) : nat :=
  ((if match_all r then 1 else 0) + opt_count (src_ip_cidr r) + opt_count (dst_ip_cidr r)
   + opt_count (src_port r) + opt_count (dst_port r) + opt_count (proto r)
   + opt_count (domain r) + opt_count (domain_suffix r) + opt_count (domain_keyword r)
   + opt_count (geoip r))%nat.

Lemma compact_spec_single parts r : compact_spec parts r → condition_count r = 1%nat.
Proof. intros []; [done|]. by destruct k. Qed.

Lemma is_some_count o : is_some o = true ↔ (0 < opt_count o)%nat.
Proof. destruct o; simpl; split; (done || lia). Qed.

Lemma has_conditions_count r : has_conditions r = true ↔ (0 < condition_count r)%nat.
Proof.
  unfold has_conditions, condition_count. rewrite !orb_true_iff, !is_some_count.
  destruct (match_all r); intuition lia.
Qed.

(** * Properties *)

(** C11: The compact parser accepts exactly the documented grammar: a text is
    read as rule [r] iff its trimmed comma-separated parts are a [MATCH] pair
    or a (field, value, action) triple with a known field name in any case, a
    valid value and a known action word, and [r] is the rule they denote. *)
Theorem parse_compact_grammar s r :
  parse_compact s = Ok r ↔ compact_spec (map trim (str_split 44 s)) r.
Proof. apply parse_compact_correct. Qed.

(** C30: Printing a parsed rule and parsing the text again gives the same rule,
    so a configuration survives being saved and loaded. *)
Theorem rule_text_roundtrip s r :
  parse_compact s = Ok r → parse_compact (Rule_to_string r) = Ok r.
Proof. apply parse_print_parse. Qed.

(** A parsed rule carries exactly one condition, so the check for rules
    without conditions never rejects it. *)
Lemma parsed_rule_one_condition s r :
  parse_compact s = Ok r → condition_count r = 1%nat ∧ has_conditions r = true.
Proof.
  intros Hp%parse_compact_correct%compact_spec_single.
  split; [done|]. apply has_conditions_count. lia.
Qed.

(** ** The properties at concrete inputs *)

Lemma rule_text_roundtrip_witness :
  parse_compact (lit " domain-suffix , Example.COM. , drop") =
    Ok (set_domain_suffix (lit "example.com") (Rule_new Reject))
  ∧ parse_compact (lit "DOMAIN-SUFFIX,example.com,Reject") =
    Ok (set_domain_suffix (lit "example.com") (Rule_new Reject)).
Proof.
  split; [vm_compute; reflexivity|].
  apply (rule_text_roundtrip (lit " domain-suffix , Example.COM. , drop")
    (set_domain_suffix (lit "example.com") (Rule_new Reject))).
  vm_compute. reflexivity.
Defined.

