(* ===== verification/Config.v ===== *)
(** * Config: configuration data and its validation ([config.rs])

    The rules part ([RulesConfig], [validate], [parse_port_range], the
    compact-list deserializer), the DNS-server list, and the configuration
    records with their defaults.  YAML ([serde_yaml]) and CIDR parsing
    ([ipnetwork]) are third-party: the CIDR parser is the class [CidrLib]. *)

From S2P Require Import Prelude RStr Net Rule.

(** ** The CIDR library

    [ipnetwork::Ipv4Network]: [FromStr], its error text, and [contains].  The
    laws are the documented behaviour: a network is an address with a prefix
    length, and an address is contained when it agrees on the prefix. *)
Record Ipv4Network := mkNetwork { net_addr : Ipv4Addr; net_prefix : Z }.

Class CidrLib := {
  parse_network : rstr -> result rstr Ipv4Network;
  network_contains : Ipv4Network -> Ipv4Addr -> bool;
  parse_network_wf s n :
    parse_network s = Ok n → ipv4_wf (net_addr n) ∧ 0 ≤ net_prefix n ≤ 32;
  network_contains_spec n ip :
    ipv4_wf ip →
    network_contains n ip =
      (ipv4_to_u32 ip / 2 ^ (32 - net_prefix n) =?
       ipv4_to_u32 (net_addr n) / 2 ^ (32 - net_prefix n))
}.

(** ** Errors *)

Inductive ConfigError :=
| IoError (e : rstr)
| ParseError (e : rstr)
| ValidationError (msg : rstr)
| InvalidCidr (cidr : rstr)
| InvalidPortRange (range : rstr).

Definition ConfigError_to_string (e : ConfigError) : rstr :=
  match e with
  | IoError e => lit "failed to read file: " ++ e
  | ParseError e => lit "failed to parse YAML: " ++ e
  | ValidationError msg => lit "rule validation failed: " ++ msg
  | InvalidCidr cidr => lit "invalid CIDR notation: " ++ cidr
  | InvalidPortRange range => lit "invalid port range: " ++ range
  end.

(** ** Port ranges *)

Definition parse_port_range (s : rstr) : result rstr (Z * Z) :=
  if contains_char 45 s then
    match str_split 45 s with
    | [p0; p1] =>
        start ← ok_or (parse_u16 p0) (lit "invalid start port");
        stop ← ok_or (parse_u16 p1) (lit "invalid end port");
        if stop <? start then Err (lit "start port is greater than end port")
        else Ok (start, stop)
    | _ => Err (lit "invalid range format")
    end
  else
    port ← ok_or (parse_u16 s) (lit "invalid port");
    Ok (port, port).

(** ** [RulesConfig] *)

Record RulesConfig := mkRulesConfig {
  default_action : RuleAction;
  rules : list Rule;
  geoip_path : option rstr
}.

Definition RulesConfig_default : RulesConfig := mkRulesConfig Reject [] None.

Definition rule_label (index : nat) : rstr :=
  lit "rule at index " ++ show_uint (Z.of_nat index).

Definition validate_geoip_rule_value (rule_name value : rstr) : result ConfigError unit :=
  if is_empty value then
    Err (ValidationError (lit "rule '" ++ rule_name ++ lit "' has an empty GEOIP value"))
  else if existsb bad_value_char value then
    Err (ValidationError
      (lit "rule '" ++ rule_name ++ lit "' has an invalid GEOIP value: " ++ value))
  else Ok tt.

Definition validate_domain_rule_value (rule_name field value : rstr) : result ConfigError unit :=
  if is_empty value then
    Err (ValidationError
      (lit "rule '" ++ rule_name ++ lit "' has an empty " ++ field ++ lit " value"))
  else if existsb bad_value_char value then
    Err (ValidationError
      (lit "rule '" ++ rule_name ++ lit "' has an invalid " ++ field ++ lit " value: " ++ value))
  else Ok tt.

(** [if let Some(ref x) = field { check(x)? }] *)
Definition check_some {E} (o : option rstr) (check : rstr -> result E unit) : result E unit :=
  match o with Some x => check x | None => Ok tt end.

Section validate.
Context `{UnicodeLower, CidrLib}.

Definition check_cidr (label : rstr) (name : string) (cidr : rstr) : result ConfigError unit :=
  match parse_network cidr with
  | Ok _ => Ok tt
  | Err e => Err (InvalidCidr
      (label ++ lit " has an invalid " ++ lit name ++ lit ": " ++ cidr
       ++ lit " (" ++ e ++ lit ")"))
  end.

Definition check_port (label : rstr) (name : string) (port : rstr) : result ConfigError unit :=
  match parse_port_range port with
  | Ok _ => Ok tt
  | Err e => Err (InvalidPortRange
      (label ++ lit " has an invalid " ++ lit name ++ lit ": " ++ port
       ++ lit " (" ++ e ++ lit ")"))
  end.

Definition check_proto (label : rstr) (p : rstr) : result ConfigError unit :=
  match Protocol_from_str p with
  | Some _ => Ok tt
  | None => Err (ValidationError
      (label ++ lit " has an invalid PROTO: " ++ p ++ lit " (must be tcp/udp/icmp)"))
  end.

(** One iteration of the loop of [RulesConfig::validate]. *)
Definition validate_rule (index : nat) (r : Rule) : result ConfigError unit :=
  let label := rule_label index in
  if negb (has_conditions r)
  then Err (ValidationError (label ++ lit " has no match conditions"))
  else
    _ ← check_some (src_ip_cidr r) (check_cidr label "SRC-IP-CIDR");
    _ ← check_some (dst_ip_cidr r) (check_cidr label "DST-IP-CIDR");
    _ ← check_some (src_port r) (check_port label "SRC-PORT");
    _ ← check_some (dst_port r) (check_port label "DST-PORT");
    _ ← check_some (proto r) (check_proto label);
    _ ← check_some (domain r) (validate_domain_rule_value label (lit "DOMAIN"));
    _ ← check_some (domain_suffix r) (validate_domain_rule_value label (lit "DOMAIN-SUFFIX"));
    _ ← check_some (domain_keyword r) (validate_domain_rule_value label (lit "DOMAIN-KEYWORD"));
    check_some (geoip r) (validate_geoip_rule_value label).

Fixpoint validate_from (index : nat) (rs : list Rule) : result ConfigError unit :=
  match rs with
  | [] => Ok tt
  | r :: rs' => _ ← validate_rule index r; validate_from (S index) rs'
  end.

Definition validate (c : RulesConfig) : result ConfigError unit := validate_from 0 (rules c).
End validate.

(** [RulesConfigVisitor::visit_seq] on the strings of the YAML sequence. *)
Fixpoint visit_rules (raw : list rstr) : result rstr (list Rule) :=
  match raw with
  | [] => Ok []
  | s :: raw' => r ← parse_compact s; rs ← visit_rules raw'; Ok (r :: rs)
  end.
Definition RulesConfig_visit_seq (raw : list rstr) : result rstr RulesConfig :=
  rs ← visit_rules raw; Ok (mkRulesConfig Reject rs None).

(** [impl Serialize for RulesConfig]: the list of printed rules. *)
Definition RulesConfig_serialize (c : RulesConfig) : list rstr := map Rule_to_string (rules c).

(** [RulesConfig::from_yaml], given the YAML library's reading of the text as a
    sequence of strings. *)
Definition RulesConfig_from_yaml `{UnicodeLower, CidrLib}
    (yaml : rstr -> result rstr (list rstr)) (text : rstr) : result ConfigError RulesConfig :=
  raw ← map_err ParseError (yaml text);
  c ← map_err ParseError (RulesConfig_visit_seq raw);
  _ ← validate c;
  Ok c.

(** ** DNS servers *)

Fixpoint collect_results {E A B} (f : A -> result E B) (l : list A) : result E (list B) :=
  match l with
  | [] => Ok []
  | x :: l' => y ← f x; ys ← collect_results f l'; Ok (y :: ys)
  end.

Definition addr_parse_error : rstr := lit "invalid IP address syntax".

Definition parse_dns_servers (values : list rstr) : result rstr (list IpAddr) :=
  collect_results (λ v, ok_or (parse_ip v) addr_parse_error)
    (filter (λ v, is_empty v = false) (map trim values)).

(** The visitor of [deserialize_tun_dns_servers]: a string or a sequence. *)
Inductive DnsYaml := DnsStr (s : rstr) | DnsSeq (l : list rstr).
Fixpoint dns_visit_seq (l : list rstr) : result rstr (list IpAddr) :=
  match l with
  | [] => Ok []
  | v :: l' =>
      let v := trim v in
      if is_empty v then dns_visit_seq l'
      else
        a ← ok_or (parse_ip v) addr_parse_error;
        rest ← dns_visit_seq l';
        Ok (a :: rest)
  end.
Definition deserialize_tun_dns_servers (y : DnsYaml) : result rstr (list IpAddr) :=
  match y with
  | DnsStr s => parse_dns_servers (str_split 44 s)
  | DnsSeq l => dns_visit_seq l
  end.

(** * Lemmas *)

(** ** Port ranges *)

(** A port text denotes the closed interval [lo, hi]. *)
Inductive port_range_spec (s : rstr) (lo hi : Z) : Prop :=
| prs_single : (45 ∉ s) → parse_u16 s = Some lo → hi = lo → port_range_spec s lo hi
| prs_range a b :
    s = a ++ 45 :: b → (45 ∉ a) → (45 ∉ b) →
    parse_u16 a = Some lo → parse_u16 b = Some hi → lo ≤ hi → port_range_spec s lo hi.

Lemma str_split_pair sep s a b :
  str_split sep s = [a; b] ↔ s = a ++ sep :: b ∧ (sep ∉ a) ∧ (sep ∉ b).
Proof.
  split.
  - revert a b. induction s as [|c t IH]; intros a b; simpl; [done|].
    destruct (c =? sep) eqn:E.
    + apply Z.eqb_eq in E as ->. intros [= <- Hb].
      pose proof (str_split_elem sep t b) as Hnb. rewrite Hb in Hnb.
      assert (t = b) as ->.
      { clear IH. revert b Hb Hnb. induction t as [|d t IHt]; intros b; simpl; [naive_solver|].
        destruct (d =? sep); [destruct (str_split_cons sep t) as (?&?&->); done|].
        destruct (str_split_cons sep t) as (q&qs&Eq). rewrite Eq.
        intros [= <- ->] Hd. f_equal. apply IHt; [done|]. set_solver. }
      split; [done|]. split; [set_solver|]. apply Hnb. set_solver.
    + destruct (str_split_cons sep t) as (q & qs & Eq). rewrite Eq.
      intros [= <- ->]. destruct (IH q b Eq) as (-> & Ha & Hb).
      apply Z.eqb_neq in E. split; [done|]. split; [|done]. set_solver.
  - intros (-> & Ha & Hb). by rewrite str_split_app, str_split_none.
Qed.

Lemma parse_port_range_ok s lo hi :
  parse_port_range s = Ok (lo, hi) ↔ port_range_spec s lo hi.
Proof.
  unfold parse_port_range. destruct (contains_char 45 s) eqn:E.
  - apply contains_char_true in E. split.
    + destruct (str_split 45 s) as [|a [|b [|]]] eqn:Es; try done.
      apply str_split_pair in Es as (Hs & Ha & Hb).
      intros (l & Hl%ok_or_ok & (h & Hh%ok_or_ok & Hlt)%result_bind_ok)%result_bind_ok.
      destruct (h <? l) eqn:Hc; [done|]. injection Hlt as -> ->.
      eapply prs_range; try done. lia.
    + intros [Hn|a b -> Ha Hb Hl Hh Hle]; [done|].
      rewrite (proj2 (str_split_pair _ _ a b)) by done.
      rewrite Hl, Hh. simpl. by rewrite (proj2 (Z.ltb_ge _ _)).
  - apply contains_char_false in E. rewrite result_bind_ok. split.
    + intros (p & Hp%ok_or_ok & [= -> ->]). by apply prs_single.
    + intros [_ Hl ->|a b ->]; [exists lo; by rewrite Hl|]. set_solver.
Qed.

Lemma port_range_bounds s lo hi : port_range_spec s lo hi → 0 ≤ lo ≤ hi ∧ hi ≤ 65535.
Proof.
  assert (∀ t n, parse_u16 t = Some n → 0 ≤ n ≤ 65535) as Hb.
  { intros t n. apply parse_uint_range. done. }
  intros [_ Hl ->|a b _ _ _ Hl Hh Hle]; [apply Hb in Hl; lia|].
  apply Hb in Hl, Hh. lia.
Qed.

(** A range is written by printing its two bounds. *)
Definition show_port_range (lo hi : Z) : rstr := show_uint lo ++ lit "-" ++ show_uint hi.

Lemma no_dash_show n : 0 ≤ n → 45 ∉ show_uint n.
Proof.
  intros Hn Hin. pose proof (show_uint_digits n Hn) as Hd.
  rewrite Forall_forall in Hd. specialize (Hd 45 Hin). simpl in Hd. lia.
Qed.

Lemma parse_show_port_range lo hi :
  0 ≤ lo ≤ hi → hi ≤ 65535 → parse_port_range (show_port_range lo hi) = Ok (lo, hi).
Proof.
  intros Hlo Hhi. apply parse_port_range_ok.
  apply (prs_range _ _ _ (show_uint lo) (show_uint hi)); try done;
    try (apply no_dash_show; lia); try (apply parse_uint_show; unfold u16_max; lia). lia.
Qed.

(** ** Validation *)

Section validate_lemmas.
Context `{UnicodeLower, CidrLib}.

Definition opt_all (P : rstr -> Prop) (o : option rstr) : Prop :=
  match o with Some x => P x | None => True end.

(** What a rule must satisfy to pass [validate]. *)
Record rule_valid (r : Rule) : Prop := {
  rv_conditions : (0 < condition_count r)%nat;
  rv_src_cidr : opt_all (λ c, ∃ n, parse_network c = Ok n) (src_ip_cidr r);
  rv_dst_cidr : opt_all (λ c, ∃ n, parse_network c = Ok n) (dst_ip_cidr r);
  rv_src_port : opt_all (λ p, ∃ lo hi, port_range_spec p lo hi) (src_port r);
  rv_dst_port : opt_all (λ p, ∃ lo hi, port_range_spec p lo hi) (dst_port r);
  rv_proto : opt_all (λ p, is_Some (Protocol_from_str p)) (proto r);
  rv_domain : opt_all clean (domain r);
  rv_suffix : opt_all clean (domain_suffix r);
  rv_keyword : opt_all clean (domain_keyword r);
  rv_geoip : opt_all clean (geoip r)
}.

Lemma check_some_ok {E} o (check : rstr -> result E unit) (P : rstr -> Prop) :
  (∀ x, check x = Ok tt ↔ P x) → check_some o check = Ok tt ↔ opt_all P o.
Proof. intros HP. destruct o; simpl; [apply HP|done]. Qed.

Lemma check_cidr_ok label name c :
  check_cidr label name c = Ok tt ↔ ∃ n, parse_network c = Ok n.
Proof. unfold check_cidr. destruct (parse_network c); naive_solver. Qed.

Lemma check_port_ok label name p :
  check_port label name p = Ok tt ↔ ∃ lo hi, port_range_spec p lo hi.
Proof.
  unfold check_port. setoid_rewrite <- parse_port_range_ok.
  destruct (parse_port_range p) as [[lo hi]|]; naive_solver.
Qed.

Lemma check_proto_ok label p :
  check_proto label p = Ok tt ↔ is_Some (Protocol_from_str p).
Proof. unfold check_proto. destruct (Protocol_from_str p); naive_solver. Qed.

Lemma clean_checks v : (is_empty v = false ∧ existsb bad_value_char v = false) ↔ clean v.
Proof.
  rewrite is_empty_false. split.
  - intros [Hv Hb]. by apply existsb_bad_clean.
  - intros Hc. destruct Hc as [Hv Hb]. split; [done|]. by apply existsb_bad_clean.
Qed.

Lemma validate_domain_ok label field v :
  validate_domain_rule_value label field v = Ok tt ↔ clean v.
Proof.
  rewrite <- clean_checks. unfold validate_domain_rule_value.
  destruct (is_empty v), (existsb bad_value_char v); naive_solver.
Qed.

Lemma validate_geoip_ok label v : validate_geoip_rule_value label v = Ok tt ↔ clean v.
Proof.
  rewrite <- clean_checks. unfold validate_geoip_rule_value.
  destruct (is_empty v), (existsb bad_value_char v); naive_solver.
Qed.

Lemma validate_rule_ok i r : validate_rule i r = Ok tt ↔ rule_valid r.
Proof.
  unfold validate_rule. destruct (has_conditions r) eqn:Hc; simpl.
  - apply has_conditions_count in Hc. rewrite !unit_ok_bind.
    rewrite !(check_some_ok _ _ _ (check_cidr_ok _ _)), !(check_some_ok _ _ _ (check_port_ok _ _)),
      (check_some_ok _ _ _ (check_proto_ok _)), !(check_some_ok _ _ _ (validate_domain_ok _ _)),
      (check_some_ok _ _ _ (validate_geoip_ok _)).
    split; [intros; by constructor; tauto|]. by intros [].
  - split; [done|]. intros [Hv]. apply has_conditions_count in Hv. congruence.
Qed.

Lemma validate_from_ok i rs : validate_from i rs = Ok tt ↔ Forall rule_valid rs.
Proof.
  revert i. induction rs as [|r rs IH]; intros i; simpl; [naive_solver|].
  rewrite unit_ok_bind, validate_rule_ok, IH, Forall_cons. done.
Qed.

Lemma validate_from_err i rs e :
  validate_from i rs = Err e ↔
  ∃ pre r post, rs = pre ++ r :: post ∧ Forall rule_valid pre ∧
    validate_rule (i + length pre) r = Err e.
Proof.
  revert i. induction rs as [|r rs IH]; intros i; simpl.
  - split; [done|]. by intros ([] & ? & ? & ? & _).
  - destruct (validate_rule i r) as [[]|e'] eqn:E; simpl.
    + rewrite IH. split.
      * intros (pre & r' & post & -> & Hv & He). exists (r :: pre), r', post.
        split; [done|]. split; [constructor; [by eapply validate_rule_ok|done]|].
        simpl. by rewrite Nat.add_succ_r.
      * intros ([|r0 pre] & r' & post & Hs & Hv & He); simplify_eq/=.
        { rewrite Nat.add_0_r in He. congruence. }
        apply Forall_cons in Hv as [_ Hv]. exists pre, r', post.
        split; [done|]. split; [done|]. by rewrite Nat.add_succ_r in He.
    + split.
      * intros [= ->]. exists [], r, rs. split; [done|]. split; [constructor|].
        simpl. by rewrite Nat.add_0_r.
      * intros ([|r0 pre] & r' & post & Hs & Hv & He); simplify_eq/=.
        { rewrite Nat.add_0_r in He. congruence. }
        apply Forall_cons in Hv as [Hv%(validate_rule_ok i) _]. congruence.
Qed.

(** A rule that comes out of the parser can only fail for its CIDR, its port
    range or its protocol name. *)
Lemma compact_spec_valid parts r :
  compact_spec parts r →
  rule_valid r ↔
    opt_all (λ c, ∃ n, parse_network c = Ok n) (src_ip_cidr r)
    ∧ opt_all (λ c, ∃ n, parse_network c = Ok n) (dst_ip_cidr r)
    ∧ opt_all (λ p, ∃ lo hi, port_range_spec p lo hi) (src_port r)
    ∧ opt_all (λ p, ∃ lo hi, port_range_spec p lo hi) (dst_port r)
    ∧ opt_all (λ p, is_Some (Protocol_from_str p)) (proto r).
Proof.
  intros Hc. pose proof (compact_spec_single _ _ Hc) as Hn.
  assert (opt_all clean (domain r) ∧ opt_all clean (domain_suffix r)
    ∧ opt_all clean (domain_keyword r) ∧ opt_all clean (geoip r)) as (?&?&?&?).
  { destruct Hc as [|k f v v' act a _ [_ Hv] _]; [done|].
    destruct k; simpl in *; naive_solver. }
  split; [by intros []|]. intros (?&?&?&?&?). constructor; (done || lia).
Qed.
End validate_lemmas.

(** ** The rule list as text *)

Lemma visit_rules_serialize raw rs :
  visit_rules raw = Ok rs → visit_rules (map Rule_to_string rs) = Ok rs.
Proof.
  revert rs. induction raw as [|s raw IH]; intros rs; simpl; [by intros [= <-]|].
  intros (r & Hr & (rs' & Hrs & [= <-])%result_bind_ok)%result_bind_ok. simpl.
  by rewrite (parse_print_parse _ _ Hr), (IH _ Hrs).
Qed.

Lemma visit_rules_parsed raw rs :
  visit_rules raw = Ok rs → Forall (λ r, ∃ s, parse_compact s = Ok r) rs.
Proof.
  revert rs. induction raw as [|s raw IH]; intros rs; simpl; [by intros [= <-]|].
  intros (r & Hr & (rs' & Hrs & [= <-])%result_bind_ok)%result_bind_ok. eauto.
Qed.

Lemma dns_visit_seq_parse l : dns_visit_seq l = parse_dns_servers l.
Proof.
  unfold parse_dns_servers. induction l as [|v l IH]; simpl; [done|].
  destruct (is_empty (trim v)) eqn:E.
  - rewrite filter_cons_False by congruence. done.
  - rewrite filter_cons_True by done. simpl. by rewrite IH.
Qed.

(** A list whose entries all come from the parser prints to a list that reads
    back, and validation does not depend on the text. *)
Lemma from_yaml_ok `{UnicodeLower, CidrLib} yaml text c :
  RulesConfig_from_yaml yaml text = Ok c ↔
  ∃ raw rs, yaml text = Ok raw ∧ visit_rules raw = Ok rs ∧ c = mkRulesConfig Reject rs None
    ∧ Forall rule_valid rs.
Proof.
  unfold RulesConfig_from_yaml, RulesConfig_visit_seq, validate. split.
  - destruct (yaml text) as [raw|]; [simpl|done].
    destruct (visit_rules raw) as [rs|] eqn:Er; [simpl|done].
    intros [Hv [= <-]]%unit_ok_bind. apply validate_from_ok in Hv. eauto 10.
  - intros (raw & rs & -> & Hr & -> & Hv). simpl. rewrite Hr. simpl.
    apply (validate_from_ok 0) in Hv. by rewrite Hv.
Qed.

(** ** A concrete CIDR library

    [a.b.c.d/n], or an address alone for a [/32]. *)
Module TextCidr.

Definition text_parse (s : rstr) : result rstr Ipv4Network :=
  match str_split 47 s with
  | [a] => ok_or (ip ← parse_ipv4 a; Some (mkNetwork ip 32)) (lit "invalid address")
  | [a; n] =>
      ok_or (ip ← parse_ipv4 a; p ← parse_uint 32 n; Some (mkNetwork ip p)) (lit "invalid address")
  | _ => Err (lit "invalid address")
  end.
Definition text_contains (n : Ipv4Network) (ip : Ipv4Addr) : bool :=
  ipv4_to_u32 ip / 2 ^ (32 - net_prefix n) =? ipv4_to_u32 (net_addr n) / 2 ^ (32 - net_prefix n).

Lemma text_parse_wf s n :
  text_parse s = Ok n → ipv4_wf (net_addr n) ∧ 0 ≤ net_prefix n ≤ 32.
Proof.
  unfold text_parse. destruct (str_split 47 s) as [|a [|b [|]]]; try done.
  - intros (ip & Hip%parse_ipv4_wf & [= <-])%ok_or_ok%bind_Some. simpl. split; [done|lia].
  - intros (ip & Hip%parse_ipv4_wf & (p & Hp & [= <-])%bind_Some)%ok_or_ok%bind_Some.
    split; [done|]. by apply parse_uint_range in Hp.
Qed.

#[export] Instance text_cidr : CidrLib := {
  parse_network := text_parse;
  network_contains := text_contains;
  parse_network_wf := text_parse_wf;
  network_contains_spec n ip _ := eq_refl
}.
End TextCidr.

(** * Properties *)

Section properties.
Context `{UnicodeLower, CidrLib}.

(** C31: A rule list passes validation iff every rule has a condition, CIDR
    texts parse, port texts denote a range, the protocol is known, and domain
    and GEOIP values are non-empty without blanks, slashes or commas. *)
Theorem validate_accepts c : validate c = Ok tt ↔ Forall rule_valid (rules c).
Proof. apply validate_from_ok. Qed.

(** When validation fails, the error is that of the first invalid rule,
    labelled with its index. *)
Lemma validate_reports_first c e :
  validate c = Err e ↔
  ∃ pre r post, rules c = pre ++ r :: post ∧ Forall rule_valid pre
    ∧ validate_rule (length pre) r = Err e.
Proof. apply validate_from_err. Qed.

(** C32: A configuration that was loaded is loaded again from its own
    serialization, to the same value. *)
Theorem rules_config_roundtrip yaml text text' c :
  RulesConfig_from_yaml yaml text = Ok c → yaml text' = Ok (RulesConfig_serialize c) →
  RulesConfig_from_yaml yaml text' = Ok c.
Proof.
  intros (raw & rs & Hy & Hr & -> & Hv)%from_yaml_ok Hy'. apply from_yaml_ok.
  exists (map Rule_to_string rs), rs. split; [done|]. split; [by eapply visit_rules_serialize|done].
Qed.
End properties.

(** A port text is accepted with bounds [lo], [hi] iff it is one 16-bit
    decimal number or two joined by one dash in order; the bounds are 16-bit. *)
Lemma port_range_text s lo hi :
  (parse_port_range s = Ok (lo, hi) ↔ port_range_spec s lo hi)
  ∧ (parse_port_range s = Ok (lo, hi) → 0 ≤ lo ≤ hi ∧ hi ≤ 65535).
Proof.
  split; [apply parse_port_range_ok|]. intros Hp%parse_port_range_ok. by eapply port_range_bounds.
Qed.

(** The two accepted forms of the DNS server list, one comma-separated
    string or a sequence of its pieces, give the same addresses or error. *)
Lemma dns_forms_agree s :
  deserialize_tun_dns_servers (DnsStr s) = deserialize_tun_dns_servers (DnsSeq (str_split 44 s)).
Proof. simpl. by rewrite dns_visit_seq_parse. Qed.

(** ** The properties at concrete inputs *)

Import TextCidr.

(** A sequence of strings, one per line. *)
Definition line_yaml (text : rstr) : result rstr (list rstr) := Ok (str_split 10 text).

Definition sample_rules : RulesConfig :=
  mkRulesConfig Reject
    [set_dst_ip_cidr (lit "10.0.0.0/8") (Rule_new Direct); set_dst_port (lit "80-443") (Rule_new Proxy)]
    None.

Lemma rules_config_roundtrip_witness :
  RulesConfig_from_yaml line_yaml
    (lit "DST-IP-CIDR,10.0.0.0/8,Direct" ++ [10] ++ lit "DST-PORT,80-443,Proxy") = Ok sample_rules.
Proof.
  apply (rules_config_roundtrip line_yaml
    (lit "dst-ip-cidr, 10.0.0.0/8, direct" ++ [10] ++ lit "dst-port,80-443,PROXY"));
    vm_compute; reflexivity.
Defined.

Lemma port_range_text_witness :
  0 ≤ 80 ≤ 443 ∧ 443 ≤ 65535.
Proof. apply (port_range_text (lit "80-443")). vm_compute. reflexivity. Defined.

