(* ===== verification/AppConfig.v ===== *)
(** * AppConfig: the application configuration and its files ([config.rs])

    The configuration records with their defaults, and loading and saving them.
    The file system is a map from paths to contents with the permissions of the
    environment; YAML ([serde_yaml]) is the class [Yaml]. *)

From S2P Require Import Prelude RStr Net Rule Config.

Definition APP_CONFIG_PATH : rstr := lit "config/easynet.yaml".
Definition CLIENT_STATE_PATH : rstr := lit "config/client_state.yaml".

(** ** Records *)

Record RuntimeConfig := mkRuntimeConfig { rt_mode : rstr; rt_log_level : rstr }.
Definition RuntimeConfig_default : RuntimeConfig := mkRuntimeConfig (lit "client") (lit "info").

Record ClientConfig := mkClientConfig {
  cc_transport_type : rstr;
  cc_server_addr : SocketAddr;
  cc_ca_cert_path : rstr;
  cc_session_id : rstr;
  cc_token : rstr
}.
Definition localhost_12345 : SocketAddr :=
  SocketAddr_new (V4 (Ipv4Addr_new 127 0 0 1)) 12345.
Definition ClientConfig_default : ClientConfig :=
  mkClientConfig (lit "udp") localhost_12345 (lit "certs/ca-cert.pem") [] [].

Record ClientState := mkClientState { cs_session_id : rstr }.
Definition ClientState_default : ClientState := mkClientState [].

Record ServerConfig := mkServerConfig {
  sc_transport_type : rstr;
  sc_bind_addr : SocketAddr;
  sc_tun_name : rstr;
  sc_tun_addr : IpAddr;
  sc_tun_netmask : IpAddr;
  sc_tun_destination : IpAddr;
  sc_tun_dns_servers : list IpAddr;
  sc_tun_mtu : Z;
  sc_cert_path : rstr;
  sc_key_path : rstr;
  sc_token : rstr
}.
Definition ServerConfig_default : ServerConfig :=
  mkServerConfig (lit "udp") localhost_12345 (lit "tun0")
    (V4 (Ipv4Addr_new 10 0 0 1)) (V4 (Ipv4Addr_new 255 255 255 0)) (V4 (Ipv4Addr_new 10 0 0 0))
    [V4 (Ipv4Addr_new 114 114 114 114); V4 (Ipv4Addr_new 8 8 8 8)] 1400
    (lit "certs/server-cert.pem") (lit "certs/server-key.pem") [].

Record TransparentProxyConfig := mkTransparentProxyConfig {
  tp_interface : rstr;
  tp_smoltcp_addr : IpAddr;
  tp_smoltcp_netmask : IpAddr;
  tp_smoltcp_gateway : IpAddr;
  tp_upstream_server : option IpAddr
}.
Definition TransparentProxyConfig_default : TransparentProxyConfig :=
  mkTransparentProxyConfig [] (V4 (Ipv4Addr_new 10 0 0 2)) (V4 (Ipv4Addr_new 255 255 255 0))
    (V4 (Ipv4Addr_new 10 0 0 1)) None.

Record RuleSetConfig := mkRuleSetConfig { rsc_geoip_path : option rstr }.
Definition RuleSetConfig_default : RuleSetConfig := mkRuleSetConfig None.

Record AppConfig := mkAppConfig {
  app_runtime : RuntimeConfig;
  app_client : ClientConfig;
  app_server : ServerConfig;
  app_rules : RulesConfig;
  app_rule_sets : RuleSetConfig;
  app_transparent_proxy : TransparentProxyConfig
}.
Definition default_rules : RulesConfig := mkRulesConfig Reject [] None.
Definition AppConfig_default : AppConfig :=
  mkAppConfig RuntimeConfig_default ClientConfig_default ServerConfig_default default_rules
    RuleSetConfig_default TransparentProxyConfig_default.

(** [config.client.session_id = s] *)
Definition set_session_id (s : rstr) (c : ClientConfig) : ClientConfig :=
  mkClientConfig (cc_transport_type c) (cc_server_addr c) (cc_ca_cert_path c) s (cc_token c).
Definition set_client (cl : ClientConfig) (c : AppConfig) : AppConfig :=
  mkAppConfig (app_runtime c) cl (app_server c) (app_rules c) (app_rule_sets c)
    (app_transparent_proxy c).

Definition apply_rule_set_paths (c : AppConfig) : AppConfig :=
  mkAppConfig (app_runtime c) (app_client c) (app_server c)
    (mkRulesConfig (default_action (app_rules c)) (rules (app_rules c))
       (rsc_geoip_path (app_rule_sets c)))
    (app_rule_sets c) (app_transparent_proxy c).

(** ** Files *)

Record Fs := mkFs {
  fs_files : gmap rstr rstr;
  fs_readable : rstr -> bool;   (* reading the file succeeds *)
  fs_dir_ok : rstr -> bool;     (* creating the parent directory succeeds *)
  fs_writable : rstr -> bool    (* writing the file succeeds *)
}.

Definition path_exists (fs : Fs) (path : rstr) : bool := is_some (fs_files fs !! path).
Definition read_to_string (fs : Fs) (path : rstr) : result rstr rstr :=
  match fs_files fs !! path with
  | Some content => if fs_readable fs path then Ok content else Err (lit "read failed")
  | None => Err (lit "not found")
  end.
Definition create_parent_dir (fs : Fs) (path : rstr) : result rstr unit :=
  if fs_dir_ok fs path then Ok tt else Err (lit "create_dir_all failed").
Definition fs_write (fs : Fs) (path content : rstr) : result rstr Fs :=
  if fs_writable fs path then
    Ok (mkFs (<[path := content]> (fs_files fs)) (fs_readable fs) (fs_dir_ok fs) (fs_writable fs))
  else Err (lit "write failed").

Class Yaml := {
  app_from_str : rstr -> result rstr AppConfig;
  app_to_yaml : AppConfig -> result rstr rstr;
  state_from_str : rstr -> result rstr ClientState;
  state_to_yaml : ClientState -> result rstr rstr;
  state_roundtrip s t : state_to_yaml s = Ok t → state_from_str t = Ok s
}.

Section files.
Context `{Yaml}.

Definition save_to_file (self : AppConfig) (fs : Fs) (path : rstr) : result rstr Fs :=
  _ ← create_parent_dir fs path;
  content ← app_to_yaml self;
  fs_write fs path content.

Definition load_from_file (fs : Fs) (path : rstr) : result rstr (AppConfig * Fs) :=
  if negb (path_exists fs path) then
    fs' ← save_to_file AppConfig_default fs path;
    Ok (AppConfig_default, fs')
  else
    content ← read_to_string fs path;
    config ← app_from_str content;
    Ok (config, fs).

Definition load_client_state (fs : Fs) : result rstr ClientState :=
  if path_exists fs CLIENT_STATE_PATH then
    content ← read_to_string fs CLIENT_STATE_PATH;
    state_from_str content
  else Ok ClientState_default.

Definition save_client_state (fs : Fs) (state : ClientState) : result rstr Fs :=
  _ ← create_parent_dir fs CLIENT_STATE_PATH;
  content ← state_to_yaml state;
  fs_write fs CLIENT_STATE_PATH content.

Definition AppConfig_load (fs : Fs) : result rstr (AppConfig * Fs) :=
  '(config, fs') ← load_from_file fs APP_CONFIG_PATH;
  st ← load_client_state fs';
  let config := set_client (set_session_id (cs_session_id st) (app_client config)) config in
  Ok (apply_rule_set_paths config, fs').

Definition AppConfig_save (self : AppConfig) (fs : Fs) : result rstr Fs :=
  save_to_file self fs APP_CONFIG_PATH.

Definition ServerConfig_load (fs : Fs) : result rstr (ServerConfig * Fs) :=
  '(config, fs') ← AppConfig_load fs;
  Ok (app_server config, fs').

(** * Lemmas *)

Lemma fs_write_files fs p c fs' :
  fs_write fs p c = Ok fs' → fs_files fs' = <[p := c]> (fs_files fs)
  ∧ fs_readable fs' = fs_readable fs ∧ fs_dir_ok fs' = fs_dir_ok fs
  ∧ fs_writable fs' = fs_writable fs.
Proof. unfold fs_write. destruct (fs_writable fs p); [|done]. by intros [= <-]. Qed.

Lemma save_load_client_state fs st fs' :
  save_client_state fs st = Ok fs' → fs_readable fs CLIENT_STATE_PATH = true →
  load_client_state fs' = Ok st.
Proof.
  unfold save_client_state. intros [_ (t & Ht & Hw)%result_bind_ok]%unit_ok_bind Hr.
  apply fs_write_files in Hw as (Hf & Hr' & _).
  unfold load_client_state, path_exists, read_to_string.
  rewrite Hf, lookup_insert_eq, Hr', Hr. simpl. by apply state_roundtrip.
Qed.

Lemma app_client_apply c : app_client (apply_rule_set_paths c) = app_client c.
Proof. done. Qed.

Lemma AppConfig_load_ok fs c fs' :
  AppConfig_load fs = Ok (c, fs') →
  ∃ c0 st, load_from_file fs APP_CONFIG_PATH = Ok (c0, fs') ∧ load_client_state fs' = Ok st
    ∧ c = apply_rule_set_paths (set_client (set_session_id (cs_session_id st) (app_client c0)) c0).
Proof.
  unfold AppConfig_load. intros ([c0 fs0] & H0 & (st & Hst & [= <- <-])%result_bind_ok)%result_bind_ok.
  eauto.
Qed.

(** The client state file is independent of the application file. *)
Lemma paths_differ : APP_CONFIG_PATH ≠ CLIENT_STATE_PATH.
Proof. by vm_compute. Qed.

Lemma load_from_file_client_state fs c fs' :
  load_from_file fs APP_CONFIG_PATH = Ok (c, fs') → load_client_state fs' = load_client_state fs.
Proof.
  unfold load_from_file. destruct (negb _).
  - intros (f & Hs & [= <- <-])%result_bind_ok. unfold save_to_file in Hs.
    apply unit_ok_bind in Hs as [_ (t & _ & Hw)%result_bind_ok].
    apply fs_write_files in Hw as (Hf & Hr & _).
    unfold load_client_state, path_exists, read_to_string.
    by rewrite Hf, Hr, !lookup_insert_ne by apply paths_differ.
  - intros (t & _ & (c' & _ & [= _ <-])%result_bind_ok)%result_bind_ok. done.
Qed.
End files.

(** ** A concrete file format: a fixed configuration, the session id as text *)
Module PlainYaml.
Lemma plain_state (s : ClientState) (t : rstr) :
  Ok (E:=rstr) (cs_session_id s) = Ok t → Ok (E:=rstr) (mkClientState t) = Ok s.
Proof. destruct s. by intros [= <-]. Qed.

#[export] Instance plain_yaml : Yaml := {
  app_from_str _ := Ok AppConfig_default;
  app_to_yaml _ := Ok (lit "default");
  state_from_str t := Ok (mkClientState t);
  state_to_yaml s := Ok (cs_session_id s);
  state_roundtrip := plain_state
}.
End PlainYaml.

(** * Properties *)

(** A session id saved by the client is the session id of the next loaded
    configuration; the rest is what the configuration file says, with the GeoIP
    database path of the rule sets copied into the rules. *)
Lemma session_id_persists `{Yaml} fs fs1 fs2 sid c :
  save_client_state fs (mkClientState sid) = Ok fs1 →
  fs_readable fs CLIENT_STATE_PATH = true →
  AppConfig_load fs1 = Ok (c, fs2) →
  cc_session_id (app_client c) = sid
  ∧ ∃ c0, load_from_file fs1 APP_CONFIG_PATH = Ok (c0, fs2)
      ∧ app_server c = app_server c0 ∧ rules (app_rules c) = rules (app_rules c0)
      ∧ geoip_path (app_rules c) = rsc_geoip_path (app_rule_sets c0)
      ∧ cc_token (app_client c) = cc_token (app_client c0).
Proof.
  intros Hs Hr (c0 & st & Hf & Hst & ->)%AppConfig_load_ok.
  rewrite (load_from_file_client_state _ _ _ Hf), (save_load_client_state _ _ _ Hs Hr) in Hst.
  simplify_eq. eauto 10.
Qed.

(** When there is no configuration file, loading writes the default one and
    returns it; when there is one, loading changes no file. *)
Lemma load_from_file_effect `{Yaml} fs path c fs' :
  load_from_file fs path = Ok (c, fs') →
  (fs_files fs !! path = None ∧ c = AppConfig_default
   ∧ ∃ text, app_to_yaml AppConfig_default = Ok text ∧ fs_files fs' = <[path := text]> (fs_files fs))
  ∨ (∃ text, fs_files fs !! path = Some text ∧ app_from_str text = Ok c ∧ fs' = fs).
Proof.
  unfold load_from_file, path_exists, read_to_string, save_to_file.
  destruct (fs_files fs !! path) as [text|] eqn:E; simpl.
  - destruct (fs_readable fs path); [simpl|done].
    intros (c' & Hc & [= <- <-])%result_bind_ok. right. eauto.
  - intros (f & [_ (t & Ht & Hw)%result_bind_ok]%unit_ok_bind & [= <- <-])%result_bind_ok.
    apply fs_write_files in Hw as [Hw _]. left. eauto.
Qed.

(** ** The properties at concrete inputs *)

Import PlainYaml.

Definition sample_fs : Fs := mkFs ∅ (λ _, true) (λ _, true) (λ _, true).
Definition sample_fs1 : Fs :=
  mkFs {[CLIENT_STATE_PATH := lit "abc"]} (λ _, true) (λ _, true) (λ _, true).
Definition sample_fs2 : Fs :=
  mkFs (<[APP_CONFIG_PATH := lit "default"]> {[CLIENT_STATE_PATH := lit "abc"]})
    (λ _, true) (λ _, true) (λ _, true).

Lemma session_id_persists_witness :
  cc_session_id (set_session_id (lit "abc") ClientConfig_default) = lit "abc"
  ∧ ∃ c0, load_from_file sample_fs1 APP_CONFIG_PATH = Ok (c0, sample_fs2)
      ∧ ServerConfig_default = app_server c0 ∧ [] = rules (app_rules c0)
      ∧ None = rsc_geoip_path (app_rule_sets c0) ∧ [] = cc_token (app_client c0).
Proof.
  apply (session_id_persists sample_fs sample_fs1 sample_fs2 (lit "abc")
    (set_client (set_session_id (lit "abc") ClientConfig_default) AppConfig_default));
    reflexivity.
Defined.

