(* ===== verification/GeoIp.v ===== *)
(** * GeoIp: country matching ([rules/geoip.rs])

    The MaxMind database reader is third-party: its type, [open_readfile],
    [lookup] and [decode] are the fields of the class [GeoDb]. *)

From S2P Require Import Prelude RStr Net.

(** The three ISO codes of a decoded [geoip2::Country] record. *)
Record Country := mkCountry {
  country_iso : option rstr;
  registered_iso : option rstr;
  represented_iso : option rstr
}.

Class GeoDb := {
  reader : Type;
  lookup_result : Type;
  open_readfile : rstr -> result rstr reader;
  reader_lookup : reader -> IpAddr -> result rstr lookup_result;
  decode_country : lookup_result -> result rstr (option Country)
}.

Section geoip.
Context `{GeoDb}.

Record GeoIpMatcher := mkGeoIpMatcher { geo_reader : option reader }.

Definition GeoIpMatcher_load (config_path : option rstr) : GeoIpMatcher :=
  mkGeoIpMatcher
    (path ← config_path;
     if is_empty (trim path) then None else result_ok (open_readfile path)).

Definition GeoIpMatcher_without_database : GeoIpMatcher := mkGeoIpMatcher None.

Definition is_cgnat (ip : Ipv4Addr) : bool :=
  (oct0 ip =? 100) && ((64 <=? oct1 ip) && (oct1 ip <=? 127)).

Definition is_private_ip (ip : Ipv4Addr) : bool :=
  v4_is_private ip || v4_is_loopback ip || v4_is_link_local ip || v4_is_unspecified ip
  || v4_is_broadcast ip || v4_is_multicast ip || is_cgnat ip.

Definition GeoIpMatcher_matches (m : GeoIpMatcher) (ip : Ipv4Addr) (code : rstr) : bool :=
  if eq_ignore_ascii_case code (lit "PRIVATE") then is_private_ip ip
  else
    match geo_reader m with
    | None => false
    | Some rd =>
        match reader_lookup rd (V4 ip) with
        | Err _ => false
        | Ok res =>
            match decode_country res with
            | Ok (Some c) =>
                let code := to_ascii_uppercase code in
                bool_decide (country_iso c = Some code)
                || bool_decide (registered_iso c = Some code)
                || bool_decide (represented_iso c = Some code)
            | _ => false
            end
        end
    end.
End geoip.
Arguments GeoIpMatcher : clear implicits.
Arguments GeoIpMatcher {_}.

(** ** The documented private ranges, as CIDR blocks

    README, "GEOIP special codes", which lists the first seven blocks and "etc."; the
    last two, the unspecified and the broadcast address, are in the unit tests. *)
Record block := mkBlock { blk_base : Ipv4Addr; blk_len : Z }.
Definition in_block (ip : Ipv4Addr) (b : block) : Prop :=
  ipv4_to_u32 ip / 2 ^ (32 - blk_len b) = ipv4_to_u32 (blk_base b) / 2 ^ (32 - blk_len b).

Definition private_blocks : list block :=
  [ mkBlock (Ipv4Addr_new 10 0 0 0) 8; mkBlock (Ipv4Addr_new 172 16 0 0) 12;
    mkBlock (Ipv4Addr_new 192 168 0 0) 16; mkBlock (Ipv4Addr_new 127 0 0 0) 8;
    mkBlock (Ipv4Addr_new 169 254 0 0) 16; mkBlock (Ipv4Addr_new 224 0 0 0) 4;
    mkBlock (Ipv4Addr_new 100 64 0 0) 10; mkBlock (Ipv4Addr_new 0 0 0 0) 32;
    mkBlock (Ipv4Addr_new 255 255 255 255) 32 ].

(** * Lemmas *)

(** Membership in a block, by octets, for the block lengths above. *)
Ltac block_lia :=
  intros (?&?&?&?); unfold octet, in_block, ipv4_to_u32 in *; simpl in *;
  split; intros; div_lia.

Lemma in_block_4 ip :
  ipv4_wf ip → in_block ip (mkBlock (Ipv4Addr_new 224 0 0 0) 4) ↔ 224 ≤ oct0 ip ≤ 239.
Proof. block_lia. Qed.
Lemma in_block_8 ip x :
  ipv4_wf ip → in_block ip (mkBlock (Ipv4Addr_new x 0 0 0) 8) ↔ oct0 ip = x.
Proof. block_lia. Qed.
Lemma in_block_10 ip :
  ipv4_wf ip →
  in_block ip (mkBlock (Ipv4Addr_new 100 64 0 0) 10) ↔ oct0 ip = 100 ∧ 64 ≤ oct1 ip ≤ 127.
Proof. block_lia. Qed.
Lemma in_block_12 ip :
  ipv4_wf ip →
  in_block ip (mkBlock (Ipv4Addr_new 172 16 0 0) 12) ↔ oct0 ip = 172 ∧ 16 ≤ oct1 ip ≤ 31.
Proof. block_lia. Qed.
Lemma in_block_16 ip x y :
  ipv4_wf ip → octet y →
  in_block ip (mkBlock (Ipv4Addr_new x y 0 0) 16) ↔ oct0 ip = x ∧ oct1 ip = y.
Proof. intros Hwf Hy. revert Hwf. block_lia. Qed.
Lemma in_block_32 ip base :
  ipv4_wf ip → ipv4_wf base → in_block ip (mkBlock base 32) ↔ ip = base.
Proof.
  intros Hip Hb. unfold in_block. simpl (blk_len _). simpl (blk_base _).
  change (2 ^ (32 - 32)) with 1. rewrite !Z.div_1_r.
  split; [by apply ipv4_to_u32_inj|by intros ->].
Qed.

Lemma is_private_ip_blocks ip :
  ipv4_wf ip → is_private_ip ip = true ↔ Exists (in_block ip) private_blocks.
Proof.
  intros Hwf. unfold private_blocks. rewrite !Exists_cons, Exists_nil.
  rewrite in_block_4, !in_block_8, in_block_10, in_block_12, !in_block_16, !in_block_32
    by (done || (repeat split; simpl; lia)).
  unfold is_private_ip, v4_is_private, v4_is_loopback, v4_is_link_local, v4_is_unspecified,
    v4_is_broadcast, v4_is_multicast, is_cgnat.
  rewrite !orb_true_iff, !andb_true_iff, !bool_decide_eq_true, !Z.eqb_eq, !Z.leb_le. tauto.
Qed.

(** ** [matches] *)

Section matches.
Context `{GeoDb}.

Lemma geo_matches_private m ip code :
  to_ascii_lowercase code = lit "private" → GeoIpMatcher_matches m ip code = is_private_ip ip.
Proof.
  intros Hc. unfold GeoIpMatcher_matches, eq_ignore_ascii_case. by rewrite Hc.
Qed.

(** The codes a country record carries. *)
Definition country_codes (c : Country) : list rstr :=
  option_list (country_iso c) ++ option_list (registered_iso c) ++ option_list (represented_iso c).

Lemma bool_decide_Some_elem (o : option rstr) x :
  bool_decide (o = Some x) = true ↔ x ∈ option_list o.
Proof. rewrite bool_decide_eq_true. destruct o; simpl; set_solver. Qed.

Lemma geo_matches_country m ip code :
  to_ascii_lowercase code ≠ lit "private" →
  GeoIpMatcher_matches m ip code = true ↔
  ∃ rd res c, geo_reader m = Some rd ∧ reader_lookup rd (V4 ip) = Ok res
    ∧ decode_country res = Ok (Some c) ∧ to_ascii_uppercase code ∈ country_codes c.
Proof.
  intros Hc. unfold GeoIpMatcher_matches, eq_ignore_ascii_case.
  rewrite bool_decide_eq_false_2 by done.
  destruct (geo_reader m) as [rd|]; [|split; [done|by intros (?&?&?&?&_)]].
  destruct (reader_lookup rd (V4 ip)) as [res|] eqn:Hl;
    [|split; [done|intros (?&?&?&[= <-]&?&_); congruence]].
  destruct (decode_country res) as [[c|]|] eqn:Hd;
    [|split; [done|intros (?&?&?&[= <-]&?&?&_); congruence]..].
  rewrite !orb_true_iff, !bool_decide_Some_elem.
  assert (∀ x, x ∈ country_codes c ↔ (x ∈ option_list (country_iso c)
    ∨ x ∈ option_list (registered_iso c)) ∨ x ∈ option_list (represented_iso c)) as Hcodes
    by (intros x; unfold country_codes; rewrite !elem_of_app; tauto).
  rewrite <- Hcodes. split; [eauto 10|].
  intros (rd' & res' & c' & [= <-] & Hl' & Hd' & Hin).
  assert (res' = res) as -> by congruence. assert (c' = c) as -> by congruence. done.
Qed.
End matches.

(** ** A concrete database: a list of addresses with their records *)
Module ListDb.
#[export] Instance list_db : GeoDb := {|
  reader := list (IpAddr * Country);
  lookup_result := option Country;
  open_readfile p := if bool_decide (p = lit "cn.mmdb")
    then Ok [(V4 (Ipv4Addr_new 1 2 3 4), mkCountry (Some (lit "CN")) None None)]
    else Err (lit "not found");
  reader_lookup rd ip := Ok (kv ← list_find (λ kv, kv.1 = ip) rd; Some kv.2.2);
  decode_country o := Ok o
|}.
End ListDb.

(** * Properties *)

(** C37: [GEOIP,PRIVATE] matches an address iff it lies in one of the CIDR blocks
    the documentation lists as private, loopback, link-local, multicast,
    carrier-grade NAT, unspecified or broadcast, whatever the database. *)
Theorem geoip_private `{GeoDb} m ip code :
  ipv4_wf ip → to_ascii_lowercase code = lit "private" →
  GeoIpMatcher_matches m ip code = true ↔ Exists (in_block ip) private_blocks.
Proof. intros Hip Hc. rewrite geo_matches_private by done. by apply is_private_ip_blocks. Qed.

(** Any other code matches iff a database is open, the lookup and decoding
    succeed, and the code, upper-cased, is one of the country, registered
    country or represented country codes; every failure means no match. *)
Lemma geoip_country `{GeoDb} m ip code :
  to_ascii_lowercase code ≠ lit "private" →
  GeoIpMatcher_matches m ip code = true ↔
  ∃ rd res c, geo_reader m = Some rd ∧ reader_lookup rd (V4 ip) = Ok res
    ∧ decode_country res = Ok (Some c) ∧ to_ascii_uppercase code ∈ country_codes c.
Proof. apply geo_matches_country. Qed.

(** ** The properties at concrete inputs *)

Import ListDb.

Lemma geoip_private_witness :
  GeoIpMatcher_matches GeoIpMatcher_without_database (Ipv4Addr_new 100 100 0 1) (lit "Private") = true
  ↔ Exists (in_block (Ipv4Addr_new 100 100 0 1)) private_blocks.
Proof. apply geoip_private; [repeat split; simpl; lia|reflexivity]. Defined.

Lemma geoip_country_witness :
  GeoIpMatcher_matches (GeoIpMatcher_load (Some (lit "cn.mmdb"))) (Ipv4Addr_new 1 2 3 4) (lit "cn")
    = true
  ↔ ∃ rd res c, geo_reader (GeoIpMatcher_load (Some (lit "cn.mmdb"))) = Some rd
    ∧ reader_lookup rd (V4 (Ipv4Addr_new 1 2 3 4)) = Ok res
    ∧ decode_country res = Ok (Some c) ∧ to_ascii_uppercase (lit "cn") ∈ country_codes c.
Proof. apply geoip_country. vm_compute. discriminate. Defined.
