(* ===== verification/Context.v ===== *)
(** * Context: the packet fields the rules look at ([rules/context.rs])

    Packet slicing ([etherparse::SlicedPacket::from_ip]) is third-party: it is
    the parameter of the class [PacketSlicer], which returns the library's
    own view of the packet. *)

From S2P Require Import Prelude RStr Net Rule.

(** [etherparse]'s slices, as far as the sources inspect them. *)
Inductive NetSlice :=
| NetIpv4 (source destination : Ipv4Addr)
| NetOther.
Inductive TransportSlice :=
| TsTcp (source_port destination_port : Z)
| TsUdp (source_port destination_port : Z) (payload : bytes)
| TsIcmpv4
| TsIcmpv6.
Record SlicedPacket := mkSliced {
  sliced_net : option NetSlice;
  sliced_transport : option TransportSlice
}.

(** Addresses are four bytes of the packet, ports two, the payload a slice. *)
Definition slice_wf (p : SlicedPacket) : Prop :=
  match sliced_net p with Some (NetIpv4 s d) => ipv4_wf s ∧ ipv4_wf d | _ => True end
  ∧ match sliced_transport p with
    | Some (TsTcp s d) => 0 ≤ s < 2 ^ 16 ∧ 0 ≤ d < 2 ^ 16
    | Some (TsUdp s d payload) => 0 ≤ s < 2 ^ 16 ∧ 0 ≤ d < 2 ^ 16 ∧ Forall octet payload
    | _ => True
    end.

Class PacketSlicer := {
  slice_from_ip : bytes -> option SlicedPacket;
  slice_from_ip_wf data p : Forall octet data → slice_from_ip data = Some p → slice_wf p
}.

Record PacketContext := mkContext {
  ctx_src_ip : Ipv4Addr;
  ctx_dst_ip : Ipv4Addr;
  ctx_src_port : option Z;
  ctx_dst_port : option Z;
  ctx_protocol : Protocol;
  ctx_domains : list rstr
}.

Definition PacketContext_new (src dst : Ipv4Addr) (sp dp : option Z) (p : Protocol)
    : PacketContext := mkContext src dst sp dp p [].

Definition with_domains (c : PacketContext) (domains : list rstr) : PacketContext :=
  mkContext (ctx_src_ip c) (ctx_dst_ip c) (ctx_src_port c) (ctx_dst_port c)
    (ctx_protocol c) domains.

Definition from_ip_packet `{PacketSlicer} (data : bytes) : option PacketContext :=
  sliced ← slice_from_ip data;
  match sliced_net sliced with
  | Some (NetIpv4 src dst) =>
      match sliced_transport sliced with
      | None => Some (PacketContext_new src dst None None (Other 0))
      | Some (TsTcp sp dp) => Some (PacketContext_new src dst (Some sp) (Some dp) Tcp)
      | Some (TsUdp sp dp _) => Some (PacketContext_new src dst (Some sp) (Some dp) Udp)
      | Some TsIcmpv4 => Some (PacketContext_new src dst None None Icmp)
      | Some TsIcmpv6 => None
      end
  | _ => None
  end.

Definition port_to_string (p : option Z) : rstr :=
  match p with Some n => show_uint n | None => lit "-" end.

Definition PacketContext_to_string (c : PacketContext) : rstr :=
  ipv4_to_string (ctx_src_ip c) ++ lit ":" ++ port_to_string (ctx_src_port c) ++ lit " -> "
  ++ ipv4_to_string (ctx_dst_ip c) ++ lit ":" ++ port_to_string (ctx_dst_port c) ++ lit " ("
  ++ Protocol_to_string (ctx_protocol c) ++ lit ")".

(** * Lemmas *)

Section context_lemmas.
Context `{PacketSlicer}.

(** Ports are present exactly for TCP and UDP, and no domain is known yet. *)
Lemma from_ip_packet_shape data c :
  from_ip_packet data = Some c →
  ctx_domains c = [] ∧
  (is_Some (ctx_src_port c) ↔ ctx_protocol c = Tcp ∨ ctx_protocol c = Udp) ∧
  (is_Some (ctx_dst_port c) ↔ is_Some (ctx_src_port c)) ∧
  (∀ n, ctx_protocol c = Other n → n = 0).
Proof.
  unfold from_ip_packet. intros (sl & Hs & Hc)%bind_Some.
  destruct (sliced_net sl) as [[src dst|]|]; [|done..].
  destruct (sliced_transport sl) as [[]|]; simplify_eq/=;
    split_and!; try done; (split; naive_solver) || naive_solver.
Qed.

Definition context_wf (p : PacketContext) : Prop :=
  ipv4_wf (ctx_src_ip p) ∧ ipv4_wf (ctx_dst_ip p).

Lemma from_ip_packet_wf data c :
  Forall octet data → from_ip_packet data = Some c → context_wf c.
Proof.
  intros Ho. unfold from_ip_packet. intros (sl & Hs & Hc)%bind_Some.
  apply slice_from_ip_wf in Hs as [Hn _]; [|done].
  destruct (sliced_net sl) as [[src dst|]|]; [|done..].
  by destruct (sliced_transport sl) as [[]|]; simplify_eq/=.
Qed.
End context_lemmas.

(** ** A concrete slicer: IPv4 without options *)
Module PlainSlicer.

Definition be16 (a b : Z) : Z := a * 256 + b.

Definition plain_transport (proto : Z) (body : bytes) : option TransportSlice :=
  match body with
  | p0 :: p1 :: p2 :: p3 :: rest =>
      if (proto =? 6) && (16 <=? Z.of_nat (length rest)) then Some (TsTcp (be16 p0 p1) (be16 p2 p3))
      else if (proto =? 17) && (4 <=? Z.of_nat (length rest))
      then Some (TsUdp (be16 p0 p1) (be16 p2 p3) (drop 4 rest))
      else if proto =? 1 then Some TsIcmpv4
      else None
  | _ => None
  end.

Definition plain_slice (data : bytes) : option SlicedPacket :=
  match data with
  | 69 :: _ :: _ :: _ :: _ :: _ :: _ :: _ :: _ :: proto :: _ :: _
    :: s0 :: s1 :: s2 :: s3 :: d0 :: d1 :: d2 :: d3 :: body =>
      Some (mkSliced (Some (NetIpv4 (Ipv4Addr_new s0 s1 s2 s3) (Ipv4Addr_new d0 d1 d2 d3)))
        (plain_transport proto body))
  | _ => None
  end.

Lemma plain_transport_wf proto body net :
  match net with Some (NetIpv4 s d) => ipv4_wf s ∧ ipv4_wf d | _ => True end →
  Forall octet body → slice_wf (mkSliced net (plain_transport proto body)).
Proof.
  intros Hn Ho. split; [done|]. destruct body as [|p0 [|p1 [|p2 [|p3 rest]]]]; simpl; try done.
  do 4 (apply Forall_cons in Ho as [? Ho]). unfold be16, octet in *.
  destruct (_ && _); simpl; [lia|]. destruct (_ && _); simpl.
  - split; [lia|]. split; [lia|]. by apply Forall_drop.
  - by destruct (proto =? 1).
Qed.

Lemma plain_slice_wf data p : Forall octet data → plain_slice data = Some p → slice_wf p.
Proof.
  intros Ho. unfold plain_slice.
  destruct data as [|v data]; [done|].
  do 19 (destruct data as [|? data]; [repeat case_match; done|]).
  intros Hp. assert (Forall octet data) as Hd by (by do 20 (apply Forall_cons in Ho as [_ Ho])).
  do 12 (apply Forall_cons in Ho as [_ Ho]). do 8 (apply Forall_cons in Ho as [? Ho]).
  repeat case_match; simplify_eq. by apply plain_transport_wf.
Qed.

#[export] Instance plain_slicer : PacketSlicer := {
  slice_from_ip := plain_slice;
  slice_from_ip_wf := plain_slice_wf
}.
End PlainSlicer.

