(* ===== verification/Engine.v ===== *)
(** * Engine: rule matching ([rules/matcher.rs], [rules/engine.rs])

    [Matcher_matches] follows the guard chain of [Matcher::matches],
    [match_packet] the first-match loop of [RulesEngine].  [rule_denotes] is
    the declarative meaning of a rule and [first_match] that of a rule list;
    the theorems say that an engine built by [from_config] computes them. *)

From S2P Require Import Prelude RStr Net Rule Config GeoIp Context.

Section engine.
Context `{UnicodeLower, CidrLib, GeoDb}.

(** ** [rules/matcher.rs] *)

Definition matches_ip (cidr : rstr) (ip : Ipv4Addr) : bool :=
  match parse_network cidr with
  | Ok network => network_contains network ip
  | Err _ => bool_decide (parse_ipv4 cidr = Some ip)
  end.

Definition matches_port (port_spec : rstr) (packet_port : option Z) : bool :=
  match packet_port with
  | None => false
  | Some port =>
      match parse_port_range port_spec with
      | Ok (start, stop) => (start <=? port) && (port <=? stop)
      | Err _ => false
      end
  end.

Definition matches_protocol (proto_str : rstr) (packet_proto : Protocol) : bool :=
  match Protocol_from_str proto_str with
  | Some p => bool_decide (p = packet_proto)
  | None => false
  end.

Definition matches_domain (d : rstr) (packet_domains : list rstr) : bool :=
  existsb (λ value, bool_decide (value = d)) packet_domains.

Definition matches_domain_suffix (suffix : rstr) (packet_domains : list rstr) : bool :=
  existsb (λ value, bool_decide (value = suffix) || ends_with (lit "." ++ suffix) value)
    packet_domains.

Definition matches_domain_keyword (keyword : rstr) (packet_domains : list rstr) : bool :=
  existsb (λ value, contains keyword value) packet_domains.

(** [if let Some(ref v) = field { if !test(v) { return false; } }] *)
Definition fails (o : option rstr) (test : rstr -> bool) : bool :=
  match o with Some v => negb (test v) | None => false end.

Definition Matcher_matches (r : Rule) (packet : PacketContext) (g : GeoIpMatcher) : bool :=
  if fails (src_ip_cidr r) (λ v, matches_ip v (ctx_src_ip packet)) then false
  else if fails (dst_ip_cidr r) (λ v, matches_ip v (ctx_dst_ip packet)) then false
  else if fails (src_port r) (λ v, matches_port v (ctx_src_port packet)) then false
  else if fails (dst_port r) (λ v, matches_port v (ctx_dst_port packet)) then false
  else if fails (proto r) (λ v, matches_protocol v (ctx_protocol packet)) then false
  else if fails (domain r) (λ v, matches_domain v (ctx_domains packet)) then false
  else if fails (domain_suffix r) (λ v, matches_domain_suffix v (ctx_domains packet)) then false
  else if fails (domain_keyword r) (λ v, matches_domain_keyword v (ctx_domains packet)) then false
  else if fails (geoip r) (λ v, GeoIpMatcher_matches g (ctx_dst_ip packet) v) then false
  else true.

(** ** [rules/engine.rs] *)

Record RulesEngine := mkEngine { eng_rules : list Rule; eng_geoip : GeoIpMatcher }.

Definition RulesEngine_from_config (c : RulesConfig) : result ConfigError RulesEngine :=
  _ ← validate c;
  Ok (mkEngine (rules c) (GeoIpMatcher_load (geoip_path c))).

(** [RulesEngine::from_file], given the file's text or the error reading it. *)
Definition RulesEngine_from_file (yaml : rstr -> result rstr (list rstr))
    (content : result rstr rstr) : result ConfigError RulesEngine :=
  text ← map_err IoError content;
  c ← RulesConfig_from_yaml yaml text;
  RulesEngine_from_config c.

Fixpoint match_rules (rs : list Rule) (packet : PacketContext) (g : GeoIpMatcher) : RuleAction :=
  match rs with
  | [] => Direct
  | r :: rs' => if Matcher_matches r packet g then action r else match_rules rs' packet g
  end.

Definition match_packet (e : RulesEngine) (packet : PacketContext) : RuleAction :=
  match_rules (eng_rules e) packet (eng_geoip e).

Definition rule_count (e : RulesEngine) : nat := length (eng_rules e).

(** ** The meaning of a rule *)

Definition in_network (n : Ipv4Network) (ip : Ipv4Addr) : Prop :=
  ipv4_to_u32 ip / 2 ^ (32 - net_prefix n) = ipv4_to_u32 (net_addr n) / 2 ^ (32 - net_prefix n).

Definition cidr_denotes (cidr : rstr) (ip : Ipv4Addr) : Prop :=
  ∃ n, parse_network cidr = Ok n ∧ in_network n ip.
Definition port_denotes (spec : rstr) (port : option Z) : Prop :=
  ∃ lo hi p, port_range_spec spec lo hi ∧ port = Some p ∧ lo ≤ p ≤ hi.
Definition proto_denotes (word : rstr) (p : Protocol) : Prop :=
  (to_ascii_lowercase word = lit "tcp" ∧ p = Tcp)
  ∨ (to_ascii_lowercase word = lit "udp" ∧ p = Udp)
  ∨ (to_ascii_lowercase word = lit "icmp" ∧ p = Icmp).
(** A name is under a suffix when its label sequence ends with it. *)
Definition under_suffix (suffix name : rstr) : Prop :=
  name = suffix ∨ ∃ labels, name = labels ++ lit "." ++ suffix.

Definition rule_denotes (r : Rule) (g : GeoIpMatcher) (p : PacketContext) : Prop :=
  opt_all (λ c, cidr_denotes c (ctx_src_ip p)) (src_ip_cidr r)
  ∧ opt_all (λ c, cidr_denotes c (ctx_dst_ip p)) (dst_ip_cidr r)
  ∧ opt_all (λ s, port_denotes s (ctx_src_port p)) (src_port r)
  ∧ opt_all (λ s, port_denotes s (ctx_dst_port p)) (dst_port r)
  ∧ opt_all (λ w, proto_denotes w (ctx_protocol p)) (proto r)
  ∧ opt_all (λ d, d ∈ ctx_domains p) (domain r)
  ∧ opt_all (λ d, ∃ n, n ∈ ctx_domains p ∧ under_suffix d n) (domain_suffix r)
  ∧ opt_all (λ k, ∃ n a b, n ∈ ctx_domains p ∧ n = a ++ k ++ b) (domain_keyword r)
  ∧ opt_all (λ c, GeoIpMatcher_matches g (ctx_dst_ip p) c = true) (geoip r).

(** First match wins; with no match the packet goes direct. *)
Inductive first_match (g : GeoIpMatcher) (p : PacketContext) : list Rule -> RuleAction -> Prop :=
| fm_hit pre r post :
    Forall (λ q, ¬ rule_denotes q g p) pre → rule_denotes r g p →
    first_match g p (pre ++ r :: post) (action r)
| fm_none rs : Forall (λ q, ¬ rule_denotes q g p) rs → first_match g p rs Direct.

(** * Lemmas *)

Lemma fails_false o test (P : rstr -> Prop) :
  (∀ v, o = Some v → test v = true ↔ P v) → fails o test = false ↔ opt_all P o.
Proof.
  intros HP. destruct o as [v|]; simpl; [|done].
  rewrite negb_false_iff. by apply HP.
Qed.

Lemma matches_chain r p g :
  Matcher_matches r p g = true ↔
  fails (src_ip_cidr r) (λ v, matches_ip v (ctx_src_ip p)) = false
  ∧ fails (dst_ip_cidr r) (λ v, matches_ip v (ctx_dst_ip p)) = false
  ∧ fails (src_port r) (λ v, matches_port v (ctx_src_port p)) = false
  ∧ fails (dst_port r) (λ v, matches_port v (ctx_dst_port p)) = false
  ∧ fails (proto r) (λ v, matches_protocol v (ctx_protocol p)) = false
  ∧ fails (domain r) (λ v, matches_domain v (ctx_domains p)) = false
  ∧ fails (domain_suffix r) (λ v, matches_domain_suffix v (ctx_domains p)) = false
  ∧ fails (domain_keyword r) (λ v, matches_domain_keyword v (ctx_domains p)) = false
  ∧ fails (geoip r) (λ v, GeoIpMatcher_matches g (ctx_dst_ip p) v) = false.
Proof. unfold Matcher_matches. repeat case_match; split; (done || naive_solver). Qed.

Lemma matches_ip_denotes c ip :
  ipv4_wf ip → (∃ n, parse_network c = Ok n) → matches_ip c ip = true ↔ cidr_denotes c ip.
Proof.
  intros Hip [n Hn]. unfold matches_ip, cidr_denotes, in_network. rewrite Hn.
  rewrite network_contains_spec, Z.eqb_eq by done. split; [eauto|].
  intros (m & [= <-] & Hm). done.
Qed.

Lemma matches_port_denotes s port : matches_port s port = true ↔ port_denotes s port.
Proof.
  unfold matches_port, port_denotes. setoid_rewrite <- parse_port_range_ok.
  destruct port as [p|]; [|naive_solver].
  destruct (parse_port_range s) as [[lo hi]|]; [|naive_solver].
  rewrite andb_true_iff, !Z.leb_le. split.
  - intros. by exists lo, hi, p.
  - intros (? & ? & ? & [= <- <-] & [= <-] & ?). done.
Qed.

Lemma Protocol_from_str_ascii s p :
  Protocol_from_str s = Some p ↔ proto_denotes s p.
Proof.
  assert (∀ w, w ∈ [lit "tcp"; lit "udp"; lit "icmp"] →
    to_lowercase s = w ↔ to_ascii_lowercase s = w) as Hl.
  { intros w Hw. apply to_lowercase_ascii_iff.
    assert (forallb (λ w, forallb (λ c, (c <? 128) && negb (c =? 107)) w)
      [lit "tcp"; lit "udp"; lit "icmp"] = true) as Hb by reflexivity.
    rewrite forallb_forall in Hb. apply list_elem_of_In, Hb in Hw.
    rewrite forallb_forall in Hw. apply Forall_forall. intros c Hc%list_elem_of_In%Hw. lia. }
  unfold Protocol_from_str, proto_denotes. rewrite <- !Hl by set_solver.
  repeat case_bool_decide; (split; [intros [= <-]; tauto|]);
    intros [[? ->]|[[? ->]|[? ->]]]; done || congruence || lit_clash.
Qed.

Lemma matches_protocol_denotes s p : matches_protocol s p = true ↔ proto_denotes s p.
Proof.
  unfold matches_protocol. destruct (Protocol_from_str s) as [q|] eqn:E.
  - rewrite bool_decide_eq_true. apply Protocol_from_str_ascii in E.
    split; [by intros <-|]. intros Hp. apply Protocol_from_str_ascii in E, Hp. congruence.
  - split; [done|]. intros Hp%Protocol_from_str_ascii. congruence.
Qed.

Lemma existsb_elem (P : rstr -> bool) (l : list rstr) :
  existsb P l = true ↔ ∃ x, x ∈ l ∧ P x = true.
Proof. rewrite existsb_exists. by setoid_rewrite list_elem_of_In. Qed.

Lemma matches_domain_denotes d ds : matches_domain d ds = true ↔ d ∈ ds.
Proof.
  unfold matches_domain. rewrite existsb_elem. setoid_rewrite bool_decide_eq_true.
  naive_solver.
Qed.

Lemma matches_suffix_denotes d ds :
  matches_domain_suffix d ds = true ↔ ∃ n, n ∈ ds ∧ under_suffix d n.
Proof.
  unfold matches_domain_suffix, under_suffix. rewrite existsb_elem.
  by setoid_rewrite orb_true_iff; setoid_rewrite bool_decide_eq_true;
    setoid_rewrite ends_with_true.
Qed.

Lemma matches_keyword_denotes k ds :
  matches_domain_keyword k ds = true ↔ ∃ n a b, n ∈ ds ∧ n = a ++ k ++ b.
Proof.
  unfold matches_domain_keyword. rewrite existsb_elem. setoid_rewrite contains_true.
  naive_solver.
Qed.

(** A validated rule matches exactly the packets it denotes. *)
Lemma matches_denotes r p g :
  rule_valid r → context_wf p → Matcher_matches r p g = true ↔ rule_denotes r g p.
Proof.
  intros Hv [Hs Hd]. rewrite matches_chain. unfold rule_denotes.
  destruct Hv as [_ Hsc Hdc _ _ _ _ _ _ _].
  rewrite (fails_false (src_ip_cidr r) _ (λ c, cidr_denotes c (ctx_src_ip p)));
    [|intros v Hv; rewrite Hv in Hsc; by apply matches_ip_denotes].
  rewrite (fails_false (dst_ip_cidr r) _ (λ c, cidr_denotes c (ctx_dst_ip p)));
    [|intros v Hv; rewrite Hv in Hdc; by apply matches_ip_denotes].
  rewrite (fails_false _ _ _ (λ v _, matches_port_denotes v (ctx_src_port p))),
    (fails_false _ _ _ (λ v _, matches_port_denotes v (ctx_dst_port p))),
    (fails_false _ _ _ (λ v _, matches_protocol_denotes v _)),
    (fails_false _ _ _ (λ v _, matches_domain_denotes v _)),
    (fails_false _ _ _ (λ v _, matches_suffix_denotes v _)),
    (fails_false _ _ _ (λ v _, matches_keyword_denotes v _)).
  rewrite (fails_false (geoip r) _ (λ c, GeoIpMatcher_matches g (ctx_dst_ip p) c = true)) by done.
  done.
Qed.

Lemma match_rules_first_match rs p g a :
  Forall rule_valid rs → context_wf p → match_rules rs p g = a ↔ first_match g p rs a.
Proof.
  intros Hv Hp. split.
  - intros <-. induction Hv as [|r rs Hr Hrs IH]; simpl; [by apply fm_none|].
    destruct (Matcher_matches r p g) eqn:Em.
    + apply matches_denotes in Em; [|done..]. by apply (fm_hit _ _ []).
    + assert (¬ rule_denotes r g p) as Hn.
      { rewrite <- matches_denotes by done. congruence. }
      destruct IH as [pre r' post Hpre Hr'|rs Hrs'].
      * apply (fm_hit _ _ (r :: pre)); [by constructor|done].
      * apply fm_none. by constructor.
  - assert (∀ r, rule_valid r → ¬ rule_denotes r g p → Matcher_matches r p g = false) as Hno.
    { intros r Hr Hn. apply not_true_iff_false. by rewrite matches_denotes. }
    intros Hf. revert Hv. destruct Hf as [pre r post Hpre Hr|rs' Hrs]; intros Hv.
    + apply Forall_app in Hv as [Hv1 [Hvr _]%Forall_cons].
      induction Hpre as [|q pre Hq Hpre IH]; simpl.
      * apply matches_denotes in Hr; [|done..]. by rewrite Hr.
      * apply Forall_cons in Hv1 as [Hvq Hv1]. rewrite Hno by done. auto.
    + induction Hrs as [|q rs' Hq Hrs IH]; simpl; [done|].
      apply Forall_cons in Hv as [Hvq Hv]. rewrite Hno by done. auto.
Qed.

Lemma from_config_ok c e :
  RulesEngine_from_config c = Ok e ↔
  Forall rule_valid (rules c) ∧ e = mkEngine (rules c) (GeoIpMatcher_load (geoip_path c)).
Proof.
  unfold RulesEngine_from_config, validate. rewrite unit_ok_bind, validate_from_ok. naive_solver.
Qed.
End engine.

(** * Properties *)

(** C3: An engine built from a configuration gives a packet action [a] iff [a]
    is the action of the first rule whose declared meaning covers the packet,
    or [Direct] when no rule does. *)
Theorem engine_first_match `{UnicodeLower, CidrLib, GeoDb} c e p a :
  RulesEngine_from_config c = Ok e → context_wf p →
  match_packet e p = a ↔ first_match (eng_geoip e) p (rules c) a.
Proof. intros [Hv ->]%from_config_ok Hp. by apply match_rules_first_match. Qed.

(** The configured default action has no effect on any decision: two
    configurations that differ only in it build the same engine (and a packet
    no rule matches is sent direct even when the default is [Reject]). *)
Lemma default_action_unused `{UnicodeLower, CidrLib, GeoDb} d1 d2 rs path :
  RulesEngine_from_config (mkRulesConfig d1 rs path) =
  RulesEngine_from_config (mkRulesConfig d2 rs path)
  ∧ ∀ p, RulesEngine_from_config (mkRulesConfig Reject [] path) =
           Ok (mkEngine [] (GeoIpMatcher_load path))
         ∧ match_packet (mkEngine [] (GeoIpMatcher_load path)) p = Direct.
Proof. done. Qed.

(** ** The properties at concrete inputs *)

Import TextCidr ListDb.

Definition sample_context : PacketContext :=
  PacketContext_new (Ipv4Addr_new 10 0 0 2) (Ipv4Addr_new 8 8 8 8) (Some 5000) (Some 443) Tcp.

Lemma engine_first_match_witness :
  match_packet (mkEngine (rules sample_rules) (GeoIpMatcher_load None)) sample_context = Proxy
  ↔ first_match (GeoIpMatcher_load None) sample_context (rules sample_rules) Proxy.
Proof.
  apply (engine_first_match sample_rules (mkEngine (rules sample_rules) (GeoIpMatcher_load None)));
    [vm_compute; reflexivity|repeat split; simpl; lia].
Defined.
