(* ===== verification/DomainCache.v ===== *)
(** * DomainCache: names learnt from DNS answers ([rules/domain_cache.rs])

    The cache maps an address to the names that resolved to it, each with an
    expiry instant.  Instants and durations are integers (nanoseconds); every
    [Instant::now()] is an argument.  DNS parsing ([hickory_proto]) is the class
    [DnsLib], packet slicing the class [PacketSlicer]. *)

From S2P Require Import Prelude RStr Net Rule Context.

(** The parts of a [hickory_proto] message the sources read. *)
Inductive RData := RData_A (addr : Ipv4Addr) | RData_Other.
Record DnsAnswer := mkAnswer { ans_name : rstr; ans_ttl : Z; ans_data : RData }.
Record DnsMessage := mkDnsMessage { dns_is_response : bool; dns_answers : list DnsAnswer }.

Class DnsLib := dns_from_vec : bytes -> option DnsMessage.

(** ** State and operations *)

Record DomainEntry := mkEntry { ent_domain : rstr; expires_at : Z }.

Record DomainCache := mkCache { entries : gmap Ipv4Addr (list DomainEntry) }.

Definition DomainCache_new : DomainCache := mkCache ∅.

Definition normalize_domain (value : rstr) : option rstr :=
  let value := to_ascii_lowercase (trim_end_matches 46 (trim value)) in
  if is_empty value then None else Some value.

(** [iter_mut().find(|e| e.domain == domain)] then assign, else [push]. *)
Fixpoint upsert (es : list DomainEntry) (d : rstr) (t : Z) : list DomainEntry :=
  match es with
  | [] => [mkEntry d t]
  | e :: es =>
      if bool_decide (ent_domain e = d) then mkEntry (ent_domain e) t :: es
      else e :: upsert es d t
  end.

Definition cache_insert (now : Z) (c : DomainCache) (ip : Ipv4Addr) (name : rstr) (ttl : Z)
    : DomainCache :=
  if ttl =? 0 then c
  else
    match normalize_domain name with
    | None => c
    | Some d =>
        let es := default [] (entries c !! ip) in
        mkCache (<[ip := upsert es d (now + ttl)]> (entries c))
    end.

Definition live (now : Z) (e : DomainEntry) : bool := now <? expires_at e.

Definition cache_lookup (now : Z) (c : DomainCache) (ip : Ipv4Addr) : DomainCache * list rstr :=
  match entries c !! ip with
  | None => (c, [])
  | Some es =>
      let es := List.filter (live now) es in
      let domains := map ent_domain es in
      (mkCache (match es with [] => delete ip (entries c) | _ => <[ip := es]> (entries c) end),
       domains)
  end.

Definition dns_response_payload `{PacketSlicer} (packet : bytes) : option bytes :=
  sliced ← slice_from_ip packet;
  match sliced_transport sliced with
  | Some (TsUdp source_port _ payload) =>
      if negb (source_port =? 53) then None else Some payload
  | _ => None
  end.

Definition secs (n : Z) : Z := n * 1000000000.

(** The loop over the answers; the insertion of the [i]-th answer reads the
    clock as [clock i]. *)
Fixpoint observe_answers (clock : nat -> Z) (i : nat) (c : DomainCache) (l : list DnsAnswer)
    : DomainCache :=
  match l with
  | [] => c
  | a :: l' =>
      let c' :=
        match ans_data a with
        | RData_A addr => cache_insert (clock i) c addr (ans_name a) (secs (ans_ttl a))
        | RData_Other => c
        end in
      observe_answers clock (S i) c' l'
  end.

Definition observe_packet `{PacketSlicer, DnsLib} (clock : nat -> Z) (c : DomainCache)
    (packet : bytes) : DomainCache :=
  match dns_response_payload packet with
  | None => c
  | Some payload =>
      match dns_from_vec payload with
      | None => c
      | Some m => if dns_is_response m then observe_answers clock 0 c (dns_answers m) else c
      end
  end.

(** ** The abstract cache: the expiry of each (address, name) *)

Fixpoint entry_expiry (es : list DomainEntry) (d : rstr) : option Z :=
  match es with
  | [] => None
  | e :: es => if bool_decide (ent_domain e = d) then Some (expires_at e) else entry_expiry es d
  end.
Definition cache_expiry (c : DomainCache) (ip : Ipv4Addr) (d : rstr) : option Z :=
  es ← entries c !! ip; entry_expiry es d.

(** The invariant: no empty vector is kept, names are distinct per address. *)
Definition cache_wf (c : DomainCache) : Prop :=
  map_Forall (λ _ es, es ≠ [] ∧ NoDup (map ent_domain es)) (entries c).

(** * Lemmas *)

Lemma entry_expiry_None es d : entry_expiry es d = None ↔ d ∉ map ent_domain es.
Proof.
  induction es as [|e es IH]; simpl; [set_solver|].
  case_bool_decide as Hd; [set_solver|]. rewrite IH. set_solver.
Qed.

Lemma entry_expiry_upsert es d t d' :
  entry_expiry (upsert es d t) d' =
  if bool_decide (d' = d) then Some t else entry_expiry es d'.
Proof.
  induction es as [|e es IH]; simpl.
  - repeat case_bool_decide; congruence.
  - destruct (decide (ent_domain e = d)) as [He|He].
    + rewrite (bool_decide_eq_true_2 _ He). simpl. repeat case_bool_decide; congruence.
    + rewrite (bool_decide_eq_false_2 _ He). simpl. rewrite IH.
      repeat case_bool_decide; congruence.
Qed.

Lemma upsert_domains es d t x :
  x ∈ map ent_domain (upsert es d t) ↔ x = d ∨ x ∈ map ent_domain es.
Proof.
  induction es as [|e es IH]; simpl; [set_solver|].
  case_bool_decide as Hd; simpl; [|rewrite !elem_of_cons, IH]; set_solver.
Qed.

Lemma upsert_nodup es d t : NoDup (map ent_domain es) → NoDup (map ent_domain (upsert es d t)).
Proof.
  induction es as [|e es IH]; simpl; [intros; apply NoDup_singleton|].
  intros [Hn Hd]%NoDup_cons. case_bool_decide as He; simpl; [by constructor|].
  constructor; [|auto]. rewrite upsert_domains. naive_solver.
Qed.

Lemma upsert_ne es d t : upsert es d t ≠ [].
Proof. destruct es; simpl; [done|]. by case_bool_decide. Qed.

Lemma cache_insert_wf now c ip name ttl : cache_wf c → cache_wf (cache_insert now c ip name ttl).
Proof.
  intros Hwf. unfold cache_insert. destruct (ttl =? 0); [done|].
  destruct (normalize_domain name) as [d|]; [|done].
  apply map_Forall_insert_2; [|done]. split; [apply upsert_ne|].
  apply upsert_nodup. destruct (entries c !! ip) as [es|] eqn:E; simpl; [|constructor].
  by apply Hwf in E as [_ ?].
Qed.

Lemma filter_live_elem now es d :
  NoDup (map ent_domain es) →
  d ∈ map ent_domain (List.filter (live now) es) ↔
  ∃ t, entry_expiry es d = Some t ∧ now < t.
Proof.
  induction es as [|e es IH]; simpl; [set_solver|].
  intros [Hn Hd]%NoDup_cons. unfold live at 1.
  case_bool_decide as He.
  - subst d. assert (ent_domain e ∉ map ent_domain (List.filter (live now) es)) as Hnin.
    { rewrite IH by done. intros (t & Ht & _).
      apply entry_expiry_None in Hn. congruence. }
    destruct (now <? expires_at e) eqn:El.
    + split; [intros _; exists (expires_at e); split; [done|lia]|set_solver].
    + split; [done|]. intros (t & [= <-] & ?). lia.
  - rewrite <- IH by done. destruct (now <? expires_at e); set_solver.
Qed.

Lemma filter_live_nodup now es :
  NoDup (map ent_domain es) → NoDup (map ent_domain (List.filter (live now) es)).
Proof.
  induction es as [|e es IH]; simpl; [done|]. intros [Hn Hd]%NoDup_cons.
  destruct (live now e); simpl; [|auto]. constructor; [|auto].
  intros Hin. apply Hn. apply list_elem_of_fmap in Hin as (x & -> & Hx).
  apply list_elem_of_In, filter_In in Hx as [Hx _].
  apply list_elem_of_fmap. exists x. by rewrite list_elem_of_In.
Qed.

Lemma entry_expiry_filter now es d :
  NoDup (map ent_domain es) →
  entry_expiry (List.filter (live now) es) d =
  t ← entry_expiry es d; if now <? t then Some t else None.
Proof.
  induction es as [|e es IH]; simpl; [done|]. intros [Hn Hd]%NoDup_cons.
  unfold live at 1. case_bool_decide as He; simpl.
  - subst d. destruct (now <? expires_at e) eqn:El; simpl.
    + by rewrite bool_decide_eq_true_2.
    + rewrite IH by done. apply entry_expiry_None in Hn. by rewrite Hn.
  - destruct (now <? expires_at e); simpl; [rewrite bool_decide_eq_false_2 by done|]; auto.
Qed.

(** ** The operations on the abstract cache *)

Lemma cache_expiry_insert now c ip name ttl ip' d' :
  cache_expiry (cache_insert now c ip name ttl) ip' d' =
  if bool_decide (ttl ≠ 0 ∧ ip' = ip ∧ normalize_domain name = Some d')
  then Some (now + ttl) else cache_expiry c ip' d'.
Proof.
  unfold cache_insert. destruct (ttl =? 0) eqn:Et.
  { apply Z.eqb_eq in Et. rewrite bool_decide_eq_false_2; [done|naive_solver]. }
  apply Z.eqb_neq in Et. destruct (normalize_domain name) as [d|] eqn:Ed;
    [|by rewrite bool_decide_eq_false_2 by naive_solver].
  unfold cache_expiry. cbn [entries]. rewrite lookup_insert. case_decide as Hip; simpl.
  - subst ip'. rewrite entry_expiry_upsert.
    replace (entry_expiry (default [] (entries c !! ip)) d') with (entries c !! ip ≫= λ es, entry_expiry es d')
      by (by destruct (entries c !! ip)).
    repeat case_bool_decide; naive_solver.
  - rewrite bool_decide_eq_false_2; [done|naive_solver].
Qed.

Lemma cache_lookup_result now c ip d :
  cache_wf c →
  d ∈ (cache_lookup now c ip).2 ↔ ∃ t, cache_expiry c ip d = Some t ∧ now < t.
Proof.
  intros Hwf. unfold cache_lookup, cache_expiry. destruct (entries c !! ip) as [es|] eqn:E; simpl.
  - apply Hwf in E as [_ Hnd]. by apply filter_live_elem.
  - split; [set_solver|]. by intros (? & ? & _).
Qed.

Lemma cache_lookup_nodup now c ip : cache_wf c → NoDup (cache_lookup now c ip).2.
Proof.
  intros Hwf. unfold cache_lookup. destruct (entries c !! ip) as [es|] eqn:E; simpl; [|constructor].
  apply Hwf in E as [_ Hnd]. by apply filter_live_nodup.
Qed.

Lemma cache_lookup_expiry now c ip ip' d :
  cache_wf c →
  cache_expiry (cache_lookup now c ip).1 ip' d =
  if bool_decide (ip' = ip)
  then t ← cache_expiry c ip d; if now <? t then Some t else None
  else cache_expiry c ip' d.
Proof.
  intros Hwf. unfold cache_lookup, cache_expiry. destruct (entries c !! ip) as [es|] eqn:E; simpl.
  - apply Hwf in E as [_ Hnd].
    pose proof (entry_expiry_filter now es d Hnd) as Hf.
    destruct (List.filter (live now) es) as [|e es'] eqn:Ef.
    + rewrite lookup_delete. case_bool_decide; case_decide; naive_solver.
    + rewrite lookup_insert. case_bool_decide; case_decide; naive_solver.
  - case_bool_decide; [|done]. subst. by rewrite E.
Qed.

Lemma cache_lookup_wf now c ip : cache_wf c → cache_wf (cache_lookup now c ip).1.
Proof.
  intros Hwf. unfold cache_lookup. destruct (entries c !! ip) as [es|] eqn:E; simpl; [|done].
  apply Hwf in E as [_ Hnd]. apply (filter_live_nodup now) in Hnd.
  destruct (List.filter (live now) es) as [|e es'].
  - by apply map_Forall_delete.
  - apply map_Forall_insert_2; [|done]. done.
Qed.

Lemma observe_answers_wf clock i c l : cache_wf c → cache_wf (observe_answers clock i c l).
Proof.
  revert i c. induction l as [|a l IH]; intros i c Hwf; simpl; [done|].
  apply IH. destruct (ans_data a); [by apply cache_insert_wf|done].
Qed.

Lemma observe_packet_wf `{PacketSlicer, DnsLib} clock c packet :
  cache_wf c → cache_wf (observe_packet clock c packet).
Proof.
  intros Hwf. unfold observe_packet. repeat case_match; try done.
  by apply observe_answers_wf.
Qed.

#[export] Hint Resolve cache_insert_wf cache_lookup_wf observe_answers_wf observe_packet_wf : wf.

(** ** Refinement: the cache against a store that never forgets

    [lookup] drops expired entries as it goes.  The specification is a store
    that keeps every expiry ever recorded and answers a lookup with the names
    that are still live; the cache must be indistinguishable from it as long
    as the clock does not go back. *)

Abbreviation abs_store := (Ipv4Addr -> rstr -> option Z).

Definition abs_insert (now : Z) (s : abs_store) (ip : Ipv4Addr) (name : rstr) (ttl : Z)
    : abs_store :=
  λ ip' d', if bool_decide (ttl ≠ 0 ∧ ip' = ip ∧ normalize_domain name = Some d')
            then Some (now + ttl) else s ip' d'.

Fixpoint abs_answers (clock : nat -> Z) (i : nat) (s : abs_store) (l : list DnsAnswer)
    : abs_store :=
  match l with
  | [] => s
  | a :: l' =>
      abs_answers clock (S i)
        (match ans_data a with
         | RData_A addr => abs_insert (clock i) s addr (ans_name a) (secs (ans_ttl a))
         | RData_Other => s
         end) l'
  end.

(** The answers a packet carries, if it is a DNS response. *)
Definition packet_answers `{PacketSlicer, DnsLib} (packet : bytes) : list DnsAnswer :=
  match payload ← dns_response_payload packet; dns_from_vec payload with
  | Some m => if dns_is_response m then dns_answers m else []
  | None => []
  end.

Inductive cache_op :=
| OpObserve (clock : nat -> Z) (packet : bytes)
| OpInsert (now : Z) (ip : Ipv4Addr) (name : rstr) (ttl : Z)
| OpLookup (now : Z) (ip : Ipv4Addr).

Section refinement.
Context `{PacketSlicer, DnsLib}.

(** The outputs of the lookups of a sequence of operations. *)
Fixpoint run_cache (c : DomainCache) (ops : list cache_op) : list (list rstr) :=
  match ops with
  | [] => []
  | OpObserve clock packet :: ops' => run_cache (observe_packet clock c packet) ops'
  | OpInsert now ip name ttl :: ops' => run_cache (cache_insert now c ip name ttl) ops'
  | OpLookup now ip :: ops' =>
      let '(c', out) := cache_lookup now c ip in out :: run_cache c' ops'
  end.

Inductive abs_run : abs_store -> list cache_op -> list (list rstr) -> Prop :=
| ar_nil s : abs_run s [] []
| ar_observe s clock packet ops outs :
    abs_run (abs_answers clock 0 s (packet_answers packet)) ops outs →
    abs_run s (OpObserve clock packet :: ops) outs
| ar_insert s now ip name ttl ops outs :
    abs_run (abs_insert now s ip name ttl) ops outs →
    abs_run s (OpInsert now ip name ttl :: ops) outs
| ar_lookup s now ip out ops outs :
    NoDup out → (∀ d, d ∈ out ↔ ∃ t, s ip d = Some t ∧ now < t) →
    abs_run s ops outs → abs_run s (OpLookup now ip :: ops) (out :: outs).

(** Lookups happen at non-decreasing times, none before [t]. *)
Fixpoint lookups_from (t : Z) (ops : list cache_op) : Prop :=
  match ops with
  | [] => True
  | OpLookup now _ :: ops' => t ≤ now ∧ lookups_from now ops'
  | _ :: ops' => lookups_from t ops'
  end.

Definition live_at (o : option Z) (t : Z) : Prop := ∃ e, o = Some e ∧ t < e.

Definition cache_sim (t0 : Z) (c : DomainCache) (s : abs_store) : Prop :=
  cache_wf c ∧
  ∀ ip d t, t0 ≤ t → live_at (cache_expiry c ip d) t ↔ live_at (s ip d) t.

Lemma cache_sim_insert t0 c s now ip name ttl :
  cache_sim t0 c s → cache_sim t0 (cache_insert now c ip name ttl) (abs_insert now s ip name ttl).
Proof.
  intros [Hwf Hs]. split; [auto with wf|]. intros ip' d t Ht.
  rewrite cache_expiry_insert. unfold abs_insert. case_bool_decide; [done|]. by apply Hs.
Qed.

Lemma cache_sim_answers t0 clock i c s l :
  cache_sim t0 c s → cache_sim t0 (observe_answers clock i c l) (abs_answers clock i s l).
Proof.
  revert i c s. induction l as [|a l IH]; intros i c s Hs; simpl; [done|].
  apply IH. destruct (ans_data a); [by apply cache_sim_insert|done].
Qed.

Lemma observe_packet_answers clock c packet :
  observe_packet clock c packet = observe_answers clock 0 c (packet_answers packet).
Proof.
  unfold observe_packet, packet_answers.
  destruct (dns_response_payload packet) as [p|]; simpl; [|done].
  destruct (dns_from_vec p) as [m|]; [|done]. by destruct (dns_is_response m).
Qed.

Lemma cache_sim_lookup t0 now c s ip :
  t0 ≤ now → cache_sim t0 c s → cache_sim now (cache_lookup now c ip).1 s.
Proof.
  intros Ht [Hwf Hs]. split; [auto with wf|]. intros ip' d t Hle.
  rewrite cache_lookup_expiry by done. case_bool_decide as Hip; [|apply Hs; lia].
  subst ip'. rewrite <- Hs by lia. unfold live_at.
  destruct (cache_expiry c ip d) as [e|]; simpl; [|done].
  destruct (now <? e) eqn:E; [done|]. split; [by intros (? & ? & _)|].
  intros (x & [= <-] & ?). lia.
Qed.

Lemma run_cache_sim t0 c s ops :
  cache_sim t0 c s → lookups_from t0 ops → abs_run s ops (run_cache c ops).
Proof.
  revert t0 c s. induction ops as [|[clock packet|now ip name ttl|now ip] ops IH];
    intros t0 c s Hs Ht; simpl in *.
  - constructor.
  - constructor. eapply IH; [|done]. rewrite observe_packet_answers. by apply cache_sim_answers.
  - constructor. eapply IH; [|done]. by apply cache_sim_insert.
  - destruct Ht as [Ht0 Ht]. destruct (cache_lookup now c ip) as [c' out] eqn:E.
    pose proof (cache_lookup_nodup now c ip (proj1 Hs)) as Hnd.
    pose proof (cache_lookup_result now c ip) as Hres.
    pose proof (cache_sim_lookup t0 now c s ip Ht0 Hs) as Hsim. rewrite E in *. simpl in *.
    constructor; [done| |by eapply IH].
    intros d. rewrite Hres by apply Hs. by apply Hs.
Qed.

Lemma cache_sim_empty t0 : cache_sim t0 DomainCache_new (λ _ _, None).
Proof.
  split; [apply map_Forall_empty|]. intros ip d t _. unfold cache_expiry, DomainCache_new.
  cbn [entries]. by rewrite lookup_empty.
Qed.

(** A name observed last with a positive TTL is found until it expires. *)
Lemma observe_answers_app clock i c l1 l2 :
  observe_answers clock i c (l1 ++ l2) =
  observe_answers clock (i + length l1) (observe_answers clock i c l1) l2.
Proof.
  revert i c. induction l1 as [|a l1 IH]; intros i c; simpl; [by rewrite Nat.add_0_r|].
  rewrite IH. by rewrite Nat.add_succ_r.
Qed.

(** An answer that says nothing about [d] at [ip]. *)
Definition unrelated (ip : Ipv4Addr) (d : rstr) (a : DnsAnswer) : Prop :=
  ans_data a ≠ RData_A ip ∨ ans_ttl a = 0 ∨ normalize_domain (ans_name a) ≠ Some d.

Lemma observe_answers_unrelated clock i c l ip d :
  Forall (unrelated ip d) l → cache_expiry (observe_answers clock i c l) ip d = cache_expiry c ip d.
Proof.
  intros Hl. revert i c. induction Hl as [|a l Ha Hl IH]; intros i c; simpl; [done|].
  rewrite IH. destruct (ans_data a) as [addr|] eqn:Ed; [|done].
  rewrite cache_expiry_insert.
  destruct (bool_decide _) eqn:Eb; [|done]. apply bool_decide_eq_true in Eb as (Ht & -> & Hn).
  exfalso. unfold secs in Ht. destruct Ha as [Ha|[Ha|Ha]]; [congruence|lia|congruence].
Qed.

(** The expiry recorded for the last answer about a name at an address. *)
Lemma observe_answers_last clock i c l1 a l2 ip d :
  ans_data a = RData_A ip → ans_ttl a ≠ 0 → normalize_domain (ans_name a) = Some d →
  Forall (unrelated ip d) l2 →
  cache_expiry (observe_answers clock i c (l1 ++ a :: l2)) ip d =
    Some (clock (i + length l1)%nat + secs (ans_ttl a)).
Proof.
  intros Hd Ht Hn Hl2. rewrite observe_answers_app. simpl.
  rewrite observe_answers_unrelated by done. rewrite Hd, cache_expiry_insert.
  rewrite bool_decide_eq_true_2; [done|]. unfold secs. split; [lia|done].
Qed.
End refinement.

(** ** A concrete DNS library: every payload is one answer *)
Module OneAnswer.
#[export] Instance one_answer : DnsLib := λ payload,
  Some (mkDnsMessage true [mkAnswer (lit "Example.com.") 60 (RData_A (Ipv4Addr_new 1 2 3 4))]).
End OneAnswer.

(** * Properties *)

Section properties.
Context `{PacketSlicer, DnsLib}.

(** C10: The cache, which forgets expired entries as it looks them up, is
    indistinguishable from a store that keeps the latest expiry of every
    (address, name) and answers with the live names: for any sequence of
    observations, insertions and lookups with a clock that does not run
    backwards between lookups, every lookup returns, without repetition,
    exactly the names live at its time. *)
Theorem cache_refines_store t0 ops :
  lookups_from t0 ops → abs_run (λ _ _, None) ops (run_cache DomainCache_new ops).
Proof. apply run_cache_sim, cache_sim_empty. Qed.

(** No operation leaves an empty vector in the cache or a name twice at an
    address. *)
Lemma cache_invariant c :
  cache_wf c →
  (∀ clock packet, cache_wf (observe_packet clock c packet))
  ∧ (∀ now ip name ttl, cache_wf (cache_insert now c ip name ttl))
  ∧ (∀ now ip, cache_wf (cache_lookup now c ip).1).
Proof.
  auto with wf.
Qed.

(** After a DNS response is observed, a lookup of the address of one of its
    A answers returns that answer's normalized name exactly until its TTL has
    elapsed, provided no later answer of the same response is about the same
    address and name. *)
Lemma observed_name_found clock c packet l1 a l2 ip d now :
  cache_wf c → packet_answers packet = l1 ++ a :: l2 →
  ans_data a = RData_A ip → ans_ttl a ≠ 0 → normalize_domain (ans_name a) = Some d →
  Forall (unrelated ip d) l2 →
  d ∈ (cache_lookup now (observe_packet clock c packet) ip).2
  ↔ now < clock (length l1) + secs (ans_ttl a).
Proof.
  intros Hwf Hp Hd Ht Hn Hl2. rewrite cache_lookup_result by auto with wf.
  rewrite observe_packet_answers, Hp, (observe_answers_last _ _ _ _ _ _ _ _ Hd Ht Hn Hl2).
  simpl. naive_solver.
Qed.
End properties.

(** ** The properties at concrete inputs *)

Import PlainSlicer OneAnswer.

(** A UDP datagram from port 53. *)
Definition sample_dns_packet : bytes :=
  [69; 0; 0; 29; 0; 0; 0; 0; 64; 17; 0; 0; 8; 8; 8; 8; 10; 0; 0; 2; 0; 53; 20; 0; 0; 9; 0; 0; 1].

Definition sample_ops : list cache_op :=
  [OpObserve (λ _, 5) sample_dns_packet; OpLookup 6 (Ipv4Addr_new 1 2 3 4);
   OpLookup (secs 70) (Ipv4Addr_new 1 2 3 4)].

Example sample_ops_outputs : run_cache DomainCache_new sample_ops = [[lit "example.com"]; []].
Proof. vm_compute. reflexivity. Qed.

Lemma cache_refines_store_witness :
  abs_run (λ _ _, None) sample_ops (run_cache DomainCache_new sample_ops).
Proof. apply (cache_refines_store 0). simpl. unfold secs. lia. Defined.

Lemma observed_name_found_witness :
  lit "example.com" ∈
    (cache_lookup 6 (observe_packet (λ _, 5) DomainCache_new sample_dns_packet)
       (Ipv4Addr_new 1 2 3 4)).2
  ↔ 6 < 5 + secs 60.
Proof.
  apply (observed_name_found (λ _, 5) DomainCache_new sample_dns_packet []
    (mkAnswer (lit "Example.com.") 60 (RData_A (Ipv4Addr_new 1 2 3 4))) []);
    [apply map_Forall_empty|reflexivity|reflexivity|done|vm_compute; reflexivity|constructor].
Defined.
