(* ===== verification/Route.v ===== *)
(** * Route: the TUN device loop ([common.rs])

    [tun_io_task] selects over packets from the transport, packets from the
    direct proxy and packets read from the TUN device; the last are routed by
    the rules engine with the names the domain cache knows for the destination.
    A run is a list of events; each carries what the environment answered (the
    clock, the outcome of a write, whether a channel is open). *)

From S2P Require Import Prelude RStr Net Rule Config GeoIp Context Engine DomainCache.

Definition TUN_MTU : Z := 1500.

(** What the loop does with a packet. *)
Inductive RouteAction := ToTransport (packet : bytes) | ToDirect (packet : bytes) | ToTun (packet : bytes).

(** The text of [tokio::sync::mpsc::error::SendError]. *)
Definition send_error : rstr := lit "channel closed".

(** [tx.send(packet).await.map_err(..)?] *)
Definition chan_send (open : bool) (act : RouteAction) (msg : string)
    : list RouteAction * result rstr unit :=
  if open then ([act], Ok tt) else ([], Err (lit msg ++ send_error)).

Inductive TunEvent :=
| EvTransport (data : option bytes) (clock : nat -> Z) (write : result rstr unit)
| EvDirect (data : option bytes) (clock : nat -> Z) (write : result rstr unit)
| EvTunRead (r : result rstr bytes) (now : Z) (tun_tx_open direct_tx_open : bool).

Section route.
Context `{UnicodeLower, CidrLib, GeoDb, PacketSlicer, DnsLib}.

Definition handle_packet_route (now : Z) (packet : bytes) (rules_engine : RulesEngine)
    (domain_cache : DomainCache) (tun_tx_open direct_tx_open : bool)
    : DomainCache * (list RouteAction * result rstr unit) :=
  match from_ip_packet packet with
  | None =>
      (domain_cache,
       chan_send tun_tx_open (ToTransport packet) "Failed to send to transport: ")
  | Some packet_ctx =>
      let '(domain_cache, domains) := cache_lookup now domain_cache (ctx_dst_ip packet_ctx) in
      let packet_ctx := with_domains packet_ctx domains in
      (domain_cache,
       match match_packet rules_engine packet_ctx with
       | Direct =>
           chan_send direct_tx_open (ToDirect packet) "Failed to send packet to direct proxy: "
       | Proxy => chan_send tun_tx_open (ToTransport packet) "Failed to send to transport: "
       | Reject => ([], Ok tt)
       end)
  end.

(** A packet from a channel: observe it, then write it to the device. *)
Definition deliver (data : bytes) (clock : nat -> Z) (write : result rstr unit) (msg : string)
    (domain_cache : DomainCache) : DomainCache * (list RouteAction * result rstr unit) :=
  (observe_packet clock domain_cache data,
   match write with
   | Ok _ => ([ToTun data], Ok tt)
   | Err e => ([], Err (lit msg ++ e))
   end).

(** One iteration of the loop of [tun_io_task]; [Err] is its return. *)
Definition tun_io_step (rules_engine : RulesEngine) (domain_cache : DomainCache) (ev : TunEvent)
    : DomainCache * (list RouteAction * result rstr unit) :=
  match ev with
  | EvTransport (Some data) clock write =>
      deliver data clock write "Failed to write to TUN: " domain_cache
  | EvTransport None _ _ => (domain_cache, ([], Err (lit "Channel disconnected")))
  | EvDirect (Some data) clock write =>
      deliver data clock write "Failed to write direct packet to TUN: " domain_cache
  | EvDirect None _ _ => (domain_cache, ([], Err (lit "Direct proxy channel disconnected")))
  | EvTunRead (Ok data) now tun_tx_open direct_tx_open =>
      handle_packet_route now data rules_engine domain_cache tun_tx_open direct_tx_open
  | EvTunRead (Err e) _ _ _ =>
      (domain_cache, ([], Err (lit "Error reading from TUN: " ++ e)))
  end.

Fixpoint tun_io_loop (rules_engine : RulesEngine) (domain_cache : DomainCache)
    (evs : list TunEvent) : DomainCache * (list RouteAction * result rstr unit) :=
  match evs with
  | [] => (domain_cache, ([], Ok tt))
  | ev :: evs' =>
      match tun_io_step rules_engine domain_cache ev with
      | (domain_cache', (acts, Ok _)) =>
          let '(c, (acts', r)) := tun_io_loop rules_engine domain_cache' evs' in
          (c, (acts ++ acts', r))
      | (domain_cache', (acts, Err e)) => (domain_cache', (acts, Err e))
      end
  end.

Definition tun_io_task (rules_engine : RulesEngine) (evs : list TunEvent)
    : DomainCache * (list RouteAction * result rstr unit) :=
  tun_io_loop rules_engine DomainCache_new evs.

(** ** Specification *)

(** Where a packet goes for an action. *)
Definition action_routes (a : RuleAction) (packet : bytes) : list RouteAction :=
  match a with Direct => [ToDirect packet] | Proxy => [ToTransport packet] | Reject => [] end.

(** The routing the rules declare for a packet: a packet that is not a parsable
    IPv4 packet goes to the transport; another follows its first matching rule,
    evaluated with the names live for its destination. *)
Inductive route_spec (rs : list Rule) (g : GeoIpMatcher) (cache : DomainCache) (now : Z)
    (packet : bytes) : list RouteAction -> Prop :=
| rt_opaque : from_ip_packet packet = None →
    route_spec rs g cache now packet [ToTransport packet]
| rt_rules ctx domains a :
    from_ip_packet packet = Some ctx →
    NoDup domains →
    (∀ d, d ∈ domains ↔ ∃ t, cache_expiry cache (ctx_dst_ip ctx) d = Some t ∧ now < t) →
    first_match g (with_domains ctx domains) rs a →
    route_spec rs g cache now packet (action_routes a packet).

(** * Lemmas *)

Lemma handle_packet_route_spec c e cache now packet :
  RulesEngine_from_config c = Ok e → cache_wf cache → Forall octet packet →
  ∃ acts, (handle_packet_route now packet e cache true true).2 = (acts, Ok tt)
    ∧ route_spec (rules c) (eng_geoip e) cache now packet acts.
Proof.
  intros [Hv ->]%from_config_ok Hwf Ho. unfold handle_packet_route.
  destruct (from_ip_packet packet) as [ctx|] eqn:Ec;
    [|eexists; split; [done|]; by constructor].
  pose proof (cache_lookup_nodup now cache (ctx_dst_ip ctx) Hwf) as Hnd.
  pose proof (λ d, cache_lookup_result now cache (ctx_dst_ip ctx) d Hwf) as Hres.
  destruct (cache_lookup now cache (ctx_dst_ip ctx)) as [cache' domains]. simpl in *.
  assert (context_wf (with_domains ctx domains)) as Hcw by exact (from_ip_packet_wf _ _ Ho Ec).
  set (a := match_packet _ _).
  assert (first_match (GeoIpMatcher_load (geoip_path c)) (with_domains ctx domains) (rules c) a)
    as Hf by (by apply (match_rules_first_match _ _ _ _ Hv Hcw)).
  exists (action_routes a packet). split; [by destruct a|]. by eapply rt_rules.
Qed.

Lemma handle_packet_route_wf now packet e cache o1 o2 :
  cache_wf cache → cache_wf (handle_packet_route now packet e cache o1 o2).1.
Proof.
  intros Hwf. unfold handle_packet_route. destruct (from_ip_packet packet) as [ctx|]; [|done].
  pose proof (cache_lookup_wf now cache (ctx_dst_ip ctx) Hwf).
  by destruct (cache_lookup now cache (ctx_dst_ip ctx)).
Qed.

Lemma tun_io_step_wf e cache ev : cache_wf cache → cache_wf (tun_io_step e cache ev).1.
Proof.
  intros Hwf. destruct ev as [[d|] cl w|[d|] cl w|[d|] now o1 o2]; simpl;
    auto using handle_packet_route_wf with wf.
Qed.

Lemma tun_io_loop_wf e cache evs : cache_wf cache → cache_wf (tun_io_loop e cache evs).1.
Proof.
  revert cache. induction evs as [|ev evs IH]; intros cache Hwf; simpl; [done|].
  pose proof (tun_io_step_wf e cache ev Hwf) as Hs.
  destruct (tun_io_step e cache ev) as [cache' [acts [[]|er]]]; simpl in *; [|done].
  specialize (IH cache' Hs). by destruct (tun_io_loop e cache' evs) as [? [? ?]].
Qed.

(** ** What reaches the device *)

Definition to_tun (act : RouteAction) : option bytes :=
  match act with ToTun p => Some p | _ => None end.
Definition from_tun (act : RouteAction) : option bytes :=
  match act with ToTransport p | ToDirect p => Some p | ToTun _ => None end.

(** The packets that come in for the device, and those read from it. *)
Definition ev_inbound (ev : TunEvent) : option bytes :=
  match ev with EvTransport d _ _ | EvDirect d _ _ => d | EvTunRead _ _ _ _ => None end.
Definition ev_outbound (ev : TunEvent) : option bytes :=
  match ev with EvTunRead r _ _ _ => result_ok r | _ => None end.

Lemma handle_packet_route_acts now packet e cache o1 o2 :
  ∃ acts r, (handle_packet_route now packet e cache o1 o2).2 = (acts, r)
    ∧ acts ∈ [[]; [ToTransport packet]; [ToDirect packet]].
Proof.
  unfold handle_packet_route, chan_send.
  destruct (from_ip_packet packet); [destruct (cache_lookup _ _ _), (match_packet _ _)|];
    destruct o1, o2; simpl; eexists _, _; (split; [done|set_solver]).
Qed.

Lemma tun_io_step_acts e cache ev cache' acts :
  tun_io_step e cache ev = (cache', (acts, Ok tt)) →
  omap to_tun acts = option_list (ev_inbound ev)
  ∧ omap from_tun acts `sublist_of` option_list (ev_outbound ev).
Proof.
  destruct ev as [[d|] cl w|[d|] cl w|[d|] now o1 o2]; simpl; unfold deliver; try done.
  - destruct w as [[]|]; [|done]. intros [= <- <-]. by split; [|constructor].
  - destruct w as [[]|]; [|done]. intros [= <- <-]. by split; [|constructor].
  - intros Hr. destruct (handle_packet_route_acts now d e cache o1 o2) as (acts' & r & Hr' & Hin).
    rewrite Hr in Hr'. injection Hr' as <- <-.
    repeat (apply elem_of_cons in Hin as [->|Hin]); simpl;
      [split; [done|apply sublist_nil_l]|done|done|by apply elem_of_nil in Hin].
Qed.

Lemma tun_io_step_err e cache ev cache' acts er :
  tun_io_step e cache ev = (cache', (acts, Err er)) → acts = [].
Proof.
  destruct ev as [[d|] cl w|[d|] cl w|[d|] now o1 o2]; simpl; unfold deliver;
    try (by intros [= <- <-]); try (by destruct w; intros [= <- <-]).
  unfold handle_packet_route, chan_send. intros Hr.
  destruct (from_ip_packet d); [destruct (cache_lookup _ _ _), (match_packet _ _)|];
    destruct o1, o2; by simplify_eq.
Qed.

(** A run is a completed prefix, possibly followed by one event that fails. *)
Lemma tun_io_loop_acts e cache evs cache' acts r :
  tun_io_loop e cache evs = (cache', (acts, r)) →
  ∃ done_evs rest, evs = done_evs ++ rest
    ∧ omap to_tun acts = omap ev_inbound done_evs
    ∧ omap from_tun acts `sublist_of` omap ev_outbound done_evs
    ∧ (r = Ok tt → rest = []) ∧ (is_ok r = false → rest ≠ []).
Proof.
  revert cache cache' acts. induction evs as [|ev evs IH]; intros cache cache' acts; simpl.
  { intros [= <- <- <-]. by exists [], []. }
  destruct (tun_io_step e cache ev) as [c1 [a1 [[]|er]]] eqn:Es.
  - destruct (tun_io_loop e c1 evs) as [c2 [a2 r2]] eqn:El. intros [= <- <- <-].
    destruct (IH _ _ _ El) as (pre & rest & -> & Hin & Hout & Hr).
    destruct (tun_io_step_acts _ _ _ _ _ Es) as [Hin1 Hout1].
    exists (ev :: pre), rest. split; [done|].
    rewrite !omap_cons_list, !omap_app, Hin1, Hin. split; [done|]. split; [by apply sublist_app|done].
  - intros [= <- <- <-]. apply tun_io_step_err in Es as ->.
    exists [], (ev :: evs). split; [done|]. split; [done|]. split; [apply sublist_nil_l|done].
Qed.

(** ** Domain rules *)

Lemma domain_rule_denotes parts r d g p :
  compact_spec parts r → domain r = Some d → d ∈ ctx_domains p → rule_denotes r g p.
Proof.
  intros Hc Hd Hin. destruct Hc as [|k f v v' act a]; [done|].
  destruct k; simplify_eq/=; unfold rule_denotes; simpl; tauto.
Qed.

(** A domain rule at the head of the list decides for a destination the cache
    knows under that name. *)
Lemma route_domain_rule c e cache now packet ctx s r rest d t :
  RulesEngine_from_config c = Ok e → cache_wf cache → Forall octet packet →
  rules c = r :: rest → parse_compact s = Ok r → domain r = Some d →
  from_ip_packet packet = Some ctx →
  cache_expiry cache (ctx_dst_ip ctx) d = Some t → now < t →
  (handle_packet_route now packet e cache true true).2 = (action_routes (action r) packet, Ok tt).
Proof.
  intros [Hv ->]%from_config_ok Hwf Ho Hrs Hp%parse_compact_correct Hd Hc He Ht.
  unfold handle_packet_route, match_packet. rewrite Hc, Hrs. simpl.
  rewrite Hrs in Hv. apply Forall_cons in Hv as [Hr _].
  pose proof (cache_lookup_result now cache (ctx_dst_ip ctx) d Hwf) as Hl.
  destruct (cache_lookup now cache (ctx_dst_ip ctx)) as [cache' domains]. simpl in *.
  assert (Matcher_matches r (with_domains ctx domains) (GeoIpMatcher_load (geoip_path c)) = true)
    as ->.
  { apply matches_denotes; [done|exact (from_ip_packet_wf _ _ Ho Hc)|].
    eapply domain_rule_denotes; [done..|]. apply Hl. eauto. }
  by destruct (action r).
Qed.
End route.

(** * Properties *)

Section properties.
Context `{UnicodeLower, CidrLib, GeoDb, PacketSlicer, DnsLib}.

(** C12: At any point of a run of the TUN loop, a packet read from the device is
    routed as the configured rules declare: to the transport when it is not a
    parsable IPv4 packet, otherwise to the direct proxy, to the transport or
    nowhere by the first rule that covers it, where domain rules see exactly
    the names live for its destination at that moment. *)
Theorem routing_follows_rules c e evs now packet :
  RulesEngine_from_config c = Ok e → Forall octet packet →
  ∃ acts,
    (tun_io_step e (tun_io_task e evs).1 (EvTunRead (Ok packet) now true true)).2 = (acts, Ok tt)
    ∧ route_spec (rules c) (eng_geoip e) (tun_io_task e evs).1 now packet acts.
Proof.
  intros He Ho. apply handle_packet_route_spec; [done| |done].
  apply tun_io_loop_wf, map_Forall_empty.
Qed.

(** In every run the packets written to the TUN device are exactly those
    received from the transport and the direct proxy by the events completed
    so far, unmodified and in order; the packets sent on are a subsequence of
    those read from the device, each sent at most once; and the loop stops
    early only with an error. *)
Lemma tun_relay_exact e evs cache acts r :
  tun_io_task e evs = (cache, (acts, r)) →
  ∃ done_evs rest, evs = done_evs ++ rest
    ∧ omap to_tun acts = omap ev_inbound done_evs
    ∧ omap from_tun acts `sublist_of` omap ev_outbound done_evs
    ∧ (r = Ok tt → rest = []) ∧ (is_ok r = false → rest ≠ []).
Proof. apply tun_io_loop_acts. Qed.

(** C16: Names learnt from DNS reach the rules: when the list starts with a
    parsed [DOMAIN] rule for [d] and a DNS response that resolves [d] to the
    destination has just been relayed, a packet to that address read before the
    TTL elapses is routed by that rule's action, whatever happened before. *)
Theorem dns_then_domain_rule c e evs clock resp l1 a l2 s r rest d packet ctx now :
  RulesEngine_from_config c = Ok e →
  rules c = r :: rest → parse_compact s = Ok r → domain r = Some d →
  packet_answers resp = l1 ++ a :: l2 → ans_data a = RData_A (ctx_dst_ip ctx) → ans_ttl a ≠ 0 →
  normalize_domain (ans_name a) = Some d → Forall (unrelated (ctx_dst_ip ctx) d) l2 →
  Forall octet packet → from_ip_packet packet = Some ctx →
  now < clock (length l1) + secs (ans_ttl a) →
  (tun_io_step e (tun_io_step e (tun_io_task e evs).1 (EvTransport (Some resp) clock (Ok tt))).1
     (EvTunRead (Ok packet) now true true)).2 = (action_routes (action r) packet, Ok tt).
Proof.
  intros He Hrs Hp Hd Hans Ha Httl Hn Hl2 Ho Hctx Hnow.
  assert (cache_wf (tun_io_task e evs).1) as Hwf by apply tun_io_loop_wf, map_Forall_empty.
  eapply route_domain_rule; try done; [by apply tun_io_step_wf|].
  simpl. rewrite observe_packet_answers, Hans. by apply observe_answers_last.
Qed.
End properties.

(** ** The properties at concrete inputs *)

Import TextCidr ListDb PlainSlicer OneAnswer.

Definition sample_config : RulesConfig :=
  mkRulesConfig Reject [set_domain (lit "example.com") (Rule_new Proxy)] None.
Definition sample_engine : RulesEngine := mkEngine (rules sample_config) (GeoIpMatcher_load None).

(** A UDP packet from 10.0.0.2 to 1.2.3.4. *)
Definition sample_packet : bytes :=
  [69; 0; 0; 29; 0; 0; 0; 0; 64; 17; 0; 0; 10; 0; 0; 2; 1; 2; 3; 4; 20; 0; 1; 187; 0; 9; 0; 0; 1].

Lemma sample_packet_octets : Forall octet sample_packet.
Proof. unfold sample_packet. repeat constructor; (done || lia). Qed.

Lemma routing_follows_rules_witness :
  ∃ acts,
    (tun_io_step sample_engine (tun_io_task sample_engine []).1
       (EvTunRead (Ok sample_packet) 0 true true)).2 = (acts, Ok tt)
    ∧ route_spec (rules sample_config) (eng_geoip sample_engine) (tun_io_task sample_engine []).1 0
        sample_packet acts.
Proof. apply routing_follows_rules; [vm_compute; reflexivity|apply sample_packet_octets]. Defined.

Lemma tun_relay_exact_witness :
  ∃ done_evs rest,
    [EvTransport (Some [1]) (λ _, 0) (Ok tt); EvDirect None (λ _, 0) (Ok tt)] = done_evs ++ rest
    ∧ omap to_tun [ToTun [1]] = omap ev_inbound done_evs
    ∧ omap from_tun [ToTun [1]] `sublist_of` omap ev_outbound done_evs
    ∧ (Err (lit "Direct proxy channel disconnected") = Ok tt → rest = [])
    ∧ (is_ok (Err (A:=unit) (lit "Direct proxy channel disconnected")) = false → rest ≠ []).
Proof.
  apply (tun_relay_exact sample_engine _ (tun_io_task sample_engine
    [EvTransport (Some [1]) (λ _, 0) (Ok tt); EvDirect None (λ _, 0) (Ok tt)]).1).
  reflexivity.
Defined.

Lemma dns_then_domain_rule_witness :
  (tun_io_step sample_engine
     (tun_io_step sample_engine (tun_io_task sample_engine []).1
        (EvTransport (Some sample_dns_packet) (λ _, 5) (Ok tt))).1
     (EvTunRead (Ok sample_packet) 6 true true)).2 = ([ToTransport sample_packet], Ok tt).
Proof.
  apply (dns_then_domain_rule sample_config sample_engine [] (λ _, 5) sample_dns_packet []
    (mkAnswer (lit "Example.com.") 60 (RData_A (Ipv4Addr_new 1 2 3 4))) []
    (lit "domain,example.com,proxy") (set_domain (lit "example.com") (Rule_new Proxy)) []
    (lit "example.com") sample_packet
    (PacketContext_new (Ipv4Addr_new 10 0 0 2) (Ipv4Addr_new 1 2 3 4) (Some 5120) (Some 443) Udp));
    try (vm_compute; reflexivity); try (vm_compute; discriminate).
  - constructor.
  - apply sample_packet_octets.
Defined.
