(* ===== verification/Codec.v ===== *)
(** * Codec: tunnel messages and their framing ([codec/codec.rs], [proto/message.proto])

    The message types follow the protobuf schema; the protobuf encoding itself
    is generated code ([prost]) and is the class [Prost] with its round-trip
    law.  [ByteCodec] is the length-prefixed framing: [encode], the [decode]
    state machine, and the theory of feeding it a byte stream in pieces. *)

From S2P Require Import Prelude RStr Net.

(** ** I/O errors *)

Inductive ErrorKind :=
| InvalidData | InvalidInput | ConnectionRefused | BrokenPipe | WriteZero | NotFound | OtherKind.
Record io_error := mkIoError { err_kind : ErrorKind; err_text : rstr }.

(** ** Messages ([proto/message.proto]) *)

Record TunConfig := mkTunConfig {
  tc_name : rstr; tc_address : rstr; tc_netmask : rstr; tc_destination : rstr;
  tc_dns : list rstr; tc_mtu : Z
}.
Record Handshake := mkHandshake {
  hs_token : rstr; hs_session_id : rstr; hs_tun_config : option TunConfig
}.
Record Data := mkData { data_payload : bytes }.
Record KeepAlive := mkKeepAlive { ka_timestamp : Z }.
Record Disconnect := mkDisconnect { disc_reason : rstr }.
Inductive Msg :=
| MsgHandshake (h : Handshake)
| MsgData (d : Data)
| MsgKeepalive (k : KeepAlive)
| MsgDisconnect (d : Disconnect).
Record Message := mkMessage { msg : option Msg }.

Definition Message_handshake (h : Handshake) : Message := mkMessage (Some (MsgHandshake h)).
Definition Message_data (d : Data) : Message := mkMessage (Some (MsgData d)).
Definition Message_keepalive (k : KeepAlive) : Message := mkMessage (Some (MsgKeepalive k)).

#[global] Instance TunConfig_eq_dec : EqDecision TunConfig.
Proof. solve_decision. Defined.
#[global] Instance Handshake_eq_dec : EqDecision Handshake.
Proof. solve_decision. Defined.
#[global] Instance Data_eq_dec : EqDecision Data.
Proof. solve_decision. Defined.
#[global] Instance KeepAlive_eq_dec : EqDecision KeepAlive.
Proof. solve_decision. Defined.
#[global] Instance Disconnect_eq_dec : EqDecision Disconnect.
Proof. solve_decision. Defined.
#[global] Instance Msg_eq_dec : EqDecision Msg.
Proof. solve_decision. Defined.
#[global] Instance Message_eq_dec : EqDecision Message.
Proof. solve_decision. Defined.

(** Values of the field types: [string], [bytes], [uint32], [int64]. *)
Definition scalar_value (c : rchar) : Prop := 0 ≤ c < 0xD800 ∨ 0xDFFF < c ≤ 0x10FFFF.
Definition text_wf (s : rstr) : Prop := Forall scalar_value s.
Definition tun_config_wf (t : TunConfig) : Prop :=
  text_wf (tc_name t) ∧ text_wf (tc_address t) ∧ text_wf (tc_netmask t)
  ∧ text_wf (tc_destination t) ∧ Forall text_wf (tc_dns t) ∧ 0 ≤ tc_mtu t < 2 ^ 32.
Definition message_wf (m : Message) : Prop :=
  match msg m with
  | Some (MsgHandshake h) =>
      text_wf (hs_token h) ∧ text_wf (hs_session_id h)
      ∧ match hs_tun_config h with Some t => tun_config_wf t | None => True end
  | Some (MsgData d) => Forall octet (data_payload d)
  | Some (MsgKeepalive k) => - 2 ^ 63 ≤ ka_timestamp k < 2 ^ 63
  | Some (MsgDisconnect d) => text_wf (disc_reason d)
  | None => True
  end.

(** The generated encoder and decoder. *)
Class Prost := {
  encode_to_vec : Message -> bytes;
  message_decode : bytes -> result rstr Message;
  encode_octets m : message_wf m → Forall octet (encode_to_vec m);
  decode_encode_vec m : message_wf m → message_decode (encode_to_vec m) = Ok m
}.

(** ** Little-endian 32-bit words ([BufMut::put_u32_le], [Buf::get_u32_le]) *)

Definition put_u32_le (n : Z) : bytes :=
  [n mod 256; n / 2 ^ 8 mod 256; n / 2 ^ 16 mod 256; n / 2 ^ 24 mod 256].
Definition u32_le (a b c d : Z) : Z := a + b * 2 ^ 8 + c * 2 ^ 16 + d * 2 ^ 24.

(** ** [ByteCodec] *)

Definition HEADER_SIZE : Z := 4.
Definition DEFAULT_MAX_FRAME_SIZE : Z := 1024 * 1024.

Inductive DecodeState := Head | Body (data_len : Z).
Record ByteCodec := mkCodec { codec_state : DecodeState; max_frame_size : Z }.

Definition ByteCodec_default : ByteCodec := mkCodec Head DEFAULT_MAX_FRAME_SIZE.
Definition ByteCodec_new : ByteCodec := ByteCodec_default.
Definition ByteCodec_with_max_frame_size (m : Z) : ByteCodec := mkCodec Head m.
Definition DecodeState_default : DecodeState := Head.

Definition blen (b : bytes) : Z := Z.of_nat (length b).

Section codec.
Context `{Prost}.

(** [Encoder::encode] appends to [dst]; on error [dst] is untouched. *)
Definition encode (self : ByteCodec) (item : Message) (dst : bytes) : result io_error bytes :=
  let body := encode_to_vec item in
  let required := HEADER_SIZE + blen body in
  if max_frame_size self <? required then
    Err (mkIoError InvalidData
      (lit "Frame size " ++ show_uint required ++ lit " exceeds maximum "
       ++ show_uint (max_frame_size self)))
  else Ok (dst ++ put_u32_le (blen body) as_u32 ++ body).

(** [Decoder::decode] in state [Body]. *)
Definition decode_body (self : ByteCodec) (data_len : Z) (src : bytes)
    : ByteCodec * bytes * result io_error (option Message) :=
  if blen src <? data_len then (mkCodec (Body data_len) (max_frame_size self), src, Ok None)
  else
    let data := take (Z.to_nat data_len) src in
    (mkCodec Head (max_frame_size self), drop (Z.to_nat data_len) src,
     match message_decode data with
     | Ok m => Ok (Some m)
     | Err e => Err (mkIoError InvalidData e)
     end).

(** [Decoder::decode]: the codec, what is left of the buffer, and the result. *)
Definition decode (self : ByteCodec) (src : bytes)
    : ByteCodec * bytes * result io_error (option Message) :=
  match codec_state self with
  | Head =>
      match src with
      | b0 :: b1 :: b2 :: b3 :: src' =>
          let data_len := u32_le b0 b1 b2 b3 in
          if max_frame_size self <? data_len then
            (self, src', Err (mkIoError InvalidData
              (lit "Data length " ++ show_uint data_len ++ lit " exceeds maximum "
               ++ show_uint (max_frame_size self))))
          else decode_body self data_len src'
      | _ => (self, src, Ok None)
      end
  | Body data_len => decode_body self data_len src
  end.

(** ** Feeding a stream

    A framed reader calls [decode] on its buffer until it returns [Ok(None)] or
    an error, and then appends the next bytes it reads. *)
Inductive outcome := More (c : ByteCodec) (buf : bytes) | Failed (e : io_error).

Fixpoint drain_fuel (fuel : nat) (c : ByteCodec) (buf : bytes) : list Message * outcome :=
  match fuel with
  | O => ([], More c buf)
  | S f =>
      match decode c buf with
      | (c', buf', Ok (Some m)) =>
          let '(ms, o) := drain_fuel f c' buf' in (m :: ms, o)
      | (c', buf', Ok None) => ([], More c' buf')
      | (_, _, Err e) => ([], Failed e)
      end
  end.

(** Every message takes at least one call, and two consecutive messages at
    least four bytes. *)
Definition drain (c : ByteCodec) (buf : bytes) : list Message * outcome :=
  drain_fuel (length buf + 2) c buf.

Fixpoint feed (c : ByteCodec) (buf : bytes) (chunks : list bytes) : list Message * outcome :=
  match chunks with
  | [] => ([], More c buf)
  | ch :: chs =>
      match drain c (buf ++ ch) with
      | (ms, More c' buf') => let '(ms', o) := feed c' buf' chs in (ms ++ ms', o)
      | (ms, Failed e) => (ms, Failed e)
      end
  end.

(** Sending a list of messages one after the other. *)
Fixpoint encode_all (c : ByteCodec) (ms : list Message) (dst : bytes) : result io_error bytes :=
  match ms with
  | [] => Ok dst
  | m :: ms' => out ← encode c m dst; encode_all c ms' out
  end.

(** The invariant: a pending body is within the frame limit. *)
Definition codec_wf (c : ByteCodec) : Prop :=
  match codec_state c with Head => True | Body n => 0 ≤ n ≤ max_frame_size c end.

(** * Lemmas *)

Lemma put_u32_le_octets n : Forall octet (put_u32_le n).
Proof. repeat constructor; apply Z.mod_pos_bound; lia. Qed.

Lemma u32_le_put n : 0 ≤ n < 2 ^ 32 →
  u32_le (n mod 256) (n / 2 ^ 8 mod 256) (n / 2 ^ 16 mod 256) (n / 2 ^ 24 mod 256) = n.
Proof. intros Hn. unfold u32_le. div_lia. Qed.

Lemma u32_le_range a b c d :
  octet a → octet b → octet c → octet d → 0 ≤ u32_le a b c d < 2 ^ 32.
Proof. unfold octet, u32_le. lia. Qed.

Lemma blen_app a b : blen (a ++ b) = blen a + blen b.
Proof. unfold blen. rewrite length_app. lia. Qed.

Lemma blen_nonneg a : 0 ≤ blen a.
Proof. unfold blen. lia. Qed.

Lemma decode_body_exact c n body rest :
  blen body = n →
  decode_body c n (body ++ rest) =
  (mkCodec Head (max_frame_size c), rest,
   match message_decode body with Ok m => Ok (Some m) | Err e => Err (mkIoError InvalidData e) end).
Proof.
  intros Hn. unfold decode_body. rewrite blen_app.
  pose proof (blen_nonneg rest).
  rewrite (proj2 (Z.ltb_ge _ _)) by lia.
  replace (Z.to_nat n) with (length body) by (unfold blen in Hn; lia).
  by rewrite take_app_length, drop_app_length.
Qed.

Lemma encode_ok c m dst out :
  encode c m dst = Ok out ↔
  HEADER_SIZE + blen (encode_to_vec m) ≤ max_frame_size c
  ∧ out = dst ++ put_u32_le (blen (encode_to_vec m) mod 2 ^ 32) ++ encode_to_vec m.
Proof.
  unfold encode. destruct (max_frame_size c <? _) eqn:E; naive_solver lia.
Qed.

Lemma decode_encode c m out rest :
  codec_state c = Head → max_frame_size c ≤ 2 ^ 32 → message_wf m →
  encode c m [] = Ok out →
  decode c (out ++ rest) = (c, rest, Ok (Some m)).
Proof.
  intros Hs Hmax Hwf [Hle ->]%encode_ok. unfold HEADER_SIZE in Hle.
  pose proof (blen_nonneg (encode_to_vec m)).
  rewrite (Z.mod_small _ (2 ^ 32)) by lia. unfold decode. rewrite Hs.
  cbn [app put_u32_le]. rewrite u32_le_put by lia.
  rewrite (proj2 (Z.ltb_ge _ _)) by lia.
  rewrite decode_body_exact by done. rewrite decode_encode_vec by done.
  destruct c as [st mx]. simpl in *. by subst.
Qed.

Lemma decode_body_wf c n src : codec_wf (mkCodec (Body n) (max_frame_size c)) →
  codec_wf (decode_body c n src).1.1 ∧ max_frame_size (decode_body c n src).1.1 = max_frame_size c.
Proof. intros Hn. unfold decode_body. by destruct (blen src <? n). Qed.

Lemma decode_wf c src :
  codec_wf c → Forall octet src →
  codec_wf (decode c src).1.1 ∧ max_frame_size (decode c src).1.1 = max_frame_size c.
Proof.
  intros Hwf Ho. unfold decode. destruct (codec_state c) as [|n] eqn:Es.
  - destruct src as [|b0 [|b1 [|b2 [|b3 src]]]]; try (split; done).
    do 4 (apply Forall_cons in Ho as [? Ho]).
    destruct (max_frame_size c <? _) eqn:E; [done|].
    apply decode_body_wf. unfold codec_wf. simpl.
    assert (0 ≤ u32_le b0 b1 b2 b3 < 2 ^ 32) by (by apply u32_le_range). lia.
  - apply decode_body_wf. unfold codec_wf in *. by rewrite Es in Hwf.
Qed.

(** ** More input never changes what has been decoded *)

Lemma decode_body_app c n a b c' r x :
  decode_body c n a = (c', r, x) → x ≠ Ok None → decode_body c n (a ++ b) = (c', r ++ b, x).
Proof.
  unfold decode_body. rewrite blen_app. pose proof (blen_nonneg b) as Hb.
  destruct (blen a <? n) eqn:E; [by intros [= <- <- <-]|].
  intros [= <- <- <-] _. apply Z.ltb_ge in E. rewrite (proj2 (Z.ltb_ge _ _)) by lia.
  assert (Z.to_nat n ≤ length a)%nat as Hl by (unfold blen in E; lia).
  by rewrite take_app_le, drop_app_le.
Qed.

Lemma decode_body_none c n a b c' r :
  decode_body c n a = (c', r, Ok None) → decode c' (r ++ b) = decode_body c n (a ++ b).
Proof.
  unfold decode_body at 1. destruct (blen a <? n) eqn:E.
  - intros [= <- <-]. done.
  - by destruct (message_decode _); intros [= <- <- ?].
Qed.

Lemma decode_app c a b c' r x :
  decode c a = (c', r, x) → x ≠ Ok None → decode c (a ++ b) = (c', r ++ b, x).
Proof.
  unfold decode. destruct (codec_state c) as [|n]; [|apply decode_body_app].
  destruct a as [|b0 [|b1 [|b2 [|b3 a]]]]; simpl; try (by intros [= <- <- <-]).
  destruct (max_frame_size c <? u32_le b0 b1 b2 b3); [by intros [= <- <- <-]|].
  apply decode_body_app.
Qed.

(** When a call asks for more input, calling again with more is the same as
    having had the input from the start. *)
Lemma decode_resume c a b c' r :
  decode c a = (c', r, Ok None) → decode c' (r ++ b) = decode c (a ++ b).
Proof.
  unfold decode at 1 3. destruct (codec_state c) as [|n] eqn:Es; [|apply decode_body_none].
  destruct a as [|b0 [|b1 [|b2 [|b3 a]]]]; simpl;
    try (intros [= <- <-]; unfold decode; by rewrite Es).
  destruct (max_frame_size c <? u32_le b0 b1 b2 b3); [done|]. apply decode_body_none.
Qed.

(** ** Progress *)

(** A call that yields a message. *)
Definition decode_call (p q : ByteCodec * bytes) : Prop :=
  ∃ m, decode p.1 p.2 = (q.1, q.2, Ok (Some m)).

(** ** Draining terminates within its fuel *)

Definition need (c : ByteCodec) (buf : bytes) : nat :=
  match codec_state c with Head => length buf | Body _ => S (length buf) end.

Lemma decode_body_some c n buf c' buf' m :
  decode_body c n buf = (c', buf', Ok (Some m)) →
  codec_state c' = Head ∧ (length buf' ≤ length buf)%nat.
Proof.
  unfold decode_body. destruct (blen buf <? n); [done|].
  destruct (message_decode _); [|done]. intros [= <- <- <-].
  split; [done|]. rewrite length_drop. lia.
Qed.

Lemma decode_some_need c buf c' buf' m :
  decode c buf = (c', buf', Ok (Some m)) → (need c' buf' < need c buf)%nat.
Proof.
  unfold decode, need at 2. destruct (codec_state c) as [|n].
  - destruct buf as [|b0 [|b1 [|b2 [|b3 buf]]]]; try done.
    destruct (max_frame_size c <? _); [done|].
    intros [Hs Hl]%decode_body_some. unfold need. rewrite Hs. simpl. lia.
  - intros [Hs Hl]%decode_body_some. unfold need. rewrite Hs. lia.
Qed.

Lemma decode_some_bytes c buf c' buf' m :
  decode c buf = (c', buf', Ok (Some m)) →
  codec_state c' = Head
  ∧ (4 + length buf' ≤ length buf + match codec_state c with Head => 0 | Body _ => 4 end)%nat.
Proof.
  unfold decode. destruct (codec_state c) as [|n].
  - destruct buf as [|b0 [|b1 [|b2 [|b3 buf]]]]; try done.
    destruct (max_frame_size c <? _); [done|].
    intros [Hs Hl]%decode_body_some. simpl. split; [done|lia].
  - intros [Hs Hl]%decode_body_some. split; [done|lia].
Qed.

(** Asking for more input changes nothing the second time. *)
Lemma decode_idle c buf c' buf' :
  decode c buf = (c', buf', Ok None) → decode c' buf' = (c', buf', Ok None).
Proof. intros Hd. by rewrite <- (app_nil_r buf') at 1; rewrite (decode_resume _ _ _ _ _ Hd), app_nil_r. Qed.

Lemma drain_fuel_stable f g c buf :
  (need c buf < f)%nat → (need c buf < g)%nat → drain_fuel f c buf = drain_fuel g c buf.
Proof.
  revert g c buf. induction f as [|f IH]; intros [|g] c buf Hf Hg; try lia. simpl.
  destruct (decode c buf) as [[c' buf'] [[m|]|e]] eqn:E; [|done..].
  apply decode_some_need in E. rewrite (IH g) by lia. done.
Qed.

Lemma drain_fuel_S f c buf :
  drain_fuel (S f) c buf =
  match decode c buf with
  | (c', buf', Ok (Some m)) => let '(ms, o) := drain_fuel f c' buf' in (m :: ms, o)
  | (c', buf', Ok None) => ([], More c' buf')
  | (_, _, Err e) => ([], Failed e)
  end.
Proof. done. Qed.

Lemma drain_eq c buf :
  drain c buf =
  match decode c buf with
  | (c', buf', Ok (Some m)) => let '(ms, o) := drain c' buf' in (m :: ms, o)
  | (c', buf', Ok None) => ([], More c' buf')
  | (_, _, Err e) => ([], Failed e)
  end.
Proof.
  unfold drain at 1. replace (length buf + 2)%nat with (S (S (length buf))) by lia.
  rewrite drain_fuel_S.
  destruct (decode c buf) as [[c' buf'] [[m|]|e]] eqn:E; [|done..].
  apply decode_some_need in E. unfold drain.
  rewrite (drain_fuel_stable (S (length buf)) (length buf' + 2) c' buf'); [done| |].
  - unfold need in *. repeat case_match; lia.
  - unfold need. case_match; lia.
Qed.

(** Draining a buffer that arrives in two pieces. *)
Lemma drain_app c a b :
  drain c (a ++ b) =
  match drain c a with
  | (ms, More c' r) => let '(ms', o) := drain c' (r ++ b) in (ms ++ ms', o)
  | (ms, Failed e) => (ms, Failed e)
  end.
Proof.
  remember (need c a) as k eqn:Hk. revert c a Hk.
  induction k as [k IH] using lt_wf_ind. intros c a ->.
  rewrite (drain_eq c a). destruct (decode c a) as [[c' r] [[m|]|e]] eqn:E.
  - rewrite (drain_eq c (a ++ b)), (decode_app _ _ b _ _ _ E) by done.
    rewrite (IH (need c' r)) by (done || by eapply decode_some_need).
    destruct (drain c' r) as [ms [c'' r'|e]]; [|done].
    by destruct (drain c'' (r' ++ b)).
  - rewrite (drain_eq c (a ++ b)), (drain_eq c' (r ++ b)).
    rewrite (decode_resume _ _ b _ _ E).
    destruct (decode c (a ++ b)) as [[c'' r'] [[m|]|e]]; [|done..].
    by destruct (drain c'' r').
  - by rewrite (drain_eq c (a ++ b)), (decode_app _ _ b _ _ _ E).
Qed.

(** However the stream is cut, the decoder delivers the same messages. *)
Lemma feed_drain c buf ch chs : feed c buf (ch :: chs) = drain c (buf ++ concat (ch :: chs)).
Proof.
  revert c buf ch. induction chs as [|ch' chs IH]; intros c buf ch.
  - simpl. rewrite app_nil_r. destruct (drain c (buf ++ ch)) as [ms [c' r|e]]; [|done].
    by rewrite app_nil_r.
  - change (concat (ch :: ch' :: chs)) with (ch ++ concat (ch' :: chs)).
    rewrite app_assoc, drain_app. change (feed c buf (ch :: ch' :: chs)) with
      (match drain c (buf ++ ch) with
       | (ms, More c' buf') => let '(ms', o) := feed c' buf' (ch' :: chs) in (ms ++ ms', o)
       | (ms, Failed e) => (ms, Failed e)
       end).
    destruct (drain c (buf ++ ch)) as [ms [c' r|e]]; [|done]. by rewrite IH.
Qed.

Lemma drain_head_nil c : codec_state c = Head → drain c [] = ([], More c []).
Proof. intros Hs. rewrite drain_eq. unfold decode. by rewrite Hs. Qed.

Lemma feed_concat c chunks :
  codec_state c = Head → feed c [] chunks = drain c (concat chunks).
Proof.
  intros Hs. destruct chunks as [|ch chs]; [by rewrite drain_head_nil|]. apply feed_drain.
Qed.

(** What is written for a message that fits. *)
Definition frame (m : Message) : bytes :=
  put_u32_le (blen (encode_to_vec m) mod 2 ^ 32) ++ encode_to_vec m.
Definition fits (c : ByteCodec) (m : Message) : Prop :=
  HEADER_SIZE + blen (encode_to_vec m) ≤ max_frame_size c.

Lemma encode_all_ok c ms dst out :
  encode_all c ms dst = Ok out ↔ Forall (fits c) ms ∧ out = dst ++ concat (map frame ms).
Proof.
  revert dst. induction ms as [|m ms IH]; intros dst; simpl.
  - rewrite app_nil_r. naive_solver.
  - unfold fits. rewrite Forall_cons, result_bind_ok. split.
    + intros (o & [Hm ->]%encode_ok & [Hms ->]%IH). split; [done|].
      unfold frame. by rewrite <- !app_assoc.
    + intros [[Hm Hms] ->]. eexists. split; [by apply encode_ok|].
      apply IH. split; [done|]. unfold frame. by rewrite <- !app_assoc.
Qed.

Lemma drain_frames c ms :
  codec_state c = Head → max_frame_size c ≤ 2 ^ 32 → Forall message_wf ms → Forall (fits c) ms →
  drain c (concat (map frame ms)) = (ms, More c []).
Proof.
  intros Hs Hmax Hwf Hms. induction Hms as [|m ms Hm Hms IH]; [by apply drain_head_nil|].
  apply Forall_cons in Hwf as [Hmwf Hwf]. rewrite drain_eq. cbn [map concat].
  rewrite (decode_encode c m (frame m)) by (done || by apply encode_ok).
  by rewrite IH.
Qed.

(** Decoding never puts a byte back: what is left is a suffix of the input. *)
Lemma decode_suffix c src : (decode c src).1.2 `suffix_of` src.
Proof.
  assert (∀ n b, (decode_body c n b).1.2 `suffix_of` b) as Hb.
  { intros n b. unfold decode_body. destruct (blen b <? n); simpl; [done|].
    exists (take (Z.to_nat n) b). by rewrite take_drop. }
  unfold decode. destruct (codec_state c) as [|n]; [|apply Hb].
  destruct src as [|b0 [|b1 [|b2 [|b3 src]]]]; try done.
  assert (src `suffix_of` b0 :: b1 :: b2 :: b3 :: src) as Hs by (by exists [b0; b1; b2; b3]).
  case_match; simpl; [done|]. etrans; [apply Hb|done].
Qed.

Lemma Forall_suffix (P : Z -> Prop) a b : a `suffix_of` b → Forall P b → Forall P a.
Proof. by intros [k ->] [_ Hb]%Forall_app. Qed.

(** ** Invariants of a whole run *)

Definition outcome_wf (mx : Z) (o : outcome) : Prop :=
  match o with
  | More c buf => codec_wf c ∧ max_frame_size c = mx
      ∧ match codec_state c with Head => blen buf < HEADER_SIZE | Body n => blen buf < n end
  | Failed _ => True
  end.

Lemma decode_none_short c src c' r :
  decode c src = (c', r, Ok None) →
  match codec_state c' with Head => blen r < HEADER_SIZE | Body n => blen r < n end.
Proof.
  assert (∀ n b, decode_body c n b = (c', r, Ok None) →
    match codec_state c' with Head => blen r < HEADER_SIZE | Body n => blen r < n end) as Hb.
  { intros n b. unfold decode_body. destruct (blen b <? n) eqn:E;
      [intros [= <- <-]; simpl; lia|]. by destruct (message_decode _). }
  unfold decode. destruct (codec_state c) as [|n] eqn:Es; [|apply Hb].
  destruct src as [|b0 [|b1 [|b2 [|b3 src]]]]; try (intros [= <- <-]; rewrite Es; unfold blen, HEADER_SIZE; simpl; lia).
  destruct (max_frame_size c <? _); [done|]. apply Hb.
Qed.

Lemma drain_wf c buf :
  codec_wf c → Forall octet buf → outcome_wf (max_frame_size c) (drain c buf).2.
Proof.
  remember (need c buf) as k eqn:Hk. revert c buf Hk.
  induction k as [k IH] using lt_wf_ind. intros c buf -> Hwf Ho.
  pose proof (decode_wf c buf Hwf Ho) as [Hwf' Hmax'].
  pose proof (Forall_suffix _ _ _ (decode_suffix c buf) Ho) as Ho'.
  rewrite drain_eq. destruct (decode c buf) as [[c' buf'] [[m|]|e]] eqn:E; simpl in *.
  - specialize (IH (need c' buf') (decode_some_need _ _ _ _ _ E) c' buf' eq_refl Hwf' Ho').
    rewrite Hmax' in IH. by destruct (drain c' buf').
  - split; [done|]. split; [done|]. by eapply decode_none_short.
  - done.
Qed.
End codec.

(** ** A concrete encoding

    Any injective byte encoding satisfies the laws of [Prost]; this one writes
    the bits of the message's code, one per byte. *)
Module BitProst.

#[export] Instance TunConfig_countable : Countable TunConfig.
Proof.
  apply (inj_countable' (λ t, (tc_name t, tc_address t, tc_netmask t, tc_destination t,
    tc_dns t, tc_mtu t)) (λ '(a, b, c, d, e, f), mkTunConfig a b c d e f)). by intros [].
Defined.
#[export] Instance Handshake_countable : Countable Handshake.
Proof.
  apply (inj_countable' (λ h, (hs_token h, hs_session_id h, hs_tun_config h))
    (λ '(a, b, c), mkHandshake a b c)). by intros [].
Defined.
#[export] Instance Message_countable : Countable Message.
Proof.
  apply (inj_countable'
    (λ m, match msg m with
          | None => None
          | Some (MsgHandshake h) => Some (inl (inl h))
          | Some (MsgData d) => Some (inl (inr (data_payload d)))
          | Some (MsgKeepalive k) => Some (inr (inl (ka_timestamp k)))
          | Some (MsgDisconnect d) => Some (inr (inr (disc_reason d)))
          end)
    (λ o, mkMessage
          match o with
          | None => None
          | Some (inl (inl h)) => Some (MsgHandshake h)
          | Some (inl (inr d)) => Some (MsgData (mkData d))
          | Some (inr (inl k)) => Some (MsgKeepalive (mkKeepAlive k))
          | Some (inr (inr d)) => Some (MsgDisconnect (mkDisconnect d))
          end)).
  by intros [[[[]|[]|[]|[]]|]].
Defined.

Fixpoint pos_bits (p : positive) : bytes :=
  match p with xH => [] | xO p => 0 :: pos_bits p | xI p => 1 :: pos_bits p end.
Fixpoint bits_pos (l : bytes) : positive :=
  match l with [] => xH | b :: l' => if b =? 0 then xO (bits_pos l') else xI (bits_pos l') end.

Lemma bits_pos_bits p : bits_pos (pos_bits p) = p.
Proof. induction p; simpl; by f_equal. Qed.
Lemma pos_bits_octets p : Forall octet (pos_bits p).
Proof. induction p; simpl; constructor; (done || lia || (split; lia)). Qed.

Definition bit_decode (l : bytes) : result rstr Message :=
  ok_or (countable.decode (bits_pos l)) (lit "invalid wire type").
Lemma bit_decode_encode (m : Message) : bit_decode (pos_bits (countable.encode m)) = Ok m.
Proof. unfold bit_decode. by rewrite bits_pos_bits, countable.decode_encode. Qed.

#[export] Instance bit_prost : Prost := {
  encode_to_vec m := pos_bits (countable.encode m);
  message_decode := bit_decode;
  encode_octets m _ := pos_bits_octets _;
  decode_encode_vec m _ := bit_decode_encode m
}.

End BitProst.

(** * Properties *)

Section properties.
Context `{Prost}.

(** C4: Sending any sequence of messages through [encode] and delivering the
    bytes to [decode] in any division into chunks gives back exactly those
    messages in order, with the decoder ready for the next frame and nothing
    left in its buffer. *)
Theorem stream_roundtrip c ms out chunks :
  codec_state c = Head → max_frame_size c ≤ 2 ^ 32 → Forall message_wf ms →
  encode_all c ms [] = Ok out → concat chunks = out →
  feed c [] chunks = (ms, More c []).
Proof.
  intros Hs Hmax Hwf [Hms ->]%encode_all_ok Hc.
  rewrite feed_concat, Hc by done. by apply drain_frames.
Qed.

(** C19: The messages delivered and the outcome (ready for more, or the error)
    do not depend on how an arbitrary byte stream, well formed or not, is cut
    into reads. *)
Theorem chunking_irrelevant c chunks1 chunks2 :
  codec_state c = Head → concat chunks1 = concat chunks2 →
  feed c [] chunks1 = feed c [] chunks2.
Proof. intros Hs Hc. by rewrite !feed_concat, Hc by done. Qed.

(** C28: On any input the decoder keeps its invariant: the frame limit never
    changes, a pending body length never exceeds it, and after the buffer is
    drained less than a header, or less than the pending body, is left. *)
Theorem drain_bounded c buf :
  codec_wf c → Forall octet buf → outcome_wf (max_frame_size c) (drain c buf).2.
Proof. apply drain_wf. Qed.

(** C29: A reader that calls [decode] until it yields no message stops: each
    message takes at least the four bytes of its header, apart from one whose
    header was read before, so the number of calls that yield a message is
    bounded by the bytes in the buffer; and a call that asks for more input
    leaves the decoder where it is: called again without new bytes it asks
    again. *)
Theorem decode_terminates n c buf c' buf' :
  nsteps decode_call n (c, buf) (c', buf') →
  (4 * n + length buf' ≤ length buf + match codec_state c with Head => 0 | Body _ => 4 end)%nat
  ∧ (∀ c2 buf2, decode c' buf' = (c2, buf2, Ok None) → decode c2 buf2 = (c2, buf2, Ok None)).
Proof.
  intros Hn. split; [|intros c2 buf2; apply decode_idle].
  change (4 * n + length (c', buf').2 ≤ length (c, buf).2
    + match codec_state (c, buf).1 with Head => 0 | Body _ => 4 end)%nat.
  induction Hn as [p|n p1 p2 p3 [m Hm] _ IH]; [lia|].
  apply decode_some_bytes in Hm as [Hs Hl]. rewrite Hs in IH. lia.
Qed.

(** [encode] fails exactly when header and body exceed the frame limit,
    always with [InvalidData]; otherwise it appends the 4-byte little-endian
    body length and the body to the buffer. *)
Lemma encode_cases c m dst :
  (fits c m ∧ encode c m dst = Ok (dst ++ frame m))
  ∨ (¬ fits c m ∧ ∃ e, encode c m dst = Err e ∧ err_kind e = InvalidData).
Proof.
  unfold fits, frame. destruct (encode c m dst) as [out|e] eqn:E.
  - apply encode_ok in E as [? ->]. by left.
  - right. unfold encode in E. case_match; simplify_eq. split; [lia|eauto].
Qed.
End properties.

(** ** The properties at concrete inputs *)

Import BitProst.

Definition sample_messages : list Message :=
  [Message_keepalive (mkKeepAlive 7); Message_data (mkData [1; 2])].
Definition sample_stream : bytes :=
  match encode_all ByteCodec_new sample_messages [] with Ok b => b | Err _ => [] end.

Lemma stream_roundtrip_witness :
  feed ByteCodec_new [] [take 3 sample_stream; drop 3 sample_stream]
  = (sample_messages, More ByteCodec_new []).
Proof.
  apply (stream_roundtrip ByteCodec_new sample_messages sample_stream);
    [reflexivity|vm_compute; discriminate| |vm_compute; reflexivity|vm_compute; reflexivity].
  repeat constructor; vm_compute; (done || congruence).
Defined.

Lemma chunking_irrelevant_witness :
  feed ByteCodec_new [] [take 9 sample_stream; drop 9 sample_stream]
  = feed ByteCodec_new [] [sample_stream].
Proof. apply chunking_irrelevant; vm_compute; reflexivity. Defined.

Lemma drain_bounded_witness :
  outcome_wf DEFAULT_MAX_FRAME_SIZE (drain ByteCodec_new [9; 0; 0; 0; 5]).2.
Proof. apply (drain_bounded ByteCodec_new); [exact I|repeat constructor; vm_compute; (done || congruence)]. Defined.

Lemma decode_terminates_witness :
  (4 * 1 + length (drop 9 sample_stream) ≤ length sample_stream + 0)%nat
  ∧ (∀ c2 buf2, decode ByteCodec_new (drop 9 sample_stream) = (c2, buf2, Ok None) →
       decode c2 buf2 = (c2, buf2, Ok None)).
Proof.
  apply (decode_terminates 1 ByteCodec_new sample_stream ByteCodec_new (drop 9 sample_stream)).
  eapply nsteps_once. exists (Message_keepalive (mkKeepAlive 7)). vm_compute. reflexivity.
Defined.
