(* ===== verification/Server.v ===== *)
(** * Server: sessions and message handlers ([server.rs])

    The shared state is the session table and the client-id counter.  Every
    handler is a function of that state, of what it receives, and of what the
    environment answers to its calls (the loaded configuration, the generated
    session id, the clock, whether a send succeeded); it returns the new state
    and the actions it performs.  [Server] also gives the interleaved system
    [wstep], where the two halves of a handshake are separate steps because
    the session lock is released while the reply is being sent. *)

From S2P Require Import Prelude RStr Net AppConfig Codec.

(** A channel end, by identity. *)
Abbreviation chan := Z (only parsing).

Record Client := mkClient {
  cl_addr : SocketAddr;
  cl_virtual_ip : Ipv4Addr;
  cl_tx : chan;
  cl_tun_config : TunConfig;
  cl_last_seen : Z
}.

Record ServerState := mkServer {
  sessions : gmap rstr Client;
  next_client_id : Z
}.

(** [lazy_static!]: the initial values. *)
Definition ServerState_init : ServerState := mkServer ∅ 2.

(** What a handler does to the outside. *)
Inductive Action :=
| TransportSend (m : Message) (addr : SocketAddr)
| ChanSend (tx : chan) (data : bytes).

(** [HashMap] iteration visits the entries in an unspecified order. *)
Class HashOrder := {
  hm_iter : gmap rstr Client -> list (rstr * Client);
  hm_iter_perm m : hm_iter m ≡ₚ map_to_list m
}.

Definition secs_ns (n : Z) : Z := n * 1000000000.

(** ** Helpers *)

Definition validate_token (token server_token : rstr) : bool :=
  if is_empty server_token then true else bool_decide (token = server_token).

Definition get_destination_ip (data : bytes) : option Ipv4Addr :=
  if (length data <? 20)%nat then None
  else
    version_ihl ← data !! 0%nat;
    let version := Z.shiftr version_ihl 4 in
    if negb (version =? 4) then None
    else
      b0 ← data !! 16%nat; b1 ← data !! 17%nat; b2 ← data !! 18%nat; b3 ← data !! 19%nat;
      Some (Ipv4Addr_new b0 b1 b2 b3).

(** [allocate_virtual_ip]: [fetch_add] wraps at 32 bits, [as u8] at 8. *)
Definition allocate_virtual_ip (st : ServerState) : ServerState * Ipv4Addr :=
  let client_id := next_client_id st in
  (mkServer (sessions st) (client_id + 1) as_u32, Ipv4Addr_new 10 0 0 client_id as_u8).

Definition build_tun_config (config : ServerConfig) (virtual_ip : Ipv4Addr) : TunConfig :=
  mkTunConfig (sc_tun_name config) (ipv4_to_string virtual_ip)
    (ip_to_string (sc_tun_netmask config)) (ip_to_string (sc_tun_destination config))
    (map ip_to_string (sc_tun_dns_servers config)) (sc_tun_mtu config) as_u32.

(** ** Handlers *)

(** [ChanSend] is the attempt: a failed send is only logged. *)
Definition handle_data (data : bytes) (transport_tx : chan) : list Action :=
  [ChanSend transport_tx data].

Definition handle_keepalive (src_addr : SocketAddr) (timestamp : Z) : list Action :=
  [TransportSend (Message_keepalive (mkKeepAlive timestamp)) src_addr].

(** The reply to a handshake whose token is wrong. *)
Definition reject_message : Message := Message_handshake (mkHandshake [] [] None).

(** Choosing the session: an existing one, or a new id and address. *)
Definition choose_session (config : ServerConfig) (fresh_id : rstr) (st : ServerState)
    (provided_session_id : option rstr) : ServerState * (rstr * Ipv4Addr * TunConfig) :=
  let new_session :=
    let '(st', virtual_ip) := allocate_virtual_ip st in
    (st', (fresh_id, virtual_ip, build_tun_config config virtual_ip)) in
  match provided_session_id with
  | Some provided_id =>
      match sessions st !! provided_id with
      | Some existing =>
          (st, (provided_id, cl_virtual_ip existing, cl_tun_config existing))
      | None => new_session
      end
  | None => new_session
  end.

(** The first half of [handle_handshake], up to the reply. *)
Inductive hs_begin_result :=
| HsNoConfig
| HsRejected
| HsChosen (session_id : rstr) (virtual_ip : Ipv4Addr) (tun_config : TunConfig) (reply : Message).

Definition hs_begin (config : result rstr ServerConfig) (fresh_id : rstr) (st : ServerState)
    (provided_session_id provided_token : option rstr) : ServerState * hs_begin_result :=
  match config with
  | Err _ => (st, HsNoConfig)
  | Ok server_config =>
      let server_token := sc_token server_config in
      let token_ok :=
        match provided_token with
        | Some t => validate_token t server_token
        | None => true
        end in
      if negb token_ok then (st, HsRejected)
      else
        let '(st', (session_id, virtual_ip, tun_config)) :=
          choose_session server_config fresh_id st provided_session_id in
        (st', HsChosen session_id virtual_ip tun_config
           (Message_handshake (mkHandshake server_token session_id (Some tun_config))))
  end.

(** The second half: [sessions_map.insert]. *)
Definition hs_commit (now : Z) (src_addr : SocketAddr) (client_tx : chan) (session_id : rstr)
    (virtual_ip : Ipv4Addr) (tun_config : TunConfig) (st : ServerState) : ServerState :=
  mkServer (<[session_id := mkClient src_addr virtual_ip client_tx tun_config now]> (sessions st))
    (next_client_id st).

(** [handle_handshake] run without interleaving; [send_ok] is the outcome of the
    one [transport.send] on the path taken. *)
Definition handle_handshake (config : result rstr ServerConfig) (fresh_id : rstr) (send_ok : bool)
    (now : Z) (st : ServerState) (src_addr : SocketAddr) (client_tx : chan)
    (provided_session_id provided_token : option rstr) : ServerState * list Action :=
  match hs_begin config fresh_id st provided_session_id provided_token with
  | (st', HsNoConfig) => (st', [])
  | (st', HsRejected) => (st', [TransportSend reject_message src_addr])
  | (st', HsChosen session_id virtual_ip tun_config reply) =>
      (if send_ok then hs_commit now src_addr client_tx session_id virtual_ip tun_config st'
       else st',
       [TransportSend reply src_addr])
  end.

Section handlers.
Context `{HashOrder}.

Definition handle_disconnect (addr : SocketAddr) (st : ServerState) : ServerState :=
  match list_find (λ kv, cl_addr kv.2 = addr) (hm_iter (sessions st)) with
  | Some (_, (session_id, _)) =>
      mkServer (delete session_id (sessions st)) (next_client_id st)
  | None => st
  end.

Definition find_client (dest_ip : Ipv4Addr) (st : ServerState) : option Client :=
  '(_, (_, c)) ← list_find (λ kv, cl_virtual_ip kv.2 = dest_ip) (hm_iter (sessions st));
  Some c.

(** One iteration of [handle_tun_packet]. *)
Definition handle_tun_packet (data : bytes) (st : ServerState) : list Action :=
  match get_destination_ip data with
  | Some dest_ip =>
      match find_client dest_ip st with
      | Some c => [ChanSend (cl_tx c) data]
      | None => []
      end
  | None => []
  end.

Definition send_to_client (data : bytes) (dest_ip : Ipv4Addr) (st : ServerState) : list Action :=
  match find_client dest_ip st with
  | Some c => [TransportSend (Message_data (mkData data)) (cl_addr c)]
  | None => []
  end.
End handlers.

(** [now.duration_since(last_seen).unwrap_or(Duration::MAX) < 3600 s]: a session
    last seen after [now] counts as expired. *)
Definition session_kept (now : Z) (c : Client) : bool :=
  (cl_last_seen c <=? now) && (now - cl_last_seen c <? secs_ns 3600).

(** One iteration of [cleanup_expired_sessions]. *)
Definition cleanup_expired_sessions (now : Z) (st : ServerState) : ServerState :=
  mkServer (filter (λ kv, session_kept now kv.2 = true) (sessions st)) (next_client_id st).

(** ** The interleaved system *)

(** A handshake whose reply is being sent. *)
Record Pending := mkPending {
  pd_addr : SocketAddr; pd_tx : chan; pd_session : rstr; pd_ip : Ipv4Addr; pd_tun : TunConfig
}.

(** [w_log] is a ghost list: the session id given to each allocated address. *)
Record World := mkWorld {
  w_srv : ServerState;
  w_pending : list Pending;
  w_log : list rstr
}.
Definition World_init : World := mkWorld ServerState_init [] [].

Inductive wstep `{HashOrder} : World -> World -> Prop :=
| ws_begin w config fresh_id sid tok addr tx st' s ip tun reply :
    hs_begin config fresh_id (w_srv w) sid tok = (st', HsChosen s ip tun reply) →
    wstep w
      (mkWorld st' (w_pending w ++ [mkPending addr tx s ip tun])
         (if bool_decide (next_client_id st' = next_client_id (w_srv w)) then w_log w
          else w_log w ++ [s]))
| ws_commit w pre p post now :
    w_pending w = pre ++ p :: post →
    wstep w
      (mkWorld (hs_commit now (pd_addr p) (pd_tx p) (pd_session p) (pd_ip p) (pd_tun p) (w_srv w))
         (pre ++ post) (w_log w))
| ws_send_failed w pre p post :
    w_pending w = pre ++ p :: post →
    wstep w (mkWorld (w_srv w) (pre ++ post) (w_log w))
| ws_disconnect w addr :
    wstep w (mkWorld (handle_disconnect addr (w_srv w)) (w_pending w) (w_log w))
| ws_cleanup w now :
    wstep w (mkWorld (cleanup_expired_sessions now (w_srv w)) (w_pending w) (w_log w)).

(** * Lemmas *)

Lemma validate_token_true t s : validate_token t s = true ↔ s = [] ∨ t = s.
Proof.
  unfold validate_token. destruct s as [|c s]; simpl; [tauto|].
  rewrite bool_decide_eq_true. naive_solver.
Qed.

(** ** Finding a session *)

Section find.
Context `{HashOrder}.

Lemma hm_iter_elem m sid c : (sid, c) ∈ hm_iter m ↔ m !! sid = Some c.
Proof. rewrite hm_iter_perm. apply elem_of_map_to_list. Qed.

Lemma list_find_session (P : rstr * Client -> Prop) `{∀ x, Decision (P x)} m :
  match list_find P (hm_iter m) with
  | Some (_, (sid, c)) => m !! sid = Some c ∧ P (sid, c)
  | None => ∀ sid c, m !! sid = Some c → ¬ P (sid, c)
  end.
Proof.
  destruct (list_find P (hm_iter m)) as [[i [sid c]]|] eqn:E.
  - apply list_find_Some in E as (Hi & HP & _). split; [|done].
    apply hm_iter_elem. by eapply list_elem_of_lookup_2.
  - apply list_find_None in E. intros sid c Hc. rewrite Forall_forall in E.
    apply E. by apply hm_iter_elem.
Qed.

Lemma find_client_cases ip st :
  match find_client ip st with
  | Some c => ∃ sid, sessions st !! sid = Some c ∧ cl_virtual_ip c = ip
  | None => ∀ sid c, sessions st !! sid = Some c → cl_virtual_ip c ≠ ip
  end.
Proof.
  unfold find_client. pose proof (list_find_session (λ kv, cl_virtual_ip kv.2 = ip) (sessions st)).
  destruct (list_find _ _) as [[i [sid c]]|]; simpl in *; [eauto|done].
Qed.

(** With one session per address the answer does not depend on the order. *)
Definition unique_ips (m : gmap rstr Client) : Prop :=
  ∀ s1 s2 c1 c2, m !! s1 = Some c1 → m !! s2 = Some c2 →
    cl_virtual_ip c1 = cl_virtual_ip c2 → s1 = s2.

Lemma find_client_unique ip st sid c :
  unique_ips (sessions st) → sessions st !! sid = Some c → cl_virtual_ip c = ip →
  find_client ip st = Some c.
Proof.
  intros Hu Hc Hip. pose proof (find_client_cases ip st) as Hf.
  destruct (find_client ip st) as [c'|].
  - destruct Hf as (sid' & Hc' & Hip'). assert (sid' = sid) as -> by (eapply Hu; eauto; congruence).
    congruence.
  - by destruct (Hf sid c Hc).
Qed.

Lemma handle_disconnect_cases addr st :
  next_client_id (handle_disconnect addr st) = next_client_id st ∧
  ((∃ sid c, sessions st !! sid = Some c ∧ cl_addr c = addr
     ∧ sessions (handle_disconnect addr st) = delete sid (sessions st))
   ∨ ((∀ sid c, sessions st !! sid = Some c → cl_addr c ≠ addr)
     ∧ sessions (handle_disconnect addr st) = sessions st)).
Proof.
  unfold handle_disconnect. pose proof (list_find_session (λ kv, cl_addr kv.2 = addr) (sessions st)).
  destruct (list_find _ _) as [[i [sid c]]|]; simpl in *; [|by auto].
  split; [done|]. left. exists sid, c. naive_solver.
Qed.
End find.

(** ** The choice of a session *)

Lemma hs_begin_chosen config fresh_id st sid tok st' s ip tun reply :
  hs_begin config fresh_id st sid tok = (st', HsChosen s ip tun reply) →
  ∃ cfg, config = Ok cfg
    ∧ (∀ t, tok = Some t → validate_token t (sc_token cfg) = true)
    ∧ reply = Message_handshake (mkHandshake (sc_token cfg) s (Some tun))
    ∧ ((∃ c, sid = Some s ∧ sessions st !! s = Some c ∧ st' = st
          ∧ ip = cl_virtual_ip c ∧ tun = cl_tun_config c)
       ∨ ((∀ p, sid = Some p → sessions st !! p = None) ∧ s = fresh_id
          ∧ (st', ip) = allocate_virtual_ip st ∧ tun = build_tun_config cfg ip)).
Proof.
  unfold hs_begin. destruct config as [cfg|]; [|done].
  destruct (negb _) eqn:Et; [done|]. apply negb_false_iff in Et.
  unfold choose_session. intros Hb. exists cfg. split; [done|].
  split; [by intros t ->|].
  destruct sid as [p|]; [destruct (sessions st !! p) as [c|] eqn:Ep|].
  - simplify_eq. split; [done|]. left. eauto 10.
  - destruct (allocate_virtual_ip st) as [st1 ip1] eqn:Ea. simplify_eq.
    split; [done|]. right. naive_solver.
  - destruct (allocate_virtual_ip st) as [st1 ip1] eqn:Ea. simplify_eq.
    split; [done|]. right. naive_solver.
Qed.

(** ** Invariants of the interleaved system *)

(** The address of the [i]-th allocation. *)
Definition vip_of (i : nat) : Ipv4Addr := Ipv4Addr_new 10 0 0 ((2 + Z.of_nat i) mod 256).

Lemma vip_of_wf i : ipv4_wf (vip_of i).
Proof. repeat split; simpl; try lia; apply Z.mod_pos_bound; lia. Qed.

Lemma vip_of_inj i j :
  (i < 256)%nat → (j < 256)%nat → vip_of i = vip_of j → i = j.
Proof. unfold vip_of. intros Hi Hj [= E]. div_lia. Qed.

(** A session id and address that come from one allocation. *)
Definition allocated (log : list rstr) (sid : rstr) (ip : Ipv4Addr) (tun : TunConfig) : Prop :=
  ∃ i, log !! i = Some sid ∧ ip = vip_of i ∧ tc_address tun = ipv4_to_string ip.

Lemma allocated_app log extra sid ip tun :
  allocated log sid ip tun → allocated (log ++ extra) sid ip tun.
Proof. intros (i & Hi & ?). exists i. split; [by apply lookup_app_l_Some|done]. Qed.

Record world_inv (w : World) : Prop := {
  wi_next : next_client_id (w_srv w) = (2 + Z.of_nat (length (w_log w))) mod 2 ^ 32;
  wi_sessions : map_Forall (λ sid c, allocated (w_log w) sid (cl_virtual_ip c) (cl_tun_config c))
                  (sessions (w_srv w));
  wi_pending : Forall (λ p, allocated (w_log w) (pd_session p) (pd_ip p) (pd_tun p)) (w_pending w)
}.

Lemma world_inv_init : world_inv World_init.
Proof. split; simpl; [done|apply map_Forall_empty|constructor]. Qed.

Lemma allocate_octet st n :
  next_client_id st = (2 + Z.of_nat n) mod 2 ^ 32 →
  (allocate_virtual_ip st).2 = vip_of n
  ∧ next_client_id (allocate_virtual_ip st).1 = (2 + Z.of_nat (S n)) mod 2 ^ 32
  ∧ next_client_id (allocate_virtual_ip st).1 ≠ next_client_id st.
Proof.
  intros Hn. unfold allocate_virtual_ip, vip_of. simpl. rewrite Hn. split; [|split].
  - f_equal. apply Z.mod_mod_divide. by exists (2 ^ 24).
  - rewrite Z.add_mod_idemp_l by lia. f_equal. lia.
  - div_lia.
Qed.

Section invariant.
Context `{HashOrder}.

Lemma world_inv_begin w config fresh_id sid tok addr tx st' s ip tun reply :
  world_inv w →
  hs_begin config fresh_id (w_srv w) sid tok = (st', HsChosen s ip tun reply) →
  world_inv
    (mkWorld st' (w_pending w ++ [mkPending addr tx s ip tun])
       (if bool_decide (next_client_id st' = next_client_id (w_srv w)) then w_log w
        else w_log w ++ [s])).
Proof.
  intros [Hn Hs Hp] Hb.
  destruct (hs_begin_chosen _ _ _ _ _ _ _ _ _ _ Hb)
    as (cfg & _ & _ & _ & [(c & _ & Hc & -> & -> & ->)|(_ & -> & Ha & ->)]).
  - rewrite bool_decide_eq_true_2 by done. split; simpl; [done|done|].
    apply Forall_app. split; [done|]. constructor; [|constructor]. by apply Hs in Hc.
  - destruct (allocate_octet _ _ Hn) as (Hip & Hn' & Hne). rewrite <- Ha in Hip, Hn', Hne.
    simpl in *. rewrite bool_decide_eq_false_2 by done. subst ip.
    assert (sessions st' = sessions (w_srv w)) as Hss by (unfold allocate_virtual_ip in Ha; by simplify_eq).
    split; simpl.
    + rewrite Hn', length_app. f_equal. simpl. lia.
    + rewrite Hss. intros i x Hx. by apply allocated_app, Hs.
    + apply Forall_app. split.
      * eapply Forall_impl; [exact Hp|]. intros p. apply allocated_app.
      * constructor; [|constructor]. exists (length (w_log w)). simpl.
        by rewrite lookup_app_r, Nat.sub_diag by done.
Qed.

Lemma world_inv_step w w' : wstep w w' → world_inv w → world_inv w'.
Proof.
  intros Hst Hi. destruct Hst as [w config fresh sid tok addr tx st' s ip tun reply Hb
    |w pre p post now Hpd|w pre p post Hpd|w addr|w now].
  - by eapply world_inv_begin.
  - destruct Hi as [Hn Hs Hp]. rewrite Hpd in Hp.
    apply Forall_app in Hp as [Hp1 [Hpp Hp2]%Forall_cons].
    split; simpl; [done|by apply map_Forall_insert_2|by apply Forall_app].
  - destruct Hi as [Hn Hs Hp]. rewrite Hpd in Hp.
    apply Forall_app in Hp as [Hp1 [Hpp Hp2]%Forall_cons].
    split; simpl; [done|done|by apply Forall_app].
  - destruct Hi as [Hn Hs Hp]. destruct (handle_disconnect_cases addr (w_srv w)) as [Hid Hd].
    split; simpl; [by rewrite Hid| |done].
    destruct Hd as [(sid & c & _ & _ & ->)|[_ ->]]; [by apply map_Forall_delete|done].
  - destruct Hi as [Hn Hs Hp]. split; simpl; [done| |done].
    intros sid c [Hc _]%map_lookup_filter_Some. by apply (Hs sid).
Qed.

Lemma world_inv_reachable w : rtc wstep World_init w → world_inv w.
Proof.
  intros Hr. eapply rtc_invariant; [exact world_inv_step|exact Hr|apply world_inv_init].
Qed.

(** Up to 256 allocations, an address belongs to one session. *)
Lemma allocated_unique log s1 s2 ip1 ip2 t1 t2 :
  (length log ≤ 256)%nat → allocated log s1 ip1 t1 → allocated log s2 ip2 t2 →
  ip1 = ip2 → s1 = s2.
Proof.
  intros Hl (i & Hi & -> & _) (j & Hj & -> & _) Heq.
  pose proof (lookup_lt_Some _ _ _ Hi). pose proof (lookup_lt_Some _ _ _ Hj).
  assert (i = j) as -> by (apply vip_of_inj; (lia || done)). congruence.
Qed.

Lemma world_inv_unique w :
  world_inv w → (length (w_log w) ≤ 256)%nat → unique_ips (sessions (w_srv w)).
Proof.
  intros [_ Hs _] Hl s1 s2 c1 c2 H1 H2 Heq.
  apply Hs in H1, H2. by eapply allocated_unique.
Qed.
End invariant.

(** ** Handshakes run without interleaving *)

Lemma handle_handshake_reject cfg fresh_id ok now st addr tx sid t :
  validate_token t (sc_token cfg) = false →
  handle_handshake (Ok cfg) fresh_id ok now st addr tx sid (Some t)
  = (st, [TransportSend reject_message addr]).
Proof. intros Ht. unfold handle_handshake, hs_begin. by rewrite Ht. Qed.

(** The token check lets a handshake through. *)
Definition token_passes (cfg : ServerConfig) (tok : option rstr) : Prop :=
  ∀ t, tok = Some t → validate_token t (sc_token cfg) = true.

Lemma handle_handshake_reconnect cfg fresh_id now st addr tx sid c tok :
  token_passes cfg tok → sessions st !! sid = Some c →
  handle_handshake (Ok cfg) fresh_id true now st addr tx (Some sid) tok
  = (mkServer (<[sid := mkClient addr (cl_virtual_ip c) tx (cl_tun_config c) now]> (sessions st))
       (next_client_id st),
     [TransportSend (Message_handshake (mkHandshake (sc_token cfg) sid (Some (cl_tun_config c)))) addr]).
Proof.
  intros Ht Hs. unfold handle_handshake, hs_begin, choose_session. rewrite Hs.
  destruct tok as [t|]; [rewrite (Ht t) by done|]; done.
Qed.

Lemma handle_handshake_new cfg fresh_id ok now st addr tx sid tok :
  token_passes cfg tok → (∀ s, sid = Some s → sessions st !! s = None) →
  let ip := Ipv4Addr_new 10 0 0 (next_client_id st mod 256) in
  let tun := build_tun_config cfg ip in
  handle_handshake (Ok cfg) fresh_id ok now st addr tx sid tok
  = (mkServer (if ok then <[fresh_id := mkClient addr ip tx tun now]> (sessions st) else sessions st)
       ((next_client_id st + 1) mod 2 ^ 32),
     [TransportSend (Message_handshake (mkHandshake (sc_token cfg) fresh_id (Some tun))) addr]).
Proof.
  intros Ht Hs. unfold handle_handshake, hs_begin, choose_session.
  destruct tok as [t|]; [rewrite (Ht t) by done|]; simpl;
    (destruct sid as [s|]; [rewrite (Hs s) by done|]); by destruct ok.
Qed.

(** An uninterrupted handshake is a sequence of steps of the interleaved system. *)
Lemma handle_handshake_steps `{HashOrder} config fresh_id ok now st pend log addr tx sid tok :
  ∃ log', rtc wstep (mkWorld st pend log)
    (mkWorld (handle_handshake config fresh_id ok now st addr tx sid tok).1 pend log').
Proof.
  unfold handle_handshake.
  destruct (hs_begin config fresh_id st sid tok) as [st' [| |s ip tun reply]] eqn:E.
  - exists log. unfold hs_begin in E. destruct config; repeat case_match; simplify_eq; constructor.
  - exists log. unfold hs_begin in E. destruct config; repeat case_match; simplify_eq; constructor.
  - pose proof (ws_begin (mkWorld st pend log) config fresh_id sid tok addr tx _ _ _ _ _ E) as H1.
    eexists. eapply rtc_l; [exact H1|]. simpl. apply rtc_once.
    assert (∀ log1, wstep (mkWorld st' (pend ++ [mkPending addr tx s ip tun]) log1)
      (mkWorld (if ok then hs_commit now addr tx s ip tun st' else st') pend log1)) as H2.
    { intros log1. destruct ok.
      - pose proof (ws_commit (mkWorld st' (pend ++ [mkPending addr tx s ip tun]) log1)
          pend (mkPending addr tx s ip tun) [] now eq_refl) as H3. by rewrite app_nil_r in H3.
      - pose proof (ws_send_failed (mkWorld st' (pend ++ [mkPending addr tx s ip tun]) log1)
          pend (mkPending addr tx s ip tun) [] eq_refl) as H3. by rewrite app_nil_r in H3. }
    apply H2.
Qed.

(** ** Clients connecting one after the other *)

(** [n] clients with the given session ids, from the initial state. *)
Fixpoint connect_n (cfg : ServerConfig) (id : nat -> rstr) (n : nat) : ServerState :=
  match n with
  | O => ServerState_init
  | S k => (handle_handshake (Ok cfg) (id k) true 0 (connect_n cfg id k)
              (SocketAddr_new (V4 (Ipv4Addr_new 1 1 1 1)) (Z.of_nat k)) 0 None None).1
  end.

Lemma connect_n_reachable `{HashOrder} cfg id n :
  ∃ log, rtc wstep World_init (mkWorld (connect_n cfg id n) [] log).
Proof.
  induction n as [|n [log IH]]; [by exists []|]. cbn [connect_n].
  destruct (handle_handshake_steps (Ok cfg) (id n) true 0 (connect_n cfg id n) [] log
    (SocketAddr_new (V4 (Ipv4Addr_new 1 1 1 1)) (Z.of_nat n)) 0 None None) as [log' Hs].
  exists log'. by etrans.
Qed.

(** ** Packets *)

Lemma get_destination_ip_some data ip :
  get_destination_ip data = Some ip ↔
  ∃ v h b0 b1 b2 b3 rest, data = (v :: h) ++ [b0; b1; b2; b3] ++ rest ∧ length h = 15%nat
    ∧ Z.shiftr v 4 = 4 ∧ ip = Ipv4Addr_new b0 b1 b2 b3.
Proof.
  unfold get_destination_ip. split.
  - destruct (length data <? 20)%nat eqn:El; [done|]. apply Nat.ltb_ge in El.
    intros (v & Hv & Hr)%bind_Some. destruct (Z.shiftr v 4 =? 4) eqn:Ev; [simpl in Hr|done].
    apply bind_Some in Hr as (b0 & H0 & (b1 & H1 & (b2 & H2 & (b3 & H3 & [= <-])
      %bind_Some)%bind_Some)%bind_Some).
    destruct data as [|v' data]; [done|]. injection Hv as ->. simpl in *.
    exists v, (take 15 data), b0, b1, b2, b3, (drop 19 data).
    split; [|split; [rewrite length_take; lia|split; [lia|done]]].
    rewrite <- (take_drop 15 data) at 1. simpl. f_equal. f_equal.
    rewrite (drop_S _ b0 15), (drop_S _ b1 16), (drop_S _ b2 17), (drop_S _ b3 18) by done. done.
  - intros (v & h & b0 & b1 & b2 & b3 & rest & -> & Hl & Hv & ->).
    rewrite length_app. simpl. rewrite Hl. simpl.
    rewrite Hv. simpl. do 15 (destruct h as [|? h]; [done|]). by destruct h.
Qed.

(** * Properties *)

Section properties.
Context `{HashOrder}.

(** C9: Under every interleaving of handshakes (whose reply and registration are
    separate steps), disconnects and clean-ups, as long as at most 256 addresses
    have been allocated, two sessions never share a virtual address, and the
    address text sent to a client parses back to the address the server routes
    by. *)
Theorem virtual_ips_unique w :
  rtc wstep World_init w → (length (w_log w) ≤ 256)%nat →
  unique_ips (sessions (w_srv w))
  ∧ map_Forall (λ _ c, parse_ipv4 (tc_address (cl_tun_config c)) = Some (cl_virtual_ip c))
      (sessions (w_srv w)).
Proof.
  intros Hr%world_inv_reachable Hl. split; [by apply world_inv_unique|].
  destruct Hr as [_ Hs _]. intros sid c (i & _ & -> & ->)%Hs.
  apply parse_ipv4_to_string, vip_of_wf.
Qed.

(** C17: As long as at most 256 addresses have been handed out, in every interleaving
    a packet from the server's TUN device goes to the channel of the session
    that owns its destination address, and to nobody when no session owns it,
    whatever order the session map is iterated in. *)
Theorem tun_packet_delivery w data ip :
  rtc wstep World_init w → (length (w_log w) ≤ 256)%nat → get_destination_ip data = Some ip →
  (∀ sid c, sessions (w_srv w) !! sid = Some c → cl_virtual_ip c = ip →
     handle_tun_packet data (w_srv w) = [ChanSend (cl_tx c) data])
  ∧ ((∀ sid c, sessions (w_srv w) !! sid = Some c → cl_virtual_ip c ≠ ip) →
     handle_tun_packet data (w_srv w) = []).
Proof.
  intros Hr%world_inv_reachable Hl Hd. unfold handle_tun_packet. rewrite Hd. split.
  - intros sid c Hc Hip. by rewrite (find_client_unique _ _ sid c (world_inv_unique w Hr Hl)).
  - intros Hno. pose proof (find_client_cases ip (w_srv w)) as Hf.
    destruct (find_client ip (w_srv w)); [|done]. destruct Hf as (sid & Hc & ?).
    by destruct (Hno sid _ Hc).
Qed.

(** C34: The addresses handed out wrap around: there is a reachable state in
    which two different live sessions have the same virtual address (the 1st and
    the 257th client), so packets for one can be delivered to the other. *)
Theorem virtual_ip_collision :
  ∃ w s1 s2 c1 c2, rtc wstep World_init w ∧ s1 ≠ s2
    ∧ sessions (w_srv w) !! s1 = Some c1 ∧ sessions (w_srv w) !! s2 = Some c2
    ∧ cl_virtual_ip c1 = cl_virtual_ip c2.
Proof.
  destruct (connect_n_reachable ServerConfig_default (λ k, [Z.of_nat k]) 257) as [log Hr].
  eexists _, [0], [256], _, _. split; [exact Hr|].
  split; [done|]. split; [vm_compute; reflexivity|]. split; [vm_compute; reflexivity|]. reflexivity.
Qed.

(** Losing the connection loses the address: once a session's connection is
    closed, a handshake with the same session id is a new session with a newly
    allocated address and a new id, not a reconnection. *)
Lemma reconnect_after_disconnect st sid c cfg fresh_id now addr tx tok :
  sessions st !! sid = Some c →
  (∀ s' c', sessions st !! s' = Some c' → cl_addr c' = cl_addr c → s' = sid) →
  token_passes cfg tok →
  ∃ c', sessions (handle_handshake (Ok cfg) fresh_id true now
                    (handle_disconnect (cl_addr c) st) addr tx (Some sid) tok).1 !! fresh_id
        = Some c'
    ∧ cl_virtual_ip c' = Ipv4Addr_new 10 0 0 (next_client_id st mod 256).
Proof.
  intros Hc Hu Ht. destruct (handle_disconnect_cases (cl_addr c) st) as [Hn [Hd|[Hno _]]];
    [|by destruct (Hno sid c Hc)].
  destruct Hd as (sid' & c' & Hc' & Ha & Hd). rewrite (Hu sid' c' Hc' Ha) in Hd.
  rewrite handle_handshake_new; [|done|].
  - eexists. simpl. rewrite lookup_insert_eq. split; [done|]. simpl. by rewrite Hn.
  - intros s [= <-]. rewrite Hd. apply lookup_delete_eq.
Qed.
End properties.

(** A wrong token is answered with an empty handshake and changes nothing:
    no session, no address. *)
Lemma wrong_token_rejected cfg fresh_id ok now st addr tx sid t :
  sc_token cfg ≠ [] → t ≠ sc_token cfg →
  handle_handshake (Ok cfg) fresh_id ok now st addr tx sid (Some t)
  = (st, [TransportSend (Message_handshake (mkHandshake [] [] None)) addr]).
Proof.
  intros Hne Ht. apply handle_handshake_reject, not_true_iff_false.
  rewrite validate_token_true. naive_solver.
Qed.

(** C33: A handshake without a token is never checked: whatever token the server
    is configured with, it opens a session, and the reply carries the server's
    token. *)
Theorem missing_token_accepted cfg fresh_id now st addr tx :
  ∃ tun c st', handle_handshake (Ok cfg) fresh_id true now st addr tx None None
    = (st', [TransportSend (Message_handshake (mkHandshake (sc_token cfg) fresh_id (Some tun))) addr])
    ∧ sessions st' !! fresh_id = Some c ∧ cl_addr c = addr ∧ cl_tx c = tx.
Proof.
  rewrite handle_handshake_new by done. eexists _, _, _. split; [done|].
  simpl. by rewrite lookup_insert_eq.
Qed.

(** Clean-up keeps a session iff it was last seen at or before now and less
    than an hour ago, and changes no kept session. *)
Lemma cleanup_keeps_recent now st sid c :
  sessions (cleanup_expired_sessions now st) !! sid = Some c ↔
  sessions st !! sid = Some c ∧ cl_last_seen c ≤ now < cl_last_seen c + secs_ns 3600.
Proof.
  unfold cleanup_expired_sessions, session_kept. simpl. rewrite map_lookup_filter_Some. simpl.
  rewrite andb_true_iff, Z.leb_le, Z.ltb_lt. intuition lia.
Qed.

(** ** The properties at concrete inputs *)

(** Iteration in the order of the keys' codes. *)
Module KeyOrder.
#[export] Instance key_order : HashOrder := {
  hm_iter m := map_to_list m;
  hm_iter_perm m := Permutation_refl _
}.
End KeyOrder.
Import KeyOrder.

Definition sample_addr : SocketAddr := SocketAddr_new (V4 (Ipv4Addr_new 1 1 1 1)) 0.
Definition sample_client : Client :=
  mkClient sample_addr (Ipv4Addr_new 10 0 0 2) 0
    (build_tun_config ServerConfig_default (Ipv4Addr_new 10 0 0 2)) 0.
Definition sample_state : ServerState := mkServer {[ [0] := sample_client ]} 3.
Definition sample_pending : Pending :=
  mkPending sample_addr 0 [0] (Ipv4Addr_new 10 0 0 2) (cl_tun_config sample_client).
Definition sample_world : World := mkWorld sample_state [] [[0]].

Lemma sample_reachable : rtc wstep World_init sample_world.
Proof.
  eapply rtc_l.
  - exact (ws_begin World_init (Ok ServerConfig_default) [0] None None sample_addr 0 _ _ _ _ _ eq_refl).
  - apply rtc_once. exact (ws_commit (mkWorld (mkServer ∅ 3) [sample_pending] [[0]]) []
      sample_pending [] 0 eq_refl).
Qed.

Lemma virtual_ips_unique_witness :
  unique_ips (sessions sample_state)
  ∧ map_Forall (λ _ c, parse_ipv4 (tc_address (cl_tun_config c)) = Some (cl_virtual_ip c))
      (sessions sample_state).
Proof. apply (virtual_ips_unique sample_world); [apply sample_reachable|simpl; lia]. Defined.

Definition sample_ip_packet : bytes :=
  [69; 0; 0; 20; 0; 0; 0; 0; 64; 17; 0; 0; 8; 8; 8; 8; 10; 0; 0; 2].

Lemma tun_packet_delivery_witness :
  (∀ sid c, sessions sample_state !! sid = Some c → cl_virtual_ip c = Ipv4Addr_new 10 0 0 2 →
     handle_tun_packet sample_ip_packet sample_state = [ChanSend (cl_tx c) sample_ip_packet])
  ∧ ((∀ sid c, sessions sample_state !! sid = Some c → cl_virtual_ip c ≠ Ipv4Addr_new 10 0 0 2) →
     handle_tun_packet sample_ip_packet sample_state = []).
Proof.
  apply (tun_packet_delivery sample_world); [apply sample_reachable|simpl; lia|reflexivity].
Defined.

Lemma reconnect_after_disconnect_witness :
  ∃ c', sessions (handle_handshake (Ok ServerConfig_default) [7] true 0
                    (handle_disconnect sample_addr sample_state) sample_addr 1 (Some [0]) None).1
          !! [7] = Some c'
    ∧ cl_virtual_ip c' = Ipv4Addr_new 10 0 0 3.
Proof.
  apply (reconnect_after_disconnect sample_state [0] sample_client); [reflexivity| |done].
  intros s' c' Hs _. unfold sample_state in Hs. simpl in Hs.
  by apply lookup_singleton_Some in Hs as [<- _].
Defined.

Definition sample_cfg : ServerConfig :=
  mkServerConfig (lit "tcp") sample_addr (lit "tun0") (V4 (Ipv4Addr_new 10 0 0 1))
    (V4 (Ipv4Addr_new 255 255 255 0)) (V4 (Ipv4Addr_new 10 0 0 0)) [] 1400 [] [] (lit "secret").

Lemma wrong_token_rejected_witness :
  handle_handshake (Ok sample_cfg) [7] true 0 sample_state sample_addr 1 None (Some (lit "guess"))
  = (sample_state, [TransportSend (Message_handshake (mkHandshake [] [] None)) sample_addr]).
Proof. apply wrong_token_rejected; vm_compute; discriminate. Defined.

