(* ===== verification/Conn.v ===== *)
(** * Conn: the server's connection loops ([transport/tcp.rs], [transport/ws.rs],
    [transport/udp.rs])

    A TCP or WebSocket connection is served by a loop that dispatches incoming
    messages to the handlers of [server.rs] and forwards the packets of its own
    channel; one UDP loop serves all clients.  [handle_connection] and
    [udp_io_task] run such a loop on a list of events.  [sstep] is the system of
    all connections and the session table, in which handshakes are not atomic. *)

From S2P Require Import Prelude RStr Net AppConfig Codec Server.

(** What [TransportTrait::next] returns. *)
Abbreviation next_result := (option (result io_error (Message * SocketAddr))).

(** ** WebSocket framing *)

Inductive WsMessage := WsBinary (b : bytes) | WsControl.

Section ws.
Context `{Prost}.

Definition ws_send (m : Message) : WsMessage := WsBinary (encode_to_vec m).

(** [WsTransport::next] on the remaining items of the stream: the result and the
    items left.  A binary message that does not decode gives [None]. *)
Fixpoint ws_next (peer_addr : SocketAddr) (stream : list (result rstr WsMessage))
    : next_result * list (result rstr WsMessage) :=
  match stream with
  | [] => (None, [])
  | Ok (WsBinary b) :: rest =>
      (match message_decode b with Ok m => Some (Ok (m, peer_addr)) | Err _ => None end, rest)
  | Ok WsControl :: rest => ws_next peer_addr rest
  | Err e :: rest => (Some (Err (mkIoError BrokenPipe e)), rest)
  end.
End ws.

(** [TcpTransport::next], given what the framed stream returns. *)
Definition tcp_next (peer_addr : SocketAddr) (r : option (result io_error Message)) : next_result :=
  match r with
  | Some (Ok m) => Some (Ok (m, peer_addr))
  | Some (Err e) => Some (Err e)
  | None => None
  end.

(** ** Dispatch *)

(** What the environment answers during a handshake. *)
Record HsEnv := mkHsEnv {
  env_config : result rstr ServerConfig;
  env_fresh_id : rstr;
  env_send_ok : bool;
  env_now : Z
}.

(** [if s.is_empty() { None } else { Some(s.clone()) }] *)
Definition provided (s : rstr) : option rstr := if is_empty s then None else Some s.

Inductive flow := Continue | Break.

Section conn.
Context `{HashOrder}.

(** [match msg.msg]: [hs_addr] is the address given to [handle_handshake]. *)
Definition dispatch (env : HsEnv) (hs_addr src_addr : SocketAddr) (client_tx transport_tx : chan)
    (m : Message) (st : ServerState) : ServerState * list Action :=
  match msg m with
  | Some (MsgHandshake h) =>
      handle_handshake (env_config env) (env_fresh_id env) (env_send_ok env) (env_now env) st
        hs_addr client_tx (provided (hs_session_id h)) (provided (hs_token h))
  | Some (MsgData d) => (st, handle_data (data_payload d) transport_tx)
  | Some (MsgKeepalive k) => (st, handle_keepalive src_addr (ka_timestamp k))
  | Some (MsgDisconnect _) => (handle_disconnect src_addr st, [])
  | None => (st, [])
  end.

(** ** One connection (TCP and WebSocket) *)

Inductive ConnEvent :=
| EvNext (r : next_result) (env : HsEnv)
| EvClientRx (data : option bytes) (send : result io_error unit).

(** One iteration of [handle_tcp_connection] / [handle_ws_connection]. *)
Definition conn_step (peer_addr : SocketAddr) (client_tx transport_tx : chan) (st : ServerState)
    (ev : ConnEvent) : ServerState * list Action * flow :=
  match ev with
  | EvNext (Some (Ok (m, src_addr))) env =>
      (dispatch env peer_addr src_addr client_tx transport_tx m st, Continue)
  | EvNext (Some (Err _)) _ => (st, [], Break)
  | EvNext None _ => (st, [], Break)
  | EvClientRx (Some data) send =>
      (st, [TransportSend (Message_data (mkData data)) peer_addr],
       match send with Ok _ => Continue | Err _ => Break end)
  | EvClientRx None _ => (st, [], Break)
  end.

Fixpoint conn_loop (peer_addr : SocketAddr) (client_tx transport_tx : chan) (st : ServerState)
    (evs : list ConnEvent) : ServerState * list Action * flow :=
  match evs with
  | [] => (st, [], Continue)
  | ev :: evs' =>
      match conn_step peer_addr client_tx transport_tx st ev with
      | (st', acts, Continue) =>
          let '(st'', acts', f) := conn_loop peer_addr client_tx transport_tx st' evs' in
          (st'', acts ++ acts', f)
      | (st', acts, Break) => (st', acts, Break)
      end
  end.

(** The whole connection: the loop, and [handle_disconnect] once it breaks. *)
Definition handle_connection (peer_addr : SocketAddr) (client_tx transport_tx : chan)
    (st : ServerState) (evs : list ConnEvent) : ServerState * list Action * flow :=
  match conn_loop peer_addr client_tx transport_tx st evs with
  | (st', acts, Break) => (handle_disconnect peer_addr st', acts, Break)
  | r => r
  end.
Definition handle_tcp_connection := handle_connection.
Definition handle_ws_connection := handle_connection.

(** ** The UDP loop *)

Inductive UdpEvent :=
| EvUdpNext (r : next_result) (env : HsEnv) (dummy_tx : chan)
| EvUdpTun (data : option bytes).

Definition udp_step (transport_tx : chan) (st : ServerState) (ev : UdpEvent)
    : ServerState * list Action * flow :=
  match ev with
  | EvUdpNext (Some (Ok (m, src_addr))) env dummy_tx =>
      (dispatch env src_addr src_addr dummy_tx transport_tx m st, Continue)
  | EvUdpNext (Some (Err _)) _ _ => (st, [], Break)
  | EvUdpNext None _ _ => (st, [], Break)
  | EvUdpTun (Some data) =>
      (st, match get_destination_ip data with
           | Some dest_ip => send_to_client data dest_ip st
           | None => []
           end, Continue)
  | EvUdpTun None => (st, [], Break)
  end.

Fixpoint udp_io_task (transport_tx : chan) (st : ServerState) (evs : list UdpEvent)
    : ServerState * list Action * flow :=
  match evs with
  | [] => (st, [], Continue)
  | ev :: evs' =>
      match udp_step transport_tx st ev with
      | (st', acts, Continue) =>
          let '(st'', acts', f) := udp_io_task transport_tx st' evs' in (st'', acts ++ acts', f)
      | (st', acts, Break) => (st', acts, Break)
      end
  end.

(** ** All connections

    A connection is waiting for messages ([Fresh] or, after a completed
    handshake, [Joined]) or inside [handle_handshake], with the reply being sent
    ([Replying]).  [sstep false] is the system of clients that complete at most
    one handshake between disconnects, [sstep true] that of arbitrary clients. *)
Inductive phase :=
| Fresh
| Replying (session_id : rstr) (virtual_ip : Ipv4Addr) (tun_config : TunConfig)
| Joined.
Record Connection := mkConn { cn_addr : SocketAddr; cn_phase : phase }.
Record Sys := mkSys { sys_srv : ServerState; sys_conns : gmap Z Connection }.
Definition Sys_init : Sys := mkSys ServerState_init ∅.

(** May the connection start a handshake: always when [again], otherwise only
    when it has no session yet. *)
Definition may_handshake (again : bool) (p : phase) : Prop :=
  match p with Fresh => True | Joined => again = true | Replying _ _ _ => False end.
Definition waiting (p : phase) : Prop :=
  match p with Replying _ _ _ => False | _ => True end.

Inductive sstep (again : bool) : Sys -> Sys -> Prop :=
| ss_accept s tx addr :
    sys_conns s !! tx = None →
    (∀ t c, sys_conns s !! t = Some c → cn_addr c ≠ addr) →
    (∀ sid c, sessions (sys_srv s) !! sid = Some c → cl_tx c ≠ tx) →
    sstep again s (mkSys (sys_srv s) (<[tx := mkConn addr Fresh]> (sys_conns s)))
| ss_begin s tx addr p config fresh_id sid tok st' session_id ip tun reply :
    sys_conns s !! tx = Some (mkConn addr p) → may_handshake again p →
    hs_begin config fresh_id (sys_srv s) sid tok = (st', HsChosen session_id ip tun reply) →
    sstep again s (mkSys st' (<[tx := mkConn addr (Replying session_id ip tun)]> (sys_conns s)))
| ss_commit s tx addr session_id ip tun now :
    sys_conns s !! tx = Some (mkConn addr (Replying session_id ip tun)) →
    sstep again s (mkSys (hs_commit now addr tx session_id ip tun (sys_srv s))
             (<[tx := mkConn addr Joined]> (sys_conns s)))
| ss_send_failed s tx addr session_id ip tun :
    sys_conns s !! tx = Some (mkConn addr (Replying session_id ip tun)) →
    sstep again s (mkSys (sys_srv s) (<[tx := mkConn addr Fresh]> (sys_conns s)))
| ss_disconnect s tx addr p :
    sys_conns s !! tx = Some (mkConn addr p) → waiting p →
    sstep again s (mkSys (handle_disconnect addr (sys_srv s)) (<[tx := mkConn addr Fresh]> (sys_conns s)))
| ss_close s tx addr p :
    sys_conns s !! tx = Some (mkConn addr p) → waiting p →
    sstep again s (mkSys (handle_disconnect addr (sys_srv s)) (delete tx (sys_conns s)))
| ss_cleanup s now :
    sstep again s (mkSys (cleanup_expired_sessions now (sys_srv s)) (sys_conns s)).
End conn.

(** * Lemmas *)

Section system.
Context `{HashOrder}.

Record sys_inv (s : Sys) : Prop := {
  si_owner : ∀ sid c, sessions (sys_srv s) !! sid = Some c →
    sys_conns s !! cl_tx c = Some (mkConn (cl_addr c) Joined);
  si_addr : ∀ t1 t2 c1 c2, sys_conns s !! t1 = Some c1 → sys_conns s !! t2 = Some c2 →
    cn_addr c1 = cn_addr c2 → t1 = t2;
  si_one : ∀ s1 s2 c1 c2, sessions (sys_srv s) !! s1 = Some c1 →
    sessions (sys_srv s) !! s2 = Some c2 → cl_addr c1 = cl_addr c2 → s1 = s2
}.

Lemma sys_inv_init : sys_inv Sys_init.
Proof. split; simpl; intros; by rewrite lookup_empty in *. Qed.

(** Updating the phase of a connection keeps the addresses distinct. *)
Lemma conns_addr_update (m : gmap Z Connection) tx addr p q :
  m !! tx = Some (mkConn addr p) →
  (∀ t1 t2 c1 c2, m !! t1 = Some c1 → m !! t2 = Some c2 → cn_addr c1 = cn_addr c2 → t1 = t2) →
  ∀ t1 t2 c1 c2, <[tx := mkConn addr q]> m !! t1 = Some c1 →
    <[tx := mkConn addr q]> m !! t2 = Some c2 → cn_addr c1 = cn_addr c2 → t1 = t2.
Proof.
  intros Hm Hu.
  assert (∀ t c, <[tx := mkConn addr q]> m !! t = Some c →
    ∃ c', m !! t = Some c' ∧ cn_addr c' = cn_addr c) as Hold.
  { intros t c [[<- <-]|[_ Hc]]%lookup_insert_Some; eauto. }
  intros t1 t2 c1 c2 (c1' & H1 & <-)%Hold (c2' & H2 & <-)%Hold. eauto.
Qed.

(** A session does not belong to a connection that has not joined. *)
Lemma owner_other s tx addr p sid c :
  sys_inv s → sys_conns s !! tx = Some (mkConn addr p) → p ≠ Joined →
  sessions (sys_srv s) !! sid = Some c → cl_tx c ≠ tx ∧ cl_addr c ≠ addr.
Proof.
  intros [Ho Ha _] Hc Hp Hs. apply Ho in Hs as Hj. split; [intros <-; congruence|].
  intros <-. assert (tx = cl_tx c) as -> by (by eapply Ha). congruence.
Qed.

(** After [handle_disconnect addr] no session has that address, and the others
    are unchanged. *)
Lemma disconnect_sessions addr st :
  (∀ s1 s2 c1 c2, sessions st !! s1 = Some c1 → sessions st !! s2 = Some c2 →
     cl_addr c1 = cl_addr c2 → s1 = s2) →
  ∀ sid c, sessions (handle_disconnect addr st) !! sid = Some c ↔
    sessions st !! sid = Some c ∧ cl_addr c ≠ addr.
Proof.
  intros Hone sid c.
  destruct (handle_disconnect_cases addr st) as [_ [(sid' & c' & Hc' & Ha & ->)|[Hno ->]]].
  - rewrite lookup_delete_Some. split.
    + intros [Hne Hs]. split; [done|]. intros Heq. apply Hne. eapply Hone; eauto. congruence.
    + intros [Hs Hne]. split; [|done]. intros <-. congruence.
  - split; [|by intros []]. intros Hs. split; [done|by eapply Hno].
Qed.

Lemma hs_begin_sessions config fresh_id st sid tok st' r :
  hs_begin config fresh_id st sid tok = (st', r) → sessions st' = sessions st.
Proof.
  unfold hs_begin, choose_session, allocate_virtual_ip. intros.
  destruct config; repeat case_match; by simplify_eq/=.
Qed.

Lemma sys_inv_accept s tx addr :
  sys_conns s !! tx = None → (∀ t c, sys_conns s !! t = Some c → cn_addr c ≠ addr) →
  sys_inv s → sys_inv (mkSys (sys_srv s) (<[tx := mkConn addr Fresh]> (sys_conns s))).
Proof.
  intros Hn Hfresh [Ho Ha Hone]. split; simpl; [|clear Ho Hone|done].
  - intros sid c Hs. apply Ho in Hs. rewrite lookup_insert_ne; [done|congruence].
  - intros t1 t2 c1 c2 [[<- <-]|[? H1]]%lookup_insert_Some [[<- <-]|[? H2]]%lookup_insert_Some;
      simpl; [done|intros E; by destruct (Hfresh _ _ H2)
             |intros E; by destruct (Hfresh _ _ H1)|eauto].
Qed.

(** Changing only the phase of a connection that owns no session. *)
Lemma sys_inv_phase s tx addr p q st' :
  sys_conns s !! tx = Some (mkConn addr p) → p ≠ Joined → sessions st' = sessions (sys_srv s) →
  sys_inv s → sys_inv (mkSys st' (<[tx := mkConn addr q]> (sys_conns s))).
Proof.
  intros Hc Hp Hst Hi. pose proof Hi as [Ho Ha Hone]. split; simpl; rewrite ?Hst.
  - intros sid c Hs. destruct (owner_other s tx addr p sid c Hi Hc Hp Hs) as [Hne _].
    rewrite lookup_insert_ne by done. by apply (Ho sid).
  - by eapply conns_addr_update.
  - done.
Qed.

Lemma sys_inv_commit s tx addr sid ip tun now :
  sys_conns s !! tx = Some (mkConn addr (Replying sid ip tun)) → sys_inv s →
  sys_inv (mkSys (hs_commit now addr tx sid ip tun (sys_srv s))
             (<[tx := mkConn addr Joined]> (sys_conns s))).
Proof.
  intros Hc Hi. pose proof Hi as [Ho Ha Hone].
  assert (∀ s' c', sessions (sys_srv s) !! s' = Some c' → cl_tx c' ≠ tx ∧ cl_addr c' ≠ addr) as Hot
    by (intros; by eapply owner_other).
  split; simpl.
  - intros s' c' [[<- <-]|[Hne Hs]]%lookup_insert_Some; [apply lookup_insert_eq|].
    rewrite lookup_insert_ne by (symmetry; by eapply Hot). by apply (Ho s').
  - by eapply conns_addr_update.
  - intros s1 s2 c1 c2 [[<- <-]|[? H1]]%lookup_insert_Some [[<- <-]|[? H2]]%lookup_insert_Some;
      simpl; [done|intros E; by destruct (Hot _ _ H2)
             |intros E; by destruct (Hot _ _ H1)|eauto].
Qed.

Lemma sys_inv_disconnect s tx addr p conns' :
  sys_conns s !! tx = Some (mkConn addr p) → sys_inv s →
  (∀ t, t ≠ tx → conns' !! t = sys_conns s !! t) →
  (∀ c, conns' !! tx = Some c → cn_addr c = addr) →
  sys_inv (mkSys (handle_disconnect addr (sys_srv s)) conns').
Proof.
  intros Hc [Ho Ha Hone] Hsame Htx.
  pose proof (disconnect_sessions addr (sys_srv s) Hone) as Hd. split; simpl.
  - intros sid c [Hs Hne]%Hd. apply Ho in Hs. rewrite Hsame; [done|]. congruence.
  - assert (∀ t c, conns' !! t = Some c → ∃ c', sys_conns s !! t = Some c' ∧ cn_addr c' = cn_addr c)
      as Hold.
    { intros t c Ht. destruct (decide (t = tx)) as [->|Hne].
      - apply Htx in Ht. eauto.
      - rewrite Hsame in Ht by done. eauto. }
    intros t1 t2 c1 c2 (c1' & H1 & <-)%Hold (c2' & H2 & <-)%Hold. eauto.
  - intros s1 s2 c1 c2 [H1 _]%Hd [H2 _]%Hd. eauto.
Qed.

Lemma sys_inv_step s s' : sstep false s s' → sys_inv s → sys_inv s'.
Proof.
  intros Hst Hi.
  destruct Hst as [s tx addr Hn Hf _|s tx addr p config fresh sid tok st' sid' ip tun reply Hc Hm Hb
    |s tx addr sid ip tun now Hc|s tx addr sid ip tun Hc|s tx addr p Hc Hw|s tx addr p Hc Hw|s now].
  - by apply sys_inv_accept.
  - eapply sys_inv_phase; [exact Hc|by destruct p|by eapply hs_begin_sessions|done].
  - by apply sys_inv_commit.
  - by eapply sys_inv_phase.
  - eapply sys_inv_disconnect; [done|done|by intros; apply lookup_insert_ne|].
    intros c. rewrite lookup_insert_eq. by intros [= <-].
  - eapply sys_inv_disconnect; [done|done|by intros; apply lookup_delete_ne|].
    intros c. by rewrite lookup_delete_eq.
  - destruct Hi as [Ho Ha Hone]. split; simpl; [|done|].
    + intros sid c [Hs _]%map_lookup_filter_Some. by apply (Ho sid).
    + intros s1 s2 c1 c2 [H1 _]%map_lookup_filter_Some [H2 _]%map_lookup_filter_Some. eauto.
Qed.

Lemma sys_inv_reachable s : rtc (sstep false) Sys_init s → sys_inv s.
Proof.
  intros Hr. eapply rtc_invariant; [exact sys_inv_step|exact Hr|apply sys_inv_init].
Qed.

(** ** One connection *)

(** The event neither carries a handshake or disconnect message nor ends the loop. *)
Definition traffic (ev : ConnEvent) : Prop :=
  match ev with
  | EvNext (Some (Ok (m, _))) _ =>
      match msg m with Some (MsgData _) | Some (MsgKeepalive _) | None => True | _ => False end
  | EvNext _ _ => False
  | EvClientRx (Some _) (Ok _) => True
  | EvClientRx _ _ => False
  end.

Lemma conn_step_traffic peer tx ttx st ev :
  traffic ev → ∃ acts, conn_step peer tx ttx st ev = (st, acts, Continue).
Proof.
  destruct ev as [[[[m src]|e]|] env|[data|] [[]|e]]; simpl; try done; [|eauto].
  unfold dispatch. destruct (msg m) as [[]|]; (done || eauto).
Qed.

Lemma conn_loop_traffic peer tx ttx st evs :
  Forall traffic evs → ∃ acts, conn_loop peer tx ttx st evs = (st, acts, Continue).
Proof.
  induction 1 as [|ev evs Hev _ [acts IH]]; simpl; [eauto|].
  destruct (conn_step_traffic peer tx ttx st ev Hev) as [a ->]. rewrite IH. eauto.
Qed.

(** A handshake on a connection only touches the session it registers, under
    the connection's own address and channel. *)
Lemma dispatch_sessions env peer src tx ttx m st sid c :
  sessions (dispatch env peer src tx ttx m st).1 !! sid = Some c →
  sessions st !! sid = Some c ∨ (cl_addr c = peer ∧ cl_tx c = tx).
Proof.
  unfold dispatch. destruct (msg m) as [[h| | |d]|]; simpl; [|by left..| |by left].
  - unfold handle_handshake.
    destruct (hs_begin _ _ _ _ _) as [st' r] eqn:Eb.
    pose proof (hs_begin_sessions _ _ _ _ _ _ _ Eb) as Hs.
    destruct r; simpl; rewrite ?Hs; [by left|by left|].
    destruct (env_send_ok env); simpl; rewrite ?Hs; [|by left].
    intros [[<- <-]|[_ ?]]%lookup_insert_Some; [by right|by left].
  - destruct (handle_disconnect_cases src st) as [_ [(s' & c' & _ & _ & ->)|[_ ->]]]; [|by left].
    intros [_ ?]%lookup_delete_Some. by left.
Qed.

(** The first connection is accepted. *)
Lemma first_accept again tx addr :
  sstep again Sys_init (mkSys ServerState_init {[tx := mkConn addr Fresh]}).
Proof. apply (ss_accept again Sys_init); simpl; intros; by rewrite ?lookup_empty in *. Qed.

(** A handshake that offers no session id, is accepted and answered. *)
Definition joins (ev : ConnEvent) (fresh_id : rstr) : Prop :=
  match ev with
  | EvNext (Some (Ok (m, _))) env =>
      match msg m, env_config env with
      | Some (MsgHandshake h), Ok cfg =>
          hs_session_id h = [] ∧ (∀ t, provided (hs_token h) = Some t → validate_token t (sc_token cfg) = true)
          ∧ env_send_ok env = true ∧ env_fresh_id env = fresh_id
      | _, _ => False
      end
  | _ => False
  end.
(** The peer closes, or the stream fails. *)
Definition ends (ev : ConnEvent) : Prop :=
  match ev with EvNext None _ | EvNext (Some (Err _)) _ => True | _ => False end.

Lemma conn_step_joins peer tx ttx st ev fresh_id :
  joins ev fresh_id →
  ∃ st' acts c, conn_step peer tx ttx st ev = (st', acts, Continue)
    ∧ sessions st' = <[fresh_id := c]> (sessions st) ∧ cl_addr c = peer ∧ cl_tx c = tx.
Proof.
  destruct ev as [[[[m src]|e]|] env|]; try done. simpl. unfold dispatch.
  destruct (msg m) as [[h| | |]|]; try done. destruct env as [[cfg|] fr ok now]; try done. simpl.
  intros (Hsid & Htok & -> & ->). rewrite Hsid. simpl. unfold handle_handshake, hs_begin. simpl.
  assert (match provided (hs_token h) with
    | Some t => validate_token t (sc_token cfg) | None => true end = true) as ->
    by (destruct (provided (hs_token h)); auto).
  simpl. eexists _, _, _. split; [done|]. simpl. done.
Qed.

Lemma conn_step_ends peer tx ttx st ev :
  ends ev → conn_step peer tx ttx st ev = (st, [], Break).
Proof. by destruct ev as [[[[m src]|e]|] env|]. Qed.

(** Closing a connection all of whose sessions are in [m']. *)
Lemma disconnect_among st m m' peer :
  sessions st = m' ∪ m → (∀ sid c, m' !! sid = Some c → cl_addr c = peer) → m' ≠ ∅ → m' ##ₘ m →
  (∀ sid c, m !! sid = Some c → cl_addr c ≠ peer) →
  ∃ sid, is_Some (m' !! sid) ∧ sessions (handle_disconnect peer st) = delete sid m' ∪ m.
Proof.
  intros Hst Hm' Hne Hdis Hm.
  destruct (handle_disconnect_cases peer st) as [_ [(sid & c & Hs & Ha & ->)|[Hno _]]].
  - rewrite Hst in *. apply lookup_union_Some in Hs as [Hs|Hs]; [|by destruct (Hm sid c Hs)|done].
    exists sid. split; [eauto|]. rewrite delete_union, (delete_id m); [done|].
    by eapply map_disjoint_Some_l.
  - destruct (map_choose m' Hne) as (sid & c & Hc). destruct (Hno sid c).
    + rewrite Hst. by apply lookup_union_Some_l.
    + by apply (Hm' sid).
Qed.

(** ** The loop as a run of the system *)





End system.

(** * Properties *)

Section properties.
Context `{HashOrder}.

(** C7: As long as every connection completes at most one handshake between
    disconnects, in every interleaving each session in the table belongs to a
    live connection that has joined: its channel is that connection's and its
    address that connection's peer address, and a connection owns at most one
    session; so no packet is routed to a dead connection. *)
Theorem sessions_have_live_connections s :
  rtc (sstep false) Sys_init s →
  (∀ sid c, sessions (sys_srv s) !! sid = Some c →
     sys_conns s !! cl_tx c = Some (mkConn (cl_addr c) Joined))
  ∧ (∀ s1 s2 c1 c2, sessions (sys_srv s) !! s1 = Some c1 → sessions (sys_srv s) !! s2 = Some c2 →
       cl_addr c1 = cl_addr c2 → s1 = s2).
Proof. by intros [Ho _ Hone]%sys_inv_reachable. Qed.

(** C35: Closing a connection removes one session with its address, not all: a
    client that completes one handshake without a session id and closes leaves
    the table as it was before, but one that completes two on the same connection
    leaves exactly one of the two sessions behind, whose channel is that of the
    closed connection. *)
Theorem repeated_handshake_leaks peer tx ttx st ev1 ev2 ev3 s1 s2 :
  joins ev1 s1 → joins ev2 s2 → ends ev3 → s1 ≠ s2 →
  sessions st !! s1 = None → sessions st !! s2 = None →
  (∀ sid c, sessions st !! sid = Some c → cl_addr c ≠ peer) →
  (∃ st' acts, handle_connection peer tx ttx st [ev1; ev3] = (st', acts, Break)
     ∧ sessions st' = sessions st)
  ∧ (∃ st' acts sid c, handle_connection peer tx ttx st [ev1; ev2; ev3] = (st', acts, Break)
     ∧ sessions st' = <[sid := c]> (sessions st) ∧ sid ∈ [s1; s2] ∧ cl_tx c = tx).
Proof.
  intros H1 H2 H3 Hne Hn1 Hn2 Hpeer. unfold handle_connection, conn_loop.
  destruct (conn_step_joins peer tx ttx st ev1 s1 H1) as (st1 & a1 & c1 & -> & Hs1 & Ha1 & Ht1).
  destruct (conn_step_joins peer tx ttx st1 ev2 s2 H2) as (st2 & a2 & c2 & -> & Hs2 & Ha2 & Ht2).
  rewrite !conn_step_ends by done. split.
  - eexists _, _. split; [done|].
    destruct (disconnect_among st1 (sessions st) {[s1 := c1]} peer) as (sid & Hsid & ->);
      [by rewrite Hs1, insert_union_singleton_l| |by apply map_non_empty_singleton
      |by apply map_disjoint_singleton_l_2|done|].
    { by intros ? ? [<- <-]%lookup_singleton_Some. }
    apply lookup_singleton_is_Some in Hsid as <-. by rewrite delete_singleton_eq, (left_id_L ∅ (∪)).
  - eexists _, _.
    destruct (disconnect_among st2 (sessions st) {[s2 := c2; s1 := c1]} peer) as (sid & Hsid & Hd);
      [| |by apply insert_non_empty| |done|].
    + by rewrite Hs2, Hs1, <- insert_union_l, <- insert_union_singleton_l.
    + by intros ? ? [[<- <-]|[_ [<- <-]%lookup_singleton_Some]]%lookup_insert_Some.
    + apply map_disjoint_insert_l_2; [done|]. by apply map_disjoint_singleton_l_2.
    + destruct Hsid as [c [[<- <-]|[_ [<- <-]%lookup_singleton_Some]]%lookup_insert_Some].
      * exists s1, c1. split; [done|]. rewrite Hd, delete_insert_id, <- insert_union_singleton_l
          by (by apply lookup_singleton_ne). split; [done|]. split; [set_solver|done].
      * exists s2, c2. split; [done|]. rewrite Hd, delete_insert_ne, delete_singleton_eq by done.
        rewrite insert_empty, <- insert_union_singleton_l. split; [done|]. split; [set_solver|done].
Qed.


(** C36: Traffic does not keep a session alive: after any number of data and
    keepalive messages on its connection, the clean-up an hour after the
    handshake removes the session although its connection is still open. *)
Theorem active_session_expires peer tx ttx st evs sid c now :
  Forall traffic evs → sessions st !! sid = Some c → cl_last_seen c + secs_ns 3600 ≤ now →
  ∃ st' acts, handle_tcp_connection peer tx ttx st evs = (st', acts, Continue)
    ∧ sessions (cleanup_expired_sessions now st') !! sid = None.
Proof.
  intros Hev Hs Hnow. destruct (conn_loop_traffic peer tx ttx st evs Hev) as [acts Hl].
  exists st, acts. unfold handle_tcp_connection, handle_connection. rewrite Hl.
  split; [done|]. apply map_lookup_filter_None. right. intros c' Hc'. rewrite Hs in Hc'.
  injection Hc' as <-. simpl. unfold session_kept. intros [_ Hlt]%andb_true_iff. lia.
Qed.

End properties.

(** On a WebSocket stream, control messages are skipped and a binary message
    is delivered as the message that was sent; a binary message that does not
    decode is reported as the end of the stream, not as an error. *)
Lemma ws_stream_next `{Prost} peer controls rest :
  Forall (λ r, r = Ok WsControl) controls →
  (∀ m, message_wf m →
     ws_next peer (controls ++ Ok (ws_send m) :: rest) = (Some (Ok (m, peer)), rest))
  ∧ (∀ b e, message_decode b = Err e →
       ws_next peer (controls ++ Ok (WsBinary b) :: rest) = (None, rest)).
Proof.
  induction 1 as [|r controls -> _ IH]; simpl; [|done]. split.
  - intros m Hm. by rewrite decode_encode_vec.
  - by intros b e ->.
Qed.

(** ** The properties at concrete inputs *)

Import KeyOrder BitProst.

Definition sample_conns : gmap Z Connection := {[0 := mkConn sample_addr Joined]}.

Lemma sample_sys_reachable : rtc (sstep false) Sys_init (mkSys sample_state sample_conns).
Proof.
  eapply rtc_l; [exact (first_accept false 0 sample_addr)|].
  eapply rtc_l; [by eapply (ss_begin false _ 0 sample_addr Fresh (Ok ServerConfig_default) [0] None None)|].
  apply rtc_once.
  exact (ss_commit false
    (mkSys (mkServer ∅ 3) {[0 := mkConn sample_addr
       (Replying [0] (Ipv4Addr_new 10 0 0 2) (cl_tun_config sample_client))]})
    0 sample_addr [0] (Ipv4Addr_new 10 0 0 2) (cl_tun_config sample_client) 0 eq_refl).
Qed.

Lemma sessions_have_live_connections_witness :
  (∀ sid c, sessions sample_state !! sid = Some c →
     sample_conns !! cl_tx c = Some (mkConn (cl_addr c) Joined))
  ∧ (∀ s1 s2 c1 c2, sessions sample_state !! s1 = Some c1 → sessions sample_state !! s2 = Some c2 →
       cl_addr c1 = cl_addr c2 → s1 = s2).
Proof.
  apply (sessions_have_live_connections (mkSys sample_state sample_conns)), sample_sys_reachable.
Defined.

Definition sample_env : HsEnv := mkHsEnv (Ok ServerConfig_default) [9] true 0.

Lemma active_session_expires_witness :
  ∃ st' acts,
    handle_tcp_connection sample_addr 0 1 sample_state
      [EvNext (Some (Ok (Message_keepalive (mkKeepAlive 3), sample_addr))) sample_env]
    = (st', acts, Continue)
    ∧ sessions (cleanup_expired_sessions (secs_ns 3600) st') !! [0] = None.
Proof.
  apply (active_session_expires _ _ _ _ _ _ sample_client);
    [repeat constructor|reflexivity|vm_compute; discriminate].
Defined.

Lemma ws_stream_next_witness :
  (∀ m, message_wf m →
     ws_next sample_addr ([Ok WsControl] ++ Ok (ws_send m) :: []) = (Some (Ok (m, sample_addr)), []))
  ∧ (∀ b e, message_decode b = Err e →
       ws_next sample_addr ([Ok WsControl] ++ Ok (WsBinary b) :: []) = (None, [])).
Proof. apply ws_stream_next. repeat constructor. Defined.

Definition sample_hello : ConnEvent :=
  EvNext (Some (Ok (Message_handshake (mkHandshake [] [] None), sample_addr))) sample_env.
Definition sample_hello2 : ConnEvent :=
  EvNext (Some (Ok (Message_handshake (mkHandshake [] [] None), sample_addr)))
    (mkHsEnv (Ok ServerConfig_default) [8] true 0).

Lemma repeated_handshake_leaks_witness :
  (∃ st' acts, handle_connection sample_addr 0 1 ServerState_init [sample_hello; EvNext None sample_env]
       = (st', acts, Break) ∧ sessions st' = ∅)
  ∧ (∃ st' acts sid c,
       handle_connection sample_addr 0 1 ServerState_init [sample_hello; sample_hello2; EvNext None sample_env]
       = (st', acts, Break)
       ∧ sessions st' = <[sid := c]> ∅ ∧ sid ∈ [[9]; [8]] ∧ cl_tx c = 0).
Proof.
  apply (repeated_handshake_leaks sample_addr 0 1 ServerState_init sample_hello sample_hello2
    (EvNext None sample_env) [9] [8]); try done; try (simpl; by intros ? ? ?%lookup_empty_Some).
  all: simpl; by split_and!.
Defined.

