(* ===== verification/Client.v ===== *)
(** * Client: the client side ([client.rs], [transport/mod.rs], [main.rs])

    The handshake [handshake_async] with its effect on the configuration and the
    state file, the interface parameters parsed from the server's answer, one
    connection attempt [run_client_from_config], the retry loop, the transport
    loop [client_transport_io_task], and the selection of the transport.  What
    the environment answers (connect, send, receive, clock) are arguments. *)

From S2P Require Import Prelude RStr Net Rule Config AppConfig Codec Server Conn.

(** ** Selecting the transport *)

Inductive TransportKind := TkTcp | TkUdp | TkWs | TkWss.

Definition select_transport `{UnicodeLower} (transport_type : rstr) : result rstr TransportKind :=
  let l := to_lowercase transport_type in
  if bool_decide (l = lit "tcp") then Ok TkTcp
  else if bool_decide (l = lit "udp") then Ok TkUdp
  else if bool_decide (l = lit "ws") then Ok TkWs
  else if bool_decide (l = lit "wss") then Ok TkWss
  else Err (lit "Unknown transport type: " ++ transport_type).

(** [config.transport_type == "wss"]: whether [run_ws_server] makes a TLS acceptor. *)
Definition server_tls (transport_type : rstr) : bool := bool_decide (transport_type = lit "wss").

Inductive Mode := ModeServer | ModeClient.
Definition select_mode `{UnicodeLower} (mode : rstr) : result rstr Mode :=
  let l := to_lowercase mode in
  if bool_decide (l = lit "server") then Ok ModeServer
  else if bool_decide (l = lit "client") then Ok ModeClient
  else Err (lit "Invalid runtime.mode '" ++ l ++ lit "', expected 'client' or 'server'").

(** ** The handshake *)

(** What the [select!] on the reply and the timeout yields. *)
Inductive HsWait := WNext (r : next_result) | WTimeout.

Definition client_hello (config : ClientConfig) : Message :=
  Message_handshake (mkHandshake (cc_token config) (cc_session_id config) None).

Section handshake.
Context `{Yaml}.

(** Storing a changed session id: the configuration in memory is changed first. *)
Definition adopt_session (fs : Fs) (config : ClientConfig) (session_id : rstr) (tun : TunConfig)
    : result rstr TunConfig * ClientConfig * Fs :=
  if bool_decide (session_id = cc_session_id config) then (Ok tun, config, fs)
  else
    let config' := set_session_id session_id config in
    match load_client_state fs with
    | Err e => (Err e, config', fs)
    | Ok _ =>
        match save_client_state fs (mkClientState (cc_session_id config')) with
        | Err e => (Err e, config', fs)
        | Ok fs' => (Ok tun, config', fs')
        end
    end.

Definition handshake_async (fs : Fs) (config : ClientConfig) (send : result io_error unit)
    (wait : HsWait) : result rstr TunConfig * ClientConfig * Fs :=
  match send with
  | Err e => (Err (err_text e), config, fs)
  | Ok _ =>
      match wait with
      | WTimeout => (Err (lit "Handshake timed out"), config, fs)
      | WNext None => (Err (lit "Transport closed during handshake"), config, fs)
      | WNext (Some (Err e)) => (Err (lit "Error during handshake: " ++ err_text e), config, fs)
      | WNext (Some (Ok (m, _))) =>
          match msg m with
          | Some (MsgHandshake h) =>
              if negb (bool_decide (hs_token h = cc_token config))
              then (Err (lit "Invalid token in handshake response"), config, fs)
              else
                match hs_tun_config h with
                | Some t =>
                    adopt_session fs config (hs_session_id h)
                      (mkTunConfig (tc_name t) (tc_address t) (tc_netmask t) (tc_destination t)
                         (tc_dns t) (tc_mtu t))
                | None => (Err (lit "No TUN config in handshake response"), config, fs)
                end
          | _ =>
              (Err (lit "Invalid handshake response: unexpected message type"), config, fs)
          end
      end
  end.
End handshake.

(** ** The interface *)

(** The arguments of [create_tun_device]. *)
Record TunParams := mkTunParams {
  tun_name : rstr; tun_address : IpAddr; tun_netmask : IpAddr; tun_destination : IpAddr;
  tun_dns : list IpAddr; tun_mtu : Z
}.

Definition parse_ip_result (s : rstr) : result rstr IpAddr := ok_or (parse_ip s) addr_parse_error.

Definition client_tun_params (t : TunConfig) : result rstr TunParams :=
  address ← parse_ip_result (tc_address t);
  netmask ← parse_ip_result (tc_netmask t);
  destination ← parse_ip_result (tc_destination t);
  dns ← collect_results parse_ip_result (tc_dns t);
  Ok (mkTunParams (tc_name t) address netmask destination dns (tc_mtu t) as_u16).

(** ** One attempt, and the retries *)

Record ClientEnv := mkClientEnv {
  ce_connect : TransportKind -> rstr -> result io_error unit;
  ce_send : result io_error unit;
  ce_wait : HsWait;
  ce_create : TunParams -> result rstr unit;
  ce_run : ClientConfig -> RulesConfig -> result rstr unit
}.

(** The address or URL the transport is opened with. *)
Definition transport_target (k : TransportKind) (server_addr : SocketAddr) : rstr :=
  match k with
  | TkTcp => socket_to_string server_addr
  | TkUdp => lit "0.0.0.0:0"
  | TkWs => lit "ws://" ++ socket_to_string server_addr
  | TkWss => lit "wss://" ++ socket_to_string server_addr
  end.

Section attempt.
Context `{UnicodeLower, Yaml}.

Definition run_client_from_config (env : ClientEnv) (fs : Fs) (app : AppConfig)
    : result rstr unit * Fs :=
  let config := app_client app in
  match select_transport (cc_transport_type config) with
  | Err e => (Err e, fs)
  | Ok k =>
      match ce_connect env k (transport_target k (cc_server_addr config)) with
      | Err e => (Err (err_text e), fs)
      | Ok _ =>
          match handshake_async fs config (ce_send env) (ce_wait env) with
          | (Err e, _, fs') => (Err e, fs')
          | (Ok tun_config, config', fs') =>
              (params ← client_tun_params tun_config;
               _ ← ce_create env params;
               ce_run env config' (app_rules app), fs')
          end
      end
  end.

(** In seconds. *)
Definition max_retry_delay : Z := 300.

(** The loop of [run_client_with_retry], one environment per attempt: the delays
    slept, the result if an attempt succeeded, and the files.  Every attempt
    starts from the same configuration. *)
Fixpoint retry_loop (retry_delay : Z) (envs : list ClientEnv) (fs : Fs) (app : AppConfig)
    : list Z * option (result rstr unit) * Fs :=
  match envs with
  | [] => ([], None, fs)
  | env :: envs' =>
      match run_client_from_config env fs app with
      | (Ok _, fs') => ([], Some (Ok tt), fs')
      | (Err _, fs') =>
          let '(delays, r, fs'') := retry_loop (Z.min (retry_delay * 2) max_retry_delay) envs' fs' app in
          (retry_delay :: delays, r, fs'')
      end
  end.

Definition run_client_with_retry (envs : list ClientEnv) (fs : Fs) (app : AppConfig)
    : list Z * option (result rstr unit) * Fs :=
  retry_loop 1 envs fs app.
End attempt.

(** ** The transport loop *)

Inductive ClientAct := ToTunTask (data : bytes) | ToServer (m : Message) | LogLatency (ms : Z).

Inductive ClientEvent :=
| CeNext (r : next_result) (now_ms : Z) (tx_open : bool)
| CeTunRx (data : option bytes) (send : result io_error unit)
| CeTick (now_ms : Z) (send : result io_error unit).

(** [received_timestamp - (sent_timestamp as u64)] with wrap-around. *)
Definition latency_ms (received_timestamp sent_timestamp : Z) : Z :=
  (received_timestamp as_u64 - sent_timestamp as_u64) as_u64.

(** [as_millis() as i64] *)
Definition as_i64 (n : Z) : Z :=
  let m := n mod 2 ^ 64 in if m <? 2 ^ 63 then m else m - 2 ^ 64.

Definition send_or (m : Message) (send : result io_error unit) (text : string)
    : list ClientAct * result rstr unit :=
  match send with
  | Ok _ => ([ToServer m], Ok tt)
  | Err e => ([], Err (lit text ++ err_text e))
  end.

(** One iteration of [client_transport_io_task]; [Err] is its return. *)
Definition client_io_step (ev : ClientEvent) : list ClientAct * result rstr unit :=
  match ev with
  | CeNext (Some (Ok (m, _))) now_ms tx_open =>
      match msg m with
      | Some (MsgData d) =>
          if tx_open then ([ToTunTask (data_payload d)], Ok tt)
          else ([], Err (lit "Failed to send to TUN: channel closed"))
      | Some (MsgKeepalive k) => ([LogLatency (latency_ms now_ms (ka_timestamp k))], Ok tt)
      | Some (MsgDisconnect d) => ([], Err (lit "Server disconnected: " ++ disc_reason d))
      | _ => ([], Ok tt)
      end
  | CeNext (Some (Err e)) _ _ => ([], Err (lit "Error receiving: " ++ err_text e))
  | CeNext None _ _ => ([], Err (lit "Connection closed"))
  | CeTunRx (Some data) send => send_or (Message_data (mkData data)) send "Failed to send to server: "
  | CeTunRx None _ => ([], Err (lit "Channel disconnected"))
  | CeTick now_ms send => send_or (Message_keepalive (mkKeepAlive (as_i64 now_ms))) send "Keepalive failed: "
  end.

Fixpoint client_transport_io_task (evs : list ClientEvent) : list ClientAct * result rstr unit :=
  match evs with
  | [] => ([], Ok tt)
  | ev :: evs' =>
      match client_io_step ev with
      | (acts, Ok _) => let '(acts', r) := client_transport_io_task evs' in (acts ++ acts', r)
      | (acts, Err e) => (acts, Err e)
      end
  end.

(** ** Client and server together

    The client's hello is dispatched by the server, whose reply, if there is
    one, is what the client's wait yields. *)
Section joint.
Context `{HashOrder, Yaml}.

Definition joint_handshake (env : HsEnv) (client_addr server_addr : SocketAddr) (tx ttx : chan)
    (cc : ClientConfig) (fs : Fs) (st : ServerState)
    : ServerState * (result rstr TunConfig * ClientConfig * Fs) :=
  match dispatch env client_addr client_addr tx ttx (client_hello cc) st with
  | (st', [TransportSend reply _]) =>
      (st', handshake_async fs cc (Ok tt) (WNext (Some (Ok (reply, server_addr)))))
  | (st', _) => (st', handshake_async fs cc (Ok tt) WTimeout)
  end.

(** * Lemmas *)

Lemma handshake_async_mismatch fs cc a token sid tun :
  token ≠ cc_token cc →
  handshake_async fs cc (Ok tt) (WNext (Some (Ok (Message_handshake (mkHandshake token sid tun), a))))
  = (Err (lit "Invalid token in handshake response"), cc, fs).
Proof. intros Ht. simpl. by rewrite bool_decide_eq_false_2. Qed.

Lemma handshake_async_match fs cc a sid tun :
  handshake_async fs cc (Ok tt)
    (WNext (Some (Ok (Message_handshake (mkHandshake (cc_token cc) sid (Some tun)), a))))
  = adopt_session fs cc sid tun.
Proof. simpl. rewrite bool_decide_eq_true_2 by done. by destruct tun. Qed.

(** The state file can be read and written. *)
Definition state_file_ok (fs : Fs) : Prop :=
  is_ok (load_client_state fs) = true ∧ ∀ s, is_ok (save_client_state fs s) = true.

Lemma adopt_session_ok fs cc sid tun :
  state_file_ok fs →
  ∃ cc' fs', adopt_session fs cc sid tun = (Ok tun, cc', fs') ∧ cc_session_id cc' = sid
    ∧ cc_token cc' = cc_token cc.
Proof.
  intros [Hl Hs]. unfold adopt_session. case_bool_decide as Hsid; [by eauto|].
  destruct (load_client_state fs); [|done].
  specialize (Hs (mkClientState (cc_session_id (set_session_id sid cc)))).
  destruct (save_client_state fs _); [|done]. by eauto.
Qed.

Lemma provided_same_token cfg cc :
  cc_token cc = sc_token cfg → token_passes cfg (provided (cc_token cc)).
Proof.
  intros Ht t. unfold provided. destruct (is_empty _); [done|]. intros [= <-].
  apply validate_token_true. by right.
Qed.

(** A client without a session id joins as a new session. *)
Lemma joint_new cfg fresh_id now ca sa tx ttx cc fs st :
  cc_token cc = sc_token cfg → cc_session_id cc = [] →
  let ip := Ipv4Addr_new 10 0 0 (next_client_id st mod 256) in
  joint_handshake (mkHsEnv (Ok cfg) fresh_id true now) ca sa tx ttx cc fs st
  = (mkServer (<[fresh_id := mkClient ca ip tx (build_tun_config cfg ip) now]> (sessions st))
       ((next_client_id st + 1) mod 2 ^ 32),
     adopt_session fs cc fresh_id (build_tun_config cfg ip)).
Proof.
  intros Ht Hsid ip. unfold joint_handshake, dispatch. cbn [client_hello Message_handshake msg].
  cbn [env_config env_fresh_id env_send_ok env_now hs_session_id hs_token].
  rewrite Hsid. rewrite handle_handshake_new by (done || by apply provided_same_token).
  fold ip. by rewrite <- Ht, handshake_async_match.
Qed.

Lemma joint_same_token cfg fresh_id now ca sa tx ttx cc fs st :
  cc_token cc = sc_token cfg → state_file_ok fs →
  ∃ st' tun cc' fs' c,
    joint_handshake (mkHsEnv (Ok cfg) fresh_id true now) ca sa tx ttx cc fs st
      = (st', (Ok tun, cc', fs'))
    ∧ sessions st' !! cc_session_id cc' = Some c
    ∧ cl_tun_config c = tun ∧ cl_addr c = ca ∧ cl_tx c = tx
    ∧ (∀ old, cc_session_id cc ≠ [] → sessions st !! cc_session_id cc = Some old →
         cc_session_id cc' = cc_session_id cc ∧ cl_virtual_ip c = cl_virtual_ip old).
Proof.
  intros Ht Hfs. pose proof (provided_same_token cfg cc Ht) as Hp.
  unfold joint_handshake, dispatch. cbn [client_hello Message_handshake msg].
  cbn [env_config env_fresh_id env_send_ok env_now hs_session_id hs_token].
  destruct (provided (cc_session_id cc) ≫= λ s, sessions st !! s) as [old|] eqn:Eold.
  - apply bind_Some in Eold as (s & Hs & Hold). rewrite Hs.
    assert (s = cc_session_id cc) as -> by (unfold provided in Hs; by case_match; simplify_eq).
    rewrite (handle_handshake_reconnect _ _ _ _ _ _ _ _ _ Hp Hold), <- Ht, handshake_async_match.
    destruct (adopt_session_ok fs cc (cc_session_id cc) (cl_tun_config old) Hfs)
      as (cc' & fs' & -> & Hsid & _).
    eexists _, _, cc', fs', _. split; [done|]. rewrite Hsid. simpl. rewrite lookup_insert_eq.
    split_and!; try done. intros old' _ Hold'. by simplify_eq.
  - rewrite handle_handshake_new; [|done|intros s Hs; by rewrite Hs in Eold].
    rewrite <- Ht, handshake_async_match.
    destruct (adopt_session_ok fs cc fresh_id (build_tun_config cfg
      (Ipv4Addr_new 10 0 0 (next_client_id st mod 256))) Hfs) as (cc' & fs' & -> & Hsid & _).
    eexists _, _, cc', fs', _. split; [done|]. rewrite Hsid. simpl. rewrite lookup_insert_eq.
    split_and!; try done. intros old Hne Hold. unfold provided in Eold.
    destruct (is_empty (cc_session_id cc)) eqn:Ee; [by destruct (cc_session_id cc)|].
    simpl in Eold. congruence.
Qed.

Lemma joint_other_token cfg fresh_id ok now ca sa tx ttx cc fs st :
  cc_token cc ≠ sc_token cfg →
  (joint_handshake (mkHsEnv (Ok cfg) fresh_id ok now) ca sa tx ttx cc fs st).2
  = (Err (lit "Invalid token in handshake response"), cc, fs).
Proof.
  intros Hne. unfold joint_handshake, dispatch. cbn [client_hello Message_handshake msg].
  cbn [env_config env_fresh_id env_send_ok env_now hs_session_id hs_token].
  unfold handle_handshake.
  destruct (hs_begin _ _ _ _ _) as [st' [| |s ip tun reply]] eqn:E.
  - unfold hs_begin in E. repeat case_match; simplify_eq.
  - simpl fst. unfold reject_message. rewrite handshake_async_mismatch; [done|].
    intros Hnil. unfold hs_begin, provided in E. rewrite <- Hnil in E. simpl in E.
    repeat case_match; simplify_eq.
  - apply hs_begin_chosen in E as (cfg' & [= <-] & _ & -> & _).
    by rewrite handshake_async_mismatch.
Qed.
End joint.

(** ** The interface parameters *)

Definition ip_v4 (a : IpAddr) : Prop := match a with V4 x => ipv4_wf x | V6 _ => False end.

Lemma parse_ip_result_v4 a : ip_v4 a → parse_ip_result (ip_to_string a) = Ok a.
Proof.
  destruct a as [x|]; [|done]. intros Hx. unfold parse_ip_result, ip_to_string.
  by rewrite parse_ip_ipv4_to_string.
Qed.

Lemma collect_parse_ip l :
  Forall ip_v4 l → collect_results parse_ip_result (map ip_to_string l) = Ok l.
Proof.
  induction 1 as [|a l Ha _ IH]; simpl; [done|]. by rewrite parse_ip_result_v4, IH.
Qed.

(** The server hands out an IPv4 configuration. *)
Definition v4_config (cfg : ServerConfig) : Prop :=
  ip_v4 (sc_tun_netmask cfg) ∧ ip_v4 (sc_tun_destination cfg)
  ∧ Forall ip_v4 (sc_tun_dns_servers cfg).

Lemma client_tun_params_build cfg ip :
  v4_config cfg → ipv4_wf ip →
  client_tun_params (build_tun_config cfg ip)
  = Ok (mkTunParams (sc_tun_name cfg) (V4 ip) (sc_tun_netmask cfg) (sc_tun_destination cfg)
          (sc_tun_dns_servers cfg) (sc_tun_mtu cfg mod 2 ^ 16)).
Proof.
  intros (Hn & Hd & Hdns) Hip. unfold client_tun_params, build_tun_config. simpl.
  change (ipv4_to_string ip) with (ip_to_string (V4 ip)).
  rewrite (parse_ip_result_v4 (V4 ip) Hip), !parse_ip_result_v4, collect_parse_ip by done.
  simpl. do 2 f_equal. apply Z.mod_mod_divide. by exists (2 ^ 16).
Qed.

(** ** Retries *)

Section retry.
Context `{UnicodeLower, Yaml}.

Definition backoff (i : nat) : Z := Z.min (2 ^ Z.of_nat i) max_retry_delay.

Lemma backoff_S i : Z.min (backoff i * 2) max_retry_delay = backoff (S i).
Proof.
  unfold backoff, max_retry_delay. rewrite Nat2Z.inj_succ, Z.pow_succ_r by lia. lia.
Qed.

Lemma retry_loop_delays i envs fs app delays r fs' :
  retry_loop (backoff i) envs fs app = (delays, r, fs') →
  delays = map backoff (seq i (length delays))
  ∧ ((r = Some (Ok tt) ∧ (length delays < length envs)%nat)
     ∨ (r = None ∧ length delays = length envs)).
Proof.
  revert i fs delays. induction envs as [|env envs IH]; intros i fs delays; simpl.
  { intros [= <- <- <-]. split; [done|by right]. }
  destruct (run_client_from_config env fs app) as [[[]|e] fs1].
  - intros [= <- <- <-]. split; [done|]. left. split; [done|simpl; lia].
  - rewrite backoff_S.
    destruct (retry_loop (backoff (S i)) envs fs1 app) as [[ds r'] fs2] eqn:El.
    intros [= <- <- <-]. apply IH in El as [Hd Hr]. split.
    + simpl. f_equal. exact Hd.
    + simpl. destruct Hr as [[? ?]|[? ?]]; [left; split; [done|lia]|right; split; [done|lia]].
Qed.
End retry.

(** ** The transport loop *)

Definition act_tun (a : ClientAct) : option bytes :=
  match a with ToTunTask d => Some d | _ => None end.
Definition act_data (a : ClientAct) : option bytes :=
  match a with
  | ToServer m => match msg m with Some (MsgData d) => Some (data_payload d) | _ => None end
  | _ => None
  end.
Definition ce_received (ev : ClientEvent) : option bytes :=
  match ev with
  | CeNext (Some (Ok (m, _))) _ _ =>
      match msg m with Some (MsgData d) => Some (data_payload d) | _ => None end
  | _ => None
  end.
Definition ce_from_tun (ev : ClientEvent) : option bytes :=
  match ev with CeTunRx d _ => d | _ => None end.

Lemma client_io_step_acts ev acts :
  client_io_step ev = (acts, Ok tt) →
  omap act_tun acts = option_list (ce_received ev)
  ∧ omap act_data acts = option_list (ce_from_tun ev).
Proof.
  destruct ev as [[[[m a]|e]|] now o|[d|] [[]|e]|now [[]|e]]; simpl; try done;
    try (by intros [= <-]).
  destruct (msg m) as [[h|d|k|d]|]; try (by intros [= <-]); try done.
  destruct o; [by intros [= <-]|done].
Qed.

Lemma client_io_step_err ev acts e : client_io_step ev = (acts, Err e) → acts = [].
Proof.
  destruct ev as [[[[m a]|e']|] now o|[d|] [[]|e']|now [[]|e']]; simpl; try (by intros [= <-]);
    try done.
  destruct (msg m) as [[h|d|k|d]|]; try done; try (by intros [= <-]).
  destruct o; [done|by intros [= <-]].
Qed.

Lemma client_io_acts evs acts r :
  client_transport_io_task evs = (acts, r) →
  ∃ done_evs rest, evs = done_evs ++ rest
    ∧ omap act_tun acts = omap ce_received done_evs
    ∧ omap act_data acts = omap ce_from_tun done_evs
    ∧ (r = Ok tt → rest = []) ∧ (is_ok r = false → rest ≠ []).
Proof.
  revert acts. induction evs as [|ev evs IH]; intros acts; simpl.
  { intros [= <- <-]. by exists [], []. }
  destruct (client_io_step ev) as [a1 [[]|er]] eqn:Es.
  - destruct (client_transport_io_task evs) as [a2 r2] eqn:El. intros [= <- <-].
    destruct (IH _ eq_refl) as (pre & rest & -> & Hin & Hout & Hr).
    destruct (client_io_step_acts _ _ Es) as [Hin1 Hout1].
    exists (ev :: pre), rest. split; [done|]. rewrite !omap_cons_list, !omap_app.
    by rewrite Hin1, Hin, Hout1, Hout.
  - intros [= <- <-]. apply client_io_step_err in Es as ->. by exists [], (ev :: evs).
Qed.

(** * Properties *)

Section properties.
Context `{HashOrder, UnicodeLower, Yaml}.

(** C8: Client and server agree: when both are configured with the same token and
    the client's state file is usable, the handshake succeeds, the server holds
    a session under the id the client ends with, bound to the client's
    connection and with the interface configuration the client received; and a
    client whose session is still live keeps its id and virtual address. *)
Theorem handshake_agreement cfg fresh_id now ca sa tx ttx cc fs st :
  cc_token cc = sc_token cfg → state_file_ok fs →
  ∃ st' tun cc' fs' c,
    joint_handshake (mkHsEnv (Ok cfg) fresh_id true now) ca sa tx ttx cc fs st
      = (st', (Ok tun, cc', fs'))
    ∧ sessions st' !! cc_session_id cc' = Some c
    ∧ cl_tun_config c = tun ∧ cl_addr c = ca ∧ cl_tx c = tx
    ∧ (∀ old, cc_session_id cc ≠ [] → sessions st !! cc_session_id cc = Some old →
         cc_session_id cc' = cc_session_id cc ∧ cl_virtual_ip c = cl_virtual_ip old).
Proof. apply joint_same_token. Qed.

(** With different tokens the client's handshake always fails with the token
    error and changes neither its configuration nor its files. *)
Lemma handshake_token_mismatch cfg fresh_id ok now ca sa tx ttx cc fs st :
  cc_token cc ≠ sc_token cfg →
  (joint_handshake (mkHsEnv (Ok cfg) fresh_id ok now) ca sa tx ttx cc fs st).2
  = (Err (lit "Invalid token in handshake response"), cc, fs).
Proof. apply joint_other_token. Qed.

(** C18: A first connection gives the client an interface whose address is the
    virtual address the server routes to its connection, with the netmask,
    destination and DNS servers of the server's IPv4 configuration, and the
    configured MTU modulo 2^16. *)
Theorem first_connection_interface cfg fresh_id now ca sa tx ttx cc fs st :
  cc_token cc = sc_token cfg → cc_session_id cc = [] → state_file_ok fs → v4_config cfg →
  ∃ st' tun cc' fs' c params,
    joint_handshake (mkHsEnv (Ok cfg) fresh_id true now) ca sa tx ttx cc fs st
      = (st', (Ok tun, cc', fs'))
    ∧ sessions st' !! cc_session_id cc' = Some c ∧ cl_tx c = tx
    ∧ client_tun_params tun = Ok params ∧ tun_address params = V4 (cl_virtual_ip c)
    ∧ tun_netmask params = sc_tun_netmask cfg ∧ tun_destination params = sc_tun_destination cfg
    ∧ tun_dns params = sc_tun_dns_servers cfg ∧ tun_mtu params = sc_tun_mtu cfg mod 2 ^ 16.
Proof.
  intros Ht Hsid Hfs Hv. rewrite joint_new by done.
  set (ip := Ipv4Addr_new 10 0 0 (next_client_id st mod 256)).
  destruct (adopt_session_ok fs cc fresh_id (build_tun_config cfg ip) Hfs)
    as (cc' & fs' & -> & Hs & _).
  eexists _, _, cc', fs', _, _. split; [done|]. rewrite Hs. simpl. rewrite lookup_insert_eq.
  split; [done|]. split; [done|]. rewrite client_tun_params_build; [done|done|].
  repeat split; simpl; try lia; apply Z.mod_pos_bound; lia.
Qed.

(** The client retries after 1, 2, 4, ... seconds, never more than 300, until
    an attempt succeeds; it stops at the first success and never gives up. *)
Lemma retry_backoff envs fs app delays r fs' :
  run_client_with_retry envs fs app = (delays, r, fs') →
  delays = map backoff (seq 0 (length delays))
  ∧ ((r = Some (Ok tt) ∧ (length delays < length envs)%nat)
     ∨ (r = None ∧ length delays = length envs)).
Proof. apply (retry_loop_delays 0). Qed.
End properties.

(** The client's transport loop delivers to the TUN task exactly the payloads
    of the data messages received and sends to the server exactly the packets
    taken from the TUN task, each in order and unmodified, up to the event that
    ends it; and it ends only with an error. *)
Lemma client_relay_exact evs acts r :
  client_transport_io_task evs = (acts, r) →
  ∃ done_evs rest, evs = done_evs ++ rest
    ∧ omap act_tun acts = omap ce_received done_evs
    ∧ omap act_data acts = omap ce_from_tun done_evs
    ∧ (r = Ok tt → rest = []) ∧ (is_ok r = false → rest ≠ []).
Proof. apply client_io_acts. Qed.

(** The transport type is compared without regard to case when the transport
    is chosen and with regard to case when TLS is: any other spelling of "wss"
    serves WebSocket without TLS. *)
Lemma wss_spelling_disables_tls `{UnicodeLower} t :
  to_ascii_lowercase t = lit "wss" → t ≠ lit "wss" →
  select_transport t = Ok TkWss ∧ server_tls t = false.
Proof.
  intros Hl Hne. split; [|by apply bool_decide_eq_false_2].
  assert (to_lowercase t = lit "wss") as Hlow.
  { apply to_lowercase_ascii_iff; [|done]. repeat constructor; simpl; lia. }
  unfold select_transport. by rewrite Hlow.
Qed.

(** ** The properties at concrete inputs *)

Import KeyOrder PlainYaml.

Lemma sample_fs_ok : state_file_ok sample_fs.
Proof. done. Qed.

Lemma handshake_agreement_witness :
  ∃ st' tun cc' fs' c,
    joint_handshake (mkHsEnv (Ok ServerConfig_default) [7] true 0) sample_addr sample_addr 4 5
      (set_session_id [0] ClientConfig_default) sample_fs sample_state = (st', (Ok tun, cc', fs'))
    ∧ sessions st' !! cc_session_id cc' = Some c
    ∧ cl_tun_config c = tun ∧ cl_addr c = sample_addr ∧ cl_tx c = 4
    ∧ (∀ old, [0] ≠ [] → sessions sample_state !! [0] = Some old →
         cc_session_id cc' = [0] ∧ cl_virtual_ip c = cl_virtual_ip old).
Proof.
  apply (handshake_agreement ServerConfig_default [7] 0 sample_addr sample_addr 4 5
    (set_session_id [0] ClientConfig_default)); [reflexivity|apply sample_fs_ok].
Defined.

Lemma handshake_token_mismatch_witness :
  (joint_handshake (mkHsEnv (Ok sample_cfg) [7] true 0) sample_addr sample_addr 4 5
     ClientConfig_default sample_fs sample_state).2
  = (Err (lit "Invalid token in handshake response"), ClientConfig_default, sample_fs).
Proof. apply handshake_token_mismatch. vm_compute. discriminate. Defined.

Lemma first_connection_interface_witness :
  ∃ st' tun cc' fs' c params,
    joint_handshake (mkHsEnv (Ok ServerConfig_default) [7] true 0) sample_addr sample_addr 4 5
      ClientConfig_default sample_fs sample_state = (st', (Ok tun, cc', fs'))
    ∧ sessions st' !! cc_session_id cc' = Some c ∧ cl_tx c = 4
    ∧ client_tun_params tun = Ok params ∧ tun_address params = V4 (cl_virtual_ip c)
    ∧ tun_netmask params = V4 (Ipv4Addr_new 255 255 255 0)
    ∧ tun_destination params = V4 (Ipv4Addr_new 10 0 0 0)
    ∧ tun_dns params = sc_tun_dns_servers ServerConfig_default ∧ tun_mtu params = 1400 mod 2 ^ 16.
Proof.
  apply (first_connection_interface ServerConfig_default); [reflexivity|reflexivity|apply sample_fs_ok|].
  repeat (constructor || simpl || lia).
Defined.

Definition sample_refused : ClientEnv :=
  mkClientEnv (λ _ _, Err (mkIoError ConnectionRefused (lit "refused"))) (Ok tt) WTimeout
    (λ _, Ok tt) (λ _ _, Ok tt).

Lemma retry_backoff_witness :
  [1; 2; 4] = map backoff (seq 0 3)
  ∧ ((None = Some (Ok (E:=rstr) tt) ∧ (3 < 3)%nat) ∨ (None = None (A:=result rstr unit) ∧ 3%nat = 3%nat)).
Proof.
  apply (retry_backoff [sample_refused; sample_refused; sample_refused] sample_fs AppConfig_default
    [1; 2; 4] None sample_fs).
  vm_compute. reflexivity.
Defined.

Lemma client_relay_exact_witness :
  ∃ done_evs rest,
    [CeTunRx (Some [1; 2]) (Ok tt); CeNext None 0 true] = done_evs ++ rest
    ∧ omap act_tun [ToServer (Message_data (mkData [1; 2]))] = omap ce_received done_evs
    ∧ omap act_data [ToServer (Message_data (mkData [1; 2]))] = omap ce_from_tun done_evs
    ∧ (Err (lit "Connection closed") = Ok tt → rest = [])
    ∧ (is_ok (Err (A:=unit) (lit "Connection closed")) = false → rest ≠ []).
Proof. apply client_relay_exact. reflexivity. Defined.

Lemma wss_spelling_disables_tls_witness :
  select_transport (lit "WSS") = Ok TkWss ∧ server_tls (lit "WSS") = false.
Proof. apply wss_spelling_disables_tls; vm_compute; (reflexivity || discriminate). Defined.
