(* ===== verification/Link.v ===== *)
(** * Link: what a transport promises to the tunnel ([transport/transport.rs])

    [TransportTrait] carries messages between two tasks on different machines.
    The tunnel relies on one promise: the messages received are, in order, a
    prefix of the messages sent.  [MessageLink] states it; the TCP transport
    (the framed byte stream of [Codec]) and the WebSocket transport (one binary
    message per tunnel message, control messages in between) discharge it.  The
    same promise for a [tokio] channel is [fifo]; [merges] describes a channel
    with several senders. *)

From S2P Require Import Prelude RStr Net Codec Server Conn.

(** ** Channels *)

(** A channel delivers what was sent, in order; the rest is still in it, or was
    lost when its receiver was dropped. *)
Definition fifo {A} (sent rcvd : list A) : Prop := rcvd `prefix_of` sent.

(** A channel with one sender per list: what has arrived so far respects the
    order of each sender. *)
Inductive merges {A} : list (list A) -> list A -> Prop :=
| mg_nil ls : merges ls []
| mg_cons ls i x l out :
    ls !! i = Some (x :: l) → merges (<[i := l]> ls) out → merges ls (x :: out).

Lemma merges_weaken {A} (ls ls' : list (list A)) out :
  merges ls out → Forall2 prefix ls ls' → merges ls' out.
Proof.
  intros Hm. revert ls'. induction Hm as [ls|ls i x l out Hi _ IH]; intros ls' Hp; [constructor|].
  destruct (Forall2_lookup_l _ _ _ _ _ Hp Hi) as (l' & Hi' & Hpre).
  destruct l' as [|x' l']; [by apply prefix_nil_not in Hpre|].
  apply prefix_cons_inv_1 in Hpre as Hx. apply prefix_cons_inv_2 in Hpre as Hl. subst x'.
  econstructor; [done|]. apply IH. by apply Forall2_insert.
Qed.

Lemma merges_prefix {A} (ls : list (list A)) out out' :
  merges ls out → out' `prefix_of` out → merges ls out'.
Proof.
  intros Hm. revert out'. induction Hm as [ls|ls i x l out Hi _ IH]; intros out' Hp.
  - apply prefix_nil_inv in Hp as ->. constructor.
  - destruct out' as [|y out']; [constructor|].
    apply prefix_cons_inv_1 in Hp as Hy. apply prefix_cons_inv_2 in Hp. subst y.
    econstructor; [done|]. by apply IH.
Qed.

Lemma concat_insert_cons {A} (ls : list (list A)) i x q :
  ls !! i = Some q → concat (<[i := x :: q]> ls) ≡ₚ x :: concat ls.
Proof.
  intros Hi. apply list_elem_of_split_length in Hi as (l1 & l2 & -> & ->).
  rewrite insert_app_r_alt, Nat.sub_diag by done. simpl. rewrite !concat_app. simpl.
  by rewrite <- Permutation_middle.
Qed.

(** What has arrived is made of one prefix of what each sender sent. *)
Lemma merges_parts {A} (ls : list (list A)) out :
  merges ls out → ∃ parts, Forall2 prefix parts ls ∧ out ≡ₚ concat parts.
Proof.
  induction 1 as [ls|ls i x l out Hi _ (parts & Hp & Ho)].
  - exists (map (λ _, []) ls). split; [apply Forall2_fmap_l, Forall_Forall2_diag, Forall_true; intros; apply prefix_nil|].
    by induction ls.
  - assert (i < length ls)%nat as Hl by (by eapply lookup_lt_Some).
    destruct (Forall2_lookup_r _ _ _ i l Hp) as (q & Hq & Hql); [by apply list_lookup_insert_eq|].
    exists (<[i := x :: q]> parts). split; [|by rewrite concat_insert_cons, Ho].
    rewrite <- (list_insert_id ls i (x :: l)) at 1 by done.
    rewrite <- (list_insert_insert_eq ls i (x :: l) l).
    apply Forall2_insert; [done|by apply prefix_cons].
Qed.

(** ** Transports *)

(** [L sent rcvd]: the peer may have received [rcvd] when [sent] was sent. *)
Class MessageLink (L : list Message -> list Message -> Prop) :=
  link_fifo sent rcvd : Forall message_wf sent → L sent rcvd → fifo sent rcvd.

Section links.
Context `{Prost}.

(** TCP: the frames are written one after the other; the peer has read some
    prefix of the bytes, in arbitrary pieces. *)
Definition tcp_link (sent rcvd : list Message) : Prop :=
  ∃ out chunks, encode_all ByteCodec_new sent [] = Ok out ∧ concat chunks `prefix_of` out
    ∧ rcvd = (feed ByteCodec_new [] chunks).1.

(** The decoder delivers a prefix of the messages on a prefix of the bytes, and
    does not fail. *)
Lemma drain_prefix c a b ms c' :
  drain c (a ++ b) = (ms, More c' []) →
  ∃ c'' r ms', drain c a = (ms', More c'' r) ∧ ms' `prefix_of` ms.
Proof.
  rewrite drain_app. destruct (drain c a) as [ms1 [c1 r1|e]]; [|done].
  destruct (drain c1 (r1 ++ b)) as [ms2 o]. intros [= <- _]. eexists _, _, _. split; [done|].
  by exists ms2.
Qed.

#[export] Instance tcp_message_link : MessageLink tcp_link.
Proof.
  intros sent rcvd Hwf (out & chunks & [Hfit ->]%encode_all_ok & [rest Hc] & ->).
  rewrite feed_concat by done.
  assert (drain ByteCodec_new (concat (map frame sent)) = (sent, More ByteCodec_new [])) as Hd
    by (by apply drain_frames).
  simpl in Hc. rewrite Hc in Hd. apply drain_prefix in Hd as (c & r & ms & -> & Hp). done.
Qed.

(** Everything may have been received. *)
Lemma tcp_link_all sent :
  Forall message_wf sent → is_ok (encode_all ByteCodec_new sent []) = true → tcp_link sent sent.
Proof.
  intros Hwf Hok. destruct (encode_all ByteCodec_new sent []) as [out|] eqn:E; [|done].
  exists out, [out]. split; [done|]. simpl (concat _). rewrite app_nil_r. split; [done|].
  apply encode_all_ok in E as [Hfit ->]. rewrite feed_concat by done. simpl (concat _).
  by rewrite app_nil_r, drain_frames.
Qed.

(** WebSocket: the stream carries the sent messages in order with control
    messages in between, and may end with an error at any point; the peer has
    called [next] [n] times. *)
Inductive ws_carries : list Message -> list (result rstr WsMessage) -> Prop :=
| wc_nil sent : ws_carries sent []
| wc_error sent e rest : ws_carries sent (Err e :: rest)
| wc_control sent rest : ws_carries sent rest → ws_carries sent (Ok WsControl :: rest)
| wc_binary m sent rest : ws_carries sent rest → ws_carries (m :: sent) (Ok (ws_send m) :: rest).

(** The messages of [n] calls of [next]; the connection loops stop at the first
    call that gives no message. *)
Fixpoint ws_received (n : nat) (peer_addr : SocketAddr) (stream : list (result rstr WsMessage))
    : list Message :=
  match n with
  | O => []
  | S n' =>
      match ws_next peer_addr stream with
      | (Some (Ok (m, _)), rest) => m :: ws_received n' peer_addr rest
      | _ => []
      end
  end.

Definition ws_link (sent rcvd : list Message) : Prop :=
  ∃ n peer_addr stream, ws_carries sent stream ∧ rcvd = ws_received n peer_addr stream.

Lemma ws_received_prefix n peer sent stream :
  Forall message_wf sent → ws_carries sent stream → ws_received n peer stream `prefix_of` sent.
Proof.
  intros Hwf Hc. revert n. induction Hc as [sent|sent e rest|sent rest _ IH|m sent rest _ IH];
    intros [|n]; simpl; try apply prefix_nil.
  - apply (IH Hwf (S n)).
  - apply Forall_cons in Hwf as [Hm Hwf]. rewrite decode_encode_vec by done.
    by apply prefix_cons, IH.
Qed.

#[export] Instance ws_message_link : MessageLink ws_link.
Proof. intros sent rcvd Hwf (n & peer & stream & Hc & ->). by eapply ws_received_prefix. Qed.
End links.
