(* ===== verification/Tunnel.v ===== *)
(** * Tunnel: packets from end to end

    The composition of the loops of both machines.  Upwards a packet goes from a
    client's TUN device through its TUN task ([common.rs]) and transport task
    ([transport/mod.rs]), over a transport, through the connection task of the
    server ([transport/tcp.rs], [transport/ws.rs]) to the server's TUN task;
    downwards from the server's TUN task through [handle_tun_packet]
    ([server.rs]) to the connection task of the owning session and to the
    client.  Each task is the run function of its component on the events it
    received; tasks are connected by channels ([fifo], [merges]) and by any
    transport with the promise of [MessageLink], as the [run_*] functions connect
    them. *)

From S2P Require Import Prelude RStr Net Rule Config AppConfig GeoIp Context Engine DomainCache Route.
From S2P Require Import Codec Server Conn Client Link.

(** ** What the events and actions carry *)

Definition to_transport (act : RouteAction) : option bytes :=
  match act with ToTransport p => Some p | _ => None end.
Definition ev_from_transport (ev : TunEvent) : option bytes :=
  match ev with EvTransport d _ _ => d | _ => None end.

Definition payload (m : Message) : option bytes :=
  match msg m with Some (MsgData d) => Some (data_payload d) | _ => None end.

Definition act_msg (a : ClientAct) : option Message :=
  match a with ToServer m => Some m | _ => None end.
Definition ce_msg (ev : ClientEvent) : option Message :=
  match ev with CeNext (Some (Ok (m, _))) _ _ => Some m | _ => None end.

Definition chan_sent (tx : chan) (a : Action) : option bytes :=
  match a with ChanSend t d => if decide (t = tx) then Some d else None | _ => None end.
Definition transport_sent (a : Action) : option Message :=
  match a with TransportSend m _ => Some m | _ => None end.
Definition ev_msg (ev : ConnEvent) : option Message :=
  match ev with EvNext (Some (Ok (m, _))) _ => Some m | _ => None end.
Definition ev_client_rx (ev : ConnEvent) : option bytes :=
  match ev with EvClientRx d _ => d | _ => None end.

(** * Lemmas *)

(** ** The client's transport task *)

Lemma act_data_payload (acts : list ClientAct) :
  omap act_data acts = omap payload (omap act_msg acts).
Proof.
  rewrite omap_omap. induction acts as [|a acts IH]; [done|].
  rewrite !omap_cons_list, IH. by destruct a.
Qed.

Lemma as_i64_range n : - 2 ^ 63 ≤ as_i64 n < 2 ^ 63.
Proof.
  unfold as_i64. pose proof (Z.mod_pos_bound n (2 ^ 64)). case_match; lia.
Qed.

Lemma client_io_step_wf ev acts r :
  client_io_step ev = (acts, r) → Forall (Forall octet) (option_list (ce_from_tun ev)) →
  Forall message_wf (omap act_msg acts).
Proof.
  destruct ev as [[[[m a]|e]|] now o|[d|] [[]|e]|now [[]|e]]; simpl; try (by intros [= <- <-]).
  - destruct (msg m) as [[]|]; try (by intros [= <- <-]).
    destruct o; by intros [= <- <-].
  - intros [= <- <-] [Hd _]%Forall_cons. by apply Forall_singleton.
  - intros [= <- <-] _. apply Forall_singleton, as_i64_range.
Qed.

Lemma client_io_wf evs :
  Forall (Forall octet) (omap ce_from_tun evs) →
  Forall message_wf (omap act_msg (client_transport_io_task evs).1).
Proof.
  induction evs as [|ev evs IH]; simpl; [done|].
  intros Ho.
  assert (Forall (Forall octet) (option_list (ce_from_tun ev))
    ∧ Forall (Forall octet) (omap ce_from_tun evs)) as [Hev Hevs]
    by (by rewrite <- Forall_app, <- omap_cons_list).
  destruct (client_io_step ev) as [acts [[]|e]] eqn:Es;
    pose proof (client_io_step_wf _ _ _ Es Hev) as Hw; [|done].
  specialize (IH Hevs). destruct (client_transport_io_task evs). simpl in *.
  rewrite omap_app. by apply Forall_app.
Qed.

(** ** The server's connection task *)

Section conn_acts.
Context `{HashOrder}.

Lemma handle_handshake_acts config fresh ok now st addr tx sid tok ttx :
  omap (chan_sent ttx) (handle_handshake config fresh ok now st addr tx sid tok).2 = []
  ∧ omap payload (omap transport_sent (handle_handshake config fresh ok now st addr tx sid tok).2) = [].
Proof.
  unfold handle_handshake. destruct (hs_begin _ _ _ _ _) as [st' [| |s ip tun reply]] eqn:E; try done.
  apply hs_begin_chosen in E as (cfg & _ & _ & -> & _). done.
Qed.

Lemma conn_step_acts peer tx ttx st ev st' acts f :
  conn_step peer tx ttx st ev = (st', acts, f) →
  omap (chan_sent ttx) acts = option_list (ev_msg ev ≫= payload)
  ∧ omap payload (omap transport_sent acts) = option_list (ev_client_rx ev).
Proof.
  destruct ev as [[[[m src]|e]|] env|[d|] send]; simpl; try (by intros [= <- <- <-]).
  unfold dispatch, payload at 1.
  destruct (msg m) as [[h|d|k|d]|]; try (by intros [= <- <- <-]).
  - pose proof (handle_handshake_acts (env_config env) (env_fresh_id env) (env_send_ok env)
      (env_now env) st peer tx (provided (hs_session_id h)) (provided (hs_token h)) ttx) as Hh.
    destruct (handle_handshake _ _ _ _ _ _ _ _ _). by intros [= <- <- <-].
  - intros [= <- <- <-]. simpl. by rewrite decide_True.
Qed.

Lemma conn_loop_acts peer tx ttx st evs st' acts f :
  conn_loop peer tx ttx st evs = (st', acts, f) →
  ∃ done_evs rest, evs = done_evs ++ rest
    ∧ omap (chan_sent ttx) acts = omap payload (omap ev_msg done_evs)
    ∧ omap payload (omap transport_sent acts) = omap ev_client_rx done_evs
    ∧ (f = Continue → rest = []).
Proof.
  revert st acts. induction evs as [|ev evs IH]; intros st acts; simpl.
  { intros [= <- <- <-]. by exists [], []. }
  destruct (conn_step peer tx ttx st ev) as [[st1 a1] f1] eqn:Es.
  apply conn_step_acts in Es as [Hc Ht]. destruct f1.
  - destruct (conn_loop peer tx ttx st1 evs) as [[st2 a2] f2] eqn:El. intros [= <- <- <-].
    destruct (IH _ _ El) as (pre & rest & -> & Hc' & Ht' & Hf). exists (ev :: pre), rest.
    split; [done|]. rewrite !omap_omap in *. rewrite !omap_cons_list, !omap_app, Hc, Ht.
    by rewrite Hc', Ht'.
  - intros [= <- <- <-]. exists [ev], evs. split; [done|]. rewrite !omap_omap in *.
    by rewrite !omap_cons_list, Hc, Ht, !app_nil_r.
Qed.
End conn_acts.

(** ** The runs of both machines *)

Section runs.
Context `{UnicodeLower, CidrLib, GeoDb, PacketSlicer, DnsLib, HashOrder, Yaml}.

(** A client: its rules engine, the events of its TUN task, its configuration
    and the events of its transport task. *)
Record ClientRun := mkClientRun {
  cr_engine : RulesEngine; cr_tun_evs : list TunEvent;
  cr_config : ClientConfig; cr_io_evs : list ClientEvent
}.
(** A connection task of the server.  The session table it starts with is its
    own here: what a connection relays does not depend on it ([conn_loop_acts]). *)
Record ConnRun := mkConnRun {
  cn_peer : SocketAddr; cn_tx : chan; cn_state : ServerState; cn_evs : list ConnEvent
}.

(** The packets a TUN task hands to its transport. *)
Definition routed (e : RulesEngine) (evs : list TunEvent) : list bytes :=
  omap to_transport (tun_io_task e evs).2.1.
Definition client_routed (c : ClientRun) : list bytes := routed (cr_engine c) (cr_tun_evs c).

(** The messages a client sends: the handshake, then those of its transport task. *)
Definition client_sent (c : ClientRun) : list Message :=
  client_hello (cr_config c) :: omap act_msg (client_transport_io_task (cr_io_evs c)).1.

Definition conn_acts (ttx : chan) (s : ConnRun) : list Action :=
  (conn_loop (cn_peer s) (cn_tx s) ttx (cn_state s) (cn_evs s)).1.2.
(** The packets a connection hands to the server's TUN task, and its messages. *)
Definition conn_handed (ttx : chan) (s : ConnRun) : list bytes :=
  omap (chan_sent ttx) (conn_acts ttx s).
Definition conn_sent (ttx : chan) (s : ConnRun) : list Message :=
  omap transport_sent (conn_acts ttx s).

(** [handle_tun_packet]: the packets it receives, each with the session table at
    the moment it takes the lock. *)
Definition tun_packet_loop (rcv : list (bytes * ServerState)) : list Action :=
  rcv ≫= λ p, handle_tun_packet p.1 p.2.
(** The packet is an IPv4 packet for [ip]: version 4, a whole header, the address
    in bytes 16 to 19. *)
Definition destined (d : bytes) (ip : Ipv4Addr) : Prop :=
  (20 ≤ length d)%nat
  ∧ match d !! 0%nat with Some b => b / 16 = 4 | None => False end
  ∧ d !! 16%nat = Some (oct0 ip) ∧ d !! 17%nat = Some (oct1 ip)
  ∧ d !! 18%nat = Some (oct2 ip) ∧ d !! 19%nat = Some (oct3 ip).
(** The packet is for the virtual address of a session whose channel is [tx]. *)
Definition addressed (tx : chan) (p : bytes * ServerState) : Prop :=
  map_Exists (λ _ c, destined p.1 (cl_virtual_ip c) ∧ cl_tx c = tx) (sessions p.2).
#[global] Instance destined_dec d ip : Decision (destined d ip).
Proof. unfold destined. destruct (d !! 0%nat); apply _. Defined.
#[global] Instance addressed_dec tx p : Decision (addressed tx p).
Proof. unfold addressed. apply _. Defined.
(** The packets for the sessions of the channel [tx]. *)
Definition packets_for (tx : chan) (rcv : list (bytes * ServerState)) : list bytes :=
  map fst (filter (addressed tx) rcv).

(** The client's texts are texts, and its device yields bytes. *)
Definition client_typed (c : ClientRun) : Prop :=
  text_wf (cc_token (cr_config c)) ∧ text_wf (cc_session_id (cr_config c))
  ∧ Forall (Forall octet) (omap ev_outbound (cr_tun_evs c)).

Section paths.
Context (L : list Message -> list Message -> Prop) `{!MessageLink L}.

(** The channels and the transport on the way up. *)
Definition up_path (ttx : chan) (c : ClientRun) (s : ConnRun) : Prop :=
  fifo (client_routed c) (omap ce_from_tun (cr_io_evs c))
  ∧ ∃ rcvd, L (client_sent c) rcvd ∧ fifo rcvd (omap ev_msg (cn_evs s)).

(** On the way down: from the dispatcher's actions to the client's TUN task.  The
    first message the client receives is the one its handshake accepted. *)
Definition down_path (ttx : chan) (acts : list Action) (s : ConnRun) (c : ClientRun) : Prop :=
  fifo (omap (chan_sent (cn_tx s)) acts) (omap ev_client_rx (cn_evs s))
  ∧ Forall message_wf (conn_sent ttx s)
  ∧ (∃ m rcvd fs a, L (conn_sent ttx s) (m :: rcvd)
       ∧ is_ok (handshake_async fs (cr_config c) (Ok tt) (WNext (Some (Ok (m, a))))).1.1 = true
       ∧ fifo rcvd (omap ce_msg (cr_io_evs c)))
  ∧ fifo (omap act_tun (client_transport_io_task (cr_io_evs c)).1)
         (omap ev_from_transport (cr_tun_evs c)).

Lemma omap_sublist_routed acts : omap to_transport acts `sublist_of` omap from_tun acts.
Proof.
  induction acts as [|[] acts IH]; simpl; [done|by constructor|by constructor|done].
Qed.

Lemma routed_read e evs : routed e evs `sublist_of` omap ev_outbound evs.
Proof.
  unfold routed. destruct (tun_io_task e evs) as [cache [acts r]] eqn:E.
  apply tun_io_loop_acts in E as (pre & rest & -> & _ & Hs & _). simpl.
  rewrite omap_app. etrans; [apply omap_sublist_routed|]. etrans; [exact Hs|].
  by apply sublist_inserts_r.
Qed.

Lemma client_sent_wf c :
  client_typed c → fifo (client_routed c) (omap ce_from_tun (cr_io_evs c)) →
  Forall message_wf (client_sent c).
Proof.
  intros (Ht & Hs & Ho) Hf. constructor; [done|]. apply client_io_wf.
  eapply Forall_sublist; [|exact Ho]. etrans; [by apply prefix_sublist|apply routed_read].
Qed.

Lemma client_payloads c : omap payload (client_sent c) `prefix_of` omap ce_from_tun (cr_io_evs c).
Proof.
  unfold client_sent. rewrite omap_cons_list. simpl.
  destruct (client_transport_io_task (cr_io_evs c)) as [acts r] eqn:E.
  apply client_io_acts in E as (pre & rest & -> & _ & Hd & _). simpl.
  rewrite <- act_data_payload, Hd, omap_app. by exists (omap ce_from_tun rest).
Qed.

Lemma conn_handed_prefix ttx s :
  conn_handed ttx s `prefix_of` omap payload (omap ev_msg (cn_evs s)).
Proof.
  unfold conn_handed, conn_acts.
  destruct (conn_loop _ _ _ _ _) as [[st acts] f] eqn:E.
  apply conn_loop_acts in E as (pre & rest & -> & Hc & _ & _). simpl.
  rewrite Hc, !omap_app. by exists (omap payload (omap ev_msg rest)).
Qed.

Lemma up_path_prefix ttx c s :
  client_typed c → up_path ttx c s → conn_handed ttx s `prefix_of` client_routed c.
Proof.
  intros Hty (Hc & rcvd & Hl & Hm).
  apply link_fifo in Hl; [|by apply client_sent_wf].
  etrans; [apply conn_handed_prefix|]. etrans; [by apply omap_prefix|].
  etrans; [by apply omap_prefix, Hl|]. etrans; [apply client_payloads|done].
Qed.
Lemma ce_received_payload (evs : list ClientEvent) :
  omap ce_received evs = omap payload (omap ce_msg evs).
Proof.
  rewrite omap_omap. induction evs as [|ev evs IH]; [done|]. rewrite !omap_cons_list, IH.
  by destruct ev as [[[[m a]|e]|] now o|d w|now w].
Qed.

(** What the client's transport task has handed to its TUN task. *)
Lemma client_handed evs :
  omap act_tun (client_transport_io_task evs).1 `prefix_of` omap payload (omap ce_msg evs).
Proof.
  destruct (client_transport_io_task evs) as [acts r] eqn:E.
  apply client_io_acts in E as (pre & rest & -> & Ht & _ & _). simpl.
  rewrite Ht, ce_received_payload, !omap_app. by exists (omap payload (omap ce_msg rest)).
Qed.

Lemma conn_payloads ttx s :
  omap payload (conn_sent ttx s) `prefix_of` omap ev_client_rx (cn_evs s).
Proof.
  unfold conn_sent, conn_acts. destruct (conn_loop _ _ _ _ _) as [[st acts] f] eqn:E.
  apply conn_loop_acts in E as (pre & rest & -> & _ & Ht & _). simpl.
  rewrite Ht, omap_app. by exists (omap ev_client_rx rest).
Qed.

Lemma handshake_reply_payload fs cfg m a :
  is_ok (handshake_async fs cfg (Ok tt) (WNext (Some (Ok (m, a))))).1.1 = true → payload m = None.
Proof. unfold payload. simpl. by destruct (msg m) as [[]|]. Qed.

Lemma destined_spec d ip : destined d ip ↔ get_destination_ip d = Some ip.
Proof.
  unfold destined, get_destination_ip.
  destruct (Nat.ltb_spec (length d) 20) as [Hl|Hl]; [split; [lia|done]|].
  destruct (d !! 0%nat) as [b|]; [|naive_solver]. simpl.
  rewrite (Z.shiftr_div_pow2 b 4) by lia. change (2 ^ 4) with 16.
  destruct (Z.eqb_spec (b / 16) 4) as [Hv|Hv]; simpl; [|naive_solver].
  destruct (d !! 16%nat), (d !! 17%nat), (d !! 18%nat), (d !! 19%nat); simpl; try naive_solver.
  destruct ip. simpl. naive_solver.
Qed.

(** One packet goes to the channel of a session it is for, and, when addresses are
    unique, to every such channel. *)
Lemma dispatch_addressed tx d st :
  (omap (chan_sent tx) (handle_tun_packet d st) = [d] ∧ addressed tx (d, st))
  ∨ (omap (chan_sent tx) (handle_tun_packet d st) = []
     ∧ (unique_ips (sessions st) → ¬ addressed tx (d, st))).
Proof.
  assert (addressed tx (d, st) ↔ ∃ sid c, sessions st !! sid = Some c
    ∧ get_destination_ip d = Some (cl_virtual_ip c) ∧ cl_tx c = tx) as Had.
  { unfold addressed, map_Exists. simpl. setoid_rewrite destined_spec. naive_solver. }
  rewrite Had. unfold handle_tun_packet.
  destruct (get_destination_ip d) as [ip|]; [|right; naive_solver].
  pose proof (find_client_cases ip st) as Hf. destruct (find_client ip st) as [c|] eqn:Ef; simpl.
  - destruct Hf as (sid & Hs & Hip). destruct (decide (cl_tx c = tx)) as [Htx|Htx]; [left|right].
    + rewrite <- Hip. eauto 10.
    + split; [done|]. intros Hu (sid' & c' & Hs' & [= Hip'] & Htx').
      by rewrite (find_client_unique ip st sid' c' Hu Hs' (eq_sym Hip')) in Ef; simplify_eq.
  - right. split; [done|]. intros _ (sid & c & Hs & [= Hip] & _). by eapply Hf.
Qed.

Lemma dispatched_packets tx rcv :
  omap (chan_sent tx) (tun_packet_loop rcv) `sublist_of` packets_for tx rcv
  ∧ (Forall (λ p, unique_ips (sessions p.2)) rcv →
       omap (chan_sent tx) (tun_packet_loop rcv) = packets_for tx rcv).
Proof.
  unfold packets_for, tun_packet_loop. induction rcv as [|[d st] rcv [IH1 IH2]]; [done|].
  rewrite bind_cons, omap_app, filter_cons, Forall_cons. cbn [fst snd].
  destruct (dispatch_addressed tx d st) as [[-> Ha]|[-> Hn]].
  - rewrite decide_True by done. split; [by constructor|]. intros [_ Hu]. simpl. by rewrite IH2.
  - split; [case_decide; [by constructor|done]|]. intros [Hu Hus].
    rewrite decide_False by auto. by apply IH2.
Qed.

Lemma packets_for_sublist tx rcv : packets_for tx rcv `sublist_of` map fst rcv.
Proof.
  unfold packets_for. induction rcv as [|p rcv IH]; [done|]. rewrite filter_cons.
  case_decide; simpl; by constructor.
Qed.

Lemma down_path_prefix ttx rcv s c :
  down_path ttx (tun_packet_loop rcv) s c →
  omap ev_from_transport (cr_tun_evs c) `prefix_of` omap (chan_sent (cn_tx s)) (tun_packet_loop rcv).
Proof.
  intros (Hrx & Hwf & (m & rcvd & fs & a & Hl & Hhs & Hio) & Htun).
  apply link_fifo in Hl; [|done].
  etrans; [exact Htun|]. etrans; [apply client_handed|]. etrans; [by apply omap_prefix|].
  transitivity (omap payload (m :: rcvd)).
  { rewrite omap_cons_list, (handshake_reply_payload _ _ _ _ Hhs). done. }
  etrans; [by apply omap_prefix, Hl|]. etrans; [apply conn_payloads|done].
Qed.

(** * Properties *)

(** C1: Upwards the tunnel neither loses, repeats, reorders nor alters a packet
    within what has arrived: with any number of clients, each with its own rules,
    and any transport that keeps messages in order, what the server's TUN task
    has received from its connections is a merge of one prefix per client of the
    packets that client's rules sent to the tunnel, which are a subsequence of
    those read from its device; and the server's device is written exactly
    what its TUN task received. *)
Theorem tunnel_up ttx (runs : list (ClientRun * ConnRun)) e evs cache acts r :
  Forall (λ cs, client_typed cs.1 ∧ up_path ttx cs.1 cs.2) runs →
  merges (map (λ cs, conn_handed ttx cs.2) runs) (omap ev_from_transport evs) →
  tun_io_task e evs = (cache, (acts, r)) →
  ∃ done_evs rest, evs = done_evs ++ rest
    ∧ omap to_tun acts = omap ev_inbound done_evs
    ∧ merges (map (λ cs, client_routed cs.1) runs) (omap ev_from_transport done_evs)
    ∧ Forall (λ cs, client_routed cs.1 `sublist_of` omap ev_outbound (cr_tun_evs cs.1)) runs.
Proof.
  intros Hruns Hm (pre & rest & -> & Hin & _)%tun_io_loop_acts. exists pre, rest.
  split; [done|]. split; [done|]. split; [|apply Forall_forall; intros; apply routed_read].
  eapply merges_weaken; [eapply merges_prefix; [exact Hm|apply omap_prefix; by exists rest]|].
  apply Forall2_fmap_2, Forall_Forall2_diag. eapply Forall_impl; [exact Hruns|].
  intros cs [Hty Hup]. by apply up_path_prefix.
Qed.

(** C2: Downwards a client's device is written exactly what its TUN task received,
    and what that task has received from the tunnel are, in order, unaltered and at
    most once each, packets whose destination address was the virtual address of
    a session on that client's connection when the server looked it up; while
    virtual addresses are unique (up to 256 clients) it has received a prefix of
    all those packets, without gaps; and they are a subsequence of the packets the
    server's rules sent to the tunnel. *)
Theorem tunnel_down ttx e evs rcv s c cache acts r :
  fifo (routed e evs) (map fst rcv) →
  down_path ttx (tun_packet_loop rcv) s c →
  tun_io_task (cr_engine c) (cr_tun_evs c) = (cache, (acts, r)) →
  ∃ done_evs rest, cr_tun_evs c = done_evs ++ rest
    ∧ omap to_tun acts = omap ev_inbound done_evs
    ∧ omap ev_from_transport done_evs `sublist_of` packets_for (cn_tx s) rcv
    ∧ (Forall (λ p, unique_ips (sessions p.2)) rcv →
         omap ev_from_transport done_evs `prefix_of` packets_for (cn_tx s) rcv)
    ∧ packets_for (cn_tx s) rcv `sublist_of` routed e evs.
Proof.
  intros Hrcv Hdown%down_path_prefix (pre & rest & Hevs & Hin & _)%tun_io_loop_acts.
  exists pre, rest. split; [done|]. split; [done|].
  assert (omap ev_from_transport pre `prefix_of` omap (chan_sent (cn_tx s)) (tun_packet_loop rcv)) as Hpre.
  { etrans; [|exact Hdown]. rewrite Hevs. apply omap_prefix. by exists rest. }
  destruct (dispatched_packets (cn_tx s) rcv) as [Hsub Heq]. split_and!.
  - etrans; [by apply prefix_sublist|done].
  - intros Hu. by rewrite <- Heq.
  - etrans; [apply packets_for_sublist|by apply prefix_sublist].
Qed.
End paths.
End runs.

(** ** The properties at concrete inputs *)

Import TextCidr ListDb PlainSlicer OneAnswer BitProst KeyOrder PlainYaml.

#[local] Instance scalar_value_dec c : Decision (scalar_value c).
Proof. unfold scalar_value. apply _. Defined.
#[local] Instance octet_dec z : Decision (octet z).
Proof. unfold octet. apply _. Defined.
Ltac solve_typed :=
  repeat match goal with |- Forall message_wf _ => constructor end;
  repeat split; try (apply (bool_decide_unpack _); vm_compute; exact I); try lia.

(** Everything goes through the tunnel. *)
Definition proxy_engine : RulesEngine := mkEngine [set_match_all (Rule_new Proxy)] (GeoIpMatcher_load None).
(** A packet to 10.0.0.2. *)
Definition down_packet : bytes :=
  [69; 0; 0; 20; 0; 0; 0; 0; 64; 17; 0; 0; 8; 8; 8; 8; 10; 0; 0; 2].

Definition sample_up_client : ClientRun :=
  mkClientRun proxy_engine [EvTunRead (Ok sample_packet) 0 true true; EvTunRead (Ok [7]) 0 true true]
    ClientConfig_default [CeTick 5 (Ok tt); CeTunRx (Some sample_packet) (Ok tt); CeTunRx (Some [7]) (Ok tt)].
Definition sample_up_conn : ConnRun :=
  mkConnRun sample_addr 4 sample_state
    (map (λ m, EvNext (Some (Ok (m, sample_addr))) sample_env) (client_sent sample_up_client)).

Lemma sample_client_typed : client_typed sample_up_client.
Proof. solve_typed. Qed.

Lemma sample_up_path : up_path tcp_link 1 sample_up_client sample_up_conn.
Proof.
  split; [vm_compute; exists []; reflexivity|]. exists (client_sent sample_up_client).
  split; [|vm_compute; exists []; reflexivity].
  apply tcp_link_all; [|vm_compute; reflexivity].
  apply client_sent_wf; [apply sample_client_typed|vm_compute; exists []; reflexivity].
Qed.

Lemma tunnel_up_witness :
  ∃ done_evs rest,
    [EvTransport (Some sample_packet) (λ _, 0) (Ok tt)] = done_evs ++ rest
    ∧ omap to_tun [ToTun sample_packet] = omap ev_inbound done_evs
    ∧ merges [client_routed sample_up_client] (omap ev_from_transport done_evs)
    ∧ Forall (λ cs : ClientRun * ConnRun,
        client_routed cs.1 `sublist_of` omap ev_outbound (cr_tun_evs cs.1))
        [(sample_up_client, sample_up_conn)].
Proof.
  apply (tunnel_up tcp_link 1 [(sample_up_client, sample_up_conn)] proxy_engine
    [EvTransport (Some sample_packet) (λ _, 0) (Ok tt)] DomainCache_new [ToTun sample_packet] (Ok tt));
    [|apply (mg_cons _ 0%nat sample_packet [[7]]); [vm_compute; reflexivity|constructor]
     |vm_compute; reflexivity].
  constructor; [split; [apply sample_client_typed|apply sample_up_path]|constructor].
Defined.

Definition sample_down_conn : ConnRun :=
  mkConnRun sample_addr 0 sample_state
    [EvNext (Some (Ok (client_hello ClientConfig_default, sample_addr))) sample_env;
     EvClientRx (Some down_packet) (Ok tt)].
Definition sample_down_client : ClientRun :=
  mkClientRun proxy_engine [EvTransport (Some down_packet) (λ _, 0) (Ok tt)] ClientConfig_default
    [CeNext (Some (Ok (Message_data (mkData down_packet), sample_addr))) 0 true].

Lemma sample_down_path :
  down_path tcp_link 1 (tun_packet_loop [(down_packet, sample_state)]) sample_down_conn
    sample_down_client.
Proof.
  assert (Forall message_wf (conn_sent 1 sample_down_conn)) as Hwf by solve_typed.
  split; [vm_compute; exists []; reflexivity|]. split; [done|].
  split; [|vm_compute; exists []; reflexivity].
  destruct (conn_sent 1 sample_down_conn) as [|m [|d []]] eqn:E; try (vm_compute in E; discriminate).
  exists m, [d], sample_fs, sample_addr. split_and!.
  - apply tcp_link_all; [done|]. rewrite <- E. vm_compute. reflexivity.
  - vm_compute in E. injection E as <- <-. vm_compute. reflexivity.
  - vm_compute in E. injection E as <- <-. by exists [].
Qed.

Lemma sample_addressed : packets_for 0 [(down_packet, sample_state)] = [down_packet].
Proof. vm_compute. reflexivity. Qed.

Lemma tunnel_down_witness :
  ∃ done_evs rest, [EvTransport (Some down_packet) (λ _, 0) (Ok tt)] = done_evs ++ rest
    ∧ omap to_tun [ToTun down_packet] = omap ev_inbound done_evs
    ∧ omap ev_from_transport done_evs `sublist_of` packets_for 0 [(down_packet, sample_state)]
    ∧ (Forall (λ p, unique_ips (sessions p.2)) [(down_packet, sample_state)] →
         omap ev_from_transport done_evs `prefix_of` packets_for 0 [(down_packet, sample_state)])
    ∧ packets_for 0 [(down_packet, sample_state)]
        `sublist_of` routed proxy_engine [EvTunRead (Ok down_packet) 0 true true].
Proof.
  apply (tunnel_down tcp_link 1 proxy_engine [EvTunRead (Ok down_packet) 0 true true]
    [(down_packet, sample_state)] sample_down_conn sample_down_client DomainCache_new
    [ToTun down_packet] (Ok tt));
    [vm_compute; exists []; reflexivity|apply sample_down_path|vm_compute; reflexivity].
Defined.
