(* ===== verification/ClientTasks.v ===== *)
(** * ClientTasks: the client's two tasks and their bounded channels
    ([transport/mod.rs], [common.rs], [transparent_proxy/mod.rs])

    [run_connected_client] connects the TUN task, the transport task and the
    direct proxy by four channels of 4096 packets.  A task handles one event at a
    time and, when the event makes it send, waits inside the handler until the
    channel has room: while it waits it receives nothing.  The proxy's two
    threads wait in the same way.  A state is what is in each channel and what
    its sender waits to put there.  [istep] are the steps the two tasks take by
    themselves, [estep] those that take a packet from the device or a message
    from the server, or a tick of the keepalive timer; [xstep] are the steps of
    the proxy's threads with the packets they have, [xin] a packet from the
    proxy's stack.  What a task does with an event is the step function of its
    component. *)

From S2P Require Import Prelude RStr Net Rule Config AppConfig GeoIp Context Engine DomainCache Route.
From S2P Require Import Codec Server Conn Client Link Tunnel.

(** [mpsc::channel::<Vec<u8>>(4096)] *)
Definition CHANNEL_CAPACITY : nat := 4096.

(** A channel: the packet its sender waits to send, the packets in it, and two
    histories: the packets offered to it, and what its receiver has passed on. *)
Record Channel := mkChannel {
  ch_wait : option bytes;
  ch_queue : list bytes;
  ch_offered : list bytes;
  ch_passed : list bytes
}.
Definition Channel_new : Channel := mkChannel None [] [] [].

(** The sender starts to wait with a packet, if there is one; the packet enters
    the channel; the receiver takes one, leaves [q] and passes on [d]. *)
Definition ch_offer (o : option bytes) (c : Channel) : Channel :=
  match o with
  | Some p => mkChannel (Some p) (ch_queue c) (ch_offered c ++ [p]) (ch_passed c)
  | None => c
  end.
Definition ch_push (p : bytes) (c : Channel) : Channel :=
  mkChannel None (ch_queue c ++ [p]) (ch_offered c) (ch_passed c).
Definition ch_take (q d : list bytes) (c : Channel) : Channel :=
  mkChannel (ch_wait c) q (ch_offered c) (ch_passed c ++ d).

(** [ts_up]: [tun_tx] to [tun_rx], from the TUN task to the transport task;
    [ts_down]: [transport_tx] to [transport_rx], back; [ts_dout]:
    [direct_proxy_tx], from the TUN task to the proxy; [ts_din]:
    [direct_proxy_rx], back. *)
Record TaskState := mkTasks {
  ts_cache : DomainCache;
  ts_up : Channel;
  ts_down : Channel;
  ts_dout : Channel;
  ts_din : Channel
}.
Definition TaskState_init : TaskState :=
  mkTasks DomainCache_new Channel_new Channel_new Channel_new Channel_new.

(** The task is in its [select!]. *)
Definition tun_idle (s : TaskState) : Prop := ch_wait (ts_up s) = None ∧ ch_wait (ts_dout s) = None.
Definition io_idle (s : TaskState) : Prop := ch_wait (ts_down s) = None.

Definition to_direct (act : RouteAction) : option bytes :=
  match act with ToDirect p => Some p | _ => None end.

Section tasks.
Context `{UnicodeLower, CidrLib, GeoDb, PacketSlicer, DnsLib}.
Context (e : RulesEngine) (cap : nat).

Inductive istep : TaskState -> TaskState -> Prop :=
| is_tun_recv cache up down dout din d q clock cache' acts :
    tun_idle (mkTasks cache up down dout din) → ch_queue down = d :: q →
    tun_io_step e cache (EvTransport (Some d) clock (Ok tt)) = (cache', (acts, Ok tt)) →
    istep (mkTasks cache up down dout din)
      (mkTasks cache' up (ch_take q (omap to_tun acts) down) dout din)
| is_direct_recv cache up down dout din d q clock cache' acts :
    tun_idle (mkTasks cache up down dout din) → ch_queue din = d :: q →
    tun_io_step e cache (EvDirect (Some d) clock (Ok tt)) = (cache', (acts, Ok tt)) →
    istep (mkTasks cache up down dout din)
      (mkTasks cache' up down dout (ch_take q (omap to_tun acts) din))
| is_tun_sent cache up down dout din p :
    ch_wait up = Some p → (length (ch_queue up) < cap)%nat →
    istep (mkTasks cache up down dout din) (mkTasks cache (ch_push p up) down dout din)
| is_direct_sent cache up down dout din p :
    ch_wait dout = Some p → (length (ch_queue dout) < cap)%nat →
    istep (mkTasks cache up down dout din) (mkTasks cache up down (ch_push p dout) din)
| is_io_recv cache up down dout din p q acts :
    io_idle (mkTasks cache up down dout din) → ch_queue up = p :: q →
    client_io_step (CeTunRx (Some p) (Ok tt)) = (acts, Ok tt) →
    istep (mkTasks cache up down dout din)
      (mkTasks cache (ch_take q (omap act_data acts) up) down dout din)
| is_io_sent cache up down dout din d :
    ch_wait down = Some d → (length (ch_queue down) < cap)%nat →
    istep (mkTasks cache up down dout din) (mkTasks cache up (ch_push d down) dout din).

Inductive estep : TaskState -> TaskState -> Prop :=
| es_read cache up down dout din packet now cache' acts :
    tun_idle (mkTasks cache up down dout din) →
    tun_io_step e cache (EvTunRead (Ok packet) now true true) = (cache', (acts, Ok tt)) →
    estep (mkTasks cache up down dout din)
      (mkTasks cache' (ch_offer (head (omap to_transport acts)) up) down
         (ch_offer (head (omap to_direct acts)) dout) din)
| es_message cache up down dout din m addr now acts :
    io_idle (mkTasks cache up down dout din) →
    client_io_step (CeNext (Some (Ok (m, addr))) now true) = (acts, Ok tt) →
    estep (mkTasks cache up down dout din)
      (mkTasks cache up (ch_offer (head (omap act_tun acts)) down) dout din)
| es_tick s now acts :
    io_idle s → client_io_step (CeTick now (Ok tt)) = (acts, Ok tt) → estep s s.

(** The threads of [create_net_with_channels]: one takes packets for the stack,
    the other puts the stack's packets into their channel.  When the stack takes
    and offers packets is up to the environment: [xs_take] and [xs_offer] happen
    at any time or never. *)
Inductive xstep : TaskState -> TaskState -> Prop :=
| xs_take cache up down dout din p q :
    ch_queue dout = p :: q →
    xstep (mkTasks cache up down dout din) (mkTasks cache up down (ch_take q [p] dout) din)
| xs_sent cache up down dout din p :
    ch_wait din = Some p → (length (ch_queue din) < cap)%nat →
    xstep (mkTasks cache up down dout din) (mkTasks cache up down dout (ch_push p din)).
Inductive xin : TaskState -> TaskState -> Prop :=
| xs_offer cache up down dout din p :
    ch_wait din = None →
    xin (mkTasks cache up down dout din) (mkTasks cache up down dout (ch_offer (Some p) din)).

(** A step of one of the two tasks; a step of anything inside; any step. *)
Definition task_step (s s' : TaskState) : Prop := istep s s' ∨ estep s s'.
Definition rstep (s s' : TaskState) : Prop := istep s s' ∨ xstep s s'.
Definition cstep (s s' : TaskState) : Prop := task_step s s' ∨ xstep s s' ∨ xin s s'.

(** The sender waits for room in a full channel. *)
Definition blocked (c : Channel) : Prop := is_Some (ch_wait c) ∧ length (ch_queue c) = cap.
(** Both tasks wait for room in a full channel that only the other one empties. *)
Definition deadlocked (s : TaskState) : Prop := blocked (ts_up s) ∧ blocked (ts_down s).
(** The TUN task waits for the proxy while the transport task waits for it. *)
Definition proxy_blocked (s : TaskState) : Prop := blocked (ts_dout s) ∧ blocked (ts_down s).

(** Nothing is waiting or in the channel. *)
Definition ch_empty (c : Channel) : Prop := ch_wait c = None ∧ ch_queue c = [].
Definition quiescent (s : TaskState) : Prop :=
  ch_empty (ts_up s) ∧ ch_empty (ts_down s) ∧ ch_empty (ts_dout s) ∧ ch_empty (ts_din s).

(** Every packet is in one place, the channels are within their capacity, and the
    TUN task waits for one channel at a time. *)
Record ch_inv (c : Channel) : Prop := {
  ci_cap : (length (ch_queue c) ≤ cap)%nat;
  ci_all : ch_offered c = ch_passed c ++ ch_queue c ++ option_list (ch_wait c)
}.
Record tasks_inv (s : TaskState) : Prop := {
  ti_up : ch_inv (ts_up s);
  ti_down : ch_inv (ts_down s);
  ti_dout : ch_inv (ts_dout s);
  ti_din : ch_inv (ts_din s);
  ti_one : ch_wait (ts_up s) = None ∨ ch_wait (ts_dout s) = None
}.

(** Steps left at most. *)
Definition ch_work (c : Channel) : nat := length (ch_queue c) + 2 * length (option_list (ch_wait c)).
Definition work (s : TaskState) : nat :=
  ch_work (ts_up s) + ch_work (ts_down s) + ch_work (ts_dout s) + ch_work (ts_din s).

(** * Lemmas *)

(** ** Channels *)

Lemma ch_inv_new : ch_inv Channel_new.
Proof. split; simpl; (done || lia). Qed.
Lemma ch_inv_offer o c : ch_inv c → ch_wait c = None → ch_inv (ch_offer o c).
Proof.
  intros [Hc Ha] Hw. destruct o as [p|]; [|by split]. split; simpl; [done|].
  rewrite Ha, Hw. simpl. by rewrite app_nil_r, <- app_assoc.
Qed.
Lemma ch_inv_push p c :
  ch_inv c → ch_wait c = Some p → (length (ch_queue c) < cap)%nat → ch_inv (ch_push p c).
Proof.
  intros [Hc Ha] Hw Hl. split; simpl; [rewrite length_app; simpl; lia|].
  rewrite Ha, Hw. simpl. by rewrite app_nil_r.
Qed.
Lemma ch_inv_take p q c : ch_inv c → ch_queue c = p :: q → ch_inv (ch_take q [p] c).
Proof.
  intros [Hc Ha] Hq. rewrite Hq in *. simpl in *. split; simpl; [lia|]. by rewrite Ha, <- app_assoc.
Qed.

Lemma ch_work_push p c :
  ch_wait c = Some p → ch_work c = S (ch_work (ch_push p c)).
Proof. intros Hw. unfold ch_work. simpl. rewrite Hw, length_app. simpl. lia. Qed.
Lemma ch_work_take p q d c : ch_queue c = p :: q → ch_work c = S (ch_work (ch_take q d c)).
Proof. intros Hq. unfold ch_work. simpl. rewrite Hq. simpl. lia. Qed.

Lemma ch_offer_wait o c : ch_wait (ch_offer o c) = match o with Some p => Some p | None => ch_wait c end.
Proof. by destruct o. Qed.

(** ** One event makes at most one packet *)

Lemma route_one now packet cache cache' acts :
  tun_io_step e cache (EvTunRead (Ok packet) now true true) = (cache', (acts, Ok tt)) →
  head (omap to_transport acts) = None ∨ head (omap to_direct acts) = None.
Proof.
  simpl. intros Hr. destruct (handle_packet_route_acts now packet e cache true true)
    as (acts' & r & Hr' & Hin). rewrite Hr in Hr'. injection Hr' as <- <-.
  repeat (apply elem_of_cons in Hin as [->|Hin]); auto. by apply elem_of_nil in Hin.
Qed.

(** ** The invariant *)

Lemma tasks_inv_init : tasks_inv TaskState_init.
Proof. split; simpl; try apply ch_inv_new. by left. Qed.

Lemma tasks_inv_istep s s' : istep s s' → tasks_inv s → tasks_inv s'.
Proof.
  intros Hs [Hu Hd Ho Hn Hone].
  destruct Hs as [cache up down dout din d q clock cache' acts Hi Hq Ha
    |cache up down dout din d q clock cache' acts Hi Hq Ha| | |cache up down dout din p q acts Hi Hq Ha|];
    try apply tun_io_step_acts in Ha as [Ha _]; try apply client_io_step_acts in Ha as [_ Ha];
    simpl in *; split; simpl; rewrite ?Ha; simpl;
    auto using ch_inv_push, ch_inv_take.
Qed.

Lemma tasks_inv_estep s s' : estep s s' → tasks_inv s → tasks_inv s'.
Proof.
  intros Hs [Hu Hd Ho Hn Hone].
  destruct Hs as [cache up down dout din packet now cache' acts [Hiu Hid] Ha|cache up down dout din m addr now acts Hi Ha|];
    simpl in *; [| |by split].
  - split; simpl; auto using ch_inv_offer. rewrite !ch_offer_wait, Hiu, Hid.
    destruct (route_one _ _ _ _ _ Ha) as [-> | ->]; auto.
  - split; simpl; auto. by apply ch_inv_offer.
Qed.

Lemma tasks_inv_xstep s s' : xstep s s' → tasks_inv s → tasks_inv s'.
Proof.
  intros Hs [Hu Hd Ho Hn Hone].
  destruct Hs; simpl in *; split; simpl; auto using ch_inv_push, ch_inv_take.
Qed.
Lemma tasks_inv_xin s s' : xin s s' → tasks_inv s → tasks_inv s'.
Proof.
  intros Hs [Hu Hd Ho Hn Hone]. destruct Hs as [cache up down dout din p Hw]; simpl in *.
  split; simpl; auto. by apply (ch_inv_offer (Some p)).
Qed.

Lemma tasks_inv_reachable s : rtc cstep TaskState_init s → tasks_inv s.
Proof.
  intros Hr. eapply rtc_invariant; [|exact Hr|apply tasks_inv_init].
  intros a b [[?|?]|[?|?]] ?;
    eauto using tasks_inv_istep, tasks_inv_estep, tasks_inv_xstep, tasks_inv_xin.
Qed.

(** ** Draining *)

(** A step inside makes progress and takes nothing in. *)
Lemma rstep_work s s' :
  rstep s s' →
  work s = S (work s')
  ∧ ch_offered (ts_up s') = ch_offered (ts_up s) ∧ ch_offered (ts_down s') = ch_offered (ts_down s)
  ∧ ch_offered (ts_dout s') = ch_offered (ts_dout s) ∧ ch_offered (ts_din s') = ch_offered (ts_din s).
Proof.
  intros [Hs|Hs]; unfold work; destruct Hs; simpl;
    (split; [|done]);
    match goal with
    | Hq : ch_queue ?c = _ :: ?q |- context [ch_take ?q ?d ?c] => rewrite (ch_work_take _ q d c Hq); lia
    | Hw : ch_wait ?c = Some ?p |- context [ch_push ?p ?c] => rewrite (ch_work_push p c Hw); lia
    end.
Qed.

(** It never leads into a deadlock. *)
Lemma rstep_deadlocked s s' : rstep s s' → deadlocked s' → deadlocked s.
Proof.
  intros [Hs|Hs] [Hu Hd]; destruct Hs; simpl in *;
    (by split) || (unfold tun_idle, io_idle, blocked, is_Some in *; simpl in *; naive_solver congruence).
Qed.

Lemma rrun_keeps s s' :
  rtc rstep s s' → tasks_inv s → ¬ deadlocked s →
  tasks_inv s' ∧ ¬ deadlocked s'
  ∧ ch_offered (ts_up s') = ch_offered (ts_up s) ∧ ch_offered (ts_down s') = ch_offered (ts_down s)
  ∧ ch_offered (ts_dout s') = ch_offered (ts_dout s) ∧ ch_offered (ts_din s') = ch_offered (ts_din s).
Proof.
  induction 1 as [s|s1 s2 s3 Hs _ IH]; intros Hi Hd; [done|].
  pose proof (rstep_work _ _ Hs) as (_ & Ho1 & Ho2 & Ho3 & Ho4).
  destruct IH as (? & ? & -> & -> & -> & ->); [|by intros ?%(rstep_deadlocked _ _ Hs)|done].
  destruct Hs; [by eapply tasks_inv_istep|by eapply tasks_inv_xstep].
Qed.

Lemma rrun_bounded n s s' : nsteps rstep n s s' → (n + work s' = work s)%nat.
Proof.
  induction 1 as [|n s1 s2 s3 Hs _ IH]; [lia|]. apply rstep_work in Hs as [Hw _]. lia.
Qed.

(** A task in its [select!] takes a packet that is there. *)
Lemma tun_takes cache up down dout din :
  tun_idle (mkTasks cache up down dout din) → ch_queue down ≠ [] ∨ ch_queue din ≠ [] →
  ∃ s', istep (mkTasks cache up down dout din) s'.
Proof.
  intros Hi [Hq|Hq].
  - destruct (ch_queue down) as [|x q] eqn:Eq; [done|].
    eexists. by eapply (is_tun_recv _ _ _ _ _ _ _ (λ _, 0)).
  - destruct (ch_queue din) as [|x q] eqn:Eq; [done|].
    eexists. by eapply (is_direct_recv _ _ _ _ _ _ _ (λ _, 0)).
Qed.
Lemma io_takes cache up down dout din :
  ch_wait down = None → ch_queue up ≠ [] → ∃ s', istep (mkTasks cache up down dout din) s'.
Proof.
  intros Hi Hq. destruct (ch_queue up) as [|x q] eqn:Eq; [done|]. eexists. by eapply is_io_recv.
Qed.

(** A sender that waits goes on or is blocked. *)
Lemma wait_cases c : ch_inv c → ch_wait c = None ∨ blocked c
  ∨ ∃ p, ch_wait c = Some p ∧ (length (ch_queue c) < cap)%nat.
Proof.
  intros [Hc _]. destruct (ch_wait c) as [p|] eqn:Ew; [right|by left].
  destruct (decide (length (ch_queue c) < cap)%nat); [right; by exists p|].
  left. split; [by rewrite Ew|lia].
Qed.
Lemma blocked_queue c : (0 < cap)%nat → blocked c → ch_queue c ≠ [].
Proof. intros Hcap [_ Hl] Hq. rewrite Hq in Hl. simpl in Hl. lia. Qed.

(** Something inside can go on unless everything is delivered or the tasks are
    deadlocked. *)
Lemma rstep_possible s :
  (0 < cap)%nat → tasks_inv s → quiescent s ∨ deadlocked s ∨ ∃ s', rstep s s'.
Proof.
  intros Hcap [Hu Hd Ho Hn Hone]. destruct s as [cache up down dout din]. simpl in *.
  assert ((∃ s', istep (mkTasks cache up down dout din) s') →
    quiescent (mkTasks cache up down dout din) ∨ deadlocked (mkTasks cache up down dout din)
    ∨ ∃ s', rstep (mkTasks cache up down dout din) s') as Hgo
    by (intros [s' ?]; right; right; exists s'; by left).
  destruct (ch_queue dout) as [|x q] eqn:Eo.
  2: { right; right. eexists. right. by eapply xs_take. }
  destruct (wait_cases dout Ho) as [Hwo|[Hb|(p & Hp & Hl)]];
    [|by destruct (blocked_queue dout Hcap Hb)|apply Hgo; eexists; by eapply is_direct_sent].
  destruct (wait_cases down Hd) as [Hwd|[Hbd|(p & Hp & Hl)]];
    [| |apply Hgo; eexists; by eapply is_io_sent].
  all: destruct (wait_cases up Hu) as [Hwu|[Hbu|(p & Hp & Hl)]];
    [| |apply Hgo; eexists; by eapply is_tun_sent].
  - destruct (decide (ch_queue down = [])) as [Ed|Ed]; [|apply Hgo, tun_takes; [done|by left]].
    destruct (decide (ch_queue din = [])) as [En|En]; [|apply Hgo, tun_takes; [done|by right]].
    destruct (decide (ch_queue up = [])) as [Eu|Eu]; [|by apply Hgo, io_takes].
    destruct (wait_cases din Hn) as [Hwn|[Hb|(p & Hp & Hl)]];
      [by left|by destruct (blocked_queue din Hcap Hb)|].
    right; right. eexists. right. by eapply xs_sent.
  - apply Hgo, io_takes; [done|by apply blocked_queue].
  - apply Hgo, tun_takes; [done|left; by apply blocked_queue].
  - right; left. done.
Qed.

Lemma ch_drained c : ch_inv c → ch_empty c → ch_passed c = ch_offered c.
Proof. intros [_ ->] [-> ->]. by rewrite !app_nil_r. Qed.

(** ** Blocked tasks *)

(** In a deadlock nothing touches the two channels any more. *)
Lemma deadlocked_step s s' :
  cstep s s' → deadlocked s → ts_up s' = ts_up s ∧ ts_down s' = ts_down s.
Proof.
  intros Hs [[[p Hp] Hlu] [[d Hd] Hld]].
  destruct Hs as [[Hs|Hs]|[Hs|Hs]]; destruct Hs; simpl in *; unfold tun_idle, io_idle in *;
    simpl in *; try done; try lia; naive_solver.
Qed.
Lemma deadlocked_forever s s' :
  rtc cstep s s' → deadlocked s → ts_up s' = ts_up s ∧ ts_down s' = ts_down s.
Proof.
  induction 1 as [s|s1 s2 s3 Hs _ IH]; intros Hd; [done|].
  destruct (deadlocked_step _ _ Hs Hd) as [<- <-]. apply IH.
  destruct (deadlocked_step _ _ Hs Hd) as [E1 E2]. unfold deadlocked. by rewrite E1, E2.
Qed.

Lemma no_step_blocked s :
  (0 < cap)%nat → tasks_inv s → (∀ s', ¬ task_step s s') ↔ deadlocked s ∨ proxy_blocked s.
Proof.
  intros Hcap [Hu Hd Ho Hn Hone]. destruct s as [cache up down dout din]. simpl in *. split.
  - intros Hno.
    assert (∀ s', ¬ istep (mkTasks cache up down dout din) s') as Hi by (intros s' ?; by eapply Hno; left).
    destruct (wait_cases down Hd) as [Hwd|[Hbd|(p & Hp & Hl)]];
      [|
      |by destruct (Hi _ (is_io_sent _ _ _ _ _ _ Hp Hl))].
    { destruct (Hno (mkTasks cache up down dout din)). right. by eapply (es_tick _ 0). }
    destruct (wait_cases up Hu) as [Hwu|[Hbu|(p & Hp & Hl)]];
      [|by left|by destruct (Hi _ (is_tun_sent _ _ _ _ _ _ Hp Hl))].
    destruct (wait_cases dout Ho) as [Hwo|[Hbo|(p & Hp & Hl)]];
      [|by right|by destruct (Hi _ (is_direct_sent _ _ _ _ _ _ Hp Hl))].
    destruct (tun_takes cache up down dout din) as [s' ?]; [done|left; by apply blocked_queue|].
    by destruct (Hi s').
  - intros Hb s' Hs.
    assert (blocked down) as [[d Hwd] Hld] by (by destruct Hb as [[_ ?]|[_ ?]]).
    assert (blocked up ∨ blocked dout) as Hb' by (by destruct Hb as [[? _]|[? _]]; [left|right]).
    clear Hb. destruct Hs as [Hs|Hs]; inversion Hs; subst; unfold tun_idle, io_idle in *; simpl in *;
      unfold blocked, is_Some in *; try congruence; try lia; naive_solver lia.
Qed.

(** A task blocked by the proxy goes on once the proxy has taken a packet. *)
Lemma proxy_blocked_released s :
  (0 < cap)%nat → proxy_blocked s → ∃ s' s'', xstep s s' ∧ istep s' s''.
Proof.
  intros Hcap [Hb _]. destruct s as [cache up down dout din]. simpl in *.
  pose proof (blocked_queue dout Hcap Hb) as Hq. destruct Hb as [[p Hp] Hl].
  destruct (ch_queue dout) as [|x q] eqn:Eq; [done|]. eexists _, _. split; [by eapply xs_take|].
  eapply is_direct_sent; simpl; [done|]. simpl in Hl. lia.
Qed.

(** ** Filling the channels *)

Lemma read_opaque cache packet now :
  from_ip_packet packet = None →
  tun_io_step e cache (EvTunRead (Ok packet) now true true) = (cache, ([ToTransport packet], Ok tt)).
Proof. intros Hp. simpl. unfold handle_packet_route. by rewrite Hp. Qed.

(** Reading a packet that is no IPv4 packet, and receiving a data message. *)
Lemma step_read cache up down dout din packet :
  from_ip_packet packet = None → tun_idle (mkTasks cache up down dout din) →
  cstep (mkTasks cache up down dout din) (mkTasks cache (ch_offer (Some packet) up) down dout din).
Proof.
  intros Hp Hi. left. right. by apply (es_read cache up down dout din packet 0 cache
    [ToTransport packet] Hi (read_opaque cache packet 0 Hp)).
Qed.
Lemma step_message cache up down dout din d :
  ch_wait down = None →
  cstep (mkTasks cache up down dout din) (mkTasks cache up (ch_offer (Some d) down) dout din).
Proof.
  intros Hi. left. right. exact (es_message cache up down dout din (Message_data (mkData d))
    (SocketAddr_new (V6 0) 0) 0 _ Hi eq_refl).
Qed.

Definition filled (p : bytes) (n : nat) : Channel := mkChannel None (repeat p n) (repeat p n) [].

Lemma filled_push p n : ch_push p (ch_offer (Some p) (filled p n)) = filled p (S n).
Proof.
  unfold filled, ch_push. simpl. replace (p :: repeat p n) with (repeat p n ++ [p])
    by (symmetry; apply repeat_cons). done.
Qed.

Lemma fill_up packet n cache down din :
  from_ip_packet packet = None → (n ≤ cap)%nat →
  rtc cstep (mkTasks cache Channel_new down Channel_new din)
    (mkTasks cache (filled packet n) down Channel_new din).
Proof.
  intros Hp Hn. induction n as [|n IH]; [done|]. rewrite <- filled_push.
  eapply rtc_r; [eapply rtc_r; [apply IH; lia|by apply step_read]|].
  left. left. apply is_tun_sent; [done|]. simpl. rewrite repeat_length. lia.
Qed.
Lemma fill_down d n cache up din :
  (n ≤ cap)%nat →
  rtc cstep (mkTasks cache up Channel_new Channel_new din)
    (mkTasks cache up (filled d n) Channel_new din).
Proof.
  intros Hn. induction n as [|n IH]; [done|]. rewrite <- filled_push.
  eapply rtc_r; [eapply rtc_r; [apply IH; lia|by apply step_message]|].
  left. left. apply is_io_sent; [done|]. simpl. rewrite repeat_length. lia.
Qed.

Lemma deadlock_reachable packet (d : bytes) :
  from_ip_packet packet = None → ∃ s, rtc cstep TaskState_init s ∧ deadlocked s.
Proof.
  intros Hp. eexists. split.
  - etrans; [by apply (fill_up packet cap)|]. etrans; [by apply (fill_down d cap)|].
    eapply rtc_l; [by apply (step_read _ _ _ _ _ packet)|].
    apply rtc_once. by apply (step_message _ _ _ _ _ d).
  - unfold deadlocked, blocked. simpl. rewrite !repeat_length. by split_and!; eexists.
Qed.
End tasks.

(** * Properties *)

Section properties.
Context `{UnicodeLower, CidrLib, GeoDb, PacketSlicer, DnsLib}.

(** C5: From every reachable state in which the two tasks are not waiting for each
    other, left to themselves the tasks and the proxy's threads deliver
    everything, as long as the device, the transport and the proxy's stack accept
    what they are given: however they are scheduled they stop after finitely many
    steps, and then every packet routed to the tunnel has been sent to the
    server, every payload received and every packet of the proxy has been written
    to the device, and every packet routed directly has reached the proxy, in
    order and once each. *)
Theorem client_drains e s :
  rtc (cstep e CHANNEL_CAPACITY) TaskState_init s → ¬ deadlocked CHANNEL_CAPACITY s →
  (∀ n s', nsteps (rstep e CHANNEL_CAPACITY) n s s' → (n ≤ work s)%nat)
  ∧ (∀ s', rtc (rstep e CHANNEL_CAPACITY) s s' → (∀ s'', ¬ rstep e CHANNEL_CAPACITY s' s'') →
       quiescent s'
       ∧ ch_passed (ts_up s') = ch_offered (ts_up s) ∧ ch_passed (ts_down s') = ch_offered (ts_down s)
       ∧ ch_passed (ts_dout s') = ch_offered (ts_dout s) ∧ ch_passed (ts_din s') = ch_offered (ts_din s)).
Proof.
  intros Hi%tasks_inv_reachable Hd. split.
  { intros n s' Hn%rrun_bounded. lia. }
  intros s' Hr Hstop. destruct (rrun_keeps _ _ _ _ Hr Hi Hd) as (Hi' & Hd' & <- & <- & <- & <-).
  destruct (rstep_possible e CHANNEL_CAPACITY s') as [Hq|[?|[s'' ?]]];
    [unfold CHANNEL_CAPACITY; lia|done| |done|by destruct (Hstop s'')].
  split; [done|]. destruct Hq as (Q1 & Q2 & Q3 & Q4), Hi' as [I1 I2 I3 I4 _].
  split_and!; by eapply ch_drained.
Qed.

(** C13: The two tasks can block each other for good: under load in both directions
    a state is reachable in which each waits for room in the full channel that
    only the other one empties, and after that nothing is sent to the server or
    written from it to the device any more, whatever happens outside and in the
    proxy.  In a reachable state neither task can take a step, not even for a
    keepalive, exactly when the transport task waits for the TUN task and that
    one waits for the transport task or for the direct proxy; in the second case
    it goes on as soon as the proxy takes a packet. *)
Theorem client_deadlock e packet :
  from_ip_packet packet = None →
  (∃ s, rtc (cstep e CHANNEL_CAPACITY) TaskState_init s ∧ deadlocked CHANNEL_CAPACITY s)
  ∧ (∀ s s', deadlocked CHANNEL_CAPACITY s → rtc (cstep e CHANNEL_CAPACITY) s s' →
       ts_up s' = ts_up s ∧ ts_down s' = ts_down s)
  ∧ (∀ s, rtc (cstep e CHANNEL_CAPACITY) TaskState_init s →
       (∀ s', ¬ task_step e CHANNEL_CAPACITY s s') ↔
       deadlocked CHANNEL_CAPACITY s ∨ proxy_blocked CHANNEL_CAPACITY s)
  ∧ (∀ s, proxy_blocked CHANNEL_CAPACITY s →
       ∃ s' s'', xstep CHANNEL_CAPACITY s s' ∧ istep e CHANNEL_CAPACITY s' s'').
Proof.
  intros Hp. assert (0 < CHANNEL_CAPACITY)%nat as Hcap by (unfold CHANNEL_CAPACITY; lia). split_and!.
  - by apply (deadlock_reachable e CHANNEL_CAPACITY packet []).
  - intros s s' Hd Hr. by eapply deadlocked_forever.
  - intros s Hi%tasks_inv_reachable. by apply no_step_blocked.
  - intros s Hb. by apply proxy_blocked_released.
Qed.
End properties.

(** ** The properties at concrete inputs *)

Import TextCidr ListDb PlainSlicer OneAnswer.

Definition sample_tasks : TaskState :=
  mkTasks DomainCache_new (mkChannel (Some [7]) [] [[7]] []) Channel_new Channel_new Channel_new.

Lemma client_drains_witness :
  (∀ n s', nsteps (rstep proxy_engine CHANNEL_CAPACITY) n sample_tasks s' →
     (n ≤ work sample_tasks)%nat)
  ∧ (∀ s', rtc (rstep proxy_engine CHANNEL_CAPACITY) sample_tasks s' →
       (∀ s'', ¬ rstep proxy_engine CHANNEL_CAPACITY s' s'') →
       quiescent s'
       ∧ ch_passed (ts_up s') = [[7]] ∧ ch_passed (ts_down s') = []
       ∧ ch_passed (ts_dout s') = [] ∧ ch_passed (ts_din s') = []).
Proof.
  apply (client_drains proxy_engine sample_tasks).
  - apply rtc_once. exact (step_read proxy_engine CHANNEL_CAPACITY DomainCache_new Channel_new Channel_new
      Channel_new Channel_new [7] eq_refl (conj eq_refl eq_refl)).
  - intros [_ [[? Hio] _]]. discriminate.
Defined.

Lemma client_deadlock_witness :
  (∃ s, rtc (cstep proxy_engine CHANNEL_CAPACITY) TaskState_init s
     ∧ deadlocked CHANNEL_CAPACITY s)
  ∧ (∀ s s', deadlocked CHANNEL_CAPACITY s → rtc (cstep proxy_engine CHANNEL_CAPACITY) s s' →
       ts_up s' = ts_up s ∧ ts_down s' = ts_down s)
  ∧ (∀ s, rtc (cstep proxy_engine CHANNEL_CAPACITY) TaskState_init s →
       (∀ s', ¬ task_step proxy_engine CHANNEL_CAPACITY s s') ↔
       deadlocked CHANNEL_CAPACITY s ∨ proxy_blocked CHANNEL_CAPACITY s)
  ∧ (∀ s, proxy_blocked CHANNEL_CAPACITY s →
       ∃ s' s'', xstep CHANNEL_CAPACITY s s' ∧ istep proxy_engine CHANNEL_CAPACITY s' s'').
Proof. apply (client_deadlock proxy_engine [7]). reflexivity. Defined.
