(* ===== verification/ServerTasks.v ===== *)
(** * ServerTasks: the session lock and the bounded client channels
    ([server.rs], [transport/tcp.rs], [transport/ws.rs])

    [SESSIONS] is behind one asynchronous lock.  [handle_tun_packet] keeps it
    while it waits for room in the channel of the client a packet belongs to; a
    connection task empties its channel only between two messages, and its
    handlers wait for the lock.  [tstep] is the system of the dispatcher, the
    connection tasks and the clean-up at that granularity: taking the lock,
    waiting for room, and what is done under the lock (the functions of
    [Server]) are separate steps. *)

From S2P Require Import Prelude RStr Net AppConfig Codec Server Conn Link Tunnel ClientTasks.

(** The dispatcher: waiting for a packet, for the lock with a packet, or with the
    lock for room in a channel. *)
Inductive DispPhase := DIdle | DLock (data : bytes) | DSend (tx : chan) (data : bytes).

(** A connection task: in [select!], waiting for the lock to look up the session
    offered in a handshake, sending the reply, waiting for the lock to register,
    to handle a disconnect message, or to remove its session at its end. *)
Inductive ConnPhase :=
| CIdle
| CLookup (config : ServerConfig) (fresh_id session_id : rstr) (token : option rstr)
| CReply (session_id : rstr) (virtual_ip : Ipv4Addr) (tun_config : TunConfig)
| CCommit (session_id : rstr) (virtual_ip : Ipv4Addr) (tun_config : TunConfig)
| CDisconnect
| CClosing.

(** Waiting for the lock. *)
Definition wants_lock (p : ConnPhase) : Prop :=
  match p with CIdle | CReply _ _ _ => False | _ => True end.

Record TConn := mkTConn { tc_peer : SocketAddr; tc_phase : ConnPhase; tc_queue : list bytes }.

(** The lock is held across a wait only by a dispatcher in [DSend]. *)
Record TState := mkTState {
  t_srv : ServerState;
  t_disp : DispPhase;
  t_conns : gmap Z TConn
}.
Definition TState_init : TState := mkTState ServerState_init DIdle ∅.

Definition lock_free (s : TState) : Prop :=
  match t_disp s with DSend _ _ => False | _ => True end.

Section tasks.
Context `{HashOrder} (cap : nat).

Definition set_phase (c : TConn) (p : ConnPhase) : TConn := mkTConn (tc_peer c) p (tc_queue c).
Definition set_conn (tx : chan) (c : TConn) (s : TState) : TState :=
  mkTState (t_srv s) (t_disp s) (<[tx := c]> (t_conns s)).

(** The dispatcher under the lock: where the packet goes. *)
Definition dispatch_packet (data : bytes) (st : ServerState) : DispPhase :=
  match handle_tun_packet data st with ChanSend tx d :: _ => DSend tx d | _ => DIdle end.

Inductive tstep : TState -> TState -> Prop :=
(* the dispatcher *)
| td_recv s data : t_disp s = DIdle → tstep s (mkTState (t_srv s) (DLock data) (t_conns s))
| td_lock s data :
    t_disp s = DLock data →
    tstep s (mkTState (t_srv s) (dispatch_packet data (t_srv s)) (t_conns s))
| td_sent s tx data c :
    t_disp s = DSend tx data → t_conns s !! tx = Some c → (length (tc_queue c) < cap)%nat →
    tstep s (mkTState (t_srv s) DIdle
               (<[tx := mkTConn (tc_peer c) (tc_phase c) (tc_queue c ++ [data])]> (t_conns s)))
| td_gone s tx data :
    t_disp s = DSend tx data → t_conns s !! tx = None →
    tstep s (mkTState (t_srv s) DIdle (t_conns s))
(* connection tasks *)
| tc_accept s tx peer :
    t_conns s !! tx = None →
    tstep s (set_conn tx (mkTConn peer CIdle []) s)
| tc_forward s tx peer d q :
    t_conns s !! tx = Some (mkTConn peer CIdle (d :: q)) →
    tstep s (set_conn tx (mkTConn peer CIdle q) s)
| tc_hello_new s tx c config fresh_id token st' session_id ip tun reply :
    t_conns s !! tx = Some c → tc_phase c = CIdle →
    hs_begin (Ok config) fresh_id (t_srv s) None token = (st', HsChosen session_id ip tun reply) →
    tstep s (mkTState st' (t_disp s) (<[tx := set_phase c (CReply session_id ip tun)]> (t_conns s)))
| tc_hello_known s tx c config fresh_id sid token :
    t_conns s !! tx = Some c → tc_phase c = CIdle →
    (∀ t, token = Some t → validate_token t (sc_token config) = true) →
    tstep s (set_conn tx (set_phase c (CLookup config fresh_id sid token)) s)
| tc_lookup s tx c config fresh_id sid token st' session_id ip tun reply :
    t_conns s !! tx = Some c → tc_phase c = CLookup config fresh_id sid token → lock_free s →
    hs_begin (Ok config) fresh_id (t_srv s) (Some sid) token
      = (st', HsChosen session_id ip tun reply) →
    tstep s (mkTState st' (t_disp s) (<[tx := set_phase c (CReply session_id ip tun)]> (t_conns s)))
| tc_replied s tx c session_id ip tun :
    t_conns s !! tx = Some c → tc_phase c = CReply session_id ip tun →
    tstep s (set_conn tx (set_phase c (CCommit session_id ip tun)) s)
| tc_reply_failed s tx c session_id ip tun :
    t_conns s !! tx = Some c → tc_phase c = CReply session_id ip tun →
    tstep s (set_conn tx (set_phase c CIdle) s)
| tc_commit s tx c session_id ip tun now :
    t_conns s !! tx = Some c → tc_phase c = CCommit session_id ip tun → lock_free s →
    tstep s (mkTState (hs_commit now (tc_peer c) tx session_id ip tun (t_srv s)) (t_disp s)
               (<[tx := set_phase c CIdle]> (t_conns s)))
| tc_bye s tx c :
    t_conns s !! tx = Some c → tc_phase c = CIdle →
    tstep s (set_conn tx (set_phase c CDisconnect) s)
| tc_disconnect s tx c :
    t_conns s !! tx = Some c → tc_phase c = CDisconnect → lock_free s →
    tstep s (mkTState (handle_disconnect (tc_peer c) (t_srv s)) (t_disp s)
               (<[tx := set_phase c CIdle]> (t_conns s)))
| tc_break s tx c :
    t_conns s !! tx = Some c → tc_phase c = CIdle →
    tstep s (set_conn tx (set_phase c CClosing) s)
| tc_close s tx c :
    t_conns s !! tx = Some c → tc_phase c = CClosing → lock_free s →
    tstep s (mkTState (handle_disconnect (tc_peer c) (t_srv s)) (t_disp s) (delete tx (t_conns s)))
(* the clean-up *)
| tc_cleanup s now :
    lock_free s →
    tstep s (mkTState (cleanup_expired_sessions now (t_srv s)) (t_disp s) (t_conns s)).

(** The dispatcher holds the lock and waits for room in the channel of a
    connection that waits for the lock. *)
Definition lock_cycle (tx : chan) (s : TState) : Prop :=
  ∃ data c, t_disp s = DSend tx data ∧ t_conns s !! tx = Some c ∧ wants_lock (tc_phase c)
    ∧ (cap ≤ length (tc_queue c))%nat.

(** * Lemmas *)

Lemma lock_cycle_conn tx tx' c s srv :
  lock_cycle tx s → tx' ≠ tx →
  lock_cycle tx (mkTState srv (t_disp s) (<[tx' := c]> (t_conns s))).
Proof.
  intros (data & c0 & Hd & Hc & Hw & Hl) Hne. exists data, c0. simpl.
  by rewrite lookup_insert_ne.
Qed.

(** A connection in the cycle takes no step of its own. *)
Lemma lock_cycle_other tx tx' c s :
  lock_cycle tx s → t_conns s !! tx' = Some c → ¬ wants_lock (tc_phase c) → tx' ≠ tx.
Proof. intros (data & c0 & _ & Hc & Hw & _) Hc' Hn ->. by simplify_eq. Qed.

Lemma lock_cycle_held tx s : lock_cycle tx s → lock_free s → False.
Proof. intros (data & c & Hd & _). unfold lock_free. by rewrite Hd. Qed.

(** Once closed, the cycle is never left, and the session table stays as it is,
    whatever the other tasks do. *)
Lemma lock_cycle_step tx s s' :
  tstep s s' → lock_cycle tx s → lock_cycle tx s' ∧ sessions (t_srv s') = sessions (t_srv s).
Proof.
  intros Hs Hl. pose proof Hl as (data & c & Hd & Hc & Hw & Hcap).
  pose proof (lock_cycle_held tx s Hl) as Hheld.
  assert (∀ tx' c', t_conns s !! tx' = Some c' → ¬ wants_lock (tc_phase c') → tx' ≠ tx) as Hne
    by (intros; by eapply lock_cycle_other).
  destruct Hs as [| |s tx0 d c0 Hd0 Hc0 Hlt| |s tx' peer Hn|s tx' peer d q Hc'
    |s tx' c' config fresh tok st' sid ip tun reply Hc' Hp Hb|s tx' c' cfg fr sid tok Hc' Hp _
    |s tx' c' cfg fr sid tok st' sid' ip tun reply Hc' Hp Hf _|s tx' c' sid ip tun Hc' Hp
    |s tx' c' sid ip tun Hc' Hp|s tx' c' sid ip tun now Hc' Hp Hf|s tx' c' Hc' Hp
    |s tx' c' Hc' Hp Hf|s tx' c' Hc' Hp|s tx' c' Hc' Hp Hf|s now Hf];
    try congruence; try (by destruct Hheld);
    try (split; [apply lock_cycle_conn; [done|]|done]).
  - exfalso. rewrite Hd in Hd0. injection Hd0 as <- <-. rewrite Hc in Hc0. injection Hc0 as <-. lia.
  - intros ->. congruence.
  - apply (Hne _ _ Hc'). auto.
  - split; [|exact (hs_begin_sessions _ _ _ _ _ _ _ Hb)]. apply lock_cycle_conn; [done|].
    apply (Hne _ _ Hc'). rewrite Hp. auto.
  - apply (Hne _ _ Hc'). rewrite Hp. auto.
  - apply (Hne _ _ Hc'). rewrite Hp. auto.
  - apply (Hne _ _ Hc'). rewrite Hp. auto.
  - apply (Hne _ _ Hc'). rewrite Hp. auto.
  - apply (Hne _ _ Hc'). rewrite Hp. auto.
Qed.

Lemma lock_cycle_forever tx s s' :
  rtc tstep s s' → lock_cycle tx s → lock_cycle tx s' ∧ sessions (t_srv s') = sessions (t_srv s).
Proof.
  induction 1 as [s|s1 s2 s3 Hs _ IH]; intros Hl; [done|].
  destruct (lock_cycle_step _ _ _ Hs Hl) as [Hl2 <-]. by apply IH.
Qed.

(** ** Reaching the cycle *)

Lemma fill_queue s tx peer data st n :
  s = mkTState st DIdle {[tx := mkTConn peer CIdle []]} →
  handle_tun_packet data st = [ChanSend tx data] → (n ≤ cap)%nat →
  rtc tstep s (mkTState st DIdle {[tx := mkTConn peer CIdle (repeat data n)]}).
Proof.
  intros -> Hd Hn. induction n as [|n IH]; [done|].
  etrans; [apply IH; lia|].
  eapply rtc_l; [by apply (td_recv _ data)|]. eapply rtc_l; [by apply (td_lock _ data)|].
  apply rtc_once. unfold dispatch_packet. cbn [t_srv t_conns]. rewrite Hd.
  replace {[tx := mkTConn peer CIdle (repeat data (S n))]}
    with (<[tx := mkTConn peer CIdle (repeat data n ++ [data])]>
           ({[tx := mkTConn peer CIdle (repeat data n)]} : gmap Z TConn))
    by (rewrite insert_singleton_eq; simpl; by rewrite <- repeat_cons).
  pose proof (td_sent (mkTState st (DSend tx data) {[tx := mkTConn peer CIdle (repeat data n)]})
    tx data (mkTConn peer CIdle (repeat data n))) as Hsent. simpl in Hsent.
  apply Hsent; [done|apply lookup_singleton_eq|]. rewrite repeat_length. lia.
Qed.

(** A client with a session whose channel is full says goodbye while the next
    packet for it is dispatched. *)
Lemma cycle_from_session tx peer data st :
  handle_tun_packet data st = [ChanSend tx data] →
  ∃ s, rtc tstep (mkTState st DIdle {[tx := mkTConn peer CIdle []]}) s ∧ lock_cycle tx s.
Proof.
  intros Hd. eexists. split.
  - etrans; [by eapply (fill_queue _ tx peer data st cap)|].
    eapply rtc_l; [by apply (td_recv _ data)|]. eapply rtc_l; [by apply (td_lock _ data)|].
    apply rtc_once. eapply (tc_bye _ tx); [apply lookup_singleton_eq|done].
  - unfold dispatch_packet. simpl. rewrite Hd. eexists data, _. split; [done|].
    split; [apply lookup_insert_eq|]. simpl. by rewrite repeat_length.
Qed.
End tasks.

(** A first client has joined and nothing is in its channel. *)
Definition joined_state : TState :=
  mkTState sample_state DIdle {[0 := mkTConn sample_addr CIdle []]}.

Lemma joined_reachable `{HashOrder} cap : rtc (tstep cap) TState_init joined_state.
Proof.
  eapply rtc_l; [by apply (tc_accept cap TState_init 0 sample_addr)|].
  eapply rtc_l; [by eapply (tc_hello_new cap _ 0 (mkTConn sample_addr CIdle []) ServerConfig_default [0] None)|].
  eapply rtc_l; [by eapply (tc_replied cap _ 0)|].
  apply rtc_once.
  exact (tc_commit cap
    (mkTState (mkServer ∅ 3) DIdle {[0 := mkTConn sample_addr
       (CCommit [0] (Ipv4Addr_new 10 0 0 2) (cl_tun_config sample_client)) []]})
    0 _ [0] (Ipv4Addr_new 10 0 0 2) (cl_tun_config sample_client) 0 eq_refl eq_refl I).
Qed.

Lemma joined_dispatch `{HashOrder} : handle_tun_packet down_packet sample_state = [ChanSend 0 down_packet].
Proof.
  assert (find_client (Ipv4Addr_new 10 0 0 2) sample_state = Some sample_client) as Hf.
  { apply (find_client_unique _ _ [0]); [|done|done].
    intros s1 s2 c1 c2. unfold sample_state. cbn [sessions].
    intros [<- _]%lookup_singleton_Some [<- _]%lookup_singleton_Some. done. }
  unfold handle_tun_packet. simpl. by rewrite Hf.
Qed.

(** * Properties *)

(** C6: The session lock can be lost for good: a state is reachable in which the
    dispatcher holds the lock and waits for room in the full channel of a
    connection that itself waits for the lock, and from such a state no sequence
    of steps of any tasks leads out: the dispatcher, that connection and every
    handler that needs the lock are blocked, and the session table never changes
    again. *)
Theorem server_lock_deadlock `{HashOrder} :
  (∃ tx s, rtc (tstep CHANNEL_CAPACITY) TState_init s ∧ lock_cycle CHANNEL_CAPACITY tx s)
  ∧ (∀ tx s s', lock_cycle CHANNEL_CAPACITY tx s → rtc (tstep CHANNEL_CAPACITY) s s' →
       lock_cycle CHANNEL_CAPACITY tx s' ∧ sessions (t_srv s') = sessions (t_srv s)).
Proof.
  split; [|intros; by eapply lock_cycle_forever].
  destruct (cycle_from_session CHANNEL_CAPACITY 0 sample_addr down_packet sample_state joined_dispatch)
    as (s & Hr & Hc).
  exists 0, s. split; [|done]. etrans; [apply joined_reachable|exact Hr].
Qed.
