(* ===== verification/Endpoint.v ===== *)
(** * Endpoint: opening transports ([transport/tcp.rs], [udp.rs], [ws.rs])

    Creating the TLS acceptor from the certificate files, parsing the server URL,
    connecting and accepting.  Sockets and handshakes are answers of the
    environment; TLS objects ([native_tls]) and URL parsing ([url]) are the
    classes [TlsLib] and [UrlLib]. *)

From S2P Require Import Prelude RStr Net Config AppConfig Codec Server Conn Client.

#[global] Instance TransportKind_eq_dec : EqDecision TransportKind.
Proof. solve_decision. Defined.

(** ** Libraries *)

Class TlsLib := {
  Identity : Type;
  TlsAcceptor : Type;
  Certificate : Type;
  identity_from_pkcs8 : rstr -> rstr -> result rstr Identity;
  acceptor_new : Identity -> result rstr TlsAcceptor;
  certificate_from_pem : rstr -> result rstr Certificate
}.

(** What the sources read of a [url::Url]. *)
Record Url := mkUrl { url_scheme : rstr; url_host_str : option rstr; url_port_or_default : option Z }.

(** The law is the URL standard on the URLs the client builds for IPv4 servers. *)
Class UrlLib := {
  url_parse : rstr -> result rstr Url;
  url_parse_v4 scheme a port :
    scheme ∈ [lit "ws"; lit "wss"] → ipv4_wf a → 0 ≤ port ≤ u16_max →
    url_parse (scheme ++ lit "://" ++ socket_to_string (SocketAddr_new (V4 a) port))
    = Ok (mkUrl scheme (Some (ipv4_to_string a)) (Some port))
}.

(** ** TLS on the server *)

Section tls.
Context `{TlsLib}.

Definition resolve_path (fs : Fs) (path dflt : rstr) : rstr :=
  if path_exists fs path then path else dflt.

Definition DEFAULT_CERT : rstr := lit "certs/server-cert.pem".
Definition DEFAULT_KEY : rstr := lit "certs/server-key.pem".

Definition invalid_data (text : string) (e : rstr) : io_error := mkIoError InvalidData (lit text ++ e).

Definition create_tls_acceptor (fs : Fs) (cert_path key_path : rstr) : result io_error TlsAcceptor :=
  let cert_path := resolve_path fs cert_path DEFAULT_CERT in
  let key_path := resolve_path fs key_path DEFAULT_KEY in
  if negb (path_exists fs cert_path) || negb (path_exists fs key_path) then
    Err (mkIoError NotFound
      (lit "Certificate or key file not found. Looking for " ++ cert_path ++ lit " and " ++ key_path))
  else
    cert_bytes ← map_err (invalid_data "Failed to read certificate: ") (read_to_string fs cert_path);
    key_bytes ← map_err (invalid_data "Failed to read key: ") (read_to_string fs key_path);
    identity ← map_err (invalid_data "Failed to create identity: ")
                 (identity_from_pkcs8 cert_bytes key_bytes);
    map_err (invalid_data "Failed to create TLS acceptor: ") (acceptor_new identity).

(** ** TLS on the client *)

Record TlsConnector := mkConnector {
  root_certificates : list Certificate;
  accept_invalid_certs : bool;
  accept_invalid_hostnames : bool
}.

(** The stream below the WebSocket: plain, or TLS with the connector it used. *)
Inductive MaybeTlsStream := Plain | NativeTls (c : TlsConnector).
Record WsTransport := mkWs { ws_stream : MaybeTlsStream; ws_peer_addr : SocketAddr }.

(** What the environment answers: the TCP connection, building the connector,
    the TLS handshake, the WebSocket handshake. *)
Record WsEnv := mkWsEnv {
  we_connect : rstr -> Z -> result rstr unit;
  we_build : TlsConnector -> result rstr unit;
  we_tls : TlsConnector -> rstr -> result rstr unit;
  we_ws : rstr -> MaybeTlsStream -> result rstr unit
}.

Definition io (k : ErrorKind) (text : string) (e : rstr) : io_error := mkIoError k (lit text ++ e).

Definition ca_certificates (fs : Fs) (ca_cert_path : rstr) : result io_error (list Certificate) :=
  if path_exists fs ca_cert_path then
    cert_pem ← map_err (io InvalidData "Failed to read CA certificate: ") (read_to_string fs ca_cert_path);
    certificate ← map_err (io InvalidData "Failed to parse CA certificate: ") (certificate_from_pem cert_pem);
    Ok [certificate]
  else Ok [].

Definition wrap_with_tls (env : WsEnv) (fs : Fs) (host ca_cert_path : rstr)
    : result io_error MaybeTlsStream :=
  roots ← ca_certificates fs ca_cert_path;
  let builder := mkConnector roots true true in
  _ ← map_err (io OtherKind "Failed to build TLS connector: ") (we_build env builder);
  _ ← map_err (io ConnectionRefused "TLS handshake failed: ") (we_tls env builder host);
  Ok (NativeTls builder).

Section url.
Context `{UrlLib}.

Definition parse_url (url : rstr) : result io_error (rstr * Z * bool) :=
  parsed_url ← map_err (io InvalidInput "Failed to parse URL: ") (url_parse url);
  host ← ok_or (url_host_str parsed_url) (mkIoError InvalidInput (lit "Missing host in URL"));
  port ← ok_or (url_port_or_default parsed_url) (mkIoError InvalidInput (lit "Missing port in URL"));
  Ok (host, port, bool_decide (url_scheme parsed_url = lit "wss")).

(** [WsTransport::connect]; the text of a failed TCP connection names the host and
    the error, not the port. *)
Definition ws_connect (env : WsEnv) (fs : Fs) (url ca_cert_path : rstr) : result io_error WsTransport :=
  '(host, port, use_tls) ← parse_url url;
  _ ← map_err (λ e, io ConnectionRefused "Failed to connect to " (host ++ lit ":" ++ e))
        (we_connect env host port);
  stream ← (if use_tls : bool then wrap_with_tls env fs host ca_cert_path else Ok Plain);
  _ ← map_err (io ConnectionRefused "WebSocket handshake failed: ") (we_ws env url stream);
  let server_addr :=
    default (SocketAddr_new (V4 (Ipv4Addr_new 127 0 0 1)) 80)
      (parse_socket (host ++ lit ":" ++ show_uint port)) in
  Ok (mkWs stream server_addr).
End url.

(** [WsTransport::accept]: [Some] TLS result when there is an acceptor. *)
Definition ws_accept (conn : result io_error SocketAddr) (tls_acceptor : option TlsAcceptor)
    (tls ws : result rstr unit) : result io_error (SocketAddr * bool) :=
  addr ← conn;
  _ ← (match tls_acceptor with
       | Some _ => map_err (mkIoError ConnectionRefused) tls
       | None => Ok tt
       end);
  _ ← map_err (mkIoError ConnectionRefused) ws;
  Ok (addr, is_some tls_acceptor).
End tls.

(** ** TCP and UDP *)

Definition BUFFER_SIZE : Z := 8 * 1024 * 1024.

(** A connected stream: its peer address and the outcomes of the socket calls. *)
Record Stream := mkStream {
  st_peer_addr : result io_error SocketAddr;
  st_into_std : result io_error unit;
  st_set_send : Z -> result io_error unit;
  st_set_recv : Z -> result io_error unit;
  st_from_std : result io_error unit
}.
Record TcpTransport := mkTcp { tcp_framed : ByteCodec; tcp_peer_addr : SocketAddr }.

Definition TcpTransport_new (stream : Stream) : result io_error TcpTransport :=
  peer_addr ← st_peer_addr stream;
  _ ← st_into_std stream;
  _ ← st_set_send stream BUFFER_SIZE;
  _ ← st_set_recv stream BUFFER_SIZE;
  _ ← st_from_std stream;
  Ok (mkTcp ByteCodec_new peer_addr).
Definition TcpTransport_connect (connect : rstr -> result io_error Stream) (addr : rstr)
    : result io_error TcpTransport :=
  stream ← connect addr; TcpTransport_new stream.
Definition TcpTransport_accept (accept : result io_error Stream) : result io_error TcpTransport :=
  stream ← accept; TcpTransport_new stream.

(** A result, or a panic with its text. *)
Inductive outcome_of (A : Type) := Returns (a : A) | Panics (text : rstr).
Arguments Returns {A} a.
Arguments Panics {A} text.

(** [UdpTransport::new] ignores the outcome of setting the buffer sizes. *)
Definition UdpTransport_new (socket : Stream) : outcome_of ByteCodec :=
  match st_into_std socket with
  | Err e => Panics (lit "Failed to convert to std socket: " ++ err_text e)
  | Ok _ =>
      match st_from_std socket with
      | Err e => Panics (lit "Failed to convert back to UdpSocket: " ++ err_text e)
      | Ok _ => Returns ByteCodec_new
      end
  end.
Definition UdpTransport_bind (bind : rstr -> result io_error Stream) (addr : rstr)
    : outcome_of (result io_error ByteCodec) :=
  match bind addr with
  | Err e => Returns (Err e)
  | Ok s => match UdpTransport_new s with Returns c => Returns (Ok c) | Panics t => Panics t end
  end.

(** ** A concrete URL parser and TLS library *)

Module PlainUrl.
Definition strip_prefix (p s : rstr) : option rstr :=
  if starts_with p s then Some (drop (length p) s) else None.
Definition parse_after (scheme rest : rstr) : result rstr Url :=
  match parse_socket rest with
  | Some a => Ok (mkUrl scheme (Some (ip_to_string (sa_ip a))) (Some (sa_port a)))
  | None => Err (lit "invalid port number")
  end.
Definition plain_parse (s : rstr) : result rstr Url :=
  match strip_prefix (lit "wss://") s, strip_prefix (lit "ws://") s with
  | Some rest, _ => parse_after (lit "wss") rest
  | None, Some rest => parse_after (lit "ws") rest
  | None, None => Err (lit "relative URL without a base")
  end.
Lemma plain_parse_v4 scheme a port :
  scheme ∈ [lit "ws"; lit "wss"] → ipv4_wf a → 0 ≤ port ≤ u16_max →
  plain_parse (scheme ++ lit "://" ++ socket_to_string (SocketAddr_new (V4 a) port))
  = Ok (mkUrl scheme (Some (ipv4_to_string a)) (Some port)).
Proof.
  intros Hs Ha Hp. pose proof (parse_socket_v4_to_string a port Ha Hp) as Hsock.
  generalize dependent (socket_to_string (SocketAddr_new (V4 a) port)). intros t Ht.
  repeat (apply elem_of_cons in Hs as [->|Hs]); [| |by apply elem_of_nil in Hs].
  - transitivity (parse_after (lit "ws") t); [reflexivity|]. unfold parse_after. by rewrite Ht.
  - transitivity (parse_after (lit "wss") t); [reflexivity|]. unfold parse_after. by rewrite Ht.
Qed.
#[export] Instance plain_url : UrlLib := {| url_parse := plain_parse; url_parse_v4 := plain_parse_v4 |}.
End PlainUrl.

Module PlainTls.
#[export] Instance plain_tls : TlsLib := {|
  Identity := rstr * rstr; TlsAcceptor := rstr * rstr; Certificate := rstr;
  identity_from_pkcs8 c k := if is_empty c then Err (lit "empty certificate") else Ok (c, k);
  acceptor_new i := Ok i;
  certificate_from_pem p := Ok p
|}.
End PlainTls.

(** * Lemmas *)

Lemma map_err_ok {E F A} (f : E -> F) (r : result E A) a : map_err f r = Ok a ↔ r = Ok a.
Proof. destruct r; simpl; naive_solver. Qed.
Lemma map_err_err {E F A} (f : E -> F) (r : result E A) e :
  map_err f r = Err e ↔ ∃ e', r = Err e' ∧ e = f e'.
Proof. destruct r; simpl; naive_solver. Qed.

Lemma result_bind_err {E A B} (r : result E A) (k : A -> result E B) e :
  r ≫= k = Err e ↔ r = Err e ∨ ∃ a, r = Ok a ∧ k a = Err e.
Proof. destruct r; simpl; naive_solver. Qed.

Lemma read_to_string_ok fs p c :
  read_to_string fs p = Ok c ↔ fs_files fs !! p = Some c ∧ fs_readable fs p = true.
Proof.
  unfold read_to_string. destruct (fs_files fs !! p); [|naive_solver].
  destruct (fs_readable fs p); naive_solver.
Qed.

Lemma resolve_path_match fs path dflt :
  resolve_path fs path dflt = match fs_files fs !! path with Some _ => path | None => dflt end.
Proof. unfold resolve_path, path_exists. by destruct (fs_files fs !! path). Qed.

Section lemmas.
Context `{TlsLib, UrlLib}.

Lemma wrap_with_tls_ok env fs host ca s :
  wrap_with_tls env fs host ca = Ok s ↔
  ∃ roots, ca_certificates fs ca = Ok roots
    ∧ we_build env (mkConnector roots true true) = Ok tt
    ∧ we_tls env (mkConnector roots true true) host = Ok tt
    ∧ s = NativeTls (mkConnector roots true true).
Proof.
  unfold wrap_with_tls. rewrite result_bind_ok. split.
  - intros (roots & Hr & Hk). rewrite unit_ok_bind in Hk. rewrite map_err_ok, unit_ok_bind, map_err_ok in Hk.
    destruct Hk as (? & ? & [= <-]). eauto.
  - intros (roots & Hr & Hb & Ht & ->). exists roots. split; [done|]. by rewrite Hb, Ht.
Qed.

(** The scheme of a WebSocket transport. *)
Definition ws_scheme (k : TransportKind) : rstr :=
  match k with TkWss => lit "wss" | _ => lit "ws" end.

Lemma parse_url_target k a port :
  k ∈ [TkWs; TkWss] → ipv4_wf a → 0 ≤ port ≤ u16_max →
  parse_url (transport_target k (SocketAddr_new (V4 a) port))
  = Ok (ipv4_to_string a, port, bool_decide (k = TkWss)).
Proof.
  intros Hk Ha Hp.
  assert (transport_target k (SocketAddr_new (V4 a) port)
    = ws_scheme k ++ lit "://" ++ socket_to_string (SocketAddr_new (V4 a) port)) as ->
    by (repeat (apply elem_of_cons in Hk as [->|Hk]); (done || by apply elem_of_nil in Hk)).
  unfold parse_url. rewrite url_parse_v4; [|destruct k; simpl; set_solver|done|done].
  simpl. repeat (apply elem_of_cons in Hk as [->|Hk]); (done || by apply elem_of_nil in Hk).
Qed.
End lemmas.

(** * Properties *)

Section properties.
Context `{TlsLib, UrlLib}.

(** C24: A WebSocket client for an IPv4 server connects to exactly the configured
    address and port, uses TLS exactly for the transport type "wss", and reports
    the configured address as its peer; it succeeds exactly when the TCP
    connection, the TLS set-up (if any) and the WebSocket handshake do.  With TLS
    the connector accepts any certificate for any host name, whatever CA file is
    configured. *)
Theorem ws_connect_outcome env fs k a port ca t :
  k ∈ [TkWs; TkWss] → ipv4_wf a → 0 ≤ port ≤ u16_max →
  let url := transport_target k (SocketAddr_new (V4 a) port) in
  ws_connect env fs url ca = Ok t ↔
  we_connect env (ipv4_to_string a) port = Ok tt
  ∧ ws_peer_addr t = SocketAddr_new (V4 a) port
  ∧ we_ws env url (ws_stream t) = Ok tt
  ∧ match k with
    | TkWss => ∃ roots, ca_certificates fs ca = Ok roots
        ∧ we_build env (mkConnector roots true true) = Ok tt
        ∧ we_tls env (mkConnector roots true true) (ipv4_to_string a) = Ok tt
        ∧ ws_stream t = NativeTls (mkConnector roots true true)
    | _ => ws_stream t = Plain
    end.
Proof.
  intros Hk Ha Hp url. unfold ws_connect. unfold url. rewrite parse_url_target by done.
  cbn [mbind result_bind].
  assert (parse_socket (ipv4_to_string a ++ lit ":" ++ show_uint port)
    = Some (SocketAddr_new (V4 a) port)) as -> by exact (parse_socket_v4_to_string a port Ha Hp).
  rewrite unit_ok_bind, map_err_ok, result_bind_ok. destruct t as [s p]. cbn [default ws_stream ws_peer_addr].
  assert (∀ P, (∃ x, P x ∧ map_err (io ConnectionRefused "WebSocket handshake failed: ")
      (we_ws env (transport_target k (SocketAddr_new (V4 a) port)) x)
      ≫= (λ _, Ok (mkWs x (SocketAddr_new (V4 a) port))) = Ok (mkWs s p)) ↔
    P s ∧ p = SocketAddr_new (V4 a) port
    ∧ we_ws env (transport_target k (SocketAddr_new (V4 a) port)) s = Ok tt) as Hws.
  { intros P. setoid_rewrite unit_ok_bind. setoid_rewrite map_err_ok. naive_solver. }
  rewrite Hws. repeat (apply elem_of_cons in Hk as [->|Hk]); [| |by apply elem_of_nil in Hk].
  - rewrite bool_decide_eq_false_2 by done. naive_solver.
  - rewrite bool_decide_eq_true_2, wrap_with_tls_ok by done. naive_solver.
Qed.

(** C25: The TLS acceptor is built from the configured certificate and key, each
    replaced by the default file under "certs" when it does not exist; it is
    created exactly when both files can be read, they form an identity and the
    acceptor accepts that identity; and the error is "not found" exactly when one
    of the files is missing. *)
Theorem tls_acceptor_outcome fs cert_path key_path :
  let c := match fs_files fs !! cert_path with
           | Some _ => cert_path
           | None => lit "certs/server-cert.pem"
           end in
  let k := match fs_files fs !! key_path with
           | Some _ => key_path
           | None => lit "certs/server-key.pem"
           end in
  (∀ acc, create_tls_acceptor fs cert_path key_path = Ok acc ↔
     ∃ cert key id, fs_files fs !! c = Some cert ∧ fs_files fs !! k = Some key
       ∧ fs_readable fs c = true ∧ fs_readable fs k = true
       ∧ identity_from_pkcs8 cert key = Ok id ∧ acceptor_new id = Ok acc)
  ∧ (∀ e, create_tls_acceptor fs cert_path key_path = Err e →
       err_kind e = NotFound ↔ fs_files fs !! c = None ∨ fs_files fs !! k = None).
Proof.
  intros c k. unfold create_tls_acceptor.
  assert (resolve_path fs cert_path DEFAULT_CERT = c) as -> by apply resolve_path_match.
  assert (resolve_path fs key_path DEFAULT_KEY = k) as -> by apply resolve_path_match.
  unfold path_exists.
  destruct (fs_files fs !! c) as [cert|] eqn:Ec, (fs_files fs !! k) as [key|] eqn:Ek; simpl;
    [split|split; [naive_solver|intros e [= <-]; naive_solver]..].
  - intros acc. rewrite result_bind_ok. setoid_rewrite result_bind_ok. setoid_rewrite result_bind_ok.
    setoid_rewrite map_err_ok. setoid_rewrite read_to_string_ok. rewrite Ec, Ek. naive_solver.
  - intros e He. split; [|naive_solver]. intros Hk.
    repeat (rewrite result_bind_err in He; destruct He as [He|(? & _ & He)];
      [apply map_err_err in He as (? & _ & ->); done|]).
    apply map_err_err in He as (? & _ & ->). done.
Qed.
End properties.

(** ** The properties at concrete inputs *)

Import PlainUrl PlainTls.

(** A file system with a CA file, an environment that connects only to
    127.0.0.1:443. *)
Definition sample_ca_fs : Fs :=
  mkFs {[lit "ca.pem" := lit "CA"]} (λ _, true) (λ _, true) (λ _, true).
Definition sample_ws_env : WsEnv :=
  mkWsEnv (λ h p, if bool_decide (h = lit "127.0.0.1" ∧ p = 443) then Ok tt else Err (lit "refused"))
    (λ _, Ok tt) (λ _ _, Ok tt) (λ _ _, Ok tt).

Lemma ws_connect_outcome_witness :
  ws_connect sample_ws_env sample_ca_fs
    (transport_target TkWss (SocketAddr_new (V4 (Ipv4Addr_new 127 0 0 1)) 443)) (lit "ca.pem")
  = Ok (mkWs (NativeTls (mkConnector [lit "CA"] true true))
          (SocketAddr_new (V4 (Ipv4Addr_new 127 0 0 1)) 443)).
Proof.
  apply (ws_connect_outcome sample_ws_env sample_ca_fs TkWss (Ipv4Addr_new 127 0 0 1) 443 (lit "ca.pem"));
    [set_solver|repeat split; simpl; lia|unfold u16_max; lia|].
  split; [reflexivity|]. split; [reflexivity|]. split; [reflexivity|].
  exists [lit "CA"]. done.
Defined.

Example default_certificate_used :
  create_tls_acceptor (mkFs {[DEFAULT_CERT := lit "c"; DEFAULT_KEY := lit "k"]}
    (λ _, true) (λ _, true) (λ _, true)) (lit "missing.pem") (lit "missing.key")
  = Ok (lit "c", lit "k").
Proof. vm_compute. reflexivity. Qed.
