(* ===== verification/Run.v ===== *)
(** * Run: starting and supervising the tasks ([transport/mod.rs],
    [transport/tcp.rs], [udp.rs], [ws.rs], [client.rs], [server.rs], [main.rs])

    The [run_*] functions start the tasks modelled in the other files, wait for
    the first of them to end and return.  Which task ends first and how is an
    argument; [client_end_possible] ties it to what the tasks can return. *)

From S2P Require Import Prelude RStr Net Rule Config AppConfig GeoIp Context Engine DomainCache Route.
From S2P Require Import Codec Server Conn Client Endpoint.

(** What a [JoinHandle] gives: the value of the task, or its panic. *)
Inductive joined (A : Type) := Finished (a : A) | Panicked (text : rstr).
Arguments Finished {A} a.
Arguments Panicked {A} text.

Section run.
Context `{UnicodeLower, CidrLib, GeoDb, PacketSlicer, DnsLib, Yaml, TlsLib}.

Definition load_rules (rules_config : RulesConfig) : result rstr RulesEngine :=
  map_err (λ e, lit "Failed to load rules: " ++ ConfigError_to_string e)
    (RulesEngine_from_config rules_config).

(** ** The client *)

(** The [select!] of [run_connected_client]: the task that ends first. *)
Inductive ClientEnd :=
| DirectEnds
| TunEnds (r : joined (result rstr unit))
| IoEnds (r : joined (result rstr unit)).

Definition task_result (name : string) (r : joined (result rstr unit)) : result rstr unit :=
  match r with
  | Finished (Ok _) => Ok tt
  | Finished (Err e) => Err (lit name ++ lit " task failed: " ++ e)
  | Panicked e => Err (lit name ++ lit " task panicked: " ++ e)
  end.

Definition run_connected_client (rules_config : RulesConfig) (first : ClientEnd) : result rstr unit :=
  _ ← load_rules rules_config;
  match first with
  | DirectEnds => Ok tt
  | TunEnds r => task_result "TUN" r
  | IoEnds r => task_result "Transport" r
  end.
Definition run_tcp_client := run_connected_client.
Definition run_udp_client := run_connected_client.
Definition run_ws_client := run_connected_client.

(** An attempt whose connection, once established, ends with [first]. *)
Definition attempt_env (p : ClientEnv * ClientEnd) : ClientEnv :=
  mkClientEnv (ce_connect p.1) (ce_send p.1) (ce_wait p.1) (ce_create p.1)
    (λ _ rules_config, run_connected_client rules_config p.2).

Definition run_client (attempts : list (ClientEnv * ClientEnd)) (fs : Fs)
    : list Z * option (result rstr unit) * Fs :=
  match AppConfig_load fs with
  | Err e => ([], Some (Err e), fs)
  | Ok (config, fs') => run_client_with_retry (map attempt_env attempts) fs' config
  end.

(** The ends the tasks' code allows: the TUN task and the transport task return
    only what their loops return. *)
Definition client_end_possible (e : RulesEngine) (first : ClientEnd) : Prop :=
  match first with
  | TunEnds (Finished r) =>
      ∃ evs cache acts err, tun_io_task e evs = (cache, (acts, Err err)) ∧ r = Err err
  | IoEnds (Finished r) =>
      ∃ evs acts err, client_transport_io_task evs = (acts, Err err) ∧ r = Err err
  | _ => True
  end.

(** ** The server *)

Inductive ServerEnd :=
| SDirectEnds
| STunEnds (r : joined (result rstr unit))
| STransportEnds (r : joined unit).

(** Every branch of the servers' [select!] is empty. *)
Definition serve_until (first : ServerEnd) : result rstr unit :=
  match first with SDirectEnds => Ok tt | STunEnds _ => Ok tt | STransportEnds _ => Ok tt end.

(** What the server's tasks were started to serve: for WebSocket, with the TLS
    acceptor its connections go through, if any. *)
Inductive Serving :=
| ServeTcp
| ServeUdp
| ServeWs (tls_acceptor : option TlsAcceptor).

(** A server run: what was started, if it got that far, and how the function
    returned. *)
Definition server_run : Type := option Serving * outcome_of (result rstr unit).

Definition run_tcp_server (rules_config : RulesConfig) (first : ServerEnd) : server_run :=
  match load_rules rules_config with
  | Err e => (None, Returns (Err e))
  | Ok _ => (Some ServeTcp, Returns (serve_until first))
  end.

Definition run_udp_server (bind : rstr -> result io_error Stream) (config : ServerConfig)
    (rules_config : RulesConfig) (first : ServerEnd) : server_run :=
  match UdpTransport_bind bind (socket_to_string (sc_bind_addr config)) with
  | Panics t => (None, Panics t)
  | Returns (Err e) => (None, Returns (Err (err_text e)))
  | Returns (Ok _) =>
      match load_rules rules_config with
      | Err e => (None, Returns (Err e))
      | Ok _ => (Some ServeUdp, Returns (serve_until first))
      end
  end.

(** [create_tls_acceptor(..).unwrap()] *)
Definition run_ws_server (fs : Fs) (config : ServerConfig) (rules_config : RulesConfig)
    (first : ServerEnd) : server_run :=
  match load_rules rules_config with
  | Err e => (None, Returns (Err e))
  | Ok _ =>
      if server_tls (sc_transport_type config) then
        match create_tls_acceptor fs (sc_cert_path config) (sc_key_path config) with
        | Err e => (None, Panics (err_text e))
        | Ok acceptor => (Some (ServeWs (Some acceptor)), Returns (serve_until first))
        end
      else (Some (ServeWs None), Returns (serve_until first))
  end.

(** The accept loops: the connections served; an accept that fails is skipped. *)
Fixpoint accept_loop {A} (accepts : list (result io_error A)) : list A :=
  match accepts with
  | [] => []
  | Ok t :: rest => t :: accept_loop rest
  | Err _ :: rest => accept_loop rest
  end.

(** [transport_io_task] of TCP and WebSocket: the connections spawned, and how it
    ends; without a bind error it does not. *)
Definition accept_task {A} (bind : result io_error unit) (accepts : list (result io_error A))
    : list A * option (joined unit) :=
  match bind with
  | Err e => ([], Some (Panicked (lit "Failed to bind to address: " ++ err_text e)))
  | Ok _ => (accept_loop accepts, None)
  end.
Definition tcp_transport_io_task (bind : result io_error unit) (accepts : list (result io_error Stream))
    : list TcpTransport * option (joined unit) :=
  accept_task bind (map TcpTransport_accept accepts).
Definition ws_transport_io_task (bind : result io_error unit)
    (accepts : list (result io_error (SocketAddr * bool)))
    : list (SocketAddr * bool) * option (joined unit) :=
  accept_task bind accepts.

Record ServerEnv := mkServerEnv {
  se_create : TunParams -> result rstr unit;
  se_udp_bind : rstr -> result io_error Stream;
  se_first : ServerEnd
}.

(** The arguments of the server's [create_tun_device]. *)
Definition server_tun_params (config : ServerConfig) : TunParams :=
  mkTunParams (sc_tun_name config) (sc_tun_addr config) (sc_tun_netmask config)
    (sc_tun_destination config) (sc_tun_dns_servers config) (sc_tun_mtu config) as_u16.

Definition run_server_from_config (env : ServerEnv) (fs : Fs) (app : AppConfig) : server_run :=
  let config := app_server app in
  match se_create env (server_tun_params config) with
  | Err e => (None, Returns (Err e))
  | Ok _ =>
      match select_transport (sc_transport_type config) with
      | Err e => (None, Returns (Err e))
      | Ok TkTcp => run_tcp_server (app_rules app) (se_first env)
      | Ok TkUdp => run_udp_server (se_udp_bind env) config (app_rules app) (se_first env)
      | Ok TkWs | Ok TkWss => run_ws_server fs config (app_rules app) (se_first env)
      end
  end.

Definition run_server (env : ServerEnv) (fs : Fs) : server_run :=
  match AppConfig_load fs with
  | Err e => (None, Returns (Err e))
  | Ok (config, fs') => run_server_from_config env fs' config
  end.

(** ** [main]: [None] while the client is still retrying. *)
Definition main (senv : ServerEnv) (attempts : list (ClientEnv * ClientEnd)) (fs : Fs)
    : option (outcome_of (result rstr unit)) :=
  match AppConfig_load fs with
  | Err e => Some (Returns (Err e))
  | Ok (app_config, fs') =>
      match select_mode (rt_mode (app_runtime app_config)) with
      | Err e => Some (Returns (Err e))
      | Ok ModeServer => Some (run_server senv fs').2
      | Ok ModeClient => Returns <$> (run_client attempts fs').1.2
      end
  end.

(** * Lemmas *)

Lemma load_rules_ok c e : load_rules c = Ok e ↔ RulesEngine_from_config c = Ok e.
Proof. apply map_err_ok. Qed.

Lemma run_connected_client_ok rules_config first :
  (∀ e, RulesEngine_from_config rules_config = Ok e → client_end_possible e first) →
  run_connected_client rules_config first = Ok tt ↔
  is_ok (RulesEngine_from_config rules_config) = true ∧ first = DirectEnds.
Proof.
  intros Hp. unfold run_connected_client. rewrite result_bind_ok. setoid_rewrite load_rules_ok.
  destruct (RulesEngine_from_config rules_config) as [e|err]; [|naive_solver].
  specialize (Hp e eq_refl). destruct first as [|[r|t]|[r|t]]; simpl in *; naive_solver.
Qed.

(** An attempt succeeds only through its run. *)
Lemma attempt_ok p fs app fs' :
  run_client_from_config (attempt_env p) fs app = (Ok tt, fs') →
  run_connected_client (app_rules app) p.2 = Ok tt.
Proof.
  unfold run_client_from_config. destruct (select_transport _) as [k|]; [|done].
  destruct (ce_connect _ _ _) as [|]; [|done].
  destruct (handshake_async _ _ _ _) as [[[tun|e] cfg] fs1]; [|done].
  intros [= Hr <-]. apply result_bind_ok in Hr as (params & _ & (u & _ & Hr)%result_bind_ok). done.
Qed.

Lemma retry_loop_stops d attempts fs app delays r fs' :
  retry_loop d (map attempt_env attempts) fs app = (delays, r, fs') →
  (r = None ∧ length delays = length attempts)
  ∨ (r = Some (Ok tt)
     ∧ ∃ p, attempts !! length delays = Some p ∧ run_connected_client (app_rules app) p.2 = Ok tt).
Proof.
  revert d fs delays. induction attempts as [|p attempts IH]; intros d fs delays; simpl.
  { intros [= <- <- <-]. by left. }
  destruct (run_client_from_config (attempt_env p) fs app) as [[[]|e] fs1] eqn:Ea.
  - intros [= <- <- <-]. right. split; [done|]. exists p. split; [done|]. by eapply attempt_ok.
  - destruct (retry_loop _ _ fs1 app) as [[ds r'] fs2] eqn:El. intros [= <- <- <-].
    apply IH in El as [[-> Hl]|[-> Hp]]; [left|right]; simpl; [split; [done|lia]|done].
Qed.

Lemma accept_loop_app {A} (l1 l2 : list (result io_error A)) :
  accept_loop (l1 ++ l2) = accept_loop l1 ++ accept_loop l2.
Proof. induction l1 as [|[]]; simpl; by f_equal. Qed.

(** A failed accept does not stop the server. *)
Lemma accept_loop_ok {A} (l : list (result io_error A)) : accept_loop l = omap result_ok l.
Proof. induction l as [|[] l IH]; simpl; by rewrite ?IH. Qed.
End run.

(** * Properties *)

Section properties.
Context `{UnicodeLower, CidrLib, GeoDb, PacketSlicer, DnsLib, Yaml, TlsLib}.

(** C26: The client goes on retrying until its direct proxy ends: whatever happens
    in the attempts (given that the tasks end only as their loops can), the retry
    loop returns only with success and only after an attempt in which the direct
    proxy task was the first to end; otherwise every attempt is followed by the
    next. *)
Theorem client_runs_until_proxy_ends attempts fs app delays r fs' :
  Forall (λ p, ∀ e, RulesEngine_from_config (app_rules app) = Ok e → client_end_possible e p.2)
    attempts →
  run_client_with_retry (map attempt_env attempts) fs app = (delays, r, fs') →
  (r = None ∧ length delays = length attempts)
  ∨ (r = Some (Ok tt) ∧ ∃ p, attempts !! length delays = Some p ∧ p.2 = DirectEnds).
Proof.
  intros Hp [?|[-> (p & Hl & Ho)]]%retry_loop_stops; [by left|right]. split; [done|].
  exists p. split; [done|]. apply run_connected_client_ok in Ho as [_ ?]; [done|].
  by eapply (Forall_lookup_1 _ _ _ _ Hp).
Qed.

(** A server reports success however it stops: once the rules are valid and
    the device exists, a TCP server returns [Ok] whichever task ends first and
    however, in particular when it could not bind its address; a UDP server
    returns that error. *)
Lemma server_end_is_success env fs app e :
  let config := app_server app in
  is_ok (RulesEngine_from_config (app_rules app)) = true →
  se_create env (server_tun_params config) = Ok tt →
  (select_transport (sc_transport_type config) = Ok TkTcp →
     run_server_from_config env fs app = (Some ServeTcp, Returns (Ok tt))
     ∧ ∀ accepts, tcp_transport_io_task (Err e) accepts
         = ([], Some (Panicked (lit "Failed to bind to address: " ++ err_text e))))
  ∧ (select_transport (sc_transport_type config) = Ok TkUdp →
     se_udp_bind env (socket_to_string (sc_bind_addr config)) = Err e →
     run_server_from_config env fs app = (None, Returns (Err (err_text e)))).
Proof.
  intros config Hr Hc. split.
  - intros Ht. split; [|done]. unfold run_server_from_config. fold config. rewrite Hc, Ht.
    unfold run_tcp_server. destruct (load_rules (app_rules app)) as [eng|err] eqn:E.
    + by destruct (se_first env).
    + apply map_err_err in E as (? & He & _). by rewrite He in Hr.
  - intros Ht Hb. unfold run_server_from_config. fold config. rewrite Hc, Ht.
    unfold run_udp_server, UdpTransport_bind. by rewrite Hb.
Qed.

(** C27: Once the TUN device exists and the rules are valid, a server whose
    transport type is "ws" or "wss" in any spelling starts as follows: with the
    exact spelling "wss" it serves through the TLS acceptor made from the
    configured files, and panics without serving when that cannot be made; with
    any other spelling, "WSS" included, it serves plain WebSocket whatever the
    certificate files are.  However its tasks end it then returns success. *)
Theorem ws_server_start env fs app :
  let config := app_server app in
  to_ascii_lowercase (sc_transport_type config) ∈ [lit "ws"; lit "wss"] →
  is_ok (RulesEngine_from_config (app_rules app)) = true →
  se_create env (server_tun_params config) = Ok tt →
  run_server_from_config env fs app =
    if bool_decide (sc_transport_type config = lit "wss") then
      match create_tls_acceptor fs (sc_cert_path config) (sc_key_path config) with
      | Ok acceptor => (Some (ServeWs (Some acceptor)), Returns (Ok tt))
      | Err e => (None, Panics (err_text e))
      end
    else (Some (ServeWs None), Returns (Ok tt)).
Proof.
  intros config Hl Hr Hc. unfold run_server_from_config. fold config. rewrite Hc.
  assert (∃ k, k ∈ [TkWs; TkWss] ∧ select_transport (sc_transport_type config) = Ok k) as (k & Hk & ->).
  { assert (to_lowercase (sc_transport_type config) ∈ [lit "ws"; lit "wss"]) as Hlow.
    { repeat (apply elem_of_cons in Hl as [Hl|Hl]); [| |by apply elem_of_nil in Hl];
        apply to_lowercase_ascii_iff in Hl; try (rewrite Hl; set_solver);
        repeat constructor; simpl; lia. }
    unfold select_transport.
    repeat (apply elem_of_cons in Hlow as [->|Hlow]);
      [exists TkWs; split; [set_solver|done]|exists TkWss; split; [set_solver|done]|by apply elem_of_nil in Hlow]. }
  assert (match k with TkTcp => run_tcp_server (app_rules app) (se_first env)
    | TkUdp => run_udp_server (se_udp_bind env) config (app_rules app) (se_first env)
    | TkWs | TkWss => run_ws_server fs config (app_rules app) (se_first env) end
    = run_ws_server fs config (app_rules app) (se_first env)) as ->
    by (repeat (apply elem_of_cons in Hk as [->|Hk]); (done || by apply elem_of_nil in Hk)).
  unfold run_ws_server, server_tls.
  destruct (load_rules (app_rules app)) as [eng|err] eqn:E.
  2: { apply map_err_err in E as (? & He & _). by rewrite He in Hr. }
  assert (serve_until (se_first env) = Ok tt) as -> by (by destruct (se_first env)).
  case_bool_decide; [by destruct (create_tls_acceptor _ _ _)|done].
Qed.
End properties.

(** ** The properties at concrete inputs *)

Import TextCidr ListDb PlainSlicer OneAnswer PlainYaml PlainTls.

(** A connection that is accepted, gives the interface configuration, and runs. *)
Definition sample_connected : ClientEnv :=
  mkClientEnv (λ _ _, Ok tt) (Ok tt)
    (WNext (Some (Ok (Message_handshake (mkHandshake [] (lit "s") (Some
       (mkTunConfig (lit "tun0") (lit "10.0.0.2") (lit "255.255.255.0") (lit "10.0.0.0") [] 1400))),
       sample_addr))))
    (λ _, Ok tt) (λ _ _, Ok tt).

Lemma client_runs_until_proxy_ends_witness :
  (Some (Ok (E:=rstr) tt) = None ∧ 1%nat = 2%nat)
  ∨ (Some (Ok (E:=rstr) tt) = Some (Ok tt)
     ∧ ∃ p, [(sample_connected, IoEnds (Finished (Err (lit "Connection closed"))));
             (sample_connected, DirectEnds)] !! 1%nat = Some p ∧ p.2 = DirectEnds).
Proof.
  apply (client_runs_until_proxy_ends
    [(sample_connected, IoEnds (Finished (Err (lit "Connection closed")))); (sample_connected, DirectEnds)]
    sample_fs AppConfig_default [1] (Some (Ok tt))
    (run_client_with_retry (map attempt_env
       [(sample_connected, IoEnds (Finished (Err (lit "Connection closed")))); (sample_connected, DirectEnds)])
       sample_fs AppConfig_default).2).
  - repeat constructor. intros e _. by exists [CeNext None 0 true], [], (lit "Connection closed").
  - vm_compute. reflexivity.
Defined.

Definition sample_server_env : ServerEnv :=
  mkServerEnv (λ _, Ok tt) (λ _, Err (mkIoError OtherKind (lit "address in use")))
    (STunEnds (Finished (Err (lit "Error reading from TUN: gone")))).
Definition sample_app (transport : rstr) : AppConfig :=
  mkAppConfig RuntimeConfig_default ClientConfig_default
    (mkServerConfig transport localhost_12345 (lit "tun0") (V4 (Ipv4Addr_new 10 0 0 1))
       (V4 (Ipv4Addr_new 255 255 255 0)) (V4 (Ipv4Addr_new 10 0 0 0)) [] 1400 (lit "c.pem") (lit "k.pem") [])
    default_rules RuleSetConfig_default TransparentProxyConfig_default.

Lemma server_end_is_success_witness :
  run_server_from_config sample_server_env sample_fs (sample_app (lit "TCP")) = (Some ServeTcp, Returns (Ok tt))
  ∧ ∀ accepts, tcp_transport_io_task (Err (mkIoError OtherKind (lit "address in use"))) accepts
      = ([], Some (Panicked (lit "Failed to bind to address: address in use"))).
Proof.
  apply (server_end_is_success sample_server_env sample_fs (sample_app (lit "TCP"))
    (mkIoError OtherKind (lit "address in use"))); vm_compute; reflexivity.
Defined.

Lemma ws_server_start_witness :
  run_server_from_config sample_server_env sample_fs (sample_app (lit "Wss"))
  = (Some (ServeWs None), Returns (Ok tt)).
Proof.
  apply (ws_server_start sample_server_env sample_fs (sample_app (lit "Wss")));
    [vm_compute; set_solver|vm_compute; reflexivity|vm_compute; reflexivity].
Defined.
