(* ===== verification/Proxy.v ===== *)
(** * Proxy: the transparent proxy's filters, address translation and sessions
    ([transparent_proxy/filter.rs], [mod.rs], [udp_proxy.rs], [tcp_proxy.rs],
    and the netmask helpers of [bin/transparent-proxy.rs])

    The UDP and ICMP proxies share one design: an inbound loop that finds or
    creates a session task for the packet's key and queues the packet on the
    task's channel, and tasks that forward their queue and remove their key when
    they end.  [pstep] is that system for any key type.  Its steps are the points
    at which the program can be interleaved: the loop's lookup, its send, and the
    removal of the key after a failed send are separate, as are the removal of a
    task's key and the end of the task, which drops its receiver.  The UDP and
    the ICMP proxy are instances. *)

From S2P Require Import Prelude RStr Net.

(** ** Filters *)

Definition IpFilter : Type := IpAddr -> IpAddr -> bool.
Record IpFilters := mkFilters { filters : list IpFilter }.

Definition IpFilters_new : IpFilters := mkFilters [].

Definition non_broadcast (a : IpAddr) : bool :=
  match a with
  | V4 a => negb (v4_is_broadcast a || v4_is_multicast a || v4_is_unspecified a)
  | V6 a => negb (v6_is_multicast a || v6_is_unspecified a)
  end.

Definition with_non_broadcast : IpFilters :=
  mkFilters [λ src dst, non_broadcast src && non_broadcast dst].

Definition filters_add (self : IpFilters) (f : IpFilter) : IpFilters := mkFilters (filters self ++ [f]).
Definition filters_add_all (self : IpFilters) (fs : list IpFilter) : IpFilters :=
  mkFilters (filters self ++ fs).

Definition is_allowed (self : IpFilters) (src dst : IpAddr) : bool :=
  forallb (λ f, f src dst) (filters self).

(** ** Upstream server *)

Record UpstreamServer := mkUpstream { up_ip : option IpAddr }.

Definition translate_socket (self : UpstreamServer) (addr : SocketAddr) : SocketAddr :=
  match up_ip self with
  | Some ip => SocketAddr_new ip (sa_port addr)
  | None => addr
  end.

Definition translate_ipv4 (self : UpstreamServer) (addr : Ipv4Addr) : result IpAddr Ipv4Addr :=
  match up_ip self with
  | Some (V4 ip) => Ok ip
  | Some (V6 ip) => Err (V6 ip)
  | None => Ok addr
  end.

(** ** TCP *)

(** What [handle_inbound_stream] does with an accepted connection: nothing when it
    is filtered, otherwise connect to the translated target and relay. *)
Definition tcp_outbound_target (f : IpFilters) (up : UpstreamServer) (peer_addr local_addr : SocketAddr)
    : option SocketAddr :=
  if negb (is_allowed f (sa_ip peer_addr) (sa_ip local_addr)) then None
  else Some (translate_socket up local_addr).

(** Whether an outbound socket is bound to the egress interface. *)
Definition binds_interface (interface : rstr) (addr : IpAddr) : bool :=
  negb (is_empty interface) && negb (ip_is_loopback addr).

(** ** Netmasks *)

(** [u32::count_ones], [u32::leading_ones] *)
Fixpoint pos_ones (p : positive) : Z :=
  match p with xH => 1 | xO p => pos_ones p | xI p => 1 + pos_ones p end.
Definition count_ones (n : Z) : Z := match n with Zpos p => pos_ones p | _ => 0 end.
Fixpoint leading_from (k : nat) (n : Z) : Z :=
  match k with
  | O => 0
  | S k' => if Z.testbit n (Z.of_nat k') then 1 + leading_from k' n else 0
  end.
Definition leading_ones (n : Z) : Z := leading_from 32 n.

(** [u32::MAX << (32 - n)] for [0 < n]. *)
Definition mask_bits (n : Z) : Z :=
  if n =? 0 then 0 else Z.land (Z.shiftl (2 ^ 32 - 1) (32 - n)) (2 ^ 32 - 1).

(** The prefix length [create_net_with_channels] computes. *)
Definition proxy_prefix_len (netmask : IpAddr) : Z :=
  match netmask with
  | V4 mask => count_ones (ipv4_to_u32 mask)
  | V6 mask => count_ones mask
  end.

Definition netmask_to_prefix_len (netmask : Ipv4Addr) : result rstr Z :=
  let bits := ipv4_to_u32 netmask in
  let prefix_len := leading_ones bits in
  let expected := mask_bits prefix_len in
  if negb (bits =? expected) then Err (lit "invalid ipv4 netmask: " ++ ipv4_to_string netmask)
  else Ok prefix_len.

Definition prefix_to_netmask (prefix_len : Z) : result rstr Ipv4Addr :=
  if 32 <? prefix_len then Err (lit "invalid ipv4 prefix length: " ++ show_uint prefix_len)
  else Ok (ipv4_from_u32 (mask_bits prefix_len)).

(** ** Sessions *)

Section sessions.
Context {K : Type} `{Countable K}.
(** Which keys pass the filters, and which tasks return at once without
    removing their key. *)
Context (allowed early_exit : K -> bool).

(** A task is in its loop, has left it, or has removed its key and is about to
    end; its receiver lives until it ends. *)
Inductive TaskPhase := TLoop | TLeft | TRemoved.
Record Task := mkTask { tk_key : K; tk_queue : list bytes; tk_phase : TaskPhase }.

(** The inbound loop between its locked sections: it has looked up a channel and
    not yet sent the packet, or the send has failed and it has not yet removed
    the key. *)
Inductive Handover :=
| HSend (k : K) (tx : Z) (payload : bytes)
| HRemove (k : K) (tx : Z).

(** The table, the tasks by channel, the next fresh channel, and what the inbound
    loop is about to do.  [pr_in] and [pr_out] are ghost histories: packets taken
    by the loop, packets forwarded by tasks. *)
Record ProxyState := mkProxy {
  pr_table : gmap K Z;
  pr_tasks : gmap Z Task;
  pr_next : Z;
  pr_pending : option Handover;
  pr_in : list (K * bytes);
  pr_out : list (K * bytes)
}.
Definition ProxyState_init : ProxyState := mkProxy ∅ ∅ 0 None [] [].

(** The locked block of the inbound loop: the session's channel, or a new one. *)
Definition session_channel (k : K) (s : ProxyState) : gmap K Z * gmap Z Task * Z * Z :=
  match pr_table s !! k with
  | Some tx => (pr_table s, pr_tasks s, pr_next s, tx)
  | None =>
      let tx := pr_next s in
      (<[k := tx]> (pr_table s), <[tx := mkTask k [] TLoop]> (pr_tasks s), tx + 1, tx)
  end.

Definition inbound (k : K) (payload : bytes) (s : ProxyState) : ProxyState :=
  let '(table, tasks, next, tx) := session_channel k s in
  mkProxy table tasks next (Some (HSend k tx payload)) (pr_in s ++ [(k, payload)]) (pr_out s).

(** [tx.send(payload)] fails when the task, and with it the receiver, is gone. *)
Definition send_pending (s : ProxyState) : ProxyState :=
  match pr_pending s with
  | Some (HSend k tx payload) =>
      match pr_tasks s !! tx with
      | Some t =>
          mkProxy (pr_table s)
            (<[tx := mkTask (tk_key t) (tk_queue t ++ [payload]) (tk_phase t)]> (pr_tasks s))
            (pr_next s) None (pr_in s) (pr_out s)
      | None =>
          mkProxy (pr_table s) (pr_tasks s) (pr_next s) (Some (HRemove k tx)) (pr_in s) (pr_out s)
      end
  | _ => s
  end.

(** [sessions.lock().await.remove(&key)] after a failed send. *)
Definition remove_failed (s : ProxyState) : ProxyState :=
  match pr_pending s with
  | Some (HRemove k _) =>
      mkProxy (delete k (pr_table s)) (pr_tasks s) (pr_next s) None (pr_in s) (pr_out s)
  | _ => s
  end.

Definition set_task (tx : Z) (t : Task) (s : ProxyState) : ProxyState :=
  mkProxy (pr_table s) (<[tx := t]> (pr_tasks s)) (pr_next s) (pr_pending s) (pr_in s) (pr_out s).

(** A task that has left its loop removes its key. *)
Definition remove_key (tx : Z) (t : Task) (s : ProxyState) : ProxyState :=
  mkProxy (delete (tk_key t) (pr_table s))
    (<[tx := mkTask (tk_key t) (tk_queue t) TRemoved]> (pr_tasks s)) (pr_next s) (pr_pending s)
    (pr_in s) (pr_out s).

(** The end of a task: its receiver is dropped. *)
Definition finish_task (tx : Z) (s : ProxyState) : ProxyState :=
  mkProxy (pr_table s) (delete tx (pr_tasks s)) (pr_next s) (pr_pending s) (pr_in s) (pr_out s).

Inductive pstep : ProxyState -> ProxyState -> Prop :=
| ps_inbound s k payload :
    pr_pending s = None → allowed k = true → pstep s (inbound k payload s)
| ps_send s k tx payload : pr_pending s = Some (HSend k tx payload) → pstep s (send_pending s)
| ps_remove_failed s k tx : pr_pending s = Some (HRemove k tx) → pstep s (remove_failed s)
| ps_forward s tx k p q :
    pr_tasks s !! tx = Some (mkTask k (p :: q) TLoop) → early_exit k = false →
    pstep s (mkProxy (pr_table s) (<[tx := mkTask k q TLoop]> (pr_tasks s)) (pr_next s)
               (pr_pending s) (pr_in s) (pr_out s ++ [(k, p)]))
| ps_forward_failed s tx k p q :
    pr_tasks s !! tx = Some (mkTask k (p :: q) TLoop) → early_exit k = false →
    pstep s (set_task tx (mkTask k q TLeft) s)
| ps_stop s tx k q :
    pr_tasks s !! tx = Some (mkTask k q TLoop) → early_exit k = false →
    pstep s (set_task tx (mkTask k q TLeft) s)
| ps_remove_key s tx k q :
    pr_tasks s !! tx = Some (mkTask k q TLeft) →
    pstep s (remove_key tx (mkTask k q TLeft) s)
| ps_finish s tx k q :
    pr_tasks s !! tx = Some (mkTask k q TRemoved) → pstep s (finish_task tx s)
| ps_early s tx k q :
    pr_tasks s !! tx = Some (mkTask k q TLoop) → early_exit k = true →
    pstep s (finish_task tx s).

(** ** Invariants *)

Record proxy_inv (s : ProxyState) : Prop := {
  pi_key : ∀ k tx t, pr_table s !! k = Some tx → pr_tasks s !! tx = Some t →
    tk_key t = k ∧ tk_phase t ≠ TRemoved;
  pi_live : ∀ k tx, pr_table s !! k = Some tx → pr_tasks s !! tx = None → early_exit k = true;
  pi_task : ∀ tx t, pr_tasks s !! tx = Some t → tk_phase t ≠ TRemoved →
    pr_table s !! tk_key t = Some tx;
  pi_fresh : ∀ k tx, pr_table s !! k = Some tx → tx < pr_next s;
  pi_task_fresh : ∀ tx t, pr_tasks s !! tx = Some t → tx < pr_next s;
  pi_send : ∀ k tx p, pr_pending s = Some (HSend k tx p) →
    (pr_table s !! k = Some tx ∨ pr_table s !! k = None)
    ∧ (∀ t, pr_tasks s !! tx = Some t → tk_key t = k);
  pi_remove : ∀ k tx, pr_pending s = Some (HRemove k tx) →
    (pr_table s !! k = Some tx ∨ pr_table s !! k = None) ∧ pr_tasks s !! tx = None;
  pi_allowed : ∀ k tx, pr_table s !! k = Some tx → allowed k = true
}.

#[global] Instance TaskPhase_eq_dec : EqDecision TaskPhase.
Proof. solve_decision. Defined.

(** What a flow has sent, has had forwarded, and has waiting. *)
Definition flow (k : K) (l : list (K * bytes)) : list bytes :=
  omap (λ kp, if decide (kp.1 = k) then Some kp.2 else None) l.
Definition queue_of (k : K) (s : ProxyState) : list bytes :=
  match pr_table s !! k ≫= λ tx, pr_tasks s !! tx with Some t => tk_queue t | None => [] end.
Definition pending_of (k : K) (s : ProxyState) : list bytes :=
  match pr_pending s with
  | Some (HSend k' _ p) => if decide (k' = k) then [p] else []
  | _ => []
  end.
Definition flow_inv (s : ProxyState) : Prop :=
  ∀ k, flow k (pr_out s) ++ queue_of k s ++ pending_of k s `sublist_of` flow k (pr_in s).

Lemma proxy_inv_init : proxy_inv ProxyState_init.
Proof. split; simpl; intros; by rewrite ?lookup_empty in *. Qed.
Lemma flow_inv_init : flow_inv ProxyState_init.
Proof. intros k. unfold queue_of. simpl. by rewrite lookup_empty. Qed.

Lemma flow_app k l1 l2 : flow k (l1 ++ l2) = flow k l1 ++ flow k l2.
Proof. apply omap_app. Qed.

(** The queue of a task that has its key is the queue of that key. *)
Lemma queue_of_task s tx t :
  proxy_inv s → pr_tasks s !! tx = Some t → tk_phase t ≠ TRemoved →
  queue_of (tk_key t) s = tk_queue t.
Proof.
  intros Hi Ht Hp. unfold queue_of. rewrite (pi_task s Hi _ _ Ht Hp). simpl. by rewrite Ht.
Qed.

Lemma proxy_inv_inbound s k payload :
  pr_pending s = None → allowed k = true → proxy_inv s → proxy_inv (inbound k payload s).
Proof.
  intros Hp Ha Hi. pose proof Hi as [Hkey Hlive Htask Hfresh Htf _ _ Hall].
  unfold inbound, session_channel. destruct (pr_table s !! k) as [tx|] eqn:Ek.
  - split; simpl; try done. intros k' tx' p' [= <- <- <-]. split; [by left|].
    intros t Ht. by eapply Hkey.
  - split; simpl; try done.
    + intros k' tx t [[<- <-]|[Hne Hk']]%lookup_insert_Some; rewrite lookup_insert_Some;
        intros [[E <-]|[? Ht]]; try done; [apply Hfresh in Hk'; lia|by eauto].
    + intros k' tx [[<- <-]|[Hne Hk']]%lookup_insert_Some [Hn Hnone]%lookup_insert_None;
        [done|by eauto].
    + intros tx t [[<- <-]|[Hne Ht]]%lookup_insert_Some Hph; simpl; [apply lookup_insert_eq|].
      rewrite lookup_insert_ne; [by eauto|]. intros ->. apply Htask in Ht; [congruence|done].
    + intros k' tx [[<- <-]|[Hne Hk']]%lookup_insert_Some; [lia|]. apply Hfresh in Hk'. lia.
    + intros tx t [[<- <-]|[Hne Ht]]%lookup_insert_Some; [lia|]. apply Htf in Ht. lia.
    + intros k' tx' p' [= <- <- <-]. split; [left; apply lookup_insert_eq|].
      intros t. rewrite lookup_insert_eq. by intros [= <-].
    + intros k' tx [[<- <-]|[Hne Hk']]%lookup_insert_Some; [done|by eauto].
Qed.

(** Replacing a task by another of the same key that has or has not its key as
    before. *)
Lemma proxy_inv_set_task s tx t t' out :
  pr_tasks s !! tx = Some t → tk_key t' = tk_key t → (tk_phase t' = TRemoved ↔ tk_phase t = TRemoved) →
  proxy_inv s →
  proxy_inv (mkProxy (pr_table s) (<[tx := t']> (pr_tasks s)) (pr_next s) (pr_pending s) (pr_in s) out).
Proof.
  intros Ht Heq Hph [Hkey Hlive Htask Hfresh Htf Hsend Hrem Hall]. split; simpl; try done.
  - intros k tx' t1 Hk [[<- <-]|[? Ht1]]%lookup_insert_Some; [rewrite Heq, Hph|]; eauto.
  - intros k tx' Hk [? ?]%lookup_insert_None. eauto.
  - intros tx' t1 [[<- <-]|[? Ht1]]%lookup_insert_Some; [rewrite Heq, Hph|]; eauto.
  - intros tx' t1 [[<- <-]|[? Ht1]]%lookup_insert_Some; eauto.
  - intros k tx' p Hp. destruct (Hsend k tx' p Hp) as [H1 H2].
    split; [done|]. intros t1 [[<- <-]|[? Ht1]]%lookup_insert_Some; [rewrite Heq|]; eauto.
  - intros k tx' Hp. destruct (Hrem k tx' Hp) as [H1 H2]. split; [done|].
    apply lookup_insert_None. split; [done|]. intros ->. congruence.
Qed.

Lemma proxy_inv_clear_pending s :
  proxy_inv s → proxy_inv (mkProxy (pr_table s) (pr_tasks s) (pr_next s) None (pr_in s) (pr_out s)).
Proof. intros [????????]. by split. Qed.

Lemma proxy_inv_send s : proxy_inv s → proxy_inv (send_pending s).
Proof.
  intros Hi. unfold send_pending. destruct (pr_pending s) as [[k tx p|k tx]|] eqn:Ep; [|done..].
  destruct (pr_tasks s !! tx) as [t|] eqn:Et.
  - apply (proxy_inv_set_task (mkProxy (pr_table s) (pr_tasks s) (pr_next s) None (pr_in s) (pr_out s))
      tx t); [done..|]. by apply proxy_inv_clear_pending.
  - destruct Hi as [Hkey Hlive Htask Hfresh Htf Hsend Hrem Hall].
    destruct (Hsend k tx p Ep) as [Hk _]. split; simpl; try done.
    by intros k' tx' [= <- <-].
Qed.

Lemma proxy_inv_remove_failed s : proxy_inv s → proxy_inv (remove_failed s).
Proof.
  intros Hi. unfold remove_failed. destruct (pr_pending s) as [[k tx p|k tx]|] eqn:Ep; [done| |done].
  destruct Hi as [Hkey Hlive Htask Hfresh Htf Hsend Hrem Hall].
  destruct (Hrem k tx Ep) as [Hk Hn]. split; simpl; try done.
  - intros k' tx' t [_ Hk']%lookup_delete_Some. eauto.
  - intros k' tx' [_ Hk']%lookup_delete_Some. eauto.
  - intros tx' t Ht Hph. apply lookup_delete_Some. split; [|by eauto]. intros ->.
    apply Htask in Ht as Ht'; [|done]. destruct Hk as [Hk|Hk]; congruence.
  - intros k' tx' [_ Hk']%lookup_delete_Some. eauto.
  - intros k' tx' [_ Hk']%lookup_delete_Some. eauto.
Qed.

Lemma proxy_inv_remove_key s tx t :
  pr_tasks s !! tx = Some t → tk_phase t ≠ TRemoved → proxy_inv s → proxy_inv (remove_key tx t s).
Proof.
  intros Ht Hph [Hkey Hlive Htask Hfresh Htf Hsend Hrem Hall].
  pose proof (Htask _ _ Ht Hph) as Htab. split; simpl.
  - intros k tx' t' [Hne Hk]%lookup_delete_Some [[<- <-]|[_ Ht']]%lookup_insert_Some; [|by eauto].
    destruct Hne. by eapply Hkey.
  - intros k tx' [Hne Hk]%lookup_delete_Some [? ?]%lookup_insert_None. eauto.
  - intros tx' t' [[<- <-]|[Hne Ht']]%lookup_insert_Some Hph'; [done|].
    apply lookup_delete_Some. split; [|by eauto]. intros Heq. apply Hne.
    apply Htask in Ht'; [|done]. rewrite <- Heq in Ht'. congruence.
  - intros k tx' [_ Hk]%lookup_delete_Some. eauto.
  - intros tx' t' [[<- <-]|[_ Ht']]%lookup_insert_Some; eauto.
  - intros k tx' p Hp. destruct (Hsend k tx' p Hp) as [H1 H2]. split.
    + destruct (decide (tk_key t = k)) as [->|Hne]; [right; apply lookup_delete_eq|].
      by rewrite lookup_delete_ne.
    + intros t' [[<- <-]|[_ Ht']]%lookup_insert_Some; [|by eauto]. simpl. eauto.
  - intros k tx' Hp. destruct (Hrem k tx' Hp) as [H1 H2]. split.
    + destruct (decide (tk_key t = k)) as [->|Hne]; [right; apply lookup_delete_eq|].
      by rewrite lookup_delete_ne.
    + apply lookup_insert_None. split; [done|]. intros ->. congruence.
  - intros k tx' [_ Hk]%lookup_delete_Some. eauto.
Qed.

(** The end of a task whose key is not, or not to be, in the table. *)
Lemma proxy_inv_finish s tx t :
  pr_tasks s !! tx = Some t → tk_phase t = TRemoved ∨ early_exit (tk_key t) = true →
  proxy_inv s → proxy_inv (finish_task tx s).
Proof.
  intros Ht He [Hkey Hlive Htask Hfresh Htf Hsend Hrem Hall]. split; simpl; try done.
  - intros k' tx' t' Hk [_ Ht']%lookup_delete_Some. eauto.
  - intros k' tx' Hk [->|Hn]%lookup_delete_None; [|by eauto].
    destruct (Hkey _ _ _ Hk Ht) as [<- Hph]. by destruct He.
  - intros tx' t' [_ Ht']%lookup_delete_Some. eauto.
  - intros tx' t' [_ Ht']%lookup_delete_Some. eauto.
  - intros k' tx' p Hp. destruct (Hsend k' tx' p Hp) as [H1 H2].
    split; [done|]. intros t' [_ Ht']%lookup_delete_Some. eauto.
  - intros k' tx' Hp. destruct (Hrem k' tx' Hp) as [H1 H2]. split; [done|].
    apply lookup_delete_None. by right.
Qed.

Lemma proxy_inv_step s s' : pstep s s' → proxy_inv s → proxy_inv s'.
Proof.
  intros Hst Hi. destruct Hst as [s k p Hp Ha|s k tx p Hp|s k tx Hp|s tx k p q Ht He|s tx k p q Ht He
    |s tx k q Ht He|s tx k q Ht|s tx k q Ht|s tx k q Ht He].
  - by apply proxy_inv_inbound.
  - by apply proxy_inv_send.
  - by apply proxy_inv_remove_failed.
  - by eapply proxy_inv_set_task.
  - by eapply proxy_inv_set_task.
  - by eapply proxy_inv_set_task.
  - by apply proxy_inv_remove_key.
  - eapply proxy_inv_finish; [exact Ht|by left|done].
  - eapply proxy_inv_finish; [exact Ht|by right|done].
Qed.

(** ** Flows *)

Lemma sublist_skips_l (a l1 l2 : list bytes) : l1 `sublist_of` l2 → a ++ l1 `sublist_of` a ++ l2.
Proof. intros Hs. by apply sublist_app. Qed.
Lemma sublist_skips_r (a l1 l2 : list bytes) : l1 `sublist_of` l2 → l1 ++ a `sublist_of` l2 ++ a.
Proof. intros Hs. by apply sublist_app. Qed.

Lemma queue_of_set s tx t t' next pend i o :
  proxy_inv s → pr_tasks s !! tx = Some t → tk_phase t ≠ TRemoved →
  queue_of (tk_key t) (mkProxy (pr_table s) (<[tx := t']> (pr_tasks s)) next pend i o) = tk_queue t'.
Proof.
  intros Hi Ht Hp. unfold queue_of. simpl. rewrite (pi_task s Hi _ _ Ht Hp). simpl.
  by rewrite lookup_insert_eq.
Qed.

(** Only the queue of its own key changes with a task. *)
Lemma queue_of_other s table' tasks' tx t k next pend i o :
  proxy_inv s → pr_tasks s !! tx = Some t → tk_key t ≠ k →
  table' !! k = pr_table s !! k → (∀ tx', tx' ≠ tx → tasks' !! tx' = pr_tasks s !! tx') →
  queue_of k (mkProxy table' tasks' next pend i o) = queue_of k s.
Proof.
  intros Hi Ht Hne Htab Htasks. unfold queue_of. simpl. rewrite Htab.
  destruct (pr_table s !! k) as [tx'|] eqn:Ek; simpl; [|done].
  rewrite Htasks; [done|]. intros ->. apply Hne. by apply (pi_key s Hi _ tx t).
Qed.

Lemma flow_inv_inbound s k payload :
  pr_pending s = None → proxy_inv s → flow_inv s → flow_inv (inbound k payload s).
Proof.
  intros Hp Hi Hf k'. specialize (Hf k'). unfold pending_of in Hf. rewrite Hp, app_nil_r in Hf.
  assert (queue_of k' (inbound k payload s) = queue_of k' s) as Hq.
  { unfold inbound, session_channel, queue_of. destruct (pr_table s !! k) as [tx|] eqn:Ek; [done|].
    simpl. destruct (decide (k' = k)) as [->|Hne].
    - by rewrite lookup_insert_eq, Ek; simpl; rewrite lookup_insert_eq.
    - rewrite lookup_insert_ne by done. destruct (pr_table s !! k') as [tx|] eqn:Ek'; simpl; [|done].
      rewrite lookup_insert_ne; [done|]. apply (pi_fresh s Hi) in Ek'. lia. }
  rewrite Hq. unfold inbound, pending_of.
  destruct (session_channel k s) as [[[table tasks] next] tx]. simpl. rewrite flow_app, app_assoc.
  apply sublist_app; [done|]. unfold flow. simpl. by case_decide.
Qed.

Lemma flow_inv_send s : proxy_inv s → flow_inv s → flow_inv (send_pending s).
Proof.
  intros Hi Hf. unfold send_pending. destruct (pr_pending s) as [[k tx p|k tx]|] eqn:Ep; [|done..].
  destruct (pi_send s Hi k tx p Ep) as [Hk Hkey].
  destruct (pr_tasks s !! tx) as [t|] eqn:Et; intros k'; specialize (Hf k');
    unfold pending_of in *; rewrite Ep in Hf; simpl; rewrite app_nil_r.
  - pose proof (Hkey t eq_refl) as Htk. destruct (decide (k = k')) as [<-|Hne].
    + destruct Hk as [Hk|Hk]; unfold queue_of in *; simpl; rewrite Hk in *; simpl in *.
      * rewrite Et in Hf. by rewrite lookup_insert_eq.
      * etrans; [|exact Hf]. rewrite app_nil_r. apply sublist_inserts_r. done.
    + rewrite app_nil_r in Hf. erewrite queue_of_other; try done; [congruence|].
      intros tx' Hx. by apply lookup_insert_ne.
  - etrans; [|exact Hf]. apply sublist_skips_l. by apply sublist_inserts_r.
Qed.

Lemma flow_inv_remove_failed s : proxy_inv s → flow_inv s → flow_inv (remove_failed s).
Proof.
  intros Hi Hf. unfold remove_failed. destruct (pr_pending s) as [[k tx p|k tx]|] eqn:Ep; [done| |done].
  intros k'. specialize (Hf k'). etrans; [|exact Hf]. unfold pending_of. rewrite Ep. simpl.
  rewrite !app_nil_r. apply sublist_skips_l. unfold queue_of. simpl.
  destruct (decide (k = k')) as [<-|Hne]; [rewrite lookup_delete_eq; apply sublist_nil_l|].
  by rewrite lookup_delete_ne.
Qed.

(** The end of a task changes no queue that counts, or empties one. *)
Lemma flow_inv_finish s tx : flow_inv s → flow_inv (finish_task tx s).
Proof.
  intros Hf k. specialize (Hf k). etrans; [|exact Hf].
  change (pending_of k (finish_task tx s)) with (pending_of k s). apply sublist_skips_l.
  apply sublist_skips_r. unfold queue_of. simpl. destruct (pr_table s !! k) as [tx'|]; simpl; [|done].
  destruct (decide (tx = tx')) as [<-|Hne]; [rewrite lookup_delete_eq; apply sublist_nil_l|].
  by rewrite lookup_delete_ne.
Qed.

Lemma flow_map_same k l : flow k (map (pair k) l) = l.
Proof. induction l as [|p l IH]; [done|]. unfold flow in *. simpl. by case_decide; [f_equal|]. Qed.
Lemma flow_map_other k k' l : k' ≠ k → flow k' (map (pair k) l) = [].
Proof. intros Hne. induction l as [|p l IH]; [done|]. unfold flow in *. simpl. by case_decide. Qed.

(** A step of one task, which moves [fwd] to the output and leaves [q]. *)
Lemma flow_inv_task s tx t table' tasks' k fwd q :
  proxy_inv s → flow_inv s → pr_tasks s !! tx = Some t → tk_phase t ≠ TRemoved → k = tk_key t →
  (∀ k', k' ≠ k → table' !! k' = pr_table s !! k') →
  (∀ tx', tx' ≠ tx → tasks' !! tx' = pr_tasks s !! tx') →
  queue_of k (mkProxy table' tasks' (pr_next s) (pr_pending s) (pr_in s)
    (pr_out s ++ map (pair k) fwd)) = q →
  fwd ++ q `sublist_of` tk_queue t →
  flow_inv (mkProxy table' tasks' (pr_next s) (pr_pending s) (pr_in s) (pr_out s ++ map (pair k) fwd)).
Proof.
  intros Hi Hf Ht Hph -> Htab Htasks Hq Hsub k'. specialize (Hf k'). etrans; [|exact Hf].
  cbn [pr_out pr_in]. rewrite flow_app, <- app_assoc. apply sublist_skips_l.
  change (pending_of k' (mkProxy _ _ _ (pr_pending s) _ _)) with (pending_of k' s).
  rewrite app_assoc. apply sublist_skips_r.
  destruct (decide (k' = tk_key t)) as [->|Hne].
  - by rewrite (queue_of_task s tx t Hi Ht Hph), Hq, flow_map_same.
  - rewrite (queue_of_other s table' tasks' tx t) by (done || auto). by rewrite flow_map_other.
Qed.

(** A task that leaves [q] of its queue without forwarding anything. *)
Lemma flow_inv_set_task s tx t ph q :
  proxy_inv s → flow_inv s → pr_tasks s !! tx = Some t → tk_phase t ≠ TRemoved →
  q `sublist_of` tk_queue t → flow_inv (set_task tx (mkTask (tk_key t) q ph) s).
Proof.
  intros Hi Hf Ht Hph Hq.
  pose proof (flow_inv_task s tx t (pr_table s) (<[tx := mkTask (tk_key t) q ph]> (pr_tasks s))
    (tk_key t) [] q Hi Hf Ht Hph eq_refl) as Hs. rewrite app_nil_r in Hs.
  apply Hs; [done|by intros; apply lookup_insert_ne| |done].
  exact (queue_of_set s tx _ (mkTask (tk_key t) q ph) _ _ _ _ Hi Ht Hph).
Qed.

Lemma flow_inv_step s s' : pstep s s' → proxy_inv s → flow_inv s → flow_inv s'.
Proof.
  intros Hst Hi Hf. destruct Hst as [s k p Hp Ha|s k tx p Hp|s k tx Hp|s tx k p q Ht He|s tx k p q Ht He
    |s tx k q Ht He|s tx k q Ht|s tx k q Ht|s tx k q Ht He].
  - by apply flow_inv_inbound.
  - by apply flow_inv_send.
  - by apply flow_inv_remove_failed.
  - apply (flow_inv_task s tx _ (pr_table s) (<[tx := mkTask k q TLoop]> (pr_tasks s)) k [p] q Hi Hf Ht);
      [done|done|done|by intros; apply lookup_insert_ne| |done].
    by apply (queue_of_set s tx _ (mkTask k q TLoop) _ _ _ _ Hi Ht).
  - apply (flow_inv_set_task s tx (mkTask k (p :: q) TLoop)); try done. by apply sublist_cons.
  - by apply (flow_inv_set_task s tx (mkTask k q TLoop)).
  - pose proof (flow_inv_task s tx _ (delete k (pr_table s)) (<[tx := mkTask k q TRemoved]> (pr_tasks s))
      k [] [] Hi Hf Ht) as Hs. rewrite app_nil_r in Hs.
    apply Hs; [done|done|by intros; apply lookup_delete_ne|by intros; apply lookup_insert_ne|
              |apply sublist_nil_l].
    unfold queue_of. simpl. by rewrite lookup_delete_eq.
  - by apply flow_inv_finish.
  - by apply flow_inv_finish.
Qed.

Lemma proxy_reachable s : rtc pstep ProxyState_init s → proxy_inv s ∧ flow_inv s.
Proof.
  intros Hr. apply (rtc_invariant pstep (λ s, proxy_inv s ∧ flow_inv s) ProxyState_init);
    [|exact Hr|split; [apply proxy_inv_init|apply flow_inv_init]].
  intros a b Hab [Hi Hf]. split; [by eapply proxy_inv_step|by eapply flow_inv_step].
Qed.
End sessions.

(** ** Filters *)

Lemma is_allowed_add_all f fs src dst :
  is_allowed (filters_add_all f fs) src dst
  = is_allowed f src dst && forallb (λ g, g src dst) fs.
Proof. apply forallb_app. Qed.

(** A filtered connection is never forwarded; an allowed one keeps its port. *)
Lemma tcp_outbound_target_spec f up peer loc t :
  tcp_outbound_target f up peer loc = Some t ↔
  is_allowed f (sa_ip peer) (sa_ip loc) = true
  ∧ sa_port t = sa_port loc ∧ sa_ip t = default (sa_ip loc) (up_ip up).
Proof.
  unfold tcp_outbound_target, translate_socket. destruct (is_allowed f _ _); simpl; [|naive_solver].
  destruct up as [[ip|]], t as [ti tp], loc as [li lp]; simpl; naive_solver.
Qed.

(** ** Netmasks *)

Lemma leading_from_bounds k n : 0 ≤ leading_from k n ≤ Z.of_nat k.
Proof. induction k as [|k IH]; cbn [leading_from]; [lia|]. case_match; lia. Qed.

(** The 33 masks, checked one by one. *)
Definition mask_ok (n : Z) : bool :=
  (0 <=? mask_bits n) && (mask_bits n <? 2 ^ 32) && (leading_ones (mask_bits n) =? n)
  && (count_ones (mask_bits n) =? n).

Lemma mask_bits_ok n :
  0 ≤ n ≤ 32 →
  0 ≤ mask_bits n < 2 ^ 32 ∧ leading_ones (mask_bits n) = n ∧ count_ones (mask_bits n) = n.
Proof.
  intros Hn. assert (forallb mask_ok (seqZ 0 33) = true) as Hall by (vm_compute; reflexivity).
  rewrite forallb_forall in Hall. specialize (Hall n).
  assert (mask_ok n = true) as Hm by (apply Hall, list_elem_of_In, elem_of_seqZ; lia).
  unfold mask_ok in Hm. rewrite !andb_true_iff, Z.leb_le, Z.ltb_lt, !Z.eqb_eq in Hm. tauto.
Qed.

Lemma netmask_prefix_iff m n :
  ipv4_wf m →
  netmask_to_prefix_len m = Ok n ↔ 0 ≤ n ∧ prefix_to_netmask n = Ok m.
Proof.
  intros Hm. unfold netmask_to_prefix_len, prefix_to_netmask. split.
  - destruct (ipv4_to_u32 m =? _) eqn:E; simpl; [|done]. intros [= <-]. apply Z.eqb_eq in E.
    pose proof (leading_from_bounds 32 (ipv4_to_u32 m)) as Hb. fold (leading_ones (ipv4_to_u32 m)) in Hb.
    rewrite (proj2 (Z.ltb_ge _ _)) by lia. split; [lia|]. f_equal. rewrite <- E.
    by apply ipv4_from_to_u32.
  - intros [H0 Hp]. destruct (32 <? n) eqn:E; [done|]. injection Hp as <-.
    destruct (mask_bits_ok n) as (Hr & Hl & _); [lia|].
    rewrite ipv4_to_from_u32 by done. by rewrite Hl, Z.eqb_refl.
Qed.

(** ** The UDP proxy *)

Definition udp_key : Type := SocketAddr * SocketAddr.   (* client, target *)
Definition udp_allowed (f : IpFilters) (k : udp_key) : bool := is_allowed f (sa_ip k.1) (sa_ip k.2).

(** One iteration of [handle_inbound_datagram] up to the send. *)
Definition handle_inbound_datagram (f : IpFilters) (r : result rstr (bytes * SocketAddr * SocketAddr))
    (s : @ProxyState udp_key _ _) : @ProxyState udp_key _ _ :=
  match r with
  | Err _ => s
  | Ok (payload, local, remote) =>
      if negb (is_allowed f (sa_ip remote) (sa_ip local)) then s
      else inbound (remote, local) payload s
  end.

(** The address a session's socket is connected to. *)
Definition udp_outbound_target (up : UpstreamServer) (k : udp_key) : SocketAddr :=
  translate_socket up k.2.

Lemma handle_inbound_datagram_steps f r s :
  pr_pending s = None →
  handle_inbound_datagram f r s = s
  ∨ pstep (udp_allowed f) (λ _, false) s (handle_inbound_datagram f r s).
Proof.
  intros Hp. destruct r as [[[payload local] remote]|]; [|by left]. simpl.
  destruct (is_allowed f (sa_ip remote) (sa_ip local)) eqn:E; simpl; [|by left].
  right. by constructor.
Qed.

(** * Properties *)

Section properties.
Context `{Countable K} (allowed early_exit : K -> bool).

(** C20: In every interleaving of the inbound loop with the session tasks: the key
    of a task that has not removed it leads to that task, so a flow has at most
    one such task; a table entry leads to such a task of that flow or, for a
    session that returned at once without removing its key, to no task; and only
    flows that pass the filters have an entry.  A further task of a flow can exist
    only while it ends, after it has removed its key. *)
Theorem proxy_sessions_unique s :
  rtc (pstep allowed early_exit) ProxyState_init s →
  (∀ tx t, pr_tasks s !! tx = Some t → tk_phase t ≠ TRemoved → pr_table s !! tk_key t = Some tx)
  ∧ (∀ tx1 tx2 t1 t2, pr_tasks s !! tx1 = Some t1 → pr_tasks s !! tx2 = Some t2 →
       tk_key t1 = tk_key t2 → tx1 ≠ tx2 → tk_phase t1 = TRemoved ∨ tk_phase t2 = TRemoved)
  ∧ (∀ k tx, pr_table s !! k = Some tx →
       allowed k = true
       ∧ match pr_tasks s !! tx with
         | Some t => tk_key t = k ∧ tk_phase t ≠ TRemoved
         | None => early_exit k = true
         end).
Proof.
  intros [Hi _]%proxy_reachable. split; [exact (pi_task _ _ s Hi)|]. split.
  - intros tx1 tx2 t1 t2 H1 H2 Heq Hne. destruct (decide (tk_phase t1 = TRemoved)) as [?|Hp1]; [by left|].
    destruct (decide (tk_phase t2 = TRemoved)) as [?|Hp2]; [by right|]. destruct Hne.
    apply (pi_task _ _ s Hi) in H1, H2; [congruence|done|done].
  - intros k tx Hk. split; [by eapply pi_allowed|].
    destruct (pr_tasks s !! tx) as [t|] eqn:Et; [by eapply pi_key|by eapply pi_live].
Qed.

(** The window: while a task ends, a second task of its flow can be running. *)
Lemma proxy_second_task k (p : bytes) :
  allowed k = true → early_exit k = false →
  ∃ s t1 t2, rtc (pstep allowed early_exit) ProxyState_init s
    ∧ pr_tasks s !! 0 = Some t1 ∧ pr_tasks s !! 1 = Some t2
    ∧ tk_key t1 = k ∧ tk_key t2 = k ∧ tk_phase t1 = TRemoved ∧ tk_phase t2 = TLoop.
Proof.
  intros Ha He.
  assert (∀ s, pr_table s !! k = None → inbound k p s =
    mkProxy (<[k := pr_next s]> (pr_table s)) (<[pr_next s := mkTask k [] TLoop]> (pr_tasks s))
      (pr_next s + 1) (Some (HSend k (pr_next s) p)) (pr_in s ++ [(k, p)]) (pr_out s)) as Hnew
    by (intros s Hn; unfold inbound, session_channel; by rewrite Hn).
  eexists _, _, _. split.
  - eapply rtc_l; [by apply (ps_inbound _ _ _ k p)|]. rewrite Hnew by apply lookup_empty. simpl.
    eapply rtc_l; [by eapply (ps_send _ _ _ k 0 p)|].
    unfold send_pending. simpl. rewrite lookup_insert_eq. simpl.
    eapply rtc_l; [eapply (ps_stop _ _ _ 0 k [p]); [simpl; apply lookup_insert_eq|done]|].
    eapply rtc_l; [eapply (ps_remove_key _ _ _ 0 k [p]); simpl; apply lookup_insert_eq|].
    apply rtc_once. by apply (ps_inbound _ _ _ k p).
  - rewrite Hnew by apply lookup_delete_eq. simpl.
    rewrite lookup_insert_ne, !lookup_insert_eq by done. done.
Qed.

(** C21: For every flow, the packets forwarded so far, followed by those queued and
    the one being handed over, are a subsequence of the packets received for that
    flow: nothing is duplicated, reordered or delivered to another flow. *)
Theorem proxy_flow_order s k :
  rtc (pstep allowed early_exit) ProxyState_init s →
  flow k (pr_out s) ++ queue_of k s ++ pending_of k s `sublist_of` flow k (pr_in s).
Proof. intros [_ Hf]%proxy_reachable. apply Hf. Qed.
End properties.

(** The two netmask conversions of the proxy tool are inverse to each other:
    a mask is accepted with prefix length [n] iff it is the mask of [n], and for
    those masks counting the one bits gives the same length. *)
Lemma netmask_prefix_inverse m n :
  ipv4_wf m →
  (netmask_to_prefix_len m = Ok n ↔ 0 ≤ n ∧ prefix_to_netmask n = Ok m)
  ∧ (netmask_to_prefix_len m = Ok n → proxy_prefix_len (V4 m) = n).
Proof.
  intros Hm. split; [by apply netmask_prefix_iff|].
  intros [H0 Hp]%netmask_prefix_iff; [|done]. unfold prefix_to_netmask in Hp.
  destruct (32 <? n) eqn:E; [done|]. injection Hp as <-.
  destruct (mask_bits_ok n) as (Hr & _ & Hc); [lia|]. simpl. by rewrite ipv4_to_from_u32.
Qed.

(** ** The properties at concrete inputs *)

Definition sample_flow : udp_key :=
  (SocketAddr_new (V4 (Ipv4Addr_new 10 0 0 2)) 5000, SocketAddr_new (V4 (Ipv4Addr_new 8 8 8 8)) 53).
Definition sample_proxy : @ProxyState udp_key _ _ :=
  send_pending (inbound sample_flow [1] ProxyState_init).

Lemma sample_proxy_reachable :
  rtc (pstep (udp_allowed with_non_broadcast) (λ _, false)) ProxyState_init sample_proxy.
Proof.
  eapply rtc_l; [by apply (ps_inbound _ _ _ sample_flow [1])|].
  apply rtc_once. by eapply ps_send.
Qed.

Lemma proxy_sessions_unique_witness :
  (∀ tx t, pr_tasks sample_proxy !! tx = Some t → tk_phase t ≠ TRemoved →
     pr_table sample_proxy !! tk_key t = Some tx)
  ∧ (∀ tx1 tx2 t1 t2, pr_tasks sample_proxy !! tx1 = Some t1 → pr_tasks sample_proxy !! tx2 = Some t2 →
       tk_key t1 = tk_key t2 → tx1 ≠ tx2 → tk_phase t1 = TRemoved ∨ tk_phase t2 = TRemoved)
  ∧ (∀ k tx, pr_table sample_proxy !! k = Some tx →
       udp_allowed with_non_broadcast k = true
       ∧ match pr_tasks sample_proxy !! tx with
         | Some t => tk_key t = k ∧ tk_phase t ≠ TRemoved
         | None => false = true
         end).
Proof.
  apply (proxy_sessions_unique (udp_allowed with_non_broadcast) (λ _, false)), sample_proxy_reachable.
Defined.

Lemma proxy_flow_order_witness :
  flow sample_flow (pr_out sample_proxy) ++ queue_of sample_flow sample_proxy
    ++ pending_of sample_flow sample_proxy `sublist_of` flow sample_flow (pr_in sample_proxy).
Proof. apply (proxy_flow_order (udp_allowed with_non_broadcast) (λ _, false)), sample_proxy_reachable. Defined.

Lemma netmask_prefix_inverse_witness :
  (netmask_to_prefix_len (Ipv4Addr_new 255 255 255 0) = Ok 24
   ↔ 0 ≤ 24 ∧ prefix_to_netmask 24 = Ok (Ipv4Addr_new 255 255 255 0))
  ∧ (netmask_to_prefix_len (Ipv4Addr_new 255 255 255 0) = Ok 24 →
     proxy_prefix_len (V4 (Ipv4Addr_new 255 255 255 0)) = 24).
Proof. apply netmask_prefix_inverse. repeat split; simpl; lia. Defined.

(** A mask with a hole is counted, but rejected by the strict conversion. *)
Example mask_with_hole :
  proxy_prefix_len (V4 (Ipv4Addr_new 255 0 255 0)) = 16
  ∧ is_ok (netmask_to_prefix_len (Ipv4Addr_new 255 0 255 0)) = false.
Proof. vm_compute. done. Qed.
