(* ===== verification/Icmp.v ===== *)
(** * Icmp: the ICMP proxy ([transparent_proxy/icmp_proxy.rs])

    Echo requests are forwarded with the identifier of the session's own
    (proxy) identifier, replies are given the client's identifier back and sent
    to the client as if they came from the original target.  Packet access and
    emission ([smoltcp::wire]) is the class [IcmpWire]; the session table is the
    generic one of [Proxy]. *)

From S2P Require Import Prelude RStr Net Codec Proxy.

Definition DEFAULT_IP_TTL : Z := 64.
Definition MAX_ICMP_PACKET_SIZE : Z := 9000.

(** [u16::from_be_bytes] *)
Definition from_be_bytes (a b : Z) : Z := a * 256 + b.

(** ** The packet library

    A checked IPv4 packet, as far as the sources inspect it. *)
Record Ipv4View := mkIpv4View {
  iv_src : Ipv4Addr; iv_dst : Ipv4Addr; iv_next_header : Z; iv_hop_limit : Z; iv_payload : bytes
}.
Definition PROTO_ICMP : Z := 1.
Definition ECHO_REPLY : Z := 0.
Definition ECHO_REQUEST : Z := 8.
Definition is_echo (t : Z) : Prop := t = ECHO_REPLY ∨ t = ECHO_REQUEST.

Class IcmpWire := {
  ipv4_checked : bytes -> result rstr Ipv4View;
  (** header fields, payload: the packet with its checksum filled in *)
  ipv4_emit : Ipv4View -> bytes;
  icmp_checked : bytes -> result rstr unit;
  icmp_msg_type : bytes -> Z;
  icmp_echo_ident : bytes -> Z;
  icmp_set_echo_ident : Z -> bytes -> bytes;
  icmp_fill_checksum : bytes -> bytes;
  ipv4_emit_checked v : blen (iv_payload v) + 20 < 2 ^ 16 → ipv4_checked (ipv4_emit v) = Ok v;
  icmp_ident_bytes p b0 b1 b2 b3 i0 i1 rest :
    p = b0 :: b1 :: b2 :: b3 :: i0 :: i1 :: rest → icmp_checked p = Ok tt →
    icmp_echo_ident p = from_be_bytes i0 i1 ∧ icmp_msg_type p = b0;
  icmp_echo_length p : icmp_checked p = Ok tt → is_echo (icmp_msg_type p) → (8 ≤ length p)%nat;
  icmp_rewrite_checked p i :
    icmp_checked p = Ok tt → is_echo (icmp_msg_type p) →
    icmp_checked (icmp_fill_checksum (icmp_set_echo_ident i p)) = Ok tt;
  icmp_rewrite_type p i :
    icmp_checked p = Ok tt → is_echo (icmp_msg_type p) →
    icmp_msg_type (icmp_fill_checksum (icmp_set_echo_ident i p)) = icmp_msg_type p;
  icmp_rewrite_ident p i :
    icmp_checked p = Ok tt → is_echo (icmp_msg_type p) → 0 ≤ i < 2 ^ 16 →
    icmp_echo_ident (icmp_fill_checksum (icmp_set_echo_ident i p)) = i;
  icmp_rewrite_length p i :
    icmp_checked p = Ok tt → is_echo (icmp_msg_type p) →
    length (icmp_fill_checksum (icmp_set_echo_ident i p)) = length p;
  icmp_rewrite_again p i j :
    icmp_checked p = Ok tt → is_echo (icmp_msg_type p) →
    icmp_fill_checksum (icmp_set_echo_ident j (icmp_fill_checksum (icmp_set_echo_ident i p)))
    = icmp_fill_checksum (icmp_set_echo_ident j p);
  icmp_rewrite_same p :
    Forall octet p → icmp_checked p = Ok tt → is_echo (icmp_msg_type p) →
    icmp_fill_checksum (icmp_set_echo_ident (icmp_echo_ident p) p) = icmp_fill_checksum p
}.

(** ** Keys *)

Record IcmpSessionKey := mkIcmpKey {
  ik_client : Ipv4Addr; ik_target : Ipv4Addr; ik_kind : Z; ik_code : Z; ik_identifier : option Z
}.
#[global] Instance IcmpSessionKey_eq_dec : EqDecision IcmpSessionKey.
Proof. solve_decision. Defined.
#[global, program] Instance IcmpSessionKey_countable : Countable IcmpSessionKey :=
  inj_countable (λ k, (ik_client k, ik_target k, ik_kind k, ik_code k, ik_identifier k))
                (λ '(a, b, c, d, e), Some (mkIcmpKey a b c d e)) _.
Next Obligation. by intros []. Qed.

Definition extract_icmp_identifier (payload : bytes) : option Z :=
  match payload with
  | b0 :: _ :: _ :: _ :: b4 :: b5 :: _ :: _ :: _ =>
      if (b0 =? 0) || (b0 =? 8) then Some (from_be_bytes b4 b5) else None
  | _ => None
  end.

Record InboundIcmpPacket := mkInboundIcmp {
  in_key : IcmpSessionKey; in_client : Ipv4Addr; in_target : Ipv4Addr; in_kind : Z; in_code : Z;
  in_payload : bytes
}.

(** [NEXT_ICMP_PROXY_IDENT.fetch_add(1)] on an [AtomicU16]. *)
Definition next_icmp_proxy_ident (counter : Z) : Z * Z := (counter, (counter + 1) as_u16).

Definition invalid_data {A} (text : rstr) : result io_error A := Err (mkIoError InvalidData text).

Section icmp.
Context `{IcmpWire}.

Definition parse_inbound_icmp_packet (packet : bytes) : result io_error InboundIcmpPacket :=
  match ipv4_checked packet with
  | Err e => invalid_data e
  | Ok ipv4 =>
      if negb (iv_next_header ipv4 =? PROTO_ICMP) then invalid_data (lit "raw packet is not icmp")
      else
        match iv_payload ipv4 with
        | kind :: code :: _ :: _ :: _ =>
            let client := iv_src ipv4 in
            let target := iv_dst ipv4 in
            let identifier := extract_icmp_identifier (iv_payload ipv4) in
            Ok (mkInboundIcmp (mkIcmpKey client target kind code identifier)
                  client target kind code (iv_payload ipv4))
        | _ => invalid_data (lit "icmp payload too short")
        end
  end.

Definition rewrite_icmp_echo_request (payload : bytes) (original_ident : option Z) (proxy_ident : Z)
    : result io_error bytes :=
  match icmp_checked payload with
  | Err e => invalid_data e
  | Ok _ =>
      if negb (icmp_msg_type payload =? ECHO_REQUEST) then Ok payload
      else Ok (icmp_fill_checksum (icmp_set_echo_ident proxy_ident payload))
  end.

Definition rewrite_icmp_echo_reply (payload : bytes) (original_ident : option Z) (proxy_ident : Z)
    : result io_error bytes :=
  match icmp_checked payload with
  | Err e => invalid_data e
  | Ok _ =>
      if negb (icmp_msg_type payload =? ECHO_REPLY) then Ok payload
      else if negb (icmp_echo_ident payload =? proxy_ident)
      then invalid_data (lit "icmp echo reply proxy ident mismatch")
      else
        let original_ident := default proxy_ident original_ident in
        Ok (icmp_fill_checksum (icmp_set_echo_ident original_ident payload))
  end.

(** The payload handed to the outbound socket, or the error; [send] is what the
    socket answers. *)
Definition forward_icmp_request (send : bytes -> result io_error Z) (packet : bytes)
    (original_ident : option Z) (proxy_ident : Z) : result io_error bytes :=
  match ipv4_checked packet with
  | Err e => invalid_data e
  | Ok ipv4 =>
      if negb (iv_next_header ipv4 =? PROTO_ICMP)
      then invalid_data (lit "outbound packet is not icmp")
      else
        payload ← rewrite_icmp_echo_request (iv_payload ipv4) original_ident proxy_ident;
        sent ← send payload;
        if negb (sent =? blen payload)
        then Err (mkIoError WriteZero (lit "failed to send full icmp payload"))
        else Ok payload
  end.

Definition build_icmp_reply_packet (client target : Ipv4Addr) (reply : bytes)
    (original_ident : option Z) (proxy_ident : Z) : result io_error bytes :=
  let raw :=
    payload ← rewrite_icmp_echo_reply reply original_ident proxy_ident;
    Ok (target, DEFAULT_IP_TTL, payload) in
  '(src_addr, hop_limit, payload) ←
    match ipv4_checked reply with
    | Ok ipv4 =>
        if iv_next_header ipv4 =? PROTO_ICMP then
          payload ← rewrite_icmp_echo_reply (iv_payload ipv4) original_ident proxy_ident;
          Ok (target, iv_hop_limit ipv4, payload)
        else raw
    | Err _ => raw
    end;
  Ok (ipv4_emit (mkIpv4View src_addr client PROTO_ICMP hop_limit payload)).

(** ** The inbound loop *)

Definition icmp_allowed (f : IpFilters) (k : IcmpSessionKey) : bool :=
  is_allowed f (V4 (ik_client k)) (V4 (ik_target k)).

(** A session task returns at once, leaving its key, when the upstream server is
    not an IPv4 address. *)
Definition icmp_early_exit (up : UpstreamServer) (k : IcmpSessionKey) : bool :=
  negb (is_ok (translate_ipv4 up (ik_target k))).

(** One iteration of [handle_inbound_icmp] up to the send. *)
Definition handle_inbound_icmp (f : IpFilters) (r : result rstr bytes)
    (s : @ProxyState IcmpSessionKey _ _) : @ProxyState IcmpSessionKey _ _ :=
  match r with
  | Err _ => s
  | Ok packet =>
      match parse_inbound_icmp_packet packet with
      | Err _ => s
      | Ok i =>
          if negb (is_allowed f (V4 (in_client i)) (V4 (in_target i))) then s
          else inbound (in_key i) packet s
      end
  end.

(** * Lemmas *)

Lemma parse_inbound_ok packet i :
  parse_inbound_icmp_packet packet = Ok i →
  ∃ v, ipv4_checked packet = Ok v ∧ iv_next_header v = PROTO_ICMP ∧ in_payload i = iv_payload v
    ∧ in_client i = iv_src v ∧ in_target i = iv_dst v
    ∧ in_key i = mkIcmpKey (iv_src v) (iv_dst v) (in_kind i) (in_code i)
                   (extract_icmp_identifier (iv_payload v)).
Proof.
  unfold parse_inbound_icmp_packet. destruct (ipv4_checked packet) as [v|]; [|done].
  destruct (iv_next_header v =? PROTO_ICMP) eqn:E; [simpl|done].
  destruct (iv_payload v) as [|b0 [|b1 [|b2 [|b3 rest]]]] eqn:Ep; try done.
  intros [= <-]. exists v. rewrite Ep. split_and!; (done || lia).
Qed.

Lemma handle_inbound_icmp_steps f up r s :
  pr_pending s = None →
  handle_inbound_icmp f r s = s
  ∨ pstep (icmp_allowed f) (icmp_early_exit up) s (handle_inbound_icmp f r s).
Proof.
  intros Hp. unfold handle_inbound_icmp. destruct r as [packet|]; [|by left].
  destruct (parse_inbound_icmp_packet packet) as [i|] eqn:Ei; [|by left].
  destruct (is_allowed f _ _) eqn:Ea; simpl; [|by left]. right. constructor; [done|].
  apply parse_inbound_ok in Ei as (v & _ & _ & _ & Hc & Ht & Hk).
  unfold icmp_allowed. rewrite Hk. simpl. by rewrite <- Hc, <- Ht.
Qed.

(** The identifier of the session key is the echo identifier of the packet. *)
Lemma extract_identifier_echo p :
  icmp_checked p = Ok tt → is_echo (icmp_msg_type p) →
  extract_icmp_identifier p = Some (icmp_echo_ident p).
Proof.
  intros Hc He. pose proof (icmp_echo_length p Hc He) as Hl.
  destruct p as [|b0 [|b1 [|b2 [|b3 [|b4 [|b5 [|b6 [|b7 rest]]]]]]]]; simpl in Hl; try lia.
  destruct (icmp_ident_bytes _ _ _ _ _ _ _ _ eq_refl Hc) as [-> Ht]. rewrite Ht in He.
  simpl. destruct He as [->| ->]; done.
Qed.

Lemma rewrite_request_echo p o i :
  icmp_checked p = Ok tt → icmp_msg_type p = ECHO_REQUEST →
  rewrite_icmp_echo_request p o i = Ok (icmp_fill_checksum (icmp_set_echo_ident i p)).
Proof. intros Hc Ht. unfold rewrite_icmp_echo_request. by rewrite Hc, Ht. Qed.

Lemma rewrite_reply_echo p o i :
  icmp_checked p = Ok tt → icmp_msg_type p = ECHO_REPLY →
  rewrite_icmp_echo_reply p o i =
    if icmp_echo_ident p =? i
    then Ok (icmp_fill_checksum (icmp_set_echo_ident (default i o) p))
    else invalid_data (lit "icmp echo reply proxy ident mismatch").
Proof. intros Hc Ht. unfold rewrite_icmp_echo_reply. rewrite Hc, Ht. by destruct (_ =? i). Qed.

(** Translating a reply to the proxy's identifier and back. *)
Lemma rewrite_reply_restores p i :
  Forall octet p → icmp_checked p = Ok tt → icmp_msg_type p = ECHO_REPLY → 0 ≤ i < 2 ^ 16 →
  icmp_fill_checksum p = p →
  rewrite_icmp_echo_reply (icmp_fill_checksum (icmp_set_echo_ident i p))
    (Some (icmp_echo_ident p)) i = Ok p.
Proof.
  intros Ho Hc Ht Hi Hf. assert (is_echo (icmp_msg_type p)) as He by (left; done).
  rewrite rewrite_reply_echo; [|by apply icmp_rewrite_checked|by rewrite icmp_rewrite_type].
  rewrite icmp_rewrite_ident, Z.eqb_refl by done. simpl.
  by rewrite icmp_rewrite_again, icmp_rewrite_same, Hf.
Qed.
End icmp.

(** ** A concrete packet library: IPv4 without options, a byte sum for checksum *)
Module PlainIcmp.

Definition plain_emit (v : Ipv4View) : bytes :=
  [69; 0; 0; 0; 0; 0; 0; 0; iv_hop_limit v; iv_next_header v; 0; 0;
   oct0 (iv_src v); oct1 (iv_src v); oct2 (iv_src v); oct3 (iv_src v);
   oct0 (iv_dst v); oct1 (iv_dst v); oct2 (iv_dst v); oct3 (iv_dst v)] ++ iv_payload v.
Definition plain_checked (b : bytes) : result rstr Ipv4View :=
  match b with
  | 69 :: _ :: _ :: _ :: _ :: _ :: _ :: _ :: ttl :: proto :: _ :: _
    :: s0 :: s1 :: s2 :: s3 :: d0 :: d1 :: d2 :: d3 :: payload =>
      Ok (mkIpv4View (Ipv4Addr_new s0 s1 s2 s3) (Ipv4Addr_new d0 d1 d2 d3) proto ttl payload)
  | _ => Err (lit "truncated")
  end.
Definition plain_icmp_checked (b : bytes) : result rstr unit :=
  if (8 <=? Z.of_nat (length b)) then Ok tt else Err (lit "truncated").
Definition plain_ident (b : bytes) : Z :=
  match b with _ :: _ :: _ :: _ :: i0 :: i1 :: _ => from_be_bytes i0 i1 | _ => 0 end.
Definition plain_set (i : Z) (b : bytes) : bytes :=
  match b with
  | b0 :: b1 :: b2 :: b3 :: _ :: _ :: rest => b0 :: b1 :: b2 :: b3 :: i / 256 :: i mod 256 :: rest
  | _ => b
  end.
Definition plain_fill (b : bytes) : bytes :=
  match b with
  | b0 :: b1 :: _ :: _ :: i0 :: i1 :: rest =>
      let sum := foldl Z.add (b0 + b1 + from_be_bytes i0 i1) rest in
      b0 :: b1 :: (sum / 256) mod 256 :: sum mod 256 :: i0 :: i1 :: rest
  | _ => b
  end.

(** A checked message has its six leading bytes. *)
Lemma plain_checked_cases p :
  plain_icmp_checked p = Ok tt →
  ∃ b0 b1 b2 b3 i0 i1 r0 r1 rest, p = b0 :: b1 :: b2 :: b3 :: i0 :: i1 :: r0 :: r1 :: rest.
Proof.
  unfold plain_icmp_checked. destruct (8 <=? Z.of_nat (length p)) eqn:E; [|done].
  destruct p as [|b0 [|b1 [|b2 [|b3 [|i0 [|i1 [|r0 [|r1 rest]]]]]]]]; simpl in E;
    try lia; try discriminate E. intros _. by eexists _, _, _, _, _, _, _, _, _.
Qed.

Lemma be_split i : from_be_bytes (i / 256) (i mod 256) = i.
Proof. unfold from_be_bytes. div_lia. Qed.

#[export] Program Instance plain_icmp : IcmpWire := {|
  ipv4_checked := plain_checked;
  ipv4_emit := plain_emit;
  icmp_checked := plain_icmp_checked;
  icmp_msg_type b := match b with b0 :: _ => b0 | [] => 0 end;
  icmp_echo_ident := plain_ident;
  icmp_set_echo_ident := plain_set;
  icmp_fill_checksum := plain_fill
|}.
Next Obligation. by intros [[] [] ? ? ?] _. Qed.
Next Obligation. by intros ? ? ? ? ? ? ? ? ->. Qed.
Next Obligation. intros p Hc _. revert Hc. unfold plain_icmp_checked. case_match; [lia|done]. Qed.
Next Obligation.
  intros p i Hc _. pose proof (plain_checked_cases p Hc) as (?&?&?&?&?&?&?&?&?& ->). exact Hc.
Qed.
Next Obligation.
  intros p i Hc _. by destruct (plain_checked_cases p Hc) as (?&?&?&?&?&?&?&?&?& ->).
Qed.
Next Obligation.
  intros p i Hc _ _. destruct (plain_checked_cases p Hc) as (?&?&?&?&?&?&?&?&?& ->). apply be_split.
Qed.
Next Obligation.
  intros p i Hc _. by destruct (plain_checked_cases p Hc) as (?&?&?&?&?&?&?&?&?& ->).
Qed.
Next Obligation.
  intros p i j Hc _. by destruct (plain_checked_cases p Hc) as (?&?&?&?&?&?&?&?&?& ->).
Qed.
Next Obligation.
  intros p Ho Hc _. destruct (plain_checked_cases p Hc) as (b0&b1&b2&b3&i0&i1&r0&r1&rest& ->).
  do 4 (apply Forall_cons in Ho as [_ Ho]).
  apply Forall_cons in Ho as [H0 [H1 _]%Forall_cons]. unfold octet in *.
  unfold plain_set, plain_ident, from_be_bytes.
  replace ((i0 * 256 + i1) / 256) with i0 by div_lia.
  by replace ((i0 * 256 + i1) mod 256) with i1 by div_lia.
Qed.
End PlainIcmp.

(** * Properties *)

Section properties.
Context `{IcmpWire}.

(** C23: An echo request of a session is sent on with the session's own identifier
    and otherwise as a valid message of the same type, and the session's key
    records the client's identifier, which is the one in the request. *)
Theorem icmp_request_translated packet i send proxy_ident :
  parse_inbound_icmp_packet packet = Ok i → icmp_checked (in_payload i) = Ok tt →
  icmp_msg_type (in_payload i) = ECHO_REQUEST → 0 ≤ proxy_ident < 2 ^ 16 →
  (∀ p, send p = Ok (blen p)) →
  ik_identifier (in_key i) = Some (icmp_echo_ident (in_payload i))
  ∧ ∃ p', forward_icmp_request send packet (ik_identifier (in_key i)) proxy_ident = Ok p'
      ∧ icmp_checked p' = Ok tt ∧ icmp_msg_type p' = ECHO_REQUEST
      ∧ icmp_echo_ident p' = proxy_ident ∧ length p' = length (in_payload i).
Proof.
  intros (v & Hv & Hn & Hp & _ & _ & Hk)%parse_inbound_ok Hc Ht Hi Hsend. rewrite Hp in *.
  assert (is_echo (icmp_msg_type (iv_payload v))) as He by (by right).
  split; [rewrite Hk; by apply extract_identifier_echo|].
  eexists. unfold forward_icmp_request. rewrite Hv, Hn. simpl.
  rewrite rewrite_request_echo by done. simpl. rewrite Hsend. simpl. rewrite Z.eqb_refl.
  split; [done|]. split; [by apply icmp_rewrite_checked|].
  split; [by rewrite icmp_rewrite_type|].
  split; [by apply icmp_rewrite_ident|by apply icmp_rewrite_length].
Qed.

(** C22: Address and identifier translation is undone exactly: if the target
    answers the translated request with the echo reply [r] that it would have
    sent to the client, but carrying the session's identifier, then, whatever
    host the answer came from, the client receives [r] itself in a packet from
    the original target; an echo reply with any other identifier is an error,
    which ends the session. *)
Theorem icmp_reply_restored client target from to hop r proxy_ident :
  Forall octet r → icmp_checked r = Ok tt → icmp_msg_type r = ECHO_REPLY →
  icmp_fill_checksum r = r → blen r + 20 < 2 ^ 16 → 0 ≤ proxy_ident < 2 ^ 16 →
  let answer := icmp_fill_checksum (icmp_set_echo_ident proxy_ident r) in
  let reply := ipv4_emit (mkIpv4View from to PROTO_ICMP hop answer) in
  (∃ packet,
     build_icmp_reply_packet client target reply (Some (icmp_echo_ident r)) proxy_ident = Ok packet
     ∧ ipv4_checked packet = Ok (mkIpv4View target client PROTO_ICMP hop r))
  ∧ (∀ other, other ≠ proxy_ident →
       is_ok (build_icmp_reply_packet client target reply (Some (icmp_echo_ident r)) other) = false).
Proof.
  intros Ho Hc Ht Hf Hl Hi answer reply.
  assert (is_echo (icmp_msg_type r)) as He by (by left).
  assert (ipv4_checked reply = Ok (mkIpv4View from to PROTO_ICMP hop answer)) as Hr.
  { apply ipv4_emit_checked. simpl. unfold blen, answer in *. by rewrite icmp_rewrite_length. }
  unfold build_icmp_reply_packet. rewrite Hr. simpl. split.
  - eexists. unfold answer. rewrite rewrite_reply_restores by done. split; [done|].
    by apply ipv4_emit_checked.
  - intros other Hne. unfold answer.
    rewrite rewrite_reply_echo; [|by apply icmp_rewrite_checked|by rewrite icmp_rewrite_type].
    rewrite icmp_rewrite_ident by done. by rewrite (proj2 (Z.eqb_neq _ _)) by done.
Qed.
End properties.

(** ** The properties at concrete inputs *)

Import PlainIcmp.

Definition sample_echo : bytes := plain_fill [8; 0; 0; 0; 0; 7; 0; 1; 42].
Definition sample_echo_reply : bytes := plain_fill [0; 0; 0; 0; 0; 7; 0; 1; 42].
Definition sample_icmp_view : Ipv4View :=
  mkIpv4View (Ipv4Addr_new 10 0 0 2) (Ipv4Addr_new 8 8 8 8) PROTO_ICMP 64 sample_echo.
Definition sample_inbound : InboundIcmpPacket :=
  mkInboundIcmp (mkIcmpKey (Ipv4Addr_new 10 0 0 2) (Ipv4Addr_new 8 8 8 8) 8 0 (Some 7))
    (Ipv4Addr_new 10 0 0 2) (Ipv4Addr_new 8 8 8 8) 8 0 sample_echo.

Lemma icmp_request_translated_witness :
  Some 7 = Some (icmp_echo_ident sample_echo)
  ∧ ∃ p', forward_icmp_request (λ p, Ok (blen p)) (ipv4_emit sample_icmp_view) (Some 7) 0x4000 = Ok p'
      ∧ icmp_checked p' = Ok tt ∧ icmp_msg_type p' = ECHO_REQUEST
      ∧ icmp_echo_ident p' = 0x4000 ∧ length p' = length sample_echo.
Proof.
  apply (icmp_request_translated (ipv4_emit sample_icmp_view) sample_inbound (λ p, Ok (blen p)) 0x4000);
    try reflexivity. lia.
Defined.

Lemma icmp_reply_restored_witness :
  let answer := icmp_fill_checksum (icmp_set_echo_ident 0x4000 sample_echo_reply) in
  let reply := ipv4_emit (mkIpv4View (Ipv4Addr_new 9 9 9 9) (Ipv4Addr_new 192 168 1 2) PROTO_ICMP 55 answer) in
  (∃ packet,
     build_icmp_reply_packet (Ipv4Addr_new 10 0 0 2) (Ipv4Addr_new 8 8 8 8) reply (Some (icmp_echo_ident sample_echo_reply)) 0x4000
       = Ok packet
     ∧ ipv4_checked packet
       = Ok (mkIpv4View (Ipv4Addr_new 8 8 8 8) (Ipv4Addr_new 10 0 0 2) PROTO_ICMP 55 sample_echo_reply))
  ∧ (∀ other, other ≠ 0x4000 →
       is_ok (build_icmp_reply_packet (Ipv4Addr_new 10 0 0 2) (Ipv4Addr_new 8 8 8 8) reply (Some (icmp_echo_ident sample_echo_reply)) other)
       = false).
Proof.
  apply (icmp_reply_restored (Ipv4Addr_new 10 0 0 2) (Ipv4Addr_new 8 8 8 8) (Ipv4Addr_new 9 9 9 9)
    (Ipv4Addr_new 192 168 1 2) 55 sample_echo_reply 0x4000);
    try reflexivity; try lia.
  vm_compute. repeat constructor; (discriminate || reflexivity).
Defined.
