(* ===== verification/Session.v ===== *)
(** * Session: the tasks of the transparent proxy ([transparent_proxy/udp_proxy.rs],
    [tcp_proxy.rs], [icmp_proxy.rs], [mod.rs])

    What one proxy session does from its start to its end: the outbound socket,
    both directions of the relay, the removal of its key and the counters of
    active sessions.  A session is a function of the events its [select!]
    receives and gives the list of its actions ([SAct]) and, once it has ended,
    its result; [Proxy] has the system of all sessions and their table. *)

From S2P Require Import Prelude RStr Net Codec Proxy Link Icmp.

(** ** Outbound sockets *)

Inductive Domain := IPV4 | IPV6.
Inductive SockType := STREAM | DGRAM | RAW.
Inductive SockCall :=
| SockNew (d : Domain) (t : SockType)
| SockBindDevice (d : Domain) (interface : rstr)
| SockKeepalive | SockNodelay | SockNonblocking | SockFromStd
| SockConnect (addr : SocketAddr).

Definition domain_of (ip : IpAddr) : Domain := match ip with V4 _ => IPV4 | V6 _ => IPV6 end.

(** Calls made in order until one fails: those made, and the first error. *)
Fixpoint run_calls (env : SockCall -> result io_error unit) (calls : list SockCall)
    : list SockCall * result io_error unit :=
  match calls with
  | [] => ([], Ok tt)
  | c :: rest =>
      match env c with
      | Err e => ([c], Err e)
      | Ok _ => let '(made, r) := run_calls env rest in (c :: made, r)
      end
  end.

Definition bind_calls (interface : rstr) (ip : IpAddr) : list SockCall :=
  if binds_interface interface ip then [SockBindDevice (domain_of ip) interface] else [].

Definition new_udp_packet (env : SockCall -> result io_error unit) (addr : SocketAddr) (interface : rstr)
    : list SockCall * result io_error unit :=
  run_calls env ([SockNew (domain_of (sa_ip addr)) DGRAM] ++ bind_calls interface (sa_ip addr)
                 ++ [SockNonblocking; SockFromStd; SockConnect addr]).
Definition new_tcp_stream (env : SockCall -> result io_error unit) (addr : SocketAddr) (interface : rstr)
    : list SockCall * result io_error unit :=
  run_calls env ([SockNew (domain_of (sa_ip addr)) STREAM] ++ bind_calls interface (sa_ip addr)
                 ++ [SockKeepalive; SockNodelay; SockNonblocking; SockConnect addr]).
Definition new_icmp_socket (env : SockCall -> result io_error unit) (addr : Ipv4Addr) (interface : rstr)
    : list SockCall * result io_error unit :=
  run_calls env ([SockNew IPV4 RAW] ++ bind_calls interface (V4 addr)
                 ++ [SockConnect (SocketAddr_new (V4 addr) 0)]).

(** ** Statistics *)

Record ProxyStats := mkStats { active_tcp : Z; active_udp : Z; active_icmp : Z }.
Definition ProxyStats_default : ProxyStats := mkStats 0 0 0.

Inductive Counter := ActiveTcp | ActiveUdp | ActiveIcmp.
Definition counter (k : Counter) (st : ProxyStats) : Z :=
  match k with ActiveTcp => active_tcp st | ActiveUdp => active_udp st | ActiveIcmp => active_icmp st end.
Definition fetch_add (k : Counter) (n : Z) (st : ProxyStats) : ProxyStats :=
  match k with
  | ActiveTcp => mkStats (active_tcp st + n) (active_udp st) (active_icmp st)
  | ActiveUdp => mkStats (active_tcp st) (active_udp st + n) (active_icmp st)
  | ActiveIcmp => mkStats (active_tcp st) (active_udp st) (active_icmp st + n)
  end.

(** ** Actions of a session *)

Inductive SAct :=
| StatAdd (k : Counter)                             (* stats.active_*.fetch_add(1) *)
| StatSub (k : Counter)                             (* stats.active_*.fetch_sub(1) *)
| OutSend (data : bytes)                            (* to the outbound socket *)
| UdpReply (data : bytes) (from to : SocketAddr)    (* socket.send_from *)
| RawReply (packet : bytes)                         (* tun_socket.send *)
| RemoveKey.                                        (* sessions.remove(&key) *)

(** The end of a session with a key, whatever its result. *)
Definition session_end (k : Counter) : list SAct := [RemoveKey; StatSub k].

(** ** UDP *)

(** The branches of the [select!]: a datagram from the channel with the outcome of
    sending it on, a reply from the target with the outcome of sending it to the
    client ([None] when that takes more than 100 ms), 30 s without either. *)
Inductive UdpSessEvent :=
| UsData (data : option bytes) (send : result io_error unit)
| UsRecv (r : result io_error bytes) (reply : option (result io_error unit))
| UsTimeout.

(** [inl] is the end of the loop with its result. *)
Definition udp_session_step (client target : SocketAddr) (ev : UdpSessEvent)
    : list SAct * (result io_error unit + unit) :=
  match ev with
  | UsData (Some data) (Ok _) => ([OutSend data], inr tt)
  | UsData (Some _) (Err e) => ([], inl (Err e))
  | UsData None _ => ([], inl (Ok tt))
  | UsRecv (Err e) _ => ([], inl (Err e))
  | UsRecv (Ok buf) (Some (Ok _)) => ([UdpReply buf target client], inr tt)
  | UsRecv (Ok _) (Some (Err e)) => ([], inl (Err e))
  | UsRecv (Ok _) None => ([], inr tt)
  | UsTimeout => ([], inl (Ok tt))
  end.

(** A loop over [select!]: the actions, and the result once it has ended. *)
Fixpoint session_loop {Ev} (step : Ev -> list SAct * (result io_error unit + unit)) (evs : list Ev)
    : list SAct * option (result io_error unit) :=
  match evs with
  | [] => ([], None)
  | ev :: evs' =>
      match step ev with
      | (acts, inl r) => (acts, Some r)
      | (acts, inr _) => let '(acts', r) := session_loop step evs' in (acts ++ acts', r)
      end
  end.

(** The session around its loop: counted from the start, and when it ends its key
    is removed and it is no longer counted. *)
Definition run_session {Ev} (k : Counter) (opened : result io_error unit)
    (step : Ev -> list SAct * (result io_error unit + unit)) (evs : list Ev)
    : list SAct * option (result io_error unit) :=
  let '(acts, r) := match opened with Ok _ => session_loop step evs | Err e => ([], Some (Err e)) end in
  (StatAdd k :: acts ++ (if is_some r then session_end k else []), r).

Definition handle_udp_session (env : SockCall -> result io_error unit) (client target : SocketAddr)
    (interface : rstr) (upstream : UpstreamServer) (evs : list UdpSessEvent)
    : list SAct * option (result io_error unit) :=
  let outbound_target := translate_socket upstream target in
  run_session ActiveUdp (new_udp_packet env outbound_target interface).2 (udp_session_step client target) evs.

(** ** TCP *)

(** The task of one accepted connection; [copy] is the outcome of the relay,
    [None] while it runs. *)
Definition tcp_session (env : SockCall -> result io_error unit) (upstream : UpstreamServer)
    (local_addr : SocketAddr) (interface : rstr) (copy : option (result io_error unit))
    : list SAct * option (result io_error unit) :=
  let outbound_addr := translate_socket upstream local_addr in
  match (new_tcp_stream env outbound_addr interface).2 with
  | Err e => ([StatAdd ActiveTcp; StatSub ActiveTcp], Some (Err e))
  | Ok _ => (StatAdd ActiveTcp :: (if is_some copy then [StatSub ActiveTcp] else []), copy)
  end.

(** [handle_inbound_stream]: the connections it spawns a task for, and the error it
    returns with, if any. *)
Record Accepted := mkAccepted { ac_peer : SocketAddr; ac_local : result io_error SocketAddr }.
Fixpoint handle_inbound_stream (f : IpFilters) (accepts : list (result io_error Accepted))
    : list (SocketAddr * SocketAddr) * option io_error :=
  match accepts with
  | [] => ([], None)
  | Err e :: _ => ([], Some e)
  | Ok a :: rest =>
      match ac_local a with
      | Err e => ([], Some e)
      | Ok local_addr =>
          let '(conns, r) := handle_inbound_stream f rest in
          (if negb (is_allowed f (sa_ip (ac_peer a)) (sa_ip local_addr)) then conns
           else (ac_peer a, local_addr) :: conns, r)
      end
  end.

(** ** ICMP *)

Inductive IcmpSessEvent :=
| IsPacket (packet : option bytes) (send : bytes -> result io_error Z)
| IsReply (reply : option bytes) (send : result io_error unit)
| IsTimeout.

Section icmp.
Context `{IcmpWire}.

Definition icmp_session_step (key : IcmpSessionKey) (proxy_ident : Z) (ev : IcmpSessEvent)
    : list SAct * (result io_error unit + unit) :=
  match ev with
  | IsPacket (Some packet) send =>
      match forward_icmp_request send packet (ik_identifier key) proxy_ident with
      | Ok payload => ([OutSend payload], inr tt)
      | Err e => ([], inl (Err e))
      end
  | IsPacket None _ => ([], inl (Ok tt))
  | IsReply (Some reply) send =>
      match build_icmp_reply_packet (ik_client key) (ik_target key) reply (ik_identifier key) proxy_ident with
      | Err e => ([], inl (Err e))
      | Ok packet =>
          match send with
          | Ok _ => ([RawReply packet], inr tt)
          | Err e => ([], inl (Err e))
          end
      end
  | IsReply None _ => ([], inl (Ok tt))
  | IsTimeout => ([], inl (Ok tt))
  end.

(** [opened] is the outcome of opening and cloning the socket; the identifier is
    taken from the counter only then.  Gives the actions, the result and the
    counter. *)
Definition handle_icmp_session (env : SockCall -> result io_error unit) (try_clone : result io_error unit)
    (key : IcmpSessionKey) (interface : rstr) (upstream : UpstreamServer) (counter : Z)
    (evs : list IcmpSessEvent) : list SAct * option (result io_error unit) * Z :=
  match translate_ipv4 upstream (ik_target key) with
  | Err _ => ([], Some (Ok tt), counter)
  | Ok outbound_target =>
      let opened := _ ← (new_icmp_socket env outbound_target interface).2; try_clone in
      let '(proxy_ident, counter') := next_icmp_proxy_ident counter in
      (run_session ActiveIcmp opened (icmp_session_step key proxy_ident) evs,
       if is_ok opened then counter' else counter)
  end.
End icmp.

(** ** All sessions *)

(** What an action does to the statistics, and their values after some actions. *)
Definition stats_step (st : ProxyStats) (a : SAct) : ProxyStats :=
  match a with StatAdd k => fetch_add k 1 st | StatSub k => fetch_add k (-1) st | _ => st end.
Definition stats_after (acts : list SAct) : ProxyStats := foldl stats_step ProxyStats_default acts.

(** A session of one of the three proxies, with what its environment answers. *)
Inductive Sess :=
| UdpSess (env : SockCall -> result io_error unit) (client target : SocketAddr) (interface : rstr)
    (upstream : UpstreamServer) (evs : list UdpSessEvent)
| TcpSess (env : SockCall -> result io_error unit) (upstream : UpstreamServer) (local_addr : SocketAddr)
    (interface : rstr) (copy : option (result io_error unit))
| IcmpSess (env : SockCall -> result io_error unit) (try_clone : result io_error unit)
    (key : IcmpSessionKey) (interface : rstr) (upstream : UpstreamServer) (counter : Z)
    (evs : list IcmpSessEvent).

Definition sess_counter (s : Sess) : Counter :=
  match s with UdpSess _ _ _ _ _ _ => ActiveUdp | TcpSess _ _ _ _ _ => ActiveTcp
  | IcmpSess _ _ _ _ _ _ _ => ActiveIcmp end.

Section sess.
Context `{IcmpWire}.

(** What the session has done so far and, once it has ended, its result. *)
Definition sess_run (s : Sess) : list SAct * option (result io_error unit) :=
  match s with
  | UdpSess env client target interface up evs => handle_udp_session env client target interface up evs
  | TcpSess env up local_addr interface copy => tcp_session env up local_addr interface copy
  | IcmpSess env cl key interface up c evs => (handle_icmp_session env cl key interface up c evs).1
  end.

(** Of the session [s] the actions [p] have taken place: it is one of the
    sessions of [k], has started, and has not ended. *)
Definition in_progress (k : Counter) (sp : Sess * list SAct) : Prop :=
  sess_counter sp.1 = k ∧ sp.2 ≠ [] ∧ ¬ (is_Some (sess_run sp.1).2 ∧ sp.2 = (sess_run sp.1).1).
End sess.

(** * Lemmas *)

#[global] Instance Counter_eq_dec : EqDecision Counter.
Proof. solve_decision. Defined.
#[global] Instance SAct_eq_dec : EqDecision SAct.
Proof. solve_decision. Defined.
#[global] Instance in_progress_dec `{IcmpWire} k sp : Decision (in_progress k sp).
Proof. unfold in_progress. apply _. Defined.

(** The value some actions add to a counter. *)
Fixpoint active (k : Counter) (acts : list SAct) : Z :=
  match acts with
  | [] => 0
  | StatAdd k' :: l => (if decide (k' = k) then 1 else 0) + active k l
  | StatSub k' :: l => active k l - (if decide (k' = k) then 1 else 0)
  | _ :: l => active k l
  end.

Lemma active_stats k acts : counter k (stats_after acts) = active k acts.
Proof.
  enough (∀ st, counter k (foldl stats_step st acts) = counter k st + active k acts) as Hf
    by (unfold stats_after; rewrite Hf; by destruct k).
  induction acts as [|a acts IH]; intros st; simpl; [lia|]. rewrite IH.
  destruct a as [[] |[]| | | |]; destruct k; simpl; lia.
Qed.

Lemma active_app k l1 l2 : active k (l1 ++ l2) = active k l1 + active k l2.
Proof. induction l1 as [|[] l1 IH]; simpl; lia. Qed.

#[global] Instance active_perm k : Proper ((≡ₚ) ==> (=)) (active k).
Proof. induction 1 as [|[] ? ? _ IH|[] []|]; simpl in *; lia. Qed.

(** Actions that do not count, and those that do not end a session either. *)
Definition quiet (a : SAct) : Prop := match a with StatAdd _ | StatSub _ => False | _ => True end.
Definition relays (a : SAct) : Prop :=
  match a with StatAdd _ | StatSub _ | RemoveKey => False | _ => True end.

Lemma relays_quiet body : Forall relays body → Forall quiet body.
Proof. intros Hb. eapply Forall_impl; [exact Hb|]. by intros []. Qed.
Lemma active_quiet k body : Forall quiet body → active k body = 0.
Proof. induction 1 as [|[] body Ha _ IH]; simpl; (done || lia). Qed.

Lemma session_loop_relays {Ev} (step : Ev -> _) evs :
  (∀ ev, Forall relays (step ev).1) → Forall relays (session_loop step evs).1.
Proof.
  intros Hs. induction evs as [|ev evs IH]; simpl; [constructor|]. specialize (Hs ev).
  destruct (step ev) as [acts [r|[]]]; simpl in *; [done|].
  destruct (session_loop step evs). simpl in *. by apply Forall_app.
Qed.

(** A session is counted with its first action and, when it has ended, discounted
    with its last. *)
Definition session_shape (k : Counter) (run : list SAct * option (result io_error unit)) : Prop :=
  ∃ body, Forall quiet body ∧ run.1 = StatAdd k :: body ++ (if is_some run.2 then [StatSub k] else []).

Lemma run_session_shape {Ev} k opened (step : Ev -> _) evs :
  (∀ ev, Forall relays (step ev).1) → session_shape k (run_session k opened step evs).
Proof.
  intros Hs. unfold run_session.
  destruct opened as [u|e]; [|exists [RemoveKey]; by repeat constructor].
  pose proof (relays_quiet _ (session_loop_relays step evs Hs)) as Hb.
  destruct (session_loop step evs) as [acts [r|]]; simpl in *; [|by exists acts].
  exists (acts ++ [RemoveKey]). split; [by apply Forall_app; repeat constructor|].
  simpl. by rewrite <- app_assoc.
Qed.

Lemma udp_step_relays client target ev : Forall relays (udp_session_step client target ev).1.
Proof. destruct ev as [[] []|[] [[]|]|]; repeat constructor. Qed.
Lemma icmp_step_relays `{IcmpWire} key ident ev : Forall relays (icmp_session_step key ident ev).1.
Proof.
  destruct ev as [[p|] send|[r|] send|]; simpl; try constructor; repeat case_match; repeat constructor.
Qed.

Lemma sess_run_shape `{IcmpWire} s : (sess_run s).1 = [] ∨ session_shape (sess_counter s) (sess_run s).
Proof.
  destruct s as [env client target interface up evs|env up loc interface copy|env cl key interface up c evs].
  - right. apply run_session_shape, udp_step_relays.
  - right. simpl. unfold tcp_session. destruct (new_tcp_stream _ _ _).2.
    + exists []. by destruct copy.
    + by exists [].
  - simpl. unfold handle_icmp_session. destruct (translate_ipv4 up (ik_target key)); [|by left]. simpl.
    right. apply run_session_shape, icmp_step_relays.
Qed.

(** What the actions of one session that have taken place add to a counter. *)
Lemma active_prefix `{IcmpWire} k s p :
  p `prefix_of` (sess_run s).1 → active k p = if decide (in_progress k (s, p)) then 1 else 0.
Proof.
  intros Hp. enough ((in_progress k (s, p) ∧ active k p = 1) ∨ (¬ in_progress k (s, p) ∧ active k p = 0))
    as [[? ->]|[? ->]] by (by case_decide).
  unfold in_progress. simpl. destruct (sess_run_shape s) as [Hnil|(body & Hb & Hacts)].
  { rewrite Hnil in *. apply prefix_nil_inv in Hp as ->. right. split; [tauto|done]. }
  destruct p as [|a p]; [right; split; [tauto|done]|].
  rewrite Hacts in *. apply prefix_cons_inv_1 in Hp as Ha. apply prefix_cons_inv_2 in Hp. subst a.
  set (c := sess_counter s) in *. simpl.
  assert (p `prefix_of` body → active k p = 0) as Hq.
  { intros Hq. apply active_quiet. eapply Forall_sublist; [by apply prefix_sublist|done]. }
  destruct (sess_run s).2 as [r|]; simpl in *.
  - destruct (decide (p = body ++ [StatSub c])) as [->|Hne].
    + right. rewrite active_app, (active_quiet k body Hb). simpl. split; [naive_solver|case_decide; lia].
    + rewrite Hq.
      * case_decide; [left|right]; (split; [|lia]); naive_solver.
      * destruct Hp as [z Hz]. destruct z as [|x z _] using rev_ind; [by rewrite app_nil_r in Hz|].
        rewrite app_assoc in Hz. apply app_inj_tail in Hz as [-> _]. by exists z.
  - rewrite app_nil_r in Hp. rewrite Hq by done.
    case_decide; [left|right]; (split; [|lia]); [|tauto].
    split; [done|]. split; [done|]. by intros [[? [=]] _].
Qed.

Lemma active_parts `{IcmpWire} k (ss : list Sess) (parts : list (list SAct)) :
  Forall2 prefix parts (map (λ s, (sess_run s).1) ss) →
  active k (concat parts) = Z.of_nat (length (filter (in_progress k) (zip ss parts))).
Proof.
  revert parts. induction ss as [|s ss IH]; intros parts Hp; simpl in *.
  - by apply Forall2_nil_inv_r in Hp as ->.
  - apply Forall2_cons_inv_r in Hp as (p & ps & Hp & Hps & ->). simpl.
    rewrite active_app, (IH ps Hps), (active_prefix k s p Hp), filter_cons.
    case_decide; simpl; lia.
Qed.

Lemma in_progress_bound `{IcmpWire} k (ss : list Sess) (parts : list (list SAct)) :
  (length (filter (in_progress k) (zip ss parts)) ≤ length (filter (λ s, sess_counter s = k) ss))%nat.
Proof.
  revert parts. induction ss as [|s ss IH]; intros [|p parts]; simpl; try lia.
  rewrite !filter_cons. specialize (IH parts).
  destruct (decide (in_progress k (s, p))) as [[Hk _]|]; [rewrite decide_True by done; simpl; lia|].
  case_decide; simpl; lia.
Qed.

(** ** What a session relays *)




(** ** The calls on outbound sockets *)

Lemma run_calls_ok env calls made : run_calls env calls = (made, Ok tt) → made = calls.
Proof.
  revert made. induction calls as [|c calls IH]; intros made; simpl; [by intros [= <-]|].
  destruct (env c); [|done]. destruct (run_calls env calls) as [m r]. intros [= <- ->].
  by rewrite (IH m eq_refl).
Qed.

(** The device a list of calls binds to. *)
Definition bound_device (c : SockCall) : option rstr :=
  match c with SockBindDevice _ i => Some i | _ => None end.

Lemma bind_calls_device interface ip :
  omap bound_device (bind_calls interface ip) = if binds_interface interface ip then [interface] else [].
Proof. unfold bind_calls. by destruct (binds_interface interface ip). Qed.

(** * Properties *)

Section properties.
Context `{IcmpWire}.

(** C14: The three counters of active sessions are exact at every moment: in any
    interleaving of any number of UDP, TCP and ICMP sessions, the counter of a
    protocol is the number of its sessions that have started and have not yet
    ended: each counts from its first action until, having a result (success,
    error or time-out), it has done its last.  So a counter is never negative and
    never above the number of sessions of its protocol. *)
Theorem active_counter_exact (ss : list Sess) out k :
  merges (map (λ s, (sess_run s).1) ss) out →
  ∃ parts, Forall2 prefix parts (map (λ s, (sess_run s).1) ss) ∧ out ≡ₚ concat parts
    ∧ counter k (stats_after out) = Z.of_nat (length (filter (in_progress k) (zip ss parts)))
    ∧ 0 ≤ counter k (stats_after out) ≤ Z.of_nat (length (filter (λ s, sess_counter s = k) ss)).
Proof.
  intros (parts & Hp & Ho)%merges_parts. exists parts. split; [done|]. split; [done|].
  rewrite active_stats, Ho, (active_parts k ss parts Hp). split; [done|].
  pose proof (in_progress_bound k ss parts). lia.
Qed.

End properties.

(** The sockets of the proxy leave by the configured interface: when a UDP, TCP
    or ICMP socket is opened, it has been bound to the interface before it is
    connected, unless no interface is configured or the target is a loopback
    address, in which case it has been bound to none. *)
Lemma egress_interface env addr v4 interface made :
  let bound ip := if binds_interface interface ip then [interface] else [] in
  (new_udp_packet env addr interface = (made, Ok tt) →
     ∃ pre, made = pre ++ [SockConnect addr] ∧ omap bound_device pre = bound (sa_ip addr))
  ∧ (new_tcp_stream env addr interface = (made, Ok tt) →
     ∃ pre, made = pre ++ [SockConnect addr] ∧ omap bound_device pre = bound (sa_ip addr))
  ∧ (new_icmp_socket env v4 interface = (made, Ok tt) →
     ∃ pre, made = pre ++ [SockConnect (SocketAddr_new (V4 v4) 0)]
       ∧ omap bound_device pre = bound (V4 v4)).
Proof.
  intros bound. split_and!; intros ->%run_calls_ok.
  - exists ([SockNew (domain_of (sa_ip addr)) DGRAM] ++ bind_calls interface (sa_ip addr)
      ++ [SockNonblocking; SockFromStd]). rewrite <- !app_assoc. split; [done|].
    rewrite !omap_app, bind_calls_device. simpl. by rewrite app_nil_r.
  - exists ([SockNew (domain_of (sa_ip addr)) STREAM] ++ bind_calls interface (sa_ip addr)
      ++ [SockKeepalive; SockNodelay; SockNonblocking]). rewrite <- !app_assoc. split; [done|].
    rewrite !omap_app, bind_calls_device. simpl. by rewrite app_nil_r.
  - exists ([SockNew IPV4 RAW] ++ bind_calls interface (V4 v4)). rewrite <- !app_assoc. split; [done|].
    by rewrite !omap_app, bind_calls_device.
Qed.

(** ** The properties at concrete inputs *)

Import PlainIcmp.

Definition all_ok : SockCall -> result io_error unit := λ _, Ok tt.
Definition sample_target : SocketAddr := SocketAddr_new (V4 (Ipv4Addr_new 8 8 8 8)) 53.
Definition sample_udp_evs : list UdpSessEvent :=
  [UsData (Some [1]) (Ok tt); UsRecv (Ok [2]) (Some (Ok tt)); UsRecv (Ok [3]) None; UsTimeout].
Definition sample_udp_client : SocketAddr := SocketAddr_new (V4 (Ipv4Addr_new 10 0 0 2)) 5000.


(** A TCP session that is still relaying, one that has ended, and the UDP session
    above, which has begun. *)
Definition sample_sessions : list Sess :=
  [TcpSess all_ok (mkUpstream None) sample_target [] None;
   TcpSess all_ok (mkUpstream None) sample_target [] (Some (Ok tt));
   UdpSess all_ok sample_udp_client sample_target [] (mkUpstream None) sample_udp_evs].
Definition sample_sess_acts : list SAct :=
  [StatAdd ActiveTcp; StatAdd ActiveUdp; StatAdd ActiveTcp; StatSub ActiveTcp].

Lemma active_counter_exact_witness :
  ∃ parts, Forall2 prefix parts (map (λ s, (sess_run s).1) sample_sessions)
    ∧ sample_sess_acts ≡ₚ concat parts
    ∧ counter ActiveTcp (stats_after sample_sess_acts)
      = Z.of_nat (length (filter (in_progress ActiveTcp) (zip sample_sessions parts)))
    ∧ 0 ≤ counter ActiveTcp (stats_after sample_sess_acts) ≤ 2.
Proof.
  apply (active_counter_exact sample_sessions sample_sess_acts ActiveTcp).
  apply (mg_cons _ 0%nat (StatAdd ActiveTcp) []); [reflexivity|].
  eapply (mg_cons _ 2%nat (StatAdd ActiveUdp)); [reflexivity|].
  eapply (mg_cons _ 1%nat (StatAdd ActiveTcp)); [reflexivity|].
  eapply (mg_cons _ 1%nat (StatSub ActiveTcp)); [reflexivity|]. constructor.
Defined.

Example one_tcp_session_active : counter ActiveTcp (stats_after sample_sess_acts) = 1.
Proof. reflexivity. Qed.
