(* ===== verification/ProxyTool.v ===== *)
(** * ProxyTool: running the transparent proxy ([transparent_proxy/mod.rs],
    [bin/transparent-proxy.rs])

    The network interface of the user-space stack, the threads that move packets
    between it and the device or the channels, the supervision of the three
    proxies, and, for the stand-alone tool, its command line, its device and the
    Windows route.  The stack ([smoltcp]) is a parameter: [Ipv4Cidr] with the
    operations the tool uses is the class [CidrNet]. *)

From S2P Require Import Prelude RStr Net Rule Config Codec Proxy Link Icmp Session.

(** ** Statistics *)

(** One line of [report_proxy_stats]. *)
Definition report_proxy_stats (stats : ProxyStats) : rstr :=
  lit "active_sessions tcp=" ++ show_uint (active_tcp stats) ++ lit " udp=" ++ show_uint (active_udp stats)
  ++ lit " icmp=" ++ show_uint (active_icmp stats).

(** ** Moving packets *)

(** The threads of [create_net_with_channels]: each packet with whether the other
    side still accepts it; the thread stops at the first that is not accepted. *)
Fixpoint pump (evs : list (bytes * bool)) : list bytes :=
  match evs with
  | [] => []
  | (pkt, true) :: evs' => pkt :: pump evs'
  | (_, false) :: _ => []
  end.

(** The reader thread of the tool: what it hands to the stack. *)
Fixpoint tun_reader (evs : list (result rstr bytes * bool)) : list (result rstr bytes) :=
  match evs with
  | [] => []
  | (Ok pkt, accepted) :: evs' => if accepted : bool then Ok pkt :: tun_reader evs' else []
  | (Err err, accepted) :: _ => if accepted : bool then [Err err] else []
  end.

(** ** The interface *)

Record BufferSize := mkBufferSize {
  tcp_rx_size : Z; tcp_tx_size : Z; udp_rx_size : Z; udp_tx_size : Z; udp_rx_meta_size : Z;
  udp_tx_meta_size : Z; raw_rx_size : Z; raw_tx_size : Z; raw_rx_meta_size : Z; raw_tx_meta_size : Z
}.
Definition proxy_buffers : BufferSize :=
  mkBufferSize (4 * 1024 * 1024) (4 * 1024 * 1024) (128 * 1024) (128 * 1024) 128 128
    (128 * 1024) (128 * 1024) 128 128.

(** What the stack is created with: device capabilities, address, gateways. *)
Record NetSetup := mkNetSetup {
  ns_mtu : Z; ns_max_burst : option Z;
  ns_addr : IpAddr; ns_prefix : Z; ns_gateways : list IpAddr; ns_buffers : BufferSize
}.

Definition create_net_with_channels (smoltcp_addr smoltcp_netmask smoltcp_gateway : IpAddr) : NetSetup :=
  mkNetSetup 1500 (Some 64) smoltcp_addr (proxy_prefix_len smoltcp_netmask) [smoltcp_gateway] proxy_buffers.

(** ** Supervision *)

(** The proxy that ends first; the TCP proxy with its error, the others never end. *)
Inductive ProxyEnd := TcpProxyEnds (err : option io_error).

(** The three sockets of the stack are opened in turn; then the proxies run until
    one ends, whatever its result. *)
Definition run_transparent_proxy (tcp udp icmp : result rstr unit) (first : ProxyEnd) : result rstr unit :=
  _ ← tcp; _ ← udp; _ ← icmp;
  match first with TcpProxyEnds _ => Ok tt end.

(** The task of [start_transparent_proxy]: its error is only logged. *)
Definition start_transparent_proxy (addr netmask gateway : IpAddr) (tcp udp icmp : result rstr unit)
    (first : ProxyEnd) : NetSetup * option rstr :=
  (create_net_with_channels addr netmask gateway,
   match run_transparent_proxy tcp udp icmp first with
   | Ok _ => None
   | Err err => Some (lit "transparent_proxy stopped: " ++ err)
   end).

(** ** The tool *)

(** [smoltcp::wire::Ipv4Cidr]: a prefix length is at most 32, and the network of
    a block has its address with the host bits cleared. *)
Class CidrNet := {
  Ipv4Cidr : Type;
  cidr_from_str : rstr -> option Ipv4Cidr;
  cidr_network : Ipv4Cidr -> Ipv4Cidr;
  cidr_address : Ipv4Cidr -> Ipv4Addr;
  cidr_prefix_len : Ipv4Cidr -> Z;
  cidr_to_string : Ipv4Cidr -> rstr;
  cidr_prefix_range c : 0 ≤ cidr_prefix_len c ≤ 32;
  cidr_network_address c :
    cidr_address (cidr_network c)
    = ipv4_from_u32 (Z.land (ipv4_to_u32 (cidr_address c)) (2 ^ 32 - 2 ^ (32 - cidr_prefix_len c)))
}.

(** A finished process. *)
Record Output := mkOutput { out_success : bool; out_stdout : bytes; out_stderr : bytes }.

Section tool.
Context `{CidrNet}.

Definition parse_ipv4_cidr (src : rstr) : result rstr Ipv4Cidr :=
  ok_or (cidr_from_str src) (lit "failed to parse IPv4 CIDR: " ++ src).

Record Cli := mkCli {
  cli_interface : rstr; cli_name : rstr; cli_tun_addr : Ipv4Addr; cli_tun_gateway : Ipv4Addr;
  cli_tun_netmask : Ipv4Addr; cli_tun_route : Ipv4Cidr; cli_mtu : Z; cli_log_level : rstr;
  cli_upstream_server : option IpAddr
}.
(** The defaults, with the route text parsed; the interface is the text of the
    code points 4EE5 592A 7F51. *)
Definition cli_default : result rstr Cli :=
  route ← parse_ipv4_cidr (lit "1.1.1.1/32");
  Ok (mkCli [0x4EE5; 0x592A; 0x7F51] (lit "utun8") (Ipv4Addr_new 10 10 10 2) (Ipv4Addr_new 10 10 10 1)
        (Ipv4Addr_new 255 255 255 0) route 1500 (lit "info") None).

(** [run_command], given what spawning the process gives. *)
Definition run_command (lossy : bytes -> rstr) (spawn : list rstr -> result io_error Output)
    (command : rstr) (args : list rstr) : result io_error bytes :=
  let full_cmd := command ++ lit " " ++ mjoin (match args with
                                              | [] => []
                                              | a :: rest => a :: map (λ x, lit " " ++ x) rest
                                              end) in
  match spawn (command :: args) with
  | Err e => Err e
  | Ok out =>
      if negb (out_success out) then
        let err := lossy (if is_empty (out_stderr out) then out_stdout out else out_stderr out) in
        Err (mkIoError OtherKind (lit "Run command: " ++ [34] ++ full_cmd ++ [34] ++ lit " failed with " ++ err))
      else Ok (out_stdout out)
  end.

(** [configure_wintun_route]: the commands run, and the result; [run] is
    [run_command "route"]. *)
Definition route_args (verb : string) (destination mask gateway index : rstr) : list rstr :=
  [lit verb; destination; lit "MASK"; mask; gateway; lit "IF"; index].

Definition configure_wintun_route (run : list rstr -> result io_error bytes)
    (tun_index : result rstr Z) (cli : Cli) : list (list rstr) * result rstr unit :=
  let network := cidr_network (cli_tun_route cli) in
  match prefix_to_netmask (cidr_prefix_len (cli_tun_route cli)) with
  | Err e => ([], Err e)
  | Ok netmask =>
      match tun_index with
      | Err _ => ([], Err (lit "failed to query wintun adapter index"))
      | Ok adapter_index =>
          let destination := ipv4_to_string (cidr_address network) in
          let mask := ipv4_to_string netmask in
          let gateway := ipv4_to_string (cli_tun_gateway cli) in
          let index := show_uint adapter_index in
          let add_args := route_args "ADD" destination mask gateway index in
          let change_args := route_args "CHANGE" destination mask gateway index in
          if is_ok (run add_args) then ([add_args], Ok tt)
          else if is_ok (run change_args) then ([add_args; change_args], Ok tt)
          else ([add_args; change_args],
                Err (lit "failed to configure wintun route " ++ cidr_to_string network ++ lit " via "
                     ++ gateway ++ lit " on ifindex " ++ index))
      end
  end.

(** [create_tun_device] of the tool: creating the device, on Windows the route,
    the netmask; the address of the stack is the gateway, its gateway the
    device's address. *)
Definition create_tun_device (windows : bool) (create : result rstr unit)
    (run : list rstr -> result io_error bytes) (tun_index : result rstr Z) (cli : Cli)
    : result rstr NetSetup :=
  _ ← create;
  _ ← (if windows then (configure_wintun_route run tun_index cli).2 else Ok tt);
  tun_prefix_len ← netmask_to_prefix_len (cli_tun_netmask cli);
  Ok (mkNetSetup (cli_mtu cli) (Some 64) (V4 (cli_tun_gateway cli)) tun_prefix_len
        [V4 (cli_tun_addr cli)] proxy_buffers).

(** [main] of the tool.  [Context::context] replaces the text of an error. *)
Definition context {A} (text : string) (r : result rstr A) : result rstr A := map_err (λ _, lit text) r.

Definition tool_main (logger : result rstr unit) (windows : bool) (create : result rstr unit)
    (run : list rstr -> result io_error bytes) (tun_index : result rstr Z) (cli : Cli)
    (tcp udp icmp : result rstr unit) (first : ProxyEnd) : result rstr unit :=
  _ ← context "failed to install env logger" logger;
  _ ← context "failed to create proxy net" (create_tun_device windows create run tun_index cli);
  _ ← context "failed to create wildcard tcp listener" tcp;
  _ ← context "failed to create wildcard udp socket" udp;
  _ ← context "failed to create wildcard icmp socket" icmp;
  match first with TcpProxyEnds _ => Ok tt end.

(** * Lemmas *)

Lemma pump_prefix evs : pump evs `prefix_of` map fst evs.
Proof. induction evs as [|[p []] evs IH]; simpl; [done|by apply prefix_cons|apply prefix_nil]. Qed.

Lemma handle_inbound_stream_allowed f accepts conns r :
  handle_inbound_stream f accepts = (conns, r) →
  Forall (λ c, is_allowed f (sa_ip c.1) (sa_ip c.2) = true) conns
  ∧ (r = None ↔ Forall (λ a, ∃ x, a = Ok x ∧ is_ok (ac_local x) = true) accepts).
Proof.
  revert conns. induction accepts as [|[a|e] accepts IH]; intros conns; simpl.
  - intros [= <- <-]. by split.
  - destruct (ac_local a) as [l|e] eqn:El.
    + destruct (handle_inbound_stream f accepts) as [cs r'] eqn:Es. intros [= <- <-].
      destruct (IH _ eq_refl) as [Hc Hr]. rewrite Forall_cons, <- Hr. split.
      * destruct (is_allowed f _ _) eqn:Ea; simpl; [by constructor|done].
      * split; [intros ->; split; [exists a; by rewrite El|done]|by intros [_ ?]].
    + intros [= <- <-]. split; [constructor|]. rewrite Forall_cons.
      split; [done|]. intros [(x & [= <-] & Hx) _]. by rewrite El in Hx.
  - intros [= <- <-]. split; [constructor|]. rewrite Forall_cons.
    split; [done|]. by intros [(x & ? & _) _].
Qed.

Lemma mask_bits_value n : 0 ≤ n ≤ 32 → mask_bits n = 2 ^ 32 - 2 ^ (32 - n).
Proof.
  intros Hn. assert (forallb (λ n, mask_bits n =? 2 ^ 32 - 2 ^ (32 - n)) (seqZ 0 33) = true) as Hall
    by (vm_compute; reflexivity).
  rewrite forallb_forall in Hall. apply Z.eqb_eq, Hall, list_elem_of_In, elem_of_seqZ. lia.
Qed.

(** The mask of a prefix length is a well-formed address. *)
Lemma prefix_to_netmask_bits n :
  0 ≤ n ≤ 32 → ∃ m, prefix_to_netmask n = Ok m ∧ ipv4_wf m ∧ ipv4_to_u32 m = 2 ^ 32 - 2 ^ (32 - n).
Proof.
  intros Hn. exists (ipv4_from_u32 (mask_bits n)). unfold prefix_to_netmask.
  rewrite (proj2 (Z.ltb_ge _ _)) by lia. split; [done|].
  destruct (mask_bits_ok n Hn) as (Hr & _ & _). split; [by apply ipv4_from_u32_wf|].
  by rewrite ipv4_to_from_u32, mask_bits_value.
Qed.

(** The commands for the route to the network of a block by way of a mask. *)
Definition route_command (verb : string) (cli : Cli) (mask : Ipv4Addr) (index : Z) : list rstr :=
  route_args verb
    (ipv4_to_string (ipv4_from_u32 (Z.land (ipv4_to_u32 (cidr_address (cli_tun_route cli))) (ipv4_to_u32 mask))))
    (ipv4_to_string mask) (ipv4_to_string (cli_tun_gateway cli)) (show_uint index).

Lemma configure_wintun_route_ok run tun_index cli :
  (configure_wintun_route run tun_index cli).2 = Ok tt ↔
  ∃ index mask, tun_index = Ok index
    ∧ netmask_to_prefix_len mask = Ok (cidr_prefix_len (cli_tun_route cli)) ∧ ipv4_wf mask
    ∧ (is_ok (run (route_command "ADD" cli mask index)) = true
       ∨ is_ok (run (route_command "CHANGE" cli mask index)) = true).
Proof.
  unfold configure_wintun_route.
  pose proof (cidr_prefix_range (cli_tun_route cli)) as Hr.
  destruct (prefix_to_netmask_bits _ Hr) as (m & Hm & Hwf & Hbits). rewrite Hm.
  assert (∀ m', netmask_to_prefix_len m' = Ok (cidr_prefix_len (cli_tun_route cli)) ∧ ipv4_wf m' ↔ m' = m) as Hiff.
  { intros m'. split.
    - intros [H1 H2]. apply netmask_prefix_iff in H1 as [_ H1]; [|done]. congruence.
    - intros ->. split; [|done]. apply netmask_prefix_iff; [done|]. split; [lia|done]. }
  rewrite cidr_network_address, <- Hbits.
  destruct tun_index as [i|e]; [|naive_solver].
  transitivity (is_ok (run (route_command "ADD" cli m i)) = true
       ∨ is_ok (run (route_command "CHANGE" cli m i)) = true).
  { unfold route_command. destruct (is_ok (run _)) eqn:E1; [naive_solver|].
    cbv zeta. destruct (is_ok (run (route_args "CHANGE" _ _ _ _))) eqn:E2; naive_solver. }
  split; [intros Hrun; exists i, m; destruct (proj2 (Hiff m) eq_refl); done|].
  intros (i' & m' & [= <-] & H1 & H2 & Hrun). assert (m' = m) as -> by (by apply Hiff). done.
Qed.

Lemma create_tun_device_ok windows create run tun_index cli ns :
  ipv4_wf (cli_tun_netmask cli) →
  create_tun_device windows create run tun_index cli = Ok ns ↔
  create = Ok tt
  ∧ (windows = true → ∃ index mask, tun_index = Ok index
       ∧ netmask_to_prefix_len mask = Ok (cidr_prefix_len (cli_tun_route cli)) ∧ ipv4_wf mask
       ∧ (is_ok (run (route_command "ADD" cli mask index)) = true
          ∨ is_ok (run (route_command "CHANGE" cli mask index)) = true))
  ∧ ∃ n, 0 ≤ n ∧ prefix_to_netmask n = Ok (cli_tun_netmask cli)
      ∧ ns = mkNetSetup (cli_mtu cli) (Some 64) (V4 (cli_tun_gateway cli)) n
               [V4 (cli_tun_addr cli)] proxy_buffers.
Proof.
  intros Hwf. unfold create_tun_device.
  rewrite !unit_ok_bind, result_bind_ok.
  assert ((if windows then (configure_wintun_route run tun_index cli).2 else Ok tt) = Ok tt ↔
    (windows = true → (configure_wintun_route run tun_index cli).2 = Ok tt)) as -> by (destruct windows; naive_solver).
  rewrite configure_wintun_route_ok. setoid_rewrite (netmask_prefix_iff _ _ Hwf).
  naive_solver.
Qed.

Lemma context_ok {A} text (r : result rstr A) a : context text r = Ok a ↔ r = Ok a.
Proof. unfold context. destruct r; simpl; naive_solver. Qed.

Lemma tool_main_ok logger windows create run tun_index cli tcp udp icmp first :
  tool_main logger windows create run tun_index cli tcp udp icmp first = Ok tt ↔
  logger = Ok tt ∧ (∃ ns, create_tun_device windows create run tun_index cli = Ok ns)
  ∧ tcp = Ok tt ∧ udp = Ok tt ∧ icmp = Ok tt.
Proof.
  unfold tool_main, context.
  destruct logger as [[]|], (create_tun_device _ _ _ _ _), tcp as [[]|], udp as [[]|], icmp as [[]|], first;
    simpl; naive_solver.
Qed.

(** * Properties *)

(** C38: The proxy tool runs its proxies, and then returns success however they end,
    exactly when the logger can be installed, the network can be set up and its
    three sockets opened.  The network is set up exactly when the device can be
    created, the netmask is contiguous and, on Windows, the adapter index is known
    and the route to the configured block can be added or, failing that, changed;
    the route command names the block's address with the host bits cleared and a
    mask whose prefix length is the block's; the stack gets the prefix length
    that the netmask is the mask of, with the gateway as its own address. *)
Theorem tool_setup logger windows create run tun_index cli tcp udp icmp first :
  ipv4_wf (cli_tun_netmask cli) →
  (tool_main logger windows create run tun_index cli tcp udp icmp first = Ok tt ↔
     logger = Ok tt ∧ (∃ ns, create_tun_device windows create run tun_index cli = Ok ns)
     ∧ tcp = Ok tt ∧ udp = Ok tt ∧ icmp = Ok tt)
  ∧ (∀ ns, create_tun_device windows create run tun_index cli = Ok ns ↔
     create = Ok tt
     ∧ (windows = true → ∃ index mask, tun_index = Ok index
          ∧ netmask_to_prefix_len mask = Ok (cidr_prefix_len (cli_tun_route cli)) ∧ ipv4_wf mask
          ∧ (is_ok (run (route_command "ADD" cli mask index)) = true
             ∨ is_ok (run (route_command "CHANGE" cli mask index)) = true))
     ∧ ∃ n, 0 ≤ n ∧ prefix_to_netmask n = Ok (cli_tun_netmask cli)
         ∧ ns = mkNetSetup (cli_mtu cli) (Some 64) (V4 (cli_tun_gateway cli)) n
                  [V4 (cli_tun_addr cli)] proxy_buffers).
Proof. intros Hwf. split; [apply tool_main_ok|by intros ns; apply create_tun_device_ok]. Qed.
End tool.

(** ** A concrete CIDR library *)

Module PairCidr.
Definition pair_prefix (c : Ipv4Addr * Z) : Z := Z.max 0 (Z.min 32 c.2).
Definition pair_network (c : Ipv4Addr * Z) : Ipv4Addr * Z :=
  (ipv4_from_u32 (Z.land (ipv4_to_u32 c.1) (2 ^ 32 - 2 ^ (32 - pair_prefix c))), pair_prefix c).
Lemma pair_prefix_range c : 0 ≤ pair_prefix c ≤ 32.
Proof. unfold pair_prefix. lia. Qed.
#[export] Instance pair_cidr : CidrNet := {|
  Ipv4Cidr := Ipv4Addr * Z;
  cidr_from_str s := match TextCidr.text_parse s with
                     | Ok n => Some (net_addr n, net_prefix n)
                     | Err _ => None
                     end;
  cidr_network := pair_network;
  cidr_address := fst;
  cidr_prefix_len := pair_prefix;
  cidr_to_string c := ipv4_to_string c.1 ++ lit "/" ++ show_uint (pair_prefix c);
  cidr_prefix_range := pair_prefix_range;
  cidr_network_address c := eq_refl
|}.
End PairCidr.

(** ** The properties at concrete inputs *)

Import PairCidr.

Example cli_default_parses : is_ok cli_default = true.
Proof. vm_compute. reflexivity. Qed.

(** The default command line with the route 1.1.1.1/24; only changing the route
    to 1.1.1.0 works. *)
Definition sample_cli : Cli :=
  mkCli [] (lit "utun8") (Ipv4Addr_new 10 10 10 2) (Ipv4Addr_new 10 10 10 1)
    (Ipv4Addr_new 255 255 255 0) (Ipv4Addr_new 1 1 1 1, 24) 1500 (lit "info") None.
Definition sample_route (args : list rstr) : result io_error bytes :=
  if decide (args = [lit "CHANGE"; lit "1.1.1.0"; lit "MASK"; lit "255.255.255.0"; lit "10.10.10.1";
                     lit "IF"; lit "7"])
  then Ok [] else Err (mkIoError OtherKind []).

Lemma tool_setup_witness :
  (tool_main (Ok tt) true (Ok tt) sample_route (Ok 7) sample_cli (Ok tt) (Ok tt) (Ok tt) (TcpProxyEnds None) = Ok tt ↔
     Ok (E:=rstr) tt = Ok tt ∧ (∃ ns, create_tun_device true (Ok tt) sample_route (Ok 7) sample_cli = Ok ns)
     ∧ Ok (E:=rstr) tt = Ok tt ∧ Ok (E:=rstr) tt = Ok tt ∧ Ok (E:=rstr) tt = Ok tt)
  ∧ create_tun_device true (Ok tt) sample_route (Ok 7) sample_cli
    = Ok (mkNetSetup 1500 (Some 64) (V4 (Ipv4Addr_new 10 10 10 1)) 24 [V4 (Ipv4Addr_new 10 10 10 2)]
            proxy_buffers).
Proof.
  destruct (tool_setup (Ok tt) true (Ok tt) sample_route (Ok 7) sample_cli (Ok tt) (Ok tt) (Ok tt)
    (TcpProxyEnds None)) as [Hmain Hnet]; [repeat split; simpl; lia|].
  split; [exact Hmain|]. apply Hnet. split; [reflexivity|]. split.
  - intros _. exists 7, (Ipv4Addr_new 255 255 255 0). split; [reflexivity|]. split; [reflexivity|].
    split; [repeat split; simpl; lia|]. right. vm_compute. reflexivity.
  - exists 24. split; [lia|]. split; reflexivity.
Defined.
