(* ===== verification/Build.v ===== *)
(** * Build: the build script ([build.rs])

    On Windows targets the script copies [wintun.dll] next to the program: it
    finds the architecture, the locked version of the crate in [Cargo.lock], the
    file in the registry cache and the output directory.  An absolute path is
    the list of its components; the environment variables, the file system and
    the protobuf compiler are arguments. *)

From S2P Require Import Prelude RStr Net Codec.

Definition path : Type := list rstr.
#[global] Instance path_eq_dec : EqDecision path.
Proof. unfold path. apply _. Defined.

Definition wintun_arch (target : rstr) : option rstr :=
  if bool_decide (target ∈ [lit "x86_64-pc-windows-msvc"; lit "x86_64-pc-windows-gnu"]) then Some (lit "amd64")
  else if bool_decide (target ∈ [lit "i686-pc-windows-msvc"; lit "i686-pc-windows-gnu"]) then Some (lit "x86")
  else if bool_decide (target ∈ [lit "aarch64-pc-windows-msvc"; lit "aarch64-pc-windows-gnullvm"]) then Some (lit "arm64")
  else if bool_decide (target = lit "armv7-pc-windows-msvc") then Some (lit "arm")
  else None.

(** ** The lock file *)

(** [str::lines]: lines end with a line feed, a carriage return before it is
    dropped; what follows the last line feed is a line unless it is empty. *)
Definition strip_cr (l : rstr) : rstr :=
  match rev l with c :: r => if c =? 13 then rev r else l | [] => l end.
Fixpoint lines_of (pieces : list rstr) : list rstr :=
  match pieces with
  | [] => []
  | [l] => if is_empty l then [] else [l]
  | l :: rest => strip_cr l :: lines_of rest
  end.
Definition lines (s : rstr) : list rstr := lines_of (str_split 10 s).

Definition strip_prefix (p s : rstr) : option rstr :=
  if starts_with p s then Some (drop (length p) s) else None.

(** The lines the script looks for; 34 is the quotation mark. *)
Definition package_line : rstr := lit "[[package]]".
Definition quoted (s : rstr) : rstr := [34] ++ s ++ [34].
Definition wintun_bindings : rstr := lit "wintun-bindings".
Definition name_line : rstr := lit "name = " ++ quoted wintun_bindings.
Definition version_prefix : rstr := lit "version = " ++ [34].

Fixpoint scan_lock (in_package : bool) (ls : list rstr) : result rstr rstr :=
  match ls with
  | [] => Err (lit "wintun-bindings is missing from Cargo.lock")
  | line :: rest =>
      if bool_decide (line = package_line) then scan_lock false rest
      else if bool_decide (line = name_line) then scan_lock true rest
      else
        match (if in_package then strip_prefix version_prefix line else None) with
        | Some version => Ok (trim_end_matches 34 version)
        | None => scan_lock in_package rest
        end
  end.

Definition locked_wintun_bindings_version (lockfile : result rstr rstr) : result rstr rstr :=
  text ← lockfile; scan_lock false (lines text).

(** ** Files *)

Record BuildEnv := mkBuildEnv {
  be_var : string -> result rstr rstr;         (* env::var *)
  be_path_var : string -> option path;         (* env::var_os as a path *)
  be_out_dir : result rstr path;               (* OUT_DIR *)
  be_read_file : path -> result rstr rstr;
  be_read_dir : path -> result rstr (list (result rstr path));
  be_exists : path -> bool;
  be_copy : path -> path -> result rstr unit;
  be_protos : result rstr unit                 (* prost_build::compile_protos *)
}.

Fixpoint find_in (exists_ : path -> bool) (tail : path) (registries : list (result rstr path))
    : result rstr (option path) :=
  match registries with
  | [] => Ok None
  | Err e :: _ => Err e
  | Ok registry :: rest =>
      let dll := registry ++ tail in
      if exists_ dll then Ok (Some dll) else find_in exists_ tail rest
  end.

Definition cargo_home (env : BuildEnv) : option path :=
  match be_path_var env "CARGO_HOME" with
  | Some p => Some p
  | None =>
      match be_path_var env "USERPROFILE" with
      | Some home => Some (home ++ [lit ".cargo"])
      | None => (λ home, home ++ [lit ".cargo"]) <$> be_path_var env "HOME"
      end
  end.

Definition find_wintun_dll (env : BuildEnv) (version arch : rstr) : result rstr path :=
  home ← ok_or (cargo_home env) (lit "CARGO_HOME, USERPROFILE, and HOME are unavailable");
  let registry_src := home ++ [lit "registry"; lit "src"] in
  let crate_dir_name := lit "wintun-bindings-" ++ version in
  registries ← be_read_dir env registry_src;
  found ← find_in (be_exists env) [crate_dir_name; lit "wintun"; lit "bin"; arch; lit "wintun.dll"] registries;
  ok_or found (lit "wintun.dll not found for wintun-bindings " ++ version ++ lit " and arch " ++ arch).

(** [out_dir.ancestors().nth(3)]: the path without its last three components. *)
Definition build_output_dir (env : BuildEnv) : result rstr path :=
  out_dir ← be_out_dir env;
  ok_or (if (3 <=? length out_dir)%nat then Some (take (length out_dir - 3) out_dir) else None)
    (lit "Unable to determine Cargo profile output directory").

(** The file copied, if any: a failed copy over an existing file is a warning. *)
Definition copy_wintun_dll (env : BuildEnv) (manifest_dir : result rstr path) : result rstr unit :=
  target ← be_var env "TARGET";
  match wintun_arch target with
  | None => Ok tt
  | Some arch =>
      manifest_dir ← manifest_dir;
      version ← locked_wintun_bindings_version (be_read_file env (manifest_dir ++ [lit "Cargo.lock"]));
      wintun_dll ← find_wintun_dll env version arch;
      output_dir ← build_output_dir env;
      let output_wintun_dll := output_dir ++ [lit "wintun.dll"] in
      match be_copy env wintun_dll output_wintun_dll with
      | Ok _ => Ok tt
      | Err e => if be_exists env output_wintun_dll then Ok tt else Err e
      end
  end.

Definition build_main (env : BuildEnv) (manifest_dir : result rstr path) : result rstr unit :=
  _ ← be_protos env; copy_wintun_dll env manifest_dir.

(** ** Lock files as Cargo writes them *)

Record LockPackage := mkLockPackage { lp_name : rstr; lp_version : rstr; lp_rest : list rstr }.

Definition render_package (p : LockPackage) : list rstr :=
  [package_line; lit "name = " ++ quoted (lp_name p); lit "version = " ++ quoted (lp_version p)]
  ++ lp_rest p ++ [[]].
Definition render_lock (header : list rstr) (ps : list LockPackage) : list rstr :=
  header ++ (ps ≫= render_package).
Definition unlines (ls : list rstr) : rstr := ls ≫= λ l, l ++ [10].

(** A line of the file: no line feed in it, no carriage return at its end, and
    not the line that names the package looked for. *)
Definition line_ok (l : rstr) : Prop := (10 ∉ l) ∧ last l ≠ Some 13.
Definition other_line (l : rstr) : Prop := line_ok l ∧ l ≠ name_line.
(** Names and versions are plain text. *)
Definition word_ok (s : rstr) : Prop := (10 ∉ s) ∧ (34 ∉ s).
Definition package_ok (p : LockPackage) : Prop :=
  word_ok (lp_name p) ∧ word_ok (lp_version p) ∧ Forall other_line (lp_rest p).

(** * Lemmas *)

Lemma strip_cr_id l : last l ≠ Some 13 → strip_cr l = l.
Proof.
  intros Hl. unfold strip_cr. destruct (rev l) as [|c r] eqn:E; [done|].
  assert (l = rev r ++ [c]) as -> by (by rewrite <- (rev_involutive l), E).
  rewrite last_snoc in Hl. destruct (Z.eqb_spec c 13) as [->|Hc]; [done|done].
Qed.

Lemma lines_unlines ls : Forall line_ok ls → lines (unlines ls) = ls.
Proof.
  unfold lines. induction 1 as [|l ls [Hn Hr] _ IH]; [done|].
  unfold unlines. rewrite bind_cons, <- app_assoc. simpl ([10] ++ _).
  rewrite str_split_app by done. fold (unlines ls).
  destruct (str_split_cons 10 (unlines ls)) as (p & ps & E). rewrite E in *. simpl in *.
  by rewrite strip_cr_id, IH.
Qed.

(** Outside the package looked for, lines that do not name it are skipped. *)
Lemma scan_skip ls rest :
  Forall (λ l, l ≠ name_line) ls → scan_lock false (ls ++ rest) = scan_lock false rest.
Proof.
  induction 1 as [|l ls Hl _ IH]; [done|]. simpl.
  case_bool_decide; [done|]. by rewrite bool_decide_eq_false_2.
Qed.

Lemma trim_quote s : 34 ∉ s → trim_end_matches 34 (s ++ [34]) = s.
Proof.
  intros Hs. unfold trim_end_matches, drop_while_end. rewrite rev_app_distr. simpl.
  rewrite drop_while_id; [apply rev_involutive|]. intros c t E. apply Z.eqb_neq. intros <-.
  apply Hs. rewrite <- elem_of_rev, E. apply elem_of_cons. by left.
Qed.

Lemma name_line_inj n : lit "name = " ++ quoted n = name_line ↔ n = wintun_bindings.
Proof.
  unfold name_line, quoted. split; [|by intros ->]. generalize wintun_bindings. intros w E.
  apply (inj (lit "name = " ++.)) in E. injection E as E. by apply (inj (.++ [34])) in E.
Qed.

Lemma scan_package p rest :
  package_ok p →
  scan_lock false (render_package p ++ rest) =
  if bool_decide (lp_name p = wintun_bindings) then Ok (lp_version p) else scan_lock false rest.
Proof.
  intros (_ & [_ Hv] & Hr). case_bool_decide as Hn.
  - unfold render_package. rewrite Hn.
    change (([package_line; lit "name = " ++ quoted wintun_bindings; lit "version = " ++ quoted (lp_version p)]
      ++ lp_rest p ++ [[]]) ++ rest)
      with (package_line :: name_line :: (version_prefix ++ (lp_version p ++ [34])) :: ((lp_rest p ++ [[]]) ++ rest)).
    cbn [scan_lock]. rewrite bool_decide_eq_true_2 by done.
    rewrite bool_decide_eq_false_2 by done. rewrite bool_decide_eq_true_2 by done.
    rewrite !bool_decide_eq_false_2 by done. unfold strip_prefix.
    rewrite (proj2 (starts_with_true version_prefix _)) by (by eexists).
    by rewrite drop_app_length, trim_quote.
  - rewrite scan_skip; [done|]. unfold render_package.
    constructor; [done|]. constructor; [by rewrite name_line_inj|]. constructor; [done|].
    apply Forall_app. split; [by eapply Forall_impl; [exact Hr|]; intros l []|by constructor].
Qed.

Lemma scan_packages ps :
  Forall package_ok ps →
  scan_lock false (ps ≫= render_package) =
  match list_find (λ p, lp_name p = wintun_bindings) ps with
  | Some (_, p) => Ok (lp_version p)
  | None => Err (lit "wintun-bindings is missing from Cargo.lock")
  end.
Proof.
  induction 1 as [|p ps Hp _ IH]; [done|]. rewrite bind_cons, scan_package, IH by done. simpl.
  case_decide; [by rewrite bool_decide_eq_true_2|]. rewrite bool_decide_eq_false_2 by done.
  by destruct (list_find _ ps) as [[]|].
Qed.

Lemma quoted_line_ok (t : rstr) s :
  10 ∉ t → word_ok s → line_ok (t ++ quoted s).
Proof.
  intros Ht [Hs _]. unfold quoted. split; [set_solver|].
  by rewrite (app_assoc t), (app_assoc (t ++ [34])), last_snoc.
Qed.

Lemma render_line_ok header ps :
  Forall other_line header → Forall package_ok ps → Forall line_ok (render_lock header ps).
Proof.
  intros Hh Hp. apply Forall_app. split; [by eapply Forall_impl; [exact Hh|]; intros l []|].
  apply Forall_bind. eapply Forall_impl; [exact Hp|]. intros p (Hn & Hv & Hr).
  unfold render_package. constructor; [split; [vm_compute; set_solver|done]|].
  constructor; [apply quoted_line_ok; [vm_compute; set_solver|done]|].
  constructor; [apply quoted_line_ok; [vm_compute; set_solver|done]|].
  apply Forall_app. split; [by eapply Forall_impl; [exact Hr|]; intros l []|].
  repeat constructor; set_solver.
Qed.

Lemma find_in_some exists_ tail registries dll :
  find_in exists_ tail registries = Ok (Some dll) →
  exists_ dll = true ∧ ∃ r, Ok r ∈ registries ∧ dll = r ++ tail.
Proof.
  induction registries as [|[r|e] rest IH]; simpl; [done| |done].
  destruct (exists_ (r ++ tail)) eqn:E.
  - intros [= <-]. split; [done|]. exists r. split; [by left|done].
  - intros (He & r' & Hr & ->)%IH. split; [done|]. exists r'. split; [by right|done].
Qed.

(** * Properties *)

(** C39: On a lock file as Cargo writes it (a header, then packages with their name
    and version lines), the script's line scanner finds the version of the first
    package named "wintun-bindings", whatever other packages and fields there
    are, and reports it missing exactly when no package has that name. *)
Theorem lock_version_found header ps :
  Forall other_line header → Forall package_ok ps →
  locked_wintun_bindings_version (Ok (unlines (render_lock header ps))) =
  match list_find (λ p, lp_name p = wintun_bindings) ps with
  | Some (_, p) => Ok (lp_version p)
  | None => Err (lit "wintun-bindings is missing from Cargo.lock")
  end.
Proof.
  intros Hh Hp. unfold locked_wintun_bindings_version. cbn [mbind result_bind].
  rewrite lines_unlines by (by apply render_line_ok). unfold render_lock.
  rewrite scan_skip, scan_packages; [done|done|].
  eapply Forall_impl; [exact Hh|]. by intros l [].
Qed.

Definition sample_packages : list LockPackage :=
  [mkLockPackage (lit "wintun") (lit "0.1.0") [lit "checksum"];
   mkLockPackage (lit "wintun-bindings") (lit "0.7.31") []].

Lemma lock_version_found_witness :
  locked_wintun_bindings_version (Ok (unlines (render_lock [lit "version = 4"; []] sample_packages)))
  = Ok (lit "0.7.31").
Proof.
  apply (lock_version_found [lit "version = 4"; []] sample_packages);
    repeat constructor; (apply (bool_decide_unpack _); vm_compute; exact I) || (vm_compute; congruence).
Defined.
