(* ===== verification/UnitTests.v ===== *)
(** * UnitTests: the repository's own tests as executions of the model

    Every [#[test]] function of the rules library ([rules/engine.rs],
    [rules/matcher.rs], [rules/geoip.rs], [rules/domain_cache.rs], [config.rs])
    translated to a Boolean: the conjunction of its assertions, [false] where an
    [unwrap] would panic.  They exercise the definitions the theorems are about.
    The YAML reader, the DNS encoder and the country database are those of the
    tests; what the tests assume of them are hypotheses. *)

From S2P Require Import Prelude RStr Net Rule Config AppConfig GeoIp Context Engine DomainCache.
Import TextCidr PlainSlicer.

(** The text of a YAML list as the tests write it. *)
Definition block_text (items : list rstr) : rstr :=
  [10] ++ (items ≫= λ i, lit "  - " ++ i ++ [10]).

Definition v4 (a b c d : Z) : Ipv4Addr := Ipv4Addr_new a b c d.
(** [s.parse().unwrap()] then the rest of the test. *)
Definition unwrap {E A} (r : result E A) (k : A -> bool) : bool :=
  match r with Ok a => k a | Err _ => false end.
Definition assert_action (a b : RuleAction) : bool := bool_decide (a = b).

(** ** [rules/engine.rs] *)

Section engine_tests.
Context `{GeoDb} (yaml : rstr -> result rstr (list rstr)).

Definition engine_rules : list rstr :=
  [lit "DST-PORT,22,reject"; lit "DST-IP-CIDR,10.0.0.0/8,proxy"; lit "DST-PORT,443,proxy"; lit "MATCH,direct"].
Definition domain_rules : list rstr := [lit "DOMAIN-SUFFIX,example.com,proxy"; lit "MATCH,direct"].
Definition private_rules : list rstr := [lit "GEOIP,PRIVATE,direct"; lit "MATCH,proxy"].
Definition country_rules : list rstr := [lit "GEOIP,CN,direct"; lit "MATCH,proxy"].

Definition engine_from (items : list rstr) : result ConfigError RulesEngine :=
  c ← RulesConfig_from_yaml yaml (block_text items); RulesEngine_from_config c.
Definition create_test_engine : result ConfigError RulesEngine := engine_from engine_rules.
Definition with_geoip (self : RulesEngine) (geoip : GeoIpMatcher) : RulesEngine :=
  mkEngine (eng_rules self) geoip.

(** [PacketContext::new(src, dst, Some(12345), Some(port), Tcp)] from texts. *)
Definition tcp_packet (dst : rstr) (port : Z) (k : PacketContext -> bool) : bool :=
  match parse_ipv4 (lit "192.168.1.1"), parse_ipv4 dst with
  | Some s, Some d => k (PacketContext_new s d (Some 12345) (Some port) Tcp)
  | _, _ => false
  end.

Definition test_matches_first_matching_rule : bool :=
  unwrap create_test_engine (λ engine, tcp_packet (lit "10.0.1.5") 22 (λ packet,
    assert_action (match_packet engine packet) Reject)).
Definition test_uses_match_rule_as_catch_all : bool :=
  unwrap create_test_engine (λ engine, tcp_packet (lit "8.8.8.8") 80 (λ packet,
    assert_action (match_packet engine packet) Direct)).
Definition test_matches_port_rule : bool :=
  unwrap create_test_engine (λ engine, tcp_packet (lit "8.8.8.8") 443 (λ packet,
    assert_action (match_packet engine packet) Proxy)).
Definition test_matches_domain_rule : bool :=
  unwrap (engine_from domain_rules) (λ engine, tcp_packet (lit "93.184.216.34") 443 (λ packet,
    assert_action (match_packet engine (with_domains packet [lit "www.example.com"])) Proxy)).
Definition test_matches_geoip_private_rule : bool :=
  unwrap (engine_from private_rules) (λ engine, tcp_packet (lit "10.0.0.8") 443 (λ packet,
    assert_action (match_packet (with_geoip engine GeoIpMatcher_without_database) packet) Direct)).
Definition test_geoip_country_without_database_falls_through : bool :=
  unwrap (engine_from country_rules) (λ engine, tcp_packet (lit "8.8.8.8") 443 (λ packet,
    assert_action (match_packet (with_geoip engine GeoIpMatcher_without_database) packet) Proxy)).

Definition engine_tests : list bool :=
  [test_matches_first_matching_rule; test_uses_match_rule_as_catch_all; test_matches_port_rule;
   test_matches_domain_rule; test_matches_geoip_private_rule;
   test_geoip_country_without_database_falls_through].
End engine_tests.

(** ** [rules/matcher.rs] *)

Definition matches_exact_domain_only : bool :=
  let domains := [lit "example.com"; lit "www.example.org"] in
  matches_domain (lit "example.com") domains && negb (matches_domain (lit "www.example.com") domains).
Definition matches_domain_suffix_with_root_and_subdomain : bool :=
  let domains := [lit "example.com"; lit "www.example.com"] in
  matches_domain_suffix (lit "example.com") domains
  && matches_domain_suffix (lit "www.example.com") domains
  && negb (matches_domain_suffix (lit "ample.com") domains).
Definition test_matches_domain_keyword : bool :=
  let domains := [lit "www.youtube.com"] in
  matches_domain_keyword (lit "youtube") domains && negb (matches_domain_keyword (lit "google") domains).
Definition domain_rules_do_not_match_without_domains : bool :=
  negb (matches_domain (lit "example.com") []) && negb (matches_domain_suffix (lit "example.com") [])
  && negb (matches_domain_keyword (lit "example") []).
Definition matcher_tests : list bool :=
  [matches_exact_domain_only; matches_domain_suffix_with_root_and_subdomain; test_matches_domain_keyword;
   domain_rules_do_not_match_without_domains].

(** ** [rules/geoip.rs] *)

Definition DB_PATH : rstr := lit "rules/geoip/GeoLite2-Country.mmdb".

Definition test_is_private_ip : bool :=
  forallb is_private_ip
    [v4 10 0 0 1; v4 172 16 0 1; v4 192 168 0 1; v4 127 0 0 1; v4 169 254 1 1; v4 0 0 0 0;
     v4 255 255 255 255; v4 224 0 0 1; v4 100 64 0 1; v4 100 127 255 255]
  && forallb (λ ip, negb (is_private_ip ip))
    [v4 8 8 8 8; v4 1 1 1 1; v4 100 63 255 255; v4 100 128 0 0].

Section geoip_tests.
Context `{GeoDb}.

Definition load_db : GeoIpMatcher := GeoIpMatcher_load (Some DB_PATH).

Definition test_matches_private_without_database : bool :=
  let matcher := GeoIpMatcher_without_database in
  GeoIpMatcher_matches matcher (v4 10 0 0 1) (lit "PRIVATE")
  && GeoIpMatcher_matches matcher (v4 192 168 1 1) (lit "private")
  && GeoIpMatcher_matches matcher (v4 127 0 0 1) (lit "Private")
  && negb (GeoIpMatcher_matches matcher (v4 8 8 8 8) (lit "PRIVATE")).
Definition test_matches_private_with_database : bool :=
  GeoIpMatcher_matches load_db (v4 10 0 0 1) (lit "PRIVATE")
  && negb (GeoIpMatcher_matches load_db (v4 8 8 8 8) (lit "PRIVATE")).
Definition test_database_country_code_matches_us : bool :=
  GeoIpMatcher_matches load_db (v4 8 8 8 8) (lit "US").
Definition test_database_country_code_matches_cn : bool :=
  GeoIpMatcher_matches load_db (v4 223 5 5 5) (lit "CN").
Definition test_database_country_code_does_not_match_wrong_country : bool :=
  negb (GeoIpMatcher_matches load_db (v4 8 8 8 8) (lit "CN"))
  && negb (GeoIpMatcher_matches load_db (v4 8 8 8 8) (lit "DE")).
Definition test_database_country_code_case_insensitive : bool :=
  GeoIpMatcher_matches load_db (v4 8 8 8 8) (lit "us")
  && GeoIpMatcher_matches load_db (v4 8 8 8 8) (lit "Us")
  && GeoIpMatcher_matches load_db (v4 223 5 5 5) (lit "cn").
Definition test_database_unknown_code_returns_false : bool :=
  negb (GeoIpMatcher_matches load_db (v4 8 8 8 8) (lit "XX")).
Definition test_without_database_country_code_always_false : bool :=
  let matcher := GeoIpMatcher_without_database in
  negb (GeoIpMatcher_matches matcher (v4 8 8 8 8) (lit "US"))
  && negb (GeoIpMatcher_matches matcher (v4 1 1 1 1) (lit "CN"))
  && negb (GeoIpMatcher_matches matcher (v4 223 5 5 5) (lit "CN")).
Definition geoip_tests : list bool :=
  [test_is_private_ip; test_matches_private_without_database; test_matches_private_with_database;
   test_database_country_code_matches_us; test_database_country_code_matches_cn;
   test_database_country_code_does_not_match_wrong_country; test_database_country_code_case_insensitive;
   test_database_unknown_code_returns_false; test_without_database_country_code_always_false].
End geoip_tests.

(** ** [rules/domain_cache.rs] *)

Definition to_be_bytes (n : Z) : bytes := [n / 256 mod 256; n mod 256].
Definition octets (a : Ipv4Addr) : bytes := [oct0 a; oct1 a; oct2 a; oct3 a].

Definition udp_packet (payload : bytes) : bytes :=
  let udp_len := 8 + Z.of_nat (length payload) in
  let total_len := 20 + udp_len in
  [0x45; 0] ++ to_be_bytes total_len as_u16 ++ to_be_bytes 0 ++ to_be_bytes 0 ++ [64; 17] ++ to_be_bytes 0
  ++ octets (v4 8 8 8 8) ++ octets (v4 10 0 0 2)
  ++ to_be_bytes 53 ++ to_be_bytes 53000 ++ to_be_bytes udp_len as_u16 ++ to_be_bytes 0 ++ payload.

Section cache_tests.
Context `{DnsLib} (to_vec : DnsMessage -> bytes).

Definition test_message (domain : rstr) (addr : Ipv4Addr) (ttl : Z) : DnsMessage :=
  mkDnsMessage true [mkAnswer domain ttl (RData_A addr)].
Definition dns_response_packet (domain : rstr) (addr : Ipv4Addr) (ttl : Z) : bytes :=
  udp_packet (to_vec (test_message domain addr ttl)).

(** The lookup happens [elapsed] nanoseconds after the observation. *)
Definition caches_a_records_from_dns_response (now elapsed : Z) : bool :=
  let packet := dns_response_packet (lit "Example.COM.") (v4 1 2 3 4) 60 in
  let cache := observe_packet (λ _, now) DomainCache_new packet in
  bool_decide ((cache_lookup (now + elapsed) cache (v4 1 2 3 4)).2 = [lit "example.com"]).
Definition drops_expired_entries (now : Z) : bool :=
  let cache := cache_insert now DomainCache_new (v4 1 2 3 4) (lit "example.com") 1000000 in
  bool_decide ((cache_lookup (now + 5000000) cache (v4 1 2 3 4)).2 = []).
Definition cache_tests (now elapsed : Z) : list bool :=
  [caches_a_records_from_dns_response now elapsed; drops_expired_entries now].
End cache_tests.

(** ** [config.rs] *)

Definition geoip_text : rstr := lit "rules/geoip/GeoLite2-Country.mmdb".
Definition test_yaml : rstr :=
  [10] ++ lit "rules:" ++ [10] ++ lit "  - GEOIP,CN,direct" ++ [10] ++ lit "rule_sets:" ++ [10]
  ++ lit "  geoip_path: rules/geoip/GeoLite2-Country.mmdb" ++ [10].
(** [from_str] is [serde_yaml::from_str::<AppConfig>]. *)
Definition app_config_applies_rule_set_geoip_path (from_str : rstr -> result rstr AppConfig) : bool :=
  unwrap (from_str test_yaml) (λ config,
    bool_decide (geoip_path (app_rules (apply_rule_set_paths config)) = Some geoip_text)).

(** * Lemmas *)

Lemma udp_packet_payload p : dns_response_payload (udp_packet p) = Some p.
Proof.
  unfold dns_response_payload, udp_packet, to_be_bytes, octets. simpl.
  unfold plain_transport. simpl length. rewrite (proj2 (Z.leb_le 4 _)) by lia. done.
Qed.

Lemma engine_tests_pass `{GeoDb} yaml :
  (∀ l, l ∈ [engine_rules; domain_rules; private_rules; country_rules] → yaml (block_text l) = Ok l) →
  Forall (λ b, b = true) (engine_tests yaml).
Proof.
  intros Hy. unfold engine_tests, test_matches_first_matching_rule, test_uses_match_rule_as_catch_all,
    test_matches_port_rule, test_matches_domain_rule, test_matches_geoip_private_rule,
    test_geoip_country_without_database_falls_through, create_test_engine, engine_from,
    RulesConfig_from_yaml.
  rewrite !Hy by set_solver. repeat constructor; vm_compute; reflexivity.
Qed.

(** What the tests assume of the database. *)
Definition test_db `{GeoDb} : Prop :=
  ∃ rd us cn, open_readfile DB_PATH = Ok rd
    ∧ reader_lookup rd (V4 (v4 8 8 8 8)) = Ok us
    ∧ decode_country us = Ok (Some (mkCountry (Some (lit "US")) (Some (lit "US")) None))
    ∧ reader_lookup rd (V4 (v4 223 5 5 5)) = Ok cn
    ∧ decode_country cn = Ok (Some (mkCountry (Some (lit "CN")) (Some (lit "CN")) None)).

Lemma geoip_tests_pass `{GeoDb} : test_db → Forall (λ b, b = true) geoip_tests.
Proof.
  intros (rd & us & cn & Ho & Hus & Hdus & Hcn & Hdcn).
  assert (load_db = mkGeoIpMatcher (Some rd)) as Hdb.
  { unfold load_db, GeoIpMatcher_load. cbn [mbind option_bind].
    replace (is_empty (trim DB_PATH)) with false by (vm_compute; reflexivity). by rewrite Ho. }
  unfold geoip_tests, test_matches_private_with_database, test_database_country_code_matches_us,
    test_database_country_code_matches_cn, test_database_country_code_does_not_match_wrong_country,
    test_database_country_code_case_insensitive, test_database_unknown_code_returns_false,
    GeoIpMatcher_matches. rewrite Hdb. cbn [geo_reader]. rewrite Hus, Hcn, Hdus, Hdcn.
  repeat constructor; vm_compute; reflexivity.
Qed.

Lemma caches_a_records_pass `{DnsLib} to_vec now elapsed :
  let m := test_message (lit "Example.COM.") (v4 1 2 3 4) 60 in
  dns_from_vec (to_vec m) = Some m → 0 ≤ elapsed < secs 60 →
  caches_a_records_from_dns_response to_vec now elapsed = true.
Proof.
  intros m Hm He. unfold caches_a_records_from_dns_response, dns_response_packet, observe_packet.
  rewrite udp_packet_payload. fold m. rewrite Hm. cbn [dns_is_response test_message dns_answers m].
  apply bool_decide_eq_true_2. unfold observe_answers, cache_insert. cbn [ans_data ans_ttl ans_name].
  replace (secs 60 =? 0) with false by done.
  replace (normalize_domain (lit "Example.COM.")) with (Some (lit "example.com")) by (vm_compute; reflexivity).
  unfold cache_lookup. cbn [entries]. rewrite lookup_insert_eq.
  unfold DomainCache_new. cbn [entries]. rewrite lookup_empty. simpl. unfold live. simpl.
  by rewrite (proj2 (Z.ltb_lt _ _)) by lia.
Qed.

Lemma drops_expired_pass now : drops_expired_entries now = true.
Proof.
  apply bool_decide_eq_true_2. unfold cache_insert, cache_lookup.
  replace (1000000 =? 0) with false by done.
  replace (normalize_domain (lit "example.com")) with (Some (lit "example.com")) by (vm_compute; reflexivity).
  cbn [entries]. rewrite lookup_insert_eq. unfold DomainCache_new. cbn [entries].
  rewrite lookup_empty. simpl. unfold live. simpl. by rewrite (proj2 (Z.ltb_ge _ _)) by lia.
Qed.

(** The model passes the repository's own unit tests of the rules library, given
    a YAML reader that reads the tests' texts, a DNS library that decodes what it
    encoded, a database with the countries the tests name and less than 60 s
    between observation and lookup. *)
Lemma unit_tests_pass `{GeoDb, DnsLib} yaml to_vec now elapsed from_str config :
  (∀ l, l ∈ [engine_rules; domain_rules; private_rules; country_rules] → yaml (block_text l) = Ok l) →
  (let m := test_message (lit "Example.COM.") (v4 1 2 3 4) 60 in dns_from_vec (to_vec m) = Some m) →
  0 ≤ elapsed < secs 60 → test_db →
  from_str test_yaml = Ok config → rsc_geoip_path (app_rule_sets config) = Some geoip_text →
  Forall (λ b, b = true)
    (engine_tests yaml ++ matcher_tests ++ geoip_tests ++ cache_tests to_vec now elapsed
     ++ [app_config_applies_rule_set_geoip_path from_str]).
Proof.
  intros Hy Hd He Hdb Hf Hc. rewrite !Forall_app. split_and!.
  - by apply engine_tests_pass.
  - repeat constructor; vm_compute; reflexivity.
  - by apply geoip_tests_pass.
  - constructor; [by apply caches_a_records_pass|]. constructor; [apply drops_expired_pass|constructor].
  - constructor; [|constructor]. unfold app_config_applies_rule_set_geoip_path. rewrite Hf.
    by apply bool_decide_eq_true_2.
Qed.

(** ** The tests at concrete inputs *)

(** Reads the items of a block list, one per line. *)
Definition block_items (text : rstr) : result rstr (list rstr) :=
  Ok (omap (λ l, if starts_with (lit "  - ") l then Some (drop 4 l) else None) (str_split 10 text)).
(** Knows two addresses. *)
#[local] Instance two_countries : GeoDb := {|
  reader := unit; lookup_result := option Country;
  open_readfile p := if bool_decide (p = DB_PATH) then Ok tt else Err (lit "not found");
  reader_lookup _ ip :=
    Ok (if bool_decide (ip = V4 (v4 8 8 8 8)) then Some (mkCountry (Some (lit "US")) (Some (lit "US")) None)
        else if bool_decide (ip = V4 (v4 223 5 5 5)) then Some (mkCountry (Some (lit "CN")) (Some (lit "CN")) None)
        else None);
  decode_country o := Ok o
|}.
(** Decodes every payload as the message of the test. *)
#[local] Instance test_dns : DnsLib := λ _, Some (test_message (lit "Example.COM.") (v4 1 2 3 4) 60).

Definition sample_test_config : AppConfig :=
  mkAppConfig RuntimeConfig_default ClientConfig_default ServerConfig_default default_rules
    (mkRuleSetConfig (Some geoip_text)) TransparentProxyConfig_default.

Example unit_tests_pass_sample :
  Forall (λ b, b = true)
    (engine_tests block_items ++ matcher_tests ++ geoip_tests ++ cache_tests (λ _, [1]) 7 5
     ++ [app_config_applies_rule_set_geoip_path (λ _, Ok sample_test_config)]).
Proof.
  apply (unit_tests_pass _ _ _ _ _ sample_test_config).
  - intros l Hl. repeat (apply elem_of_cons in Hl as [->|Hl]);
      [vm_compute; reflexivity..|by apply elem_of_nil in Hl].
  - reflexivity.
  - unfold secs. lia.
  - exists tt. do 2 eexists. by split_and!; vm_compute.
  - reflexivity.
  - reflexivity.
Qed.
